(* ===== verification/_CoqProject ===== *)
-Q . S2P
Prelude.v
GoErrors.v
Dns.v
DnsRef.v
DnssecConst.v
DnssecFunctions.v
Doe.v
Denial.v
Signatures.v
AuthenticateRRset.v
Verify.v
Authenticator.v
Auth.v
Domain.v
Cache.v
Functions.v
Zones.v
Response.v
Nameserver.v
Pool.v
Zone.v
Session.v
ResolverState.v
World.v
RootHints.v
ZoneFactory.v
Cname.v
ResolverExchange.v
Resolver.v
ReplySound.v
ReplyId.v
Provenance.v
AuthChain.v
Budget.v
Interleave.v
Server.v
ResolverExample.v
ServerExample.v
FastPool.v
FastResolver.v
ConfigOptimized.v
Ipv6.v
Trace.v
Commands.v
