(* ===== verification/Prelude.v ===== *)
(** * A verification library for the recursive DNS resolver

    The program (src/, Go) answers DNS questions by walking from the root
    servers to the servers of the name's zone, validates the answers with
    DNSSEC, and keeps them in a cache behind a UDP server.

    ** Parts of the program and the files that model them

    - GoErrors: errors.go and dnssec/errors.go.  Error values are sentinels,
      wrapped errors with their formatted text, and MissingDSRecordError.
    - Dns: messages and records of the library github.com/miekg/dns, with the
      fields the program reads.  The library's functions are the operations of
      the class [DnsLib]; what the program relies on is the class [DnsLaws].
      DnsRef is an executable instance of both, on which examples and
      witnesses run; it models no code of the repository.
    - DnssecConst, DnssecFunctions: dnssec/const.go and dnssec/functions.go.
    - Doe: package dnssec/doe, denial of existence with NSEC (Module Nsec) and
      NSEC3 (Module Nsec3), and the canonical order of names.  Denial says what
      a record proves, apart from the code, and that the checks find it.
    - Signatures: dnssec/signatures.go, dnssec/config.go and the struct
      [signature] of dnssec/types.go.
    - AuthenticateRRset: dnssec/authenticate_rrset.go.
    - Verify: dnssec/verify.go with the five checks of dnssec/verify_*.go, and
      the structs Zone, result and verifier of dnssec/types.go.
    - Authenticator: dnssec/authenticator.go and dnssec/result.go, the chain of
      zones from the trust anchors to the answer.
    - Auth: auth.go, the goroutines and the queue in front of the chain, as a
      step relation: one constructor per thing a goroutine may do next.
    - Domain: domain.go, the walk along a name.
    - Cache: DNSCache of server.go.
    - Functions: functions.go.  Zones: zones.go, the store of known zones.
    - Response: response.go, and the settings of config.go as a class.
      ConfigOptimized: config_optimized.go.
    - Nameserver: nameserver.go, one server asked over UDP and then TCP.
    - Pool: pool.go and pool_exchange.go, the servers of a zone.
    - Zone: zone.go, a zone with its pool and its DNSKEY cache.
    - Session: the state monad the recursion is written in, with two program
      logics: [runs] (total, with the panics allowed) and [ensures].
    - ResolverState: what the functions of the recursion share: the context
      (ctx.go), the table of functions (resolver.go), the session of a
      question, and the interfaces behind which the rest of the world stands.
      [ZoneWorld] is the interface zone with the network, the pools and the
      clock, [AuthService] the validation, [Scheduler] the order of the
      goroutines; [ZoneWorldLaws] is what the world promises.
      [Interleaving] is what the other goroutines do to the shared state.
    - World: these interfaces implemented by the code's own zones and pools
      over an oracle for the wire and the clock, and the laws proved for it.
      RootHints: root.go, the hints a new resolver reads.
    - ZoneFactory, Cname, ResolverExchange: zone_factory.go, cname.go and
      resolver_exchange.go.  Resolver: resolver.go ties the table.
    - AuthChain: auth.go as the resolver's validation service.
    - Theorems about the whole recursion: ReplySound (the flags of a reply),
      ReplyId (its id), Provenance (its records), Budget (it ends, and keeps
      the state well formed, whatever well-behaved goroutines do at its
      accesses) and Interleave (the other goroutines are the code itself).
    - Server: server.go without its cache: queries, prefetch, DNSSEC hook, and
      the goroutines as a step relation.
    - FastPool, FastResolver, Ipv6, Trace: fast_pool.go, fast_resolver.go,
      ipv6.go, trace.go.
    - Commands: the servers that cmd/main.go and cmd/optimized_server_main.go
      run.
    - ResolverExample, ServerExample: executions on small networks.

    How they interact: Server keeps a session and runs [resolver_Exchange] on
    it; that walks the name (Domain) from the zones known (Zones), asks zones
    (Zone, Pool, Nameserver), makes new ones (ZoneFactory), follows aliases
    (Cname, which shares the server's Cache) and logs what the validation needs
    (AuthChain, then Authenticator down to Doe).

    The definitions keep the names of the Go functions.  A method that changes
    its receiver takes the receiver's state and returns the new one; a function
    that can panic returns an [outcome]; Go's (value, error) pairs are pairs
    with an [option error]; uint32 and uint64 counters are reduced modulo their
    width.  [time.Now] is an argument (a clock where a loop reads it many
    times) or a step of the session.  The order in which Go ranges over a map
    is the parameter [MapRange].  Package variables are the classes
    [DnssecConfig] and [ResolverConfig], so theorems hold for every setting.

    ** What the theorems show

    - End to end: [reply_flags_sound] (a reply with the AD flag is made of a
      zone's response under a Secure verdict on the log of its question, and of
      replies for its aliases backed alike: the predicate [backed]; a Bogus one
      is SERVFAIL), [AD_has_trust_chain] (with AuthChain as the service each of
      those verdicts rests on a chain of links, results of the responses in the
      log: [chained]), [cname_combines], [reply_records_genuine] (every record
      of a reply was sent by a server), [resolver_terminates] (every question
      ends within its budget, and the only panics left are named).
    - The server: [server_invariant] (over any order of its goroutines: each
      client is answered once, under its id), [worker_answers],
      [no_client_waits_for_ever] (over every fair run), [cached_reply],
      [dnssec_option_refuses],
      [prefetch_every_third], [prefetch_of_live_idle].
    - Questions that run at the same time: [interleaved_questions_end].  A
      panic of any of the goroutines ends the program, in the model too.
    - Soundness of validation: [sig_verified_iff] (one signature),
      [strict_policy_covers] and [Verify_spec] (one signature set and the two
      policies), [verify_secure_sound] (one response, with the denial its tag
      stands for: the predicate [shown]), [authenticator_sound] (the chain).
      [incremental_is_batch] and [verdict_order_independent]:
      the arrival order of responses does not matter.  [judge_spec]: when the
      verdict is Secure or Insecure.  [sig_ttl_bounds], [resultTTL_spec]: TTLs.
    - Concurrency: [wait_drains], [interleaving_irrelevant] and [wait_ends], over
      every interleaving of the goroutines of auth.go; [concurrentExchange_spec]
      over those of fast_pool.go; [ipv6_answers_settle] over those of ipv6.go.
    - Denial of existence: [nsec_nxdomain_sound], [nsec_full_chain_exact],
      [closest_encloser_spec], [canonicalCmp_total_order].
    - The cache: [shard_refines_lru] (refinement of an LRU list),
      [cache_capacity] (invariant, termination and bound over any history),
      [cache_get_sound], [cache_get_after_set], [cleanExpired_exact],
      [cache_ttl_spec], [getAllDomains_spec].
    - The walk and the zones: [walk_from_root], [windTo_spec], [gap_spec],
      [getZoneList_spec], [dnskeys_cache], [stored_zones_nested].
    - Asking servers: [exchange_total] and [nameserver_exchange_spec] (an answer
      or an error, never a panic), [getIPv4_round_robin],
      [pool_keeps_hostnames] and [pool_expiry] (how a pool is built and
      enriched), [root_pool_primed], [updateMetrics_spec],
      [ExchangeWithOptimization_spec], [selectBestServers_spec],
      [profiles_sound], [trace_spec].
    - Limits of the code, proved of it as it is: [misplaced_zone_crashes] and
      [missing_question_panics] (with [crafted_referral_crashes] and
      [missing_question_crashes], executions that meet them),
      [denial_of_another_question], [unverified_denial_accepted],
      [rrsig_over_rrsig],
      [optimized_server_crashes], [optimized_reply],
      [prefetch_changes_class], [second_reply_is_authenticated], [unsigned_dnskey_accepted],
      [unmatched_root_keys_insecure], [verifyDNSKEYs_panics],
      [AddResponse_in_range], [expanded_wildcard_panics],
      [nsec_denies_wildcard_name], [small_cache_loops],
      [negative_cache_is_write_only].

    ** Bounds and fuel

    Recursion follows the structure of the data but in four places.
    [ensureCapacity] (Cache) takes the number of iterations allowed and returns
    None when they do not end the loop: an iteration removes one entry, so the
    capacity of a shard is enough in every reachable cache of capacity 32 or
    more ([cache_capacity]), and no number is enough below ([small_cache_loops]).
    [wind_loop] (Domain) runs as many times as there are indexes left, after
    which [more] is false in the code too.  [exchange_loop] (ResolverExchange)
    has a turn more than the walk has labels, and [resolver_exchange] (Resolver)
    is the depth to which questions nest: [resolver_terminates] shows that a
    depth above the query budget is enough, so [OutOfFuel] is never a result.

    ** Orders of steps

    A session is what one goroutine sees of the shared state.  Before each of
    its accesses ([time_Now], [on_world], [store_add], through which the zone
    store, the cache and the zones are read and written) the other goroutines
    act, as the [Interleaving] in scope says; [alone] is the one where they do
    nothing.  Budget proves its theorems for every interleaving that keeps the
    shared state well formed; Interleave proves that the code's own activities
    (questions, prefetches, cache writes and clean-ups, each interleaved with
    others to any depth) are such.  Provenance, ReplyId and Server ask the like
    of the others, each for its invariant.

    In the server the workers take queries in the order of the queue and
    answer them in any order ([server_step]); the prefetch counters and the
    validator, which a goroutine changes in one call, are single steps.  An
    exchange of a zone with its pool is one step of the world.  The goroutines
    that one question starts are not interleaved: those of [cname] run one
    after the other, in the order of the [Scheduler]; the enriching goroutine
    runs to its first good answer and what is left of it is in [goroutines],
    run by [run_goroutine].  Reads of the DNSKEY cache ahead of time ([go
    z.dnskeys]) are logged there too.  The authentication chain gets its
    responses in the order of the events; Auth shows that the order does not
    matter.

    ** What is not modelled

    Sockets, timers, logging, flags and signals ([Start], [printStats], the
    loggers): pure I/O.  The demonstrations cmd/simple_demo.go and
    cmd/concurrent_demo.go, which print timings.  The cryptography and the
    wire format are the DNS library's.
    Cache operations are atomic steps: in the code [get] changes the shard
    under a read lock, so concurrent readers may race there, which the model
    does not show.  Deep copies of messages ([Msg.Copy]) are the values
    themselves.  The goroutine that updates a caller's own Cache after a zone's
    exchange is returned as a value and not run.

    What would come next: the goroutines of one question ([cname], the
    enrichment) as steps of their own; a shard of the cache under its read lock,
    with two readers; the lookups of the authenticator at the time the code
    makes them (here [chain_service] makes them when the verdict is asked for).
    *)

(** This file: the panic monad, Go's indexing and integers, instants, map
    iteration, and the lemmas and tactics the other files share. *)

From Stdlib Require Export Ascii.
From stdpp Require Export base tactics list strings gmap pretty numbers option sorting.

(** ** Panics

    A Go expression that indexes out of range or dereferences a nil pointer
    panics.  Code whose panics matter is written in the [outcome] monad; code
    with no partial operation is a plain function. *)

Inductive panic : Type :=
| IndexOutOfRange
| NilDereference
| DivideByZero
| Explicit (msg : string).

Inductive outcome (A : Type) : Type :=
| Ret (a : A)
| Panic (p : panic).
Arguments Ret {A} a.
Arguments Panic {A} p.

#[export] Instance outcome_ret : MRet outcome := fun A a => Ret a.
#[export] Instance outcome_bind : MBind outcome := fun A B f m =>
  match m with
  | Ret a => f a
  | Panic p => Panic p
  end.
#[export] Instance outcome_fmap : FMap outcome := fun A B f m =>
  match m with
  | Ret a => Ret (f a)
  | Panic p => Panic p
  end.

#[export] Instance panic_eq_dec : EqDecision panic.
Proof. solve_decision. Defined.

Definition is_panic {A} (m : outcome A) : bool :=
  match m with Ret _ => false | Panic _ => true end.

(** ** Indexing and slicing with Go's bounds rules *)

Section go_slices.
Context {A : Type}.

(** [xs[i]]: a negative or too large index panics. *)
Definition go_index (xs : list A) (i : Z) : outcome A :=
  if bool_decide (0 <= i)%Z then
    match xs !! Z.to_nat i with
    | Some x => Ret x
    | None => Panic IndexOutOfRange
    end
  else Panic IndexOutOfRange.
End go_slices.

(** The bytes of [s] from offset [n] on. *)
Fixpoint str_drop (n : nat) (s : string) : string :=
  match n, s with
  | O, _ => s
  | S n', String _ s' => str_drop n' s'
  | S _, EmptyString => EmptyString
  end.

(** [s[i:]]: panics unless [0 <= i <= len(s)]. *)
Definition go_slice_from (s : string) (i : Z) : outcome string :=
  if bool_decide (0 <= i <= Z.of_nat (String.length s))%Z
  then Ret (str_drop (Z.to_nat i) s)
  else Panic IndexOutOfRange.

(** ASCII lower case, and [strings.EqualFold] on ASCII text. *)
Definition lower_ascii (c : ascii) : ascii :=
  let n := Ascii.nat_of_ascii c in
  if bool_decide (65 <= n <= 90) then Ascii.ascii_of_nat (n + 32) else c.

Fixpoint lower (s : string) : string :=
  match s with
  | EmptyString => EmptyString
  | String c s' => String (lower_ascii c) (lower s')
  end.

Definition equal_fold (s t : string) : bool := bool_decide (lower s = lower t).

(** ** Machine integers: [uint32] arithmetic wraps. *)

Definition uint32 (z : Z) : Z := (z `mod` 2 ^ 32)%Z.
Definition uint64 (z : Z) : Z := (z `mod` 2 ^ 64)%Z.
(** [int64]: two's complement. *)
Definition int64 (z : Z) : Z := ((z + 2 ^ 63) `mod` 2 ^ 64 - 2 ^ 63)%Z.

Lemma uint32_small z : (0 <= z < 2 ^ 32)%Z -> uint32 z = z.
Proof. intros H. by apply Z.mod_small. Qed.
Lemma int64_small z : (- 2 ^ 63 <= z < 2 ^ 63)%Z -> int64 z = z.
Proof. intros H. unfold int64. rewrite Z.mod_small; lia. Qed.

(** ** Instants: [time.Time] as nanoseconds since the Unix epoch *)

Definition second : Z := 1000000000%Z.
(** [t.Unix()] *)
Definition unix (t : Z) : Z := (t `div` second)%Z.
(** [t.Add(time.Duration(s) * time.Second)] *)
Definition add_seconds (t s : Z) : Z := (t + s * second)%Z.

(** ** Iterating over a Go map

    The order of [for k, v := range m] is unspecified: it is some enumeration
    of the map's entries, a parameter of every definition that ranges over a
    map. *)

Class MapRange := {
  map_range : forall {K V : Type} `{Countable K}, gmap K V -> list (K * V);
  map_range_perm : forall {K V : Type} `{Countable K} (m : gmap K V),
    Permutation (map_range m) (map_to_list m)
}.

(** The enumeration of stdpp, one that the language allows. *)
Definition map_range_std : MapRange := {|
  map_range := fun K V _ _ m => map_to_list m;
  map_range_perm := fun K V _ _ m => Permutation_refl _
|}.

(** ** Automation *)

Create HintDb resolver discriminated.

Lemma ret_bind {A B} (f : A -> outcome B) a : (Ret a ≫= f) = f a.
Proof. reflexivity. Qed.

Lemma bind_ret_inv {A B} (m : outcome A) (f : A -> outcome B) b :
  (m ≫= f) = Ret b -> exists a, m = Ret a /\ f a = Ret b.
Proof. destruct m; naive_solver. Qed.

Lemma is_panic_bind {A B} (m : outcome A) (f : A -> outcome B) :
  is_panic m = false -> (forall a, m = Ret a -> is_panic (f a) = false) ->
  is_panic (m ≫= f) = false.
Proof. destruct m; [|done]. intros _ Hf. by apply Hf. Qed.

Lemma bind_assoc {A B C} (m : outcome A) (f : A -> outcome B) (g : B -> outcome C) :
  ((m ≫= f) ≫= g) = (m ≫= fun a => f a ≫= g).
Proof. by destruct m. Qed.

Lemma ret_inj {A} (a b : A) : Ret a = Ret b -> a = b.
Proof. by intros [=]. Qed.

(** Inverts every [x ← m; k = Ret b] hypothesis. *)
Ltac inv_bind :=
  repeat match goal with
  | H : (?m ≫= ?f) = Ret ?b |- _ =>
      let a := fresh "a" in let E := fresh "E" in
      apply bind_ret_inv in H as (a & E & H)
  | H : Ret _ = Ret _ |- _ => apply ret_inj in H
  | H : Panic _ = Ret _ |- _ => discriminate H
  | H : _ /\ _ |- _ => destruct H
  | H : (_, _) = (_, _) |- _ => apply pair_equal_spec in H as [? ?]
  end; subst.

(** Splits on the boolean tests the code performs. *)
Ltac case_tests :=
  repeat match goal with
  | H : context [if ?b then _ else _] |- _ => destruct b eqn:?; try discriminate
  | |- context [if ?b then _ else _] => destruct b eqn:?; try discriminate
  end.

Ltac bool_facts :=
  repeat match goal with
  | H : bool_decide _ = true |- _ => apply bool_decide_eq_true in H
  | H : bool_decide _ = false |- _ => apply bool_decide_eq_false in H
  | H : _ && _ = true |- _ => apply andb_true_iff in H as [? ?]
  | H : _ || _ = false |- _ => apply orb_false_iff in H as [? ?]
  | H : negb _ = true |- _ => apply negb_true_iff in H
  | H : negb _ = false |- _ => apply negb_false_iff in H
  end.

(** ** Lists *)

Lemma go_index_nat {A} (xs : list A) (i : nat) x :
  xs !! i = Some x -> go_index xs (Z.of_nat i) = Ret x.
Proof.
  intros H. unfold go_index. rewrite bool_decide_true by lia.
  by rewrite Nat2Z.id, H.
Qed.

Lemma go_index_panics {A} (xs : list A) (i : Z) :
  is_panic (go_index xs i) = false <-> (0 <= i < Z.of_nat (length xs))%Z.
Proof.
  unfold go_index. case_bool_decide as Hi; simpl.
  - destruct (xs !! Z.to_nat i) eqn:E; simpl.
    + apply lookup_lt_Some in E. split; [lia|done].
    + apply lookup_ge_None in E. split; [done|lia].
  - split; [done|lia].
Qed.

Lemma go_index_nat_inv {A} (xs : list A) (i : nat) x :
  go_index xs (Z.of_nat i) = Ret x -> xs !! i = Some x.
Proof.
  unfold go_index. rewrite bool_decide_true by lia. rewrite Nat2Z.id.
  destruct (xs !! i); [by intros [= ->]|done].
Qed.

Lemma go_index_0 {A} (xs : list A) x : go_index xs 0 = Ret x -> exists rest, xs = x :: rest.
Proof. unfold go_index. destruct xs as [|y xs]; simpl; [done|]. intros [= ->]. by exists xs. Qed.

Lemma filter_true {A} (P : A -> Prop) `{!forall x, Decision (P x)} (l : list A) :
  Forall P l -> filter P l = l.
Proof.
  induction 1 as [|x l Hx _ IH]; [done|].
  rewrite filter_cons. case_decide; [by rewrite IH|done].
Qed.

Lemma filter_ext_in {A} (P Q : A -> Prop) `{!forall x, Decision (P x), !forall x, Decision (Q x)}
    (l : list A) :
  (forall x, x ∈ l -> P x <-> Q x) -> filter P l = filter Q l.
Proof.
  induction l as [|x l IH]; intros Hpq; [done|]. rewrite !filter_cons.
  assert (Hx : P x <-> Q x) by (apply Hpq, elem_of_cons; by left).
  rewrite IH by (intros y Hy; apply Hpq, elem_of_cons; by right).
  repeat case_decide; tauto.
Qed.

Lemma list_elem_of_flat_map {A B} (f : A -> list B) l y :
  y ∈ flat_map f l <-> exists x, x ∈ l /\ y ∈ f x.
Proof.
  rewrite list_elem_of_In, in_flat_map. setoid_rewrite <- list_elem_of_In. done.
Qed.

Lemma exists_elem_cons {A} (P : A -> Prop) x l :
  (exists y, y ∈ x :: l /\ P y) <-> P x \/ exists y, y ∈ l /\ P y.
Proof. setoid_rewrite elem_of_cons. naive_solver. Qed.

Lemma exists_elem_nil {A} (P : A -> Prop) : (exists y, y ∈ @nil A /\ P y) <-> False.
Proof. split; [|done]. intros (y & Hy & _). by apply not_elem_of_nil in Hy. Qed.

Lemma exists_elem_snoc {A} (P : A -> Prop) x l :
  (exists y, y ∈ l ++ [x] /\ P y) <-> (exists y, y ∈ l /\ P y) \/ P x.
Proof. setoid_rewrite elem_of_app. setoid_rewrite list_elem_of_singleton. naive_solver. Qed.

(** ** Strings *)

Lemma str_drop_0 s : str_drop 0 s = s.
Proof. by destruct s. Qed.

Lemma str_drop_length n s : String.length (str_drop n s) = String.length s - n.
Proof.
  revert s; induction n as [|n IH]; intros [|c s]; simpl; try done; apply IH.
Qed.

Lemma str_drop_drop n m s : str_drop n (str_drop m s) = str_drop (m + n) s.
Proof.
  revert s; induction m as [|m IH]; intros s; simpl; [done|].
  destruct s as [|c s]; [by destruct n | apply IH].
Qed.

Lemma str_app_nil s : "" +:+ s = s.
Proof. reflexivity. Qed.

Lemma str_app_cons c s t : String c s +:+ t = String c (s +:+ t).
Proof. reflexivity. Qed.

Lemma str_drop_app n s : n = String.length s -> forall t, str_drop n (s +:+ t) = t.
Proof. intros ->. induction s as [|c s IH]; intros t; [done | apply IH]. Qed.

Lemma str_app_length s t : String.length (s +:+ t) = String.length s + String.length t.
Proof. induction s as [|c s IH]; [done|]. rewrite !str_app_cons. cbn. by rewrite IH. Qed.

Lemma str_app_assoc s t u : (s +:+ t) +:+ u = s +:+ (t +:+ u).
Proof. induction s as [|c s IH]; [done|]. rewrite !str_app_cons. cbn. by rewrite IH. Qed.

Lemma str_app_inj_l s t u : s +:+ t = s +:+ u -> t = u.
Proof. apply String.app_inj. Qed.

Lemma str_app_inj_len s t u v :
  String.length s = String.length u -> s +:+ t = u +:+ v -> s = u /\ t = v.
Proof.
  revert u; induction s as [|c s IH]; intros [|d u]; try done.
  rewrite !str_app_cons. intros [= Hl] [= -> He]. destruct (IH u Hl He) as [-> ->]. done.
Qed.

Lemma str_app_inj_r s t u : s +:+ u = t +:+ u -> s = t.
Proof.
  intros H. apply (str_app_inj_len s u t u); [|exact H].
  apply (f_equal String.length) in H. rewrite !str_app_length in H. lia.
Qed.

Lemma lower_ascii_idem c : lower_ascii (lower_ascii c) = lower_ascii c.
Proof. destruct c as [[] [] [] [] [] [] [] []]; vm_compute; reflexivity. Qed.

Lemma lower_idem s : lower (lower s) = lower s.
Proof. induction s as [|c s IH]; simpl; [done|]. by rewrite lower_ascii_idem, IH. Qed.

Lemma go_slice_from_ret s n :
  n <= String.length s -> go_slice_from s (Z.of_nat n) = Ret (str_drop n s).
Proof.
  intros H. unfold go_slice_from. rewrite bool_decide_true by lia. by rewrite Nat2Z.id.
Qed.

#[export] Hint Resolve str_drop_0 str_drop_drop : resolver.
#[export] Hint Rewrite @ret_bind str_drop_0 str_drop_length str_app_length : resolver.
