(* ===== verification/GoErrors.v ===== *)
(** * Errors

    The sentinel errors of [errors.go] and [dnssec/errors.go], and Go's error
    values: a sentinel ([errors.New] at package level), an error made at a call
    site, the value [fmt.Errorf] returns (its text, formatted at once, and the
    errors its [%w] verbs wrap), and [dnssec.MissingDSRecordError]. *)

From S2P Require Import Prelude.

Inductive sentinel : Type :=
(* errors.go *)
| ErrNotRecursionDesired | ErrNilMessageSentToExchange | ErrNoPoolConfiguredForZone
| ErrFailedToGetDNSKEYs | ErrFailedCreatingZoneAndPool | ErrFailedEnrichingPool
| ErrUnableToResolveAnswer | ErrNextNameserversNotFound | ErrEmptyResponse
| ErrInternalError | ErrMaxQueriesPerRequestReached
(* dnssec/errors.go *)
| ErrNoParentDSRecords | ErrUnableToFetchDSRecord | ErrKeysNotFound
| ErrKeySigningKeysNotFound | ErrAuthSignerNameMismatch | ErrSignatureSetEmpty
| ErrUnableToVerify | ErrVerifyFailed | ErrNoKeyFoundForSignature | ErrInvalidTime
| ErrInvalidSignature | ErrInvalidLabelCount | ErrMultipleVaryingSignerNames
| ErrNSRecordsHaveMismatchingOwners | ErrFailsafeResponse
| ErrUnexpectedSignatureCount | ErrMultipleWildcardSignatures | ErrDSLookupLoop
| ErrNotSubdomain | ErrSameName | ErrUnknown | ErrSignerNameNotParentOfQName
| ErrNoResults | ErrBogusResultFound | ErrBogusDoeRecordsNotFound
| ErrBogusWildcardDoeNotFound | ErrNotAllInputsProcessed | ErrDuplicateInputForZone.

#[export] Instance sentinel_eq_dec : EqDecision sentinel.
Proof. solve_decision. Defined.

(** The text given to [errors.New] in errors.go. *)
Definition resolver_sentinel_text (s : sentinel) : option string :=
  match s with
  | ErrNotRecursionDesired => Some "only recursive queries are supported via this server"
  | ErrNilMessageSentToExchange => Some "nil message sent to exchange"
  | ErrNoPoolConfiguredForZone => Some "no nameserver pool configured for zone"
  | ErrFailedToGetDNSKEYs => Some "failed looking up DNSKEY records"
  | ErrFailedCreatingZoneAndPool => Some "failed creating nameserver pool for zone"
  | ErrFailedEnrichingPool => Some "failed enriching nameserver pool for zone"
  | ErrUnableToResolveAnswer => Some "failed resolving answer"
  | ErrNextNameserversNotFound => Some "the onward nameservers cannot be found"
  | ErrEmptyResponse => Some "the received response is empty"
  | ErrInternalError => Some "internal error"
  | ErrMaxQueriesPerRequestReached => Some "max queries per request reached"
  | _ => None
  end.

(** The text given to [errors.New] in dnssec/errors.go. *)
Definition dnssec_sentinel_text (s : sentinel) : option string :=
  match s with
  | ErrNoParentDSRecords => Some "no DS records passed"
  | ErrUnableToFetchDSRecord => Some "unable to fetch missing DS record"
  | ErrKeysNotFound => Some "no dnskey records found for zone"
  | ErrKeySigningKeysNotFound => Some "no dnskey records found that match the parent ds records"
  | ErrAuthSignerNameMismatch => Some "auth signer name does match the zone's origin"
  | ErrSignatureSetEmpty => Some "cannot verify an empty signature set"
  | ErrUnableToVerify => Some "unable to verify signature"
  | ErrVerifyFailed => Some "signature verification failed"
  | ErrNoKeyFoundForSignature => Some "no key found for signature"
  | ErrInvalidTime => Some "current time is outside of the msg validity period"
  | ErrInvalidSignature => Some "msg signature is invalid"
  | ErrInvalidLabelCount => Some "number of labels in the rrset owner name is less the value in the rrsig rr's labels field"
  | ErrMultipleVaryingSignerNames => Some "rrsigs in the response contain multiple varying signer names"
  | ErrNSRecordsHaveMismatchingOwners => Some "the ns records in the authority section do not have matching owners"
  | ErrFailsafeResponse => Some "unable to determine if response is delegating, positive or negative. we fail-safe to bogus"
  | ErrUnexpectedSignatureCount => Some "an unexpected number of rrsig records were found given the rrsets seen"
  | ErrMultipleWildcardSignatures => Some "multiple wildcard signatures seen"
  | ErrDSLookupLoop => Some "the maximum number of ds record lookups has been reached"
  | ErrNotSubdomain => Some "domain is not a subdomain of another"
  | ErrSameName => Some "domain names are the same"
  | ErrUnknown => Some "unknown error: unable to process response"
  | ErrSignerNameNotParentOfQName => Some "the signer name is not a parent of the qname"
  | ErrNoResults => Some "no results have been processed"
  | ErrBogusResultFound => Some "we've deemed the result bogus"
  | ErrBogusDoeRecordsNotFound => Some "denial of existence records missing"
  | ErrBogusWildcardDoeNotFound => Some "missing doe for qname when answer synthesised from a wildcard"
  | ErrNotAllInputsProcessed => Some "not all inputs have been processed"
  | ErrDuplicateInputForZone => Some "duplicate input for zone"
  | _ => None
  end.

Definition sentinel_text (s : sentinel) : string :=
  match resolver_sentinel_text s with
  | Some t => t
  | None => default "" (dnssec_sentinel_text s)
  end.

Inductive error : Type :=
| ESentinel (s : sentinel)
| ENew (text : string)
| EWrap (wrapped : list error) (text : string)
| MissingDSRecordError (name : string).

(** [MissingDSRecordError.RName] *)
Definition RName (e : error) : option string :=
  match e with MissingDSRecordError n => Some n | _ => None end.

(** [err.Error()], [MissingDSRecordError.Error] included. *)
Definition Error (e : error) : string :=
  match e with
  | ESentinel s => sentinel_text s
  | ENew t => t
  | EWrap _ t => t
  | MissingDSRecordError n => "missing DS record: " +:+ n
  end.

(** [errors.Is(err, s)] for a sentinel: the wrap tree is searched. *)
Fixpoint errors_Is (e : error) (s : sentinel) : bool :=
  match e with
  | ESentinel s' => bool_decide (s' = s)
  | EWrap es _ =>
      (fix go (l : list error) : bool :=
         match l with
         | [] => false
         | e' :: l' => errors_Is e' s || go l'
         end) es
  | _ => false
  end.

(** [fmt.Errorf("%w<text>", s, ...)]: one wrapped sentinel, then text. *)
Definition errorf_s (s : sentinel) (text : string) : error :=
  EWrap [ESentinel s] (sentinel_text s +:+ text).

(** [fmt.Errorf("%w<sep>%w<after>", e1, e2)] *)
Definition errorf_ww (e1 : error) (sep : string) (e2 : error) (after : string) : error :=
  EWrap [e1; e2] (Error e1 +:+ sep +:+ Error e2 +:+ after).

Lemma errors_Is_wrap es t s :
  errors_Is (EWrap es t) s = existsb (fun e => errors_Is e s) es.
Proof. simpl. induction es as [|e es IH]; simpl; [done|]. by rewrite <- IH. Qed.

Lemma errors_Is_errorf_s s t s' :
  errors_Is (errorf_s s t) s' = bool_decide (s = s').
Proof. unfold errorf_s. rewrite errors_Is_wrap. simpl. by rewrite orb_false_r. Qed.

Lemma errors_Is_errorf_ww e1 sep e2 t s :
  errors_Is (errorf_ww e1 sep e2 t) s = errors_Is e1 s || errors_Is e2 s.
Proof. unfold errorf_ww. rewrite errors_Is_wrap. simpl. by rewrite orb_false_r. Qed.

(** Every sentinel belongs to exactly one of the two files, and has a text. *)
Lemma sentinel_text_nonempty s : sentinel_text s <> "".
Proof. by destruct s. Qed.

#[export] Hint Rewrite errors_Is_errorf_s errors_Is_errorf_ww : resolver.
