(* ===== verification/Dns.v ===== *)
(** * DNS messages and the DNS library

    The record types of github.com/miekg/dns with the fields the resolver
    reads, and the library's functions as the operations of the class
    [DnsLib].  The library is not part of the repository: its functions are
    parameters, and what the resolver relies on is stated in [DnsLaws], one
    documented fact per field. *)

From S2P Require Import Prelude GoErrors.

(** ** Record types *)

Definition TypeA := 1%Z.
Definition TypeNS := 2%Z.
Definition TypeCNAME := 5%Z.
Definition TypeSOA := 6%Z.
Definition TypeAAAA := 28%Z.
Definition TypeDNAME := 39%Z.
Definition TypeOPT := 41%Z.
Definition TypeDS := 43%Z.
Definition TypeRRSIG := 46%Z.
Definition TypeNSEC := 47%Z.
Definition TypeDNSKEY := 48%Z.
Definition TypeNSEC3 := 50%Z.
Definition ClassINET := 1%Z.

Definition SHA1 := 1%Z.
Definition SHA256 := 2%Z.

Definition RcodeSuccess := 0%Z.
Definition RcodeServerFailure := 2%Z.
Definition RcodeNameError := 3%Z.

(** ** Resource records: one Go struct type per constructor *)

Record RR_Header := mkHdr {
  Name : string;
  Rrtype : Z;
  Class_ : Z;
  Ttl : Z
}.

Record A := mkA { A_Hdr : RR_Header; A_A : string }.
Record AAAA := mkAAAA { AAAA_Hdr : RR_Header; AAAA_AAAA : string }.
Record NS := mkNS { NS_Hdr : RR_Header; NS_Ns : string }.
Record CNAME := mkCNAME { CNAME_Hdr : RR_Header; Target : string }.
Record SOA := mkSOA { SOA_Hdr : RR_Header; SOA_rdata : string }.
Record DS := mkDS {
  DS_Hdr : RR_Header; DS_KeyTag : Z; DS_Algorithm : Z; DigestType : Z; Digest : string
}.
Record DNSKEY := mkDNSKEY {
  DNSKEY_Hdr : RR_Header; DNSKEY_Flags : Z; Protocol : Z; DNSKEY_Algorithm : Z;
  PublicKey : string
}.
Record RRSIG := mkRRSIG {
  RRSIG_Hdr : RR_Header; TypeCovered : Z; RRSIG_Algorithm : Z; Labels : Z; OrigTtl : Z;
  Expiration : Z; Inception : Z; RRSIG_KeyTag : Z; SignerName : string; Signature : string
}.
Record NSEC := mkNSEC {
  NSEC_Hdr : RR_Header; NSEC_NextDomain : string; NSEC_TypeBitMap : list Z
}.
Record NSEC3 := mkNSEC3 {
  NSEC3_Hdr : RR_Header; Hash : Z; NSEC3_Flags : Z; Iterations : Z; Salt : string;
  NSEC3_NextDomain : string; NSEC3_TypeBitMap : list Z
}.
Record OPT := mkOPT { OPT_Hdr : RR_Header }.
(** Any other record type; its data is never read. *)
Record OtherRR := mkOther { Other_Hdr : RR_Header; Other_rdata : string }.

Inductive RR : Type :=
| RR_A (r : A) | RR_AAAA (r : AAAA) | RR_NS (r : NS) | RR_CNAME (r : CNAME)
| RR_SOA (r : SOA) | RR_DS (r : DS) | RR_DNSKEY (r : DNSKEY) | RR_RRSIG (r : RRSIG)
| RR_NSEC (r : NSEC) | RR_NSEC3 (r : NSEC3) | RR_OPT (r : OPT) | RR_Other (r : OtherRR).

#[export] Instance RR_Header_eq_dec : EqDecision RR_Header.
Proof. solve_decision. Defined.
#[export] Instance A_eq_dec : EqDecision A. Proof. solve_decision. Defined.
#[export] Instance AAAA_eq_dec : EqDecision AAAA. Proof. solve_decision. Defined.
#[export] Instance NS_eq_dec : EqDecision NS. Proof. solve_decision. Defined.
#[export] Instance CNAME_eq_dec : EqDecision CNAME. Proof. solve_decision. Defined.
#[export] Instance SOA_eq_dec : EqDecision SOA. Proof. solve_decision. Defined.
#[export] Instance DS_eq_dec : EqDecision DS. Proof. solve_decision. Defined.
#[export] Instance DNSKEY_eq_dec : EqDecision DNSKEY. Proof. solve_decision. Defined.
#[export] Instance RRSIG_eq_dec : EqDecision RRSIG. Proof. solve_decision. Defined.
#[export] Instance NSEC_eq_dec : EqDecision NSEC. Proof. solve_decision. Defined.
#[export] Instance NSEC3_eq_dec : EqDecision NSEC3. Proof. solve_decision. Defined.
#[export] Instance OPT_eq_dec : EqDecision OPT. Proof. solve_decision. Defined.
#[export] Instance OtherRR_eq_dec : EqDecision OtherRR. Proof. solve_decision. Defined.
#[export] Instance RR_eq_dec : EqDecision RR. Proof. solve_decision. Defined.

(** [rr.Header()] *)
Definition Header (rr : RR) : RR_Header :=
  match rr with
  | RR_A r => A_Hdr r | RR_AAAA r => AAAA_Hdr r | RR_NS r => NS_Hdr r
  | RR_CNAME r => CNAME_Hdr r | RR_SOA r => SOA_Hdr r | RR_DS r => DS_Hdr r
  | RR_DNSKEY r => DNSKEY_Hdr r | RR_RRSIG r => RRSIG_Hdr r | RR_NSEC r => NSEC_Hdr r
  | RR_NSEC3 r => NSEC3_Hdr r | RR_OPT r => OPT_Hdr r | RR_Other r => Other_Hdr r
  end.

(** [rr.(T)]: the dynamic type test, for each struct type the code asks for.
    It looks at the Go type and not at [Header().Rrtype]. *)
Class RRType (T : Type) := rr_as : RR -> option T.
#[export] Instance A_type : RRType A := fun rr => match rr with RR_A r => Some r | _ => None end.
#[export] Instance AAAA_type : RRType AAAA := fun rr => match rr with RR_AAAA r => Some r | _ => None end.
#[export] Instance NS_type : RRType NS := fun rr => match rr with RR_NS r => Some r | _ => None end.
#[export] Instance CNAME_type : RRType CNAME := fun rr => match rr with RR_CNAME r => Some r | _ => None end.
#[export] Instance SOA_type : RRType SOA := fun rr => match rr with RR_SOA r => Some r | _ => None end.
#[export] Instance DS_type : RRType DS := fun rr => match rr with RR_DS r => Some r | _ => None end.
#[export] Instance DNSKEY_type : RRType DNSKEY := fun rr => match rr with RR_DNSKEY r => Some r | _ => None end.
#[export] Instance RRSIG_type : RRType RRSIG := fun rr => match rr with RR_RRSIG r => Some r | _ => None end.
#[export] Instance NSEC_type : RRType NSEC := fun rr => match rr with RR_NSEC r => Some r | _ => None end.
#[export] Instance NSEC3_type : RRType NSEC3 := fun rr => match rr with RR_NSEC3 r => Some r | _ => None end.
#[export] Instance OPT_type : RRType OPT := fun rr => match rr with RR_OPT r => Some r | _ => None end.

(** ** Messages *)

Record Question_ := mkQ { Q_Name : string; Qtype : Z; Qclass : Z }.
#[export] Instance Question_eq_dec : EqDecision Question_. Proof. solve_decision. Defined.

Record Msg := mkMsg {
  Id : Z;
  Response_ : bool;
  Authoritative : bool;
  Truncated : bool;
  RecursionDesired : bool;
  RecursionAvailable : bool;
  AuthenticatedData : bool;
  CheckingDisabled : bool;
  Rcode : Z;
  Question : list Question_;
  Answer : list RR;
  Ns : list RR;
  Extra : list RR
}.
#[export] Instance Msg_eq_dec : EqDecision Msg. Proof. solve_decision. Defined.

(** [new(dns.Msg)] *)
Definition new_Msg : Msg :=
  mkMsg 0 false false false false false false false 0 [] [] [] [].

(** Field assignments [m.F = v]. *)
Definition set_Id (v : Z) (m : Msg) : Msg :=
  mkMsg v (Response_ m) (Authoritative m) (Truncated m) (RecursionDesired m)
    (RecursionAvailable m) (AuthenticatedData m) (CheckingDisabled m) (Rcode m)
    (Question m) (Answer m) (Ns m) (Extra m).
Definition set_Authoritative (v : bool) (m : Msg) : Msg :=
  mkMsg (Id m) (Response_ m) v (Truncated m) (RecursionDesired m)
    (RecursionAvailable m) (AuthenticatedData m) (CheckingDisabled m) (Rcode m)
    (Question m) (Answer m) (Ns m) (Extra m).
Definition set_RecursionDesired (v : bool) (m : Msg) : Msg :=
  mkMsg (Id m) (Response_ m) (Authoritative m) (Truncated m) v
    (RecursionAvailable m) (AuthenticatedData m) (CheckingDisabled m) (Rcode m)
    (Question m) (Answer m) (Ns m) (Extra m).
Definition set_RecursionAvailable (v : bool) (m : Msg) : Msg :=
  mkMsg (Id m) (Response_ m) (Authoritative m) (Truncated m) (RecursionDesired m)
    v (AuthenticatedData m) (CheckingDisabled m) (Rcode m)
    (Question m) (Answer m) (Ns m) (Extra m).
Definition set_AuthenticatedData (v : bool) (m : Msg) : Msg :=
  mkMsg (Id m) (Response_ m) (Authoritative m) (Truncated m) (RecursionDesired m)
    (RecursionAvailable m) v (CheckingDisabled m) (Rcode m)
    (Question m) (Answer m) (Ns m) (Extra m).
Definition set_Rcode (v : Z) (m : Msg) : Msg :=
  mkMsg (Id m) (Response_ m) (Authoritative m) (Truncated m) (RecursionDesired m)
    (RecursionAvailable m) (AuthenticatedData m) (CheckingDisabled m) v
    (Question m) (Answer m) (Ns m) (Extra m).
Definition set_Answer (v : list RR) (m : Msg) : Msg :=
  mkMsg (Id m) (Response_ m) (Authoritative m) (Truncated m) (RecursionDesired m)
    (RecursionAvailable m) (AuthenticatedData m) (CheckingDisabled m) (Rcode m)
    (Question m) v (Ns m) (Extra m).
Definition set_Ns (v : list RR) (m : Msg) : Msg :=
  mkMsg (Id m) (Response_ m) (Authoritative m) (Truncated m) (RecursionDesired m)
    (RecursionAvailable m) (AuthenticatedData m) (CheckingDisabled m) (Rcode m)
    (Question m) (Answer m) v (Extra m).
Definition set_Extra (v : list RR) (m : Msg) : Msg :=
  mkMsg (Id m) (Response_ m) (Authoritative m) (Truncated m) (RecursionDesired m)
    (RecursionAvailable m) (AuthenticatedData m) (CheckingDisabled m) (Rcode m)
    (Question m) (Answer m) (Ns m) v.

(** ** The library *)

Class DnsLib := {
  dns_CanonicalName : string -> string;
  dns_Fqdn : string -> string;
  (** the offset at which each label of the name starts *)
  dns_Split : string -> list nat;
  dns_SplitDomainName : string -> list string;
  dns_CountLabel : string -> nat;
  (** [IsSubDomain parent child] *)
  dns_IsSubDomain : string -> string -> bool;
  (** [dns.Dedup(rrs, m)] with an empty scratch map *)
  dns_Dedup : list RR -> list RR;
  dns_KeyTag : DNSKEY -> Z;
  (** [key.ToDS(digestType)], nil for an unknown digest *)
  dns_ToDS : DNSKEY -> Z -> option DS;
  (** [rrsig.Verify(key, rrset)], nil when the signature is valid *)
  dns_Verify : RRSIG -> DNSKEY -> list RR -> option error;
  (** [rrsig.ValidityPeriod(t)] *)
  dns_ValidityPeriod : RRSIG -> Z -> bool;
  dns_TimeToString : Z -> string;
  dns_NSEC3_Match : NSEC3 -> string -> bool;
  dns_NSEC3_Cover : NSEC3 -> string -> bool;
  (** [opt.Do()] *)
  dns_OPT_Do : OPT -> bool;
  (** [new(dns.Msg).SetRcode(request, rcode)]: a reply to the request *)
  dns_SetRcode : Msg -> Z -> Msg
}.

(** The suffixes of a name that are ancestors of it, longest first, the root
    last: [name[i:]] for [i] in [append(dns.Split(name), len(name)-1)]. *)
Definition ancestors `{DnsLib} (n : string) : list string :=
  map (fun i => str_drop i n) (dns_Split n ++ [String.length n - 1]).

(** A name in canonical form. *)
Definition canonical `{DnsLib} (n : string) : Prop := dns_CanonicalName n = n.

(** What the library documents and the resolver relies on. *)
Class DnsLaws (L : DnsLib) : Prop := {
  (** [CanonicalName] is lowercase and fully qualified: a fixed point of
      itself, ending with the root's dot. *)
  canonical_idem n : dns_CanonicalName (dns_CanonicalName n) = dns_CanonicalName n;
  canonical_dot n : exists s, dns_CanonicalName n = s +:+ ".";
  (** The offsets [Split] returns increase and lie before the last dot. *)
  split_sorted n : StronglySorted lt (dns_Split n);
  split_bound n i : canonical n -> i ∈ dns_Split n -> i < String.length n - 1;
  (** [CountLabel] counts the labels that [Split] finds. *)
  countlabel_split n : dns_CountLabel n = length (dns_Split n);
  (** A canonical name's suffix at a label is canonical, and the labels of the
      suffix are the name's remaining labels. *)
  suffix_canonical n s : canonical n -> s ∈ ancestors n -> canonical s;
  suffix_count n i k : canonical n ->
    (dns_Split n ++ [String.length n - 1]) !! i = Some k ->
    dns_CountLabel (str_drop k n) + i = dns_CountLabel n;
  (** [IsSubDomain] decides ancestry of canonical names. *)
  subdomain_ancestor p c : canonical p -> canonical c ->
    dns_IsSubDomain p c = true <-> p ∈ ancestors c;
  (** [IsSubDomain] asks that all the labels of the first name be shared. *)
  subdomain_count p c : canonical c -> dns_IsSubDomain p c = true ->
    dns_CountLabel p <= dns_CountLabel c;
  (** A signature over no records is not valid. *)
  verify_rrset_nonempty s k : dns_Verify s k [] <> None;
  (** SHA-256 is a supported digest. *)
  tods_sha256 k : dns_ToDS k SHA256 <> None
}.

#[export] Hint Resolve canonical_idem : resolver.
