(* ===== verification/DnsRef.v ===== *)
(** * A reference instance of the DNS library

    An executable instance of [DnsLib] that satisfies [DnsLaws], on which the
    witnesses evaluate.  Names are plain label sequences with no escapes; the
    cryptographic operations are transparent stand-ins (a signature is the text
    [<key>:<owner>:<type>], a digest is the key's text, a hash is the identity).
    It models no code of the repository. *)

From S2P Require Import Prelude GoErrors Dns.

Fixpoint ends_dot (s : string) : bool :=
  match s with
  | EmptyString => false
  | String c EmptyString => bool_decide (c = "."%char)
  | String _ s' => ends_dot s'
  end.

Definition ref_Fqdn (s : string) : string := if ends_dot s then s else s +:+ ".".
Definition ref_CanonicalName (s : string) : string := lower (ref_Fqdn s).

(** Offsets that follow a dot, the final dot apart. *)
Fixpoint starts (off : nat) (s : string) : list nat :=
  match s with
  | String c ((String _ (String _ _)) as s') =>
      if bool_decide (c = "."%char) then S off :: starts (S off) s' else starts (S off) s'
  | _ => []
  end.

Definition ref_Split (s : string) : list nat :=
  if bool_decide (s = "" \/ s = ".") then [] else 0 :: starts 0 s.

Definition ref_ancestors (n : string) : list string :=
  map (fun i => str_drop i n) (ref_Split n ++ [String.length n - 1]).

Definition ref_IsSubDomain (p c : string) : bool :=
  bool_decide (ref_CanonicalName p ∈ ref_ancestors (ref_CanonicalName c)).

(** The text of the first label. *)
Fixpoint label_of (s : string) : string :=
  match s with
  | EmptyString => EmptyString
  | String c s' => if bool_decide (c = "."%char) then EmptyString else String c (label_of s')
  end.

Definition ref_SplitDomainName (s : string) : list string :=
  map (fun i => label_of (str_drop i s)) (ref_Split s).

Fixpoint ref_Dedup (l : list RR) : list RR :=
  match l with
  | [] => []
  | x :: l' => x :: filter (fun y => y <> x) (ref_Dedup l')
  end.

Definition ref_KeyTag (k : DNSKEY) : Z := Z.of_nat (String.length (PublicKey k)).

Definition ref_ToDS (k : DNSKEY) (h : Z) : option DS :=
  if bool_decide (h = SHA256)
  then Some (mkDS (DNSKEY_Hdr k) (ref_KeyTag k) (DNSKEY_Algorithm k) h (PublicKey k))
  else None.

Definition ref_sign (k : DNSKEY) (owner : string) (t : Z) : string :=
  PublicKey k +:+ ":" +:+ owner +:+ ":" +:+ pretty t.

Definition ref_Verify (s : RRSIG) (k : DNSKEY) (rrset : list RR) : option error :=
  match rrset with
  | [] => Some (ENew "dns: bad rrset")
  | rr :: _ =>
      if bool_decide (Signature s = ref_sign k (Name (Header rr)) (Rrtype (Header rr)))
      then None else Some (ENew "dns: bad signature")
  end.

Definition ref_ValidityPeriod (s : RRSIG) (t : Z) : bool :=
  bool_decide (Inception s <= unix t <= Expiration s)%Z.

Definition ref_Match (n : NSEC3) (name : string) : bool :=
  bool_decide (Name (NSEC3_Hdr n) = ref_CanonicalName name).

Definition ref_Cover (n : NSEC3) (name : string) : bool :=
  let h := ref_CanonicalName name in
  let owner := Name (NSEC3_Hdr n) in
  if String.ltb owner (NSEC3_NextDomain n)
  then String.ltb owner h && String.ltb h (NSEC3_NextDomain n)
  else String.ltb owner h || String.ltb h (NSEC3_NextDomain n).

Definition refLib : DnsLib := {|
  dns_CanonicalName := ref_CanonicalName;
  dns_Fqdn := ref_Fqdn;
  dns_Split := ref_Split;
  dns_SplitDomainName := ref_SplitDomainName;
  dns_CountLabel := fun n => length (ref_Split n);
  dns_IsSubDomain := ref_IsSubDomain;
  dns_Dedup := ref_Dedup;
  dns_KeyTag := ref_KeyTag;
  dns_ToDS := ref_ToDS;
  dns_Verify := ref_Verify;
  dns_ValidityPeriod := ref_ValidityPeriod;
  dns_TimeToString := fun t => pretty t;
  dns_NSEC3_Match := ref_Match;
  dns_NSEC3_Cover := ref_Cover;
  dns_OPT_Do := fun o => Z.testbit (Ttl (OPT_Hdr o)) 15;
  dns_SetRcode := fun m rcode =>
    mkMsg (Id m) true false false (RecursionDesired m) false false (CheckingDisabled m) rcode
      (take 1 (Question m)) [] [] []
|}.

Example ref_split_ex : ref_Split "www.miek.nl." = [0; 4; 9].
Proof. vm_compute. reflexivity. Qed.
Example ref_sub_ex : ref_IsSubDomain "Nl." "www.miek.nl" = true.
Proof. vm_compute. reflexivity. Qed.
Example ref_split_name_ex : ref_SplitDomainName "www.miek.nl." = ["www"; "miek"; "nl"].
Proof. vm_compute. reflexivity. Qed.

(** ** The laws *)

Lemma lower_dot c : lower_ascii c = "."%char <-> c = "."%char.
Proof.
  split; [|by intros ->].
  destruct c as [[] [] [] [] [] [] [] []]; intros H; vm_compute in H; congruence.
Qed.

Lemma ends_dot_cons c s : s <> "" -> ends_dot (String c s) = ends_dot s.
Proof. by destruct s. Qed.

Lemma ends_dot_lower s : ends_dot (lower s) = ends_dot s.
Proof.
  induction s as [|c s IH]; [done|]. destruct s as [|d s].
  - simpl. apply bool_decide_ext. apply lower_dot.
  - cbn [lower] in *. rewrite (ends_dot_cons c), (ends_dot_cons (lower_ascii c)) by discriminate. apply IH.
Qed.

Lemma ends_dot_app s : ends_dot (s +:+ ".") = true.
Proof.
  induction s as [|c s IH]; [done|].
  rewrite str_app_cons, ends_dot_cons; [done|]. by destruct s.
Qed.

Lemma ends_dot_split s : ends_dot s = true -> exists t, s = t +:+ ".".
Proof.
  induction s as [|c s IH]; [done|]. destruct s as [|d s]; intros H.
  - simpl in H. bool_facts. subst. by exists "".
  - destruct IH as [t Ht]; [by rewrite ends_dot_cons in H|].
    exists (String c t). by rewrite str_app_cons, Ht.
Qed.

Lemma ref_canonical_ends n : ends_dot (ref_CanonicalName n) = true.
Proof.
  unfold ref_CanonicalName, ref_Fqdn. rewrite ends_dot_lower.
  case_tests; [done | apply ends_dot_app].
Qed.

Lemma ref_canonical_iff n :
  ref_CanonicalName n = n <-> lower n = n /\ ends_dot n = true.
Proof.
  split.
  - intros H. assert (Hd : ends_dot n = true) by (rewrite <- H; apply ref_canonical_ends).
    split; [|done]. unfold ref_CanonicalName, ref_Fqdn in H. by rewrite Hd in H.
  - intros [Hl Hd]. unfold ref_CanonicalName, ref_Fqdn. by rewrite Hd.
Qed.

Lemma ends_dot_length n : ends_dot n = true -> 1 <= String.length n.
Proof. destruct n; [done|]. simpl. lia. Qed.

Lemma starts_cons3 off c d e s :
  starts off (String c (String d (String e s))) =
  if bool_decide (c = "."%char)
  then S off :: starts (S off) (String d (String e s))
  else starts (S off) (String d (String e s)).
Proof. reflexivity. Qed.

Lemma starts_gt off s : Forall (lt off) (starts off s).
Proof.
  revert off; induction s as [|c s IH]; intros off; [constructor|].
  destruct s as [|d [|e s]]; [constructor..|].
  assert (Hi : Forall (lt off) (starts (S off) (String d (String e s)))).
  { eapply Forall_impl; [apply IH|]. simpl. lia. }
  rewrite starts_cons3. case_bool_decide; [constructor; [lia|]|]; done.
Qed.

Lemma starts_sorted off s : StronglySorted lt (starts off s).
Proof.
  revert off; induction s as [|c s IH]; intros off; [constructor|].
  destruct s as [|d [|e s]]; [constructor..|].
  pose proof (starts_gt (S off) (String d (String e s))) as Hg.
  specialize (IH (S off)). rewrite starts_cons3. case_bool_decide; [constructor|]; done.
Qed.

Lemma starts_bound off s : Forall (fun i => i + 2 <= off + String.length s) (starts off s).
Proof.
  revert off; induction s as [|c s IH]; intros off; [constructor|].
  destruct s as [|d [|e s]]; [constructor..|].
  specialize (IH (S off)).
  assert (Hi : Forall (fun i => i + 2 <= off + String.length (String c (String d (String e s))))
            (starts (S off) (String d (String e s)))).
  { eapply Forall_impl; [apply IH|]. simpl. lia. }
  rewrite starts_cons3. case_bool_decide; [constructor; [simpl; lia|]|]; done.
Qed.

Lemma starts_length_off off off' s : length (starts off s) = length (starts off' s).
Proof.
  revert off off'; induction s as [|c s IH]; intros off off'; [done|].
  destruct s as [|d [|e s]]; [done..|].
  specialize (IH (S off) (S off')). rewrite !starts_cons3.
  case_bool_decide; cbn [length]; congruence.
Qed.

Lemma starts_suffix off s i k : starts off s !! i = Some k ->
  length (starts 0 (str_drop (k - off) s)) + S i = length (starts off s).
Proof.
  revert off i; induction s as [|c s IH]; intros off i; [done|].
  destruct s as [|d [|e s]]; [done..|].
  intros H. pose proof (starts_gt (S off) (String d (String e s))) as Hg.
  assert (Hrec : forall i, starts (S off) (String d (String e s)) !! i = Some k ->
    length (starts 0 (str_drop (k - off) (String c (String d (String e s))))) + S i
    = length (starts (S off) (String d (String e s)))).
  { intros j Hj. rewrite Forall_lookup in Hg. specialize (Hg _ _ Hj).
    replace (k - off) with (S (k - S off)) by lia. by apply IH. }
  rewrite starts_cons3 in *. case_bool_decide.
  - destruct i as [|i]; simpl in H.
    + simplify_eq. replace (S off - off) with 1 by lia.
      cbn [str_drop length]. rewrite (starts_length_off 0 (S off)). apply Nat.add_1_r.
    + cbn [length]. rewrite <- (Hrec i H). lia.
  - apply Hrec, H.
Qed.

Lemma ref_split_sorted n : StronglySorted lt (ref_Split n).
Proof.
  unfold ref_Split. case_bool_decide; [constructor|].
  constructor; [apply starts_sorted | apply starts_gt].
Qed.

Lemma ref_split_bound n i :
  ends_dot n = true -> i ∈ ref_Split n -> i < String.length n - 1.
Proof.
  unfold ref_Split. intros Hd. case_bool_decide as Hn; [set_solver|].
  intros [->|Hi]%elem_of_cons.
  - destruct n as [|c [|d n]]; simpl in *; try done; [|lia].
    bool_facts. subst. tauto.
  - pose proof (starts_bound 0 n) as Hb. rewrite Forall_forall in Hb.
    specialize (Hb i Hi). simpl in Hb. lia.
Qed.

Lemma str_drop_ends k n :
  ends_dot n = true -> k < String.length n -> ends_dot (str_drop k n) = true.
Proof.
  revert n; induction k as [|k IH]; intros [|c n] Hd Hk; simpl in *; try done; try lia.
  apply IH; [|lia]. destruct n; [simpl in Hk; lia | done].
Qed.

Lemma str_drop_lower k n : lower (str_drop k n) = str_drop k (lower n).
Proof. revert n; induction k as [|k IH]; intros [|c n]; simpl; auto. Qed.

Lemma ref_offset_lt n k : ends_dot n = true ->
  k ∈ ref_Split n ++ [String.length n - 1] -> k < String.length n.
Proof.
  intros Hd [Hk|Hk]%elem_of_app.
  - pose proof (ref_split_bound n k Hd Hk). lia.
  - apply list_elem_of_singleton in Hk. pose proof (ends_dot_length n Hd). lia.
Qed.

Lemma str_drop_last n : ends_dot n = true -> str_drop (String.length n - 1) n = ".".
Proof.
  intros H. destruct (ends_dot_split n H) as [t ->].
  rewrite str_app_length. simpl. apply str_drop_app. lia.
Qed.

Lemma ref_suffix_count n i k : ref_CanonicalName n = n ->
  (ref_Split n ++ [String.length n - 1]) !! i = Some k ->
  length (ref_Split (str_drop k n)) + i = length (ref_Split n).
Proof.
  intros [_ Hd]%ref_canonical_iff H.
  destruct (decide (i < length (ref_Split n))) as [Hi|Hi].
  - rewrite lookup_app_l in H by done.
    assert (Hk := ref_split_bound n k Hd (list_elem_of_lookup_2 _ _ _ H)).
    assert (Hne : ~ (str_drop k n = "" \/ str_drop k n = ".")).
    { intros Hs. pose proof (str_drop_length k n) as Hl.
      destruct Hs as [Hs|Hs]; rewrite Hs in Hl; simpl in Hl; lia. }
    unfold ref_Split at 1. rewrite bool_decide_false by done.
    unfold ref_Split in H, Hi |- *. case_bool_decide; [simpl in Hi; lia|].
    destruct i as [|i]; simpl in H.
    + simplify_eq. cbn [length]. rewrite str_drop_0. lia.
    + apply starts_suffix in H. rewrite Nat.sub_0_r in H. simpl. lia.
  - rewrite lookup_app_r in H by lia. apply list_lookup_singleton_Some in H as [Hi0 <-].
    rewrite str_drop_last by done. simpl. lia.
Qed.

Lemma starts_lower off s : starts off (lower s) = starts off s.
Proof.
  revert off; induction s as [|c s IH]; intros off; [done|].
  destruct s as [|d [|e s]]; [done..|]. specialize (IH (S off)). cbn [lower] in *.
  rewrite !starts_cons3, IH. by rewrite (bool_decide_ext _ _ (lower_dot c)).
Qed.

Lemma starts_dot off s : length (starts off s) <= length (starts off (s +:+ ".")).
Proof.
  revert off; induction s as [|c s IH]; intros off; [done|].
  destruct s as [|d [|e s]]; [simpl; lia..|]. specialize (IH (S off)).
  change (String c (String d (String e s)) +:+ ".") with (String c (String d (String e (s +:+ ".")))).
  change (String d (String e s) +:+ ".") with (String d (String e (s +:+ "."))) in IH.
  rewrite !starts_cons3. case_bool_decide; cbn [length]; lia.
Qed.

Lemma ref_count_canonical n : length (ref_Split n) <= length (ref_Split (ref_CanonicalName n)).
Proof.
  unfold ref_Split at 1. case_bool_decide as Hn; [simpl; lia|].
  assert (ref_CanonicalName n <> "" /\ ref_CanonicalName n <> "." /\
    length (starts 0 n) <= length (starts 0 (ref_CanonicalName n))) as (H1 & H2 & H3).
  { unfold ref_CanonicalName, ref_Fqdn. rewrite starts_lower. destruct (ends_dot n) eqn:E.
    - destruct n as [|c [|d n]]; [done| |done]. simpl in E. bool_facts. subst. tauto.
    - destruct n as [|c n]; [tauto|]. split_and!; [done| |apply starts_dot].
      destruct n; simpl; congruence. }
  unfold ref_Split. rewrite bool_decide_false by tauto. simpl. lia.
Qed.

Lemma ref_subdomain_count p c : ref_CanonicalName c = c -> ref_IsSubDomain p c = true ->
  length (ref_Split p) <= length (ref_Split c).
Proof.
  intros Hc H. unfold ref_IsSubDomain in H. rewrite Hc in H. bool_facts.
  apply list_elem_of_fmap in H as (k & Hk & [i Hi]%list_elem_of_lookup).
  pose proof (ref_suffix_count c i k Hc Hi) as Hs. rewrite <- Hk in Hs.
  pose proof (ref_count_canonical p). lia.
Qed.

Lemma refLaws : DnsLaws refLib.
Proof.
  split; unfold canonical; cbn.
  - intros n. apply ref_canonical_iff. split; [|apply ref_canonical_ends].
    unfold ref_CanonicalName. apply lower_idem.
  - intros n. apply ends_dot_split, ref_canonical_ends.
  - apply ref_split_sorted.
  - intros n i [_ Hd]%ref_canonical_iff. by apply ref_split_bound.
  - done.
  - intros n s [Hl Hd]%ref_canonical_iff (k & -> & Hk)%list_elem_of_fmap.
    apply ref_canonical_iff. rewrite str_drop_lower, Hl. split; [done|].
    apply str_drop_ends; [done|]. by apply ref_offset_lt.
  - apply ref_suffix_count.
  - intros p c Hp Hc. unfold ref_IsSubDomain. rewrite Hp, Hc. by rewrite bool_decide_eq_true.
  - intros p c. apply ref_subdomain_count.
  - done.
  - done.
Qed.
