(* ===== verification/DnssecConst.v ===== *)
(** * dnssec/const.go: authentication results and denial-of-existence states *)

From S2P Require Import Prelude.

Inductive AuthenticationResult : Type := Unknown | Insecure | Secure | Bogus.

#[export] Instance AuthenticationResult_eq_dec : EqDecision AuthenticationResult.
Proof. solve_decision. Defined.

(** [AuthenticationResult.String] *)
Definition AuthenticationResult_String (r : AuthenticationResult) : string :=
  match r with
  | Unknown => "Unknown"
  | Insecure => "Insecure"
  | Secure => "Secure"
  | Bogus => "Bogus"
  end.

(** [AuthenticationResult.Combine] *)
Definition Combine (r r2 : AuthenticationResult) : AuthenticationResult :=
  if bool_decide (r = Bogus) || bool_decide (r2 = Bogus) then Bogus
  else if bool_decide (r = Unknown) || bool_decide (r2 = Unknown) then Unknown
  else if bool_decide (r = Insecure) || bool_decide (r2 = Insecure) then Insecure
  else if bool_decide (r = Secure) && bool_decide (r2 = Secure) then Secure
  else Bogus.

Inductive DenialOfExistenceState : Type :=
| NotFound
| NsecMissingDS | NsecNoData | NsecNxDomain | NsecWildcard
| Nsec3MissingDS | Nsec3NoData | Nsec3NxDomain | Nsec3OptOut | Nsec3Wildcard.

#[export] Instance DenialOfExistenceState_eq_dec : EqDecision DenialOfExistenceState.
Proof. solve_decision. Defined.

(** [DenialOfExistenceState.String] *)
Definition DenialOfExistenceState_String (d : DenialOfExistenceState) : string :=
  match d with
  | NotFound => "NotFound"
  | NsecMissingDS => "NsecMissingDS"
  | NsecNoData => "NsecNoData"
  | NsecNxDomain => "NsecNxDomain"
  | NsecWildcard => "NsecWildcard"
  | Nsec3MissingDS => "Nsec3MissingDS"
  | Nsec3NoData => "Nsec3NoData"
  | Nsec3NxDomain => "Nsec3NxDomain"
  | Nsec3OptOut => "Nsec3OptOut"
  | Nsec3Wildcard => "Nsec3Wildcard"
  end.

(** [section]: the two message sections that are authenticated. *)
Inductive section : Type := answerSection | authoritySection.

#[export] Instance section_eq_dec : EqDecision section.
Proof. solve_decision. Defined.

(** ** The severity order that [Combine] takes the maximum of *)

Definition severity (r : AuthenticationResult) : nat :=
  match r with Secure => 0 | Insecure => 1 | Unknown => 2 | Bogus => 3 end.

#[export] Instance severity_inj : Inj (=) (=) severity.
Proof. intros [] []; done. Qed.

(** The results of a CNAME chain combined in the order they arrive. *)
Definition Combine_all (r : AuthenticationResult) (rs : list AuthenticationResult) :
  AuthenticationResult := foldl Combine r rs.

Lemma severity_combine r r2 : severity (Combine r r2) = severity r `max` severity r2.
Proof. by destruct r, r2. Qed.

#[export] Instance Combine_comm : Comm (=) Combine.
Proof. intros [] []; done. Qed.
#[export] Instance Combine_assoc : Assoc (=) Combine.
Proof. intros [] [] []; done. Qed.

Lemma severity_combine_all r rs :
  severity (Combine_all r rs) = foldr Nat.max (severity r) (map severity rs).
Proof.
  revert r; induction rs as [|x rs IH]; intros r; [done|].
  simpl. rewrite IH, severity_combine. clear IH. induction rs as [|y rs IH]; simpl; lia.
Qed.

#[export] Hint Rewrite severity_combine : resolver.
