(* ===== verification/DnssecFunctions.v ===== *)
(** * dnssec/functions.go: helpers of package dnssec *)

From S2P Require Import Prelude Dns.

(** [extractRecords[T]]: the records whose Go type is [T], in order. *)
Fixpoint extractRecords (T : Type) `{RRType T} (rr : list RR) : list T :=
  match rr with
  | [] => []
  | record :: rest =>
      match rr_as record with
      | Some typedRecord => typedRecord :: extractRecords T rest
      | None => extractRecords T rest
      end
  end.

Fixpoint extractRecordsOfType (rr : list RR) (t : Z) : list RR :=
  match rr with
  | [] => []
  | record :: rest =>
      if bool_decide (Rrtype (Header record) = t)
      then record :: extractRecordsOfType rest t
      else extractRecordsOfType rest t
  end.

Fixpoint extractRecordsOfNameAndType (rr : list RR) (name : string) (t : Z) : list RR :=
  match rr with
  | [] => []
  | record :: rest =>
      if bool_decide (Rrtype (Header record) = t) && bool_decide (Name (Header record) = name)
      then record :: extractRecordsOfNameAndType rest name t
      else extractRecordsOfNameAndType rest name t
  end.

Fixpoint recordsOfTypeExist (rr : list RR) (t : Z) : bool :=
  match rr with
  | [] => false
  | record :: rest =>
      if bool_decide (Rrtype (Header record) = t) then true else recordsOfTypeExist rest t
  end.

Definition recordsHaveTheSameOwner (rr : list RR) : bool :=
  match rr with
  | [] | [_] => true
  | first :: rest =>
      let owner := Name (Header first) in
      (fix go (l : list RR) : bool :=
         match l with
         | [] => true
         | r :: l' => if bool_decide (Name (Header r) <> owner) then false else go l'
         end) rest
  end.

(** [wildcardName] replaces the first label with [*].  The slice offset is one
    that [dns.Split] returned for the same name. *)
Definition wildcardName `{DnsLib} (name : string) : string :=
  match dns_Split name with
  | _ :: i :: _ => "*." +:+ str_drop i name
  | _ => "*."
  end.

Definition namesEqual `{DnsLib} (s1 s2 : string) : bool :=
  bool_decide (dns_CanonicalName s1 = dns_CanonicalName s2).

Definition getOwnerNameFromSet (rr : list RR) : string * bool :=
  match rr with
  | r :: _ => (Name (Header r), true)
  | [] => ("", false)
  end.

(** ** Lemmas *)

Lemma elem_of_extractRecords `{RRType T} (rr : list RR) (x : T) :
  x ∈ extractRecords T rr <-> exists r, r ∈ rr /\ rr_as r = Some x.
Proof.
  induction rr as [|r rr IH]; simpl; [set_solver|].
  destruct (rr_as r) eqn:E; rewrite ?elem_of_cons, IH; set_solver.
Qed.

Lemma extractRecordsOfNameAndType_filter rr name t :
  extractRecordsOfNameAndType rr name t =
  filter (fun r => Rrtype (Header r) = t /\ Name (Header r) = name) rr.
Proof.
  induction rr as [|r rr IH]; [done|]. rewrite filter_cons. simpl. rewrite IH.
  repeat case_bool_decide; case_decide; naive_solver.
Qed.

Lemma extractRecordsOfType_filter rr t :
  extractRecordsOfType rr t = filter (fun r => Rrtype (Header r) = t) rr.
Proof.
  induction rr as [|r rr IH]; [done|]. rewrite filter_cons. simpl. rewrite IH.
  case_bool_decide; case_decide; naive_solver.
Qed.

Lemma elem_of_extractRecordsOfType rr t r : r ∈ extractRecordsOfType rr t <-> r ∈ rr /\ Rrtype (Header r) = t.
Proof. rewrite extractRecordsOfType_filter, list_elem_of_filter. tauto. Qed.

Lemma elem_of_extractRecordsOfNameAndType rr name t r :
  r ∈ extractRecordsOfNameAndType rr name t <->
  r ∈ rr /\ Rrtype (Header r) = t /\ Name (Header r) = name.
Proof. rewrite extractRecordsOfNameAndType_filter, list_elem_of_filter. tauto. Qed.

Lemma recordsOfTypeExist_true rr t :
  recordsOfTypeExist rr t = true <-> exists r, r ∈ rr /\ Rrtype (Header r) = t.
Proof.
  induction rr as [|r rr IH]; simpl; [set_solver|].
  case_bool_decide; [set_solver|]. rewrite IH. set_solver.
Qed.

Lemma recordsOfTypeExist_extract rr t :
  recordsOfTypeExist rr t = true -> extractRecordsOfType rr t <> [].
Proof.
  rewrite recordsOfTypeExist_true, extractRecordsOfType_filter. intros (r & Hr & Ht) Hn.
  assert (Hin : r ∈ filter (fun r => Rrtype (Header r) = t) rr)
    by (by apply list_elem_of_filter).
  rewrite Hn in Hin. set_solver.
Qed.

#[export] Hint Resolve recordsOfTypeExist_extract : resolver.

Lemma extractRecords_length (T : Type) `{RRType T} (rr : list RR) :
  length (extractRecords T rr) <= length rr.
Proof. induction rr as [|r rr IH]; simpl; [done|]. destruct (rr_as r); simpl; lia. Qed.
