(* ===== verification/Doe.v ===== *)
(** * Package dnssec/doe: denial of existence with NSEC and NSEC3

    dnssec/doe/functions.go (canonical ordering), nsec.go and nsec3.go.  The
    context carried by the Go structs is only passed along and is left out. *)

From S2P Require Import Prelude GoErrors Dns DnsRef.

(** ** dnssec/doe/functions.go *)

Definition wildcardName `{DnsLib} (name : string) : string :=
  match dns_Split name with
  | _ :: i :: _ => "*." +:+ str_drop i name
  | _ => "*."
  end.

(** [canonicalIsDigit] *)
Definition canonicalIsDigit (b : ascii) : bool :=
  bool_decide (48 <= nat_of_ascii b <= 57).

(** [string(rune(n))]: the UTF-8 encoding of a code point below 0x800. *)
Definition string_of_rune (n : nat) : string :=
  if bool_decide (n < 128) then String (ascii_of_nat n) ""
  else String (ascii_of_nat (192 + n / 64)) (String (ascii_of_nat (128 + n mod 64)) "").

Definition digit_value (b : ascii) : nat := nat_of_ascii b - 48.

(** [strconv.Atoi] on three digits *)
Definition atoi3 (d1 d2 d3 : ascii) : nat :=
  100 * digit_value d1 + 10 * digit_value d2 + digit_value d3.

Fixpoint canonicalDecodeEscaped (label : string) : string :=
  match label with
  | EmptyString => ""
  | String c rest =>
      match rest with
      | String d1 (String d2 (String d3 rest')) =>
          if bool_decide (c = "\"%char) && canonicalIsDigit d1 && canonicalIsDigit d2
             && canonicalIsDigit d3
          then string_of_rune (atoi3 d1 d2 d3) +:+ canonicalDecodeEscaped rest'
          else string_of_rune (nat_of_ascii c) +:+ canonicalDecodeEscaped rest
      | _ => string_of_rune (nat_of_ascii c) +:+ canonicalDecodeEscaped rest
      end
  end.

(** [strings.Contains(label, `\`)] *)
Fixpoint has_backslash (label : string) : bool :=
  match label with
  | EmptyString => false
  | String c rest => bool_decide (c = "\"%char) || has_backslash rest
  end.

(** The label as [canonicalCmp] compares it. *)
Definition cmp_label (label : string) : string :=
  if has_backslash label then canonicalDecodeEscaped label else label.

(** The loop of [canonicalCmp], over the labels from the last to the first. *)
Fixpoint canonicalCmp_loop (ra rb : list string) : option Z :=
  match ra, rb with
  | a :: ra', b :: rb' =>
      let labelA := cmp_label a in
      let labelB := cmp_label b in
      if bool_decide (labelA <> labelB)
      then Some (if String.ltb labelA labelB then (-1)%Z else 1%Z)
      else canonicalCmp_loop ra' rb'
  | _, _ => None
  end.

Definition canonicalCmp `{DnsLib} (a b : string) : Z :=
  let labelsA := dns_SplitDomainName (dns_CanonicalName a) in
  let labelsB := dns_SplitDomainName (dns_CanonicalName b) in
  match canonicalCmp_loop (rev labelsA) (rev labelsB) with
  | Some r => r
  | None =>
      if bool_decide (length labelsA < length labelsB) then (-1)%Z
      else if bool_decide (length labelsB < length labelsA) then 1%Z
      else 0%Z
  end.

(** ** dnssec/doe/doe.go *)

Record DenialOfExistenceNSEC := mkDoeNSEC {
  nsec_zone : string;
  nsec_records : list NSEC
}.

Record DenialOfExistenceNSEC3 := mkDoeNSEC3 {
  nsec3_zone : string;
  nsec3_records : list NSEC3
}.

Definition NewDenialOfExistenceNSEC (zone : string) (records : list NSEC) :=
  mkDoeNSEC zone records.

Fixpoint known_hash_and_flags (records : list NSEC3) : list NSEC3 :=
  match records with
  | [] => []
  | r :: rest =>
      if bool_decide (Hash r <> SHA1) then known_hash_and_flags rest
      else if bool_decide (NSEC3_Flags r < 0)%Z || bool_decide (1 < NSEC3_Flags r)%Z
      then known_hash_and_flags rest
      else r :: known_hash_and_flags rest
  end.

Definition NewDenialOfExistenceNSEC3 (zone : string) (records : list NSEC3) :=
  mkDoeNSEC3 zone (known_hash_and_flags records).

Definition nsec_Empty (doe : DenialOfExistenceNSEC) : bool :=
  bool_decide (length (nsec_records doe) = 0).
Definition nsec3_Empty (doe : DenialOfExistenceNSEC3) : bool :=
  bool_decide (length (nsec3_records doe) = 0).

(** [slices.Contains] *)
Definition slices_Contains (s : list Z) (t : Z) : bool := existsb (Z.eqb t) s.

(** The inner loop of the two [TypeBitMapContainsAnyOf]. *)
Definition any_type_in (bitmap types : list Z) : bool :=
  existsb (slices_Contains bitmap) types.

(** ** dnssec/doe/nsec.go *)

Module Nsec.
Section nsec.
Context `{DnsLib}.

(** The test of [verifyQNameCovered] and [verifyWildcardCovered] on one
    record. *)
Definition covers (zone : string) (nsec : NSEC) (name : string) : bool :=
  let afterOwner := bool_decide (canonicalCmp (Name (NSEC_Hdr nsec)) name < 0)%Z in
  let beforeNext :=
    bool_decide (dns_CanonicalName (NSEC_NextDomain nsec) = zone)
    || bool_decide (canonicalCmp name (NSEC_NextDomain nsec) < 0)%Z in
  afterOwner && beforeNext.

Definition verifyQNameCovered (doe : DenialOfExistenceNSEC) (qname : string) : bool :=
  let qname := dns_CanonicalName qname in
  existsb (fun nsec => covers (nsec_zone doe) nsec qname) (nsec_records doe).

Definition verifyWildcardCovered (doe : DenialOfExistenceNSEC) (qname : string) : bool :=
  let qname := dns_CanonicalName qname in
  let wildcard := wildcardName qname in
  existsb (fun nsec => covers (nsec_zone doe) nsec wildcard) (nsec_records doe).

Definition PerformQNameDoesNotExistProof (doe : DenialOfExistenceNSEC) (qname : string) : bool :=
  negb (nsec_Empty doe) && (verifyQNameCovered doe qname && verifyWildcardCovered doe qname).

Definition PerformExpandedWildcardProof (doe : DenialOfExistenceNSEC) (qname : string) : bool :=
  negb (nsec_Empty doe)
  && (verifyQNameCovered doe qname && negb (verifyWildcardCovered doe qname)).

Fixpoint TypeBitMap_loop (records : list NSEC) (name : string) (types : list Z)
    (nameSeen : bool) : bool * bool :=
  match records with
  | [] => (nameSeen, false)
  | nsec :: rest =>
      if bool_decide (name <> dns_CanonicalName (Name (NSEC_Hdr nsec)))
      then TypeBitMap_loop rest name types nameSeen
      else if any_type_in (NSEC_TypeBitMap nsec) types then (true, true)
      else TypeBitMap_loop rest name types true
  end.

(** [(nameSeen, typeSeen)] *)
Definition TypeBitMapContainsAnyOf (doe : DenialOfExistenceNSEC) (name : string)
    (types : list Z) : bool * bool :=
  TypeBitMap_loop (nsec_records doe) name types false.
End nsec.
End Nsec.

(** ** dnssec/doe/nsec3.go *)

Module Nsec3.
Section nsec3.
Context `{DnsLib}.

Fixpoint wildcardCovered_loop (records : list NSEC3) (wildcard : string)
    (wildcardProof : bool) : bool :=
  match records with
  | [] => wildcardProof
  | nsec3 :: rest =>
      if dns_NSEC3_Match nsec3 wildcard then false
      else wildcardCovered_loop rest wildcard
             (if dns_NSEC3_Cover nsec3 wildcard then true else wildcardProof)
  end.

Definition verifyWildcardCovered (doe : DenialOfExistenceNSEC3) (closestEncloser : string) : bool :=
  wildcardCovered_loop (nsec3_records doe) ("*." +:+ closestEncloser) false.

Definition verifyWildcardMatched (doe : DenialOfExistenceNSEC3) (closestEncloser : string) : bool :=
  existsb (fun nsec3 => dns_NSEC3_Match nsec3 ("*." +:+ closestEncloser)) (nsec3_records doe).

Fixpoint nextCloser_loop (records : list NSEC3) (nextCloserName : string)
    (optedOut nextCloserNameProof : bool) : bool * bool :=
  match records with
  | [] => (optedOut, nextCloserNameProof)
  | nsec3 :: rest =>
      if dns_NSEC3_Match nsec3 nextCloserName then (false, false)
      else if dns_NSEC3_Cover nsec3 nextCloserName
      then nextCloser_loop rest nextCloserName
             (optedOut || bool_decide (NSEC3_Flags nsec3 = 1)%Z) true
      else nextCloser_loop rest nextCloserName optedOut nextCloserNameProof
  end.

(** [(optedOut, nextCloserNameProof)] *)
Definition verifyNextCloserNameCovered (doe : DenialOfExistenceNSEC3) (nextCloserName : string) :
    bool * bool :=
  nextCloser_loop (nsec3_records doe) nextCloserName false false.

Fixpoint TypeBitMap_loop (records : list NSEC3) (name : string) (types : list Z)
    (nameSeen : bool) : bool * bool :=
  match records with
  | [] => (nameSeen, false)
  | nsec3 :: rest =>
      if negb (dns_NSEC3_Match nsec3 name)
      then TypeBitMap_loop rest name types nameSeen
      else if any_type_in (NSEC3_TypeBitMap nsec3) types then (true, true)
      else TypeBitMap_loop rest name types true
  end.

(** [(nameSeen, typeSeen)] *)
Definition TypeBitMapContainsAnyOf (doe : DenialOfExistenceNSEC3) (name : string)
    (types : list Z) : bool * bool :=
  TypeBitMap_loop (nsec3_records doe) name types false.

(** The loop of [FindClosestEncloser] over the labels of [qname], for one
    record: the contender it adds, if any. *)
Fixpoint contender_loop (zone qname : string) (nsec3 : NSEC3) (idxs : list nat) (last : nat) :
    option (string * string) :=
  match idxs with
  | [] => None
  | i :: rest =>
      let name := str_drop i qname in
      if negb (dns_IsSubDomain zone name) then None
      else if dns_NSEC3_Match nsec3 name then
        if slices_Contains (NSEC3_TypeBitMap nsec3) TypeDNAME
        then contender_loop zone qname nsec3 rest last
        else if slices_Contains (NSEC3_TypeBitMap nsec3) TypeNS
                && negb (slices_Contains (NSEC3_TypeBitMap nsec3) TypeSOA)
        then contender_loop zone qname nsec3 rest last
        else Some (name, str_drop last qname)
      else contender_loop zone qname nsec3 rest i
  end.

Fixpoint contenders (zone qname : string) (records : list NSEC3) : list (string * string) :=
  match records with
  | [] => []
  | nsec3 :: rest =>
      match contender_loop zone qname nsec3 (dns_Split qname) 0 with
      | Some c => c :: contenders zone qname rest
      | None => contenders zone qname rest
      end
  end.

Fixpoint longest (contender : string * string) (rest : list (string * string)) :
    string * string :=
  match rest with
  | [] => contender
  | c :: rest' =>
      longest (if bool_decide (String.length (fst contender) < String.length (fst c))
               then c else contender) rest'
  end.

(** [Some (closestEncloser, nextCloserName)], or [None] for [ok = false]. *)
Definition FindClosestEncloser (doe : DenialOfExistenceNSEC3) (qname : string) :
    option (string * string) :=
  match contenders (nsec3_zone doe) qname (nsec3_records doe) with
  | [] => None
  | c :: rest => Some (longest c rest)
  end.

Record ClosestEncloserProof := mkProof {
  optedOut : bool;
  closestEncloserProof : bool;
  nextCloserNameProof : bool;
  wildcardProof : bool
}.

Definition PerformClosestEncloserProof (doe : DenialOfExistenceNSEC3) (name : string) :
    ClosestEncloserProof :=
  if nsec3_Empty doe then mkProof false false false false
  else match FindClosestEncloser doe name with
       | None => mkProof false false false false
       | Some (closestEncloser, nextCloserName) =>
           let wp := verifyWildcardCovered doe closestEncloser in
           let '(oo, ncn) := verifyNextCloserNameCovered doe nextCloserName in
           mkProof oo true ncn wp
       end.

(** The two index expressions panic when the label count is out of range. *)
Definition PerformExpandedWildcardProof (doe : DenialOfExistenceNSEC3)
    (wildcardAnswerSignatureName : string) (wildcardAnswerSignatureNameLabels : Z) :
    outcome bool :=
  let labelIndexs := dns_Split wildcardAnswerSignatureName in
  let closestEncloserIndex :=
    (Z.of_nat (length labelIndexs) - wildcardAnswerSignatureNameLabels)%Z in
  i ← go_index labelIndexs closestEncloserIndex;
  let closestEncloser := str_drop i wildcardAnswerSignatureName in
  j ← go_index labelIndexs (closestEncloserIndex - 1);
  let nextCloserName := str_drop j wildcardAnswerSignatureName in
  let wildcardProof :=
    verifyWildcardCovered doe closestEncloser || verifyWildcardMatched doe closestEncloser in
  let '(_, nextCloserNameProof) := verifyNextCloserNameCovered doe nextCloserName in
  Ret (negb wildcardProof && nextCloserNameProof).
End nsec3.
End Nsec3.

(** * Theory *)

(** ** The canonical order

    [canonicalCmp] compares lists of decoded labels, the last label first: the
    order of RFC 4034, section 6.1, on the names' keys. *)

Definition order_key `{DnsLib} (n : string) : list string :=
  map cmp_label (rev (dns_SplitDomainName (dns_CanonicalName n))).

Fixpoint key_cmp (ka kb : list string) : Z :=
  match ka, kb with
  | [], [] => 0%Z
  | [], _ :: _ => (-1)%Z
  | _ :: _, [] => 1%Z
  | x :: ka', y :: kb' =>
      if bool_decide (x = y) then key_cmp ka' kb'
      else if String.ltb x y then (-1)%Z else 1%Z
  end.

Lemma string_ltb_spec x y : String.ltb x y = true <-> String.le x y /\ x <> y.
Proof.
  unfold String.le, String.ltb, String.leb.
  destruct (String.compare x y) eqn:E; simpl.
  - apply String.compare_eq_iff in E. naive_solver.
  - split; [|done]. intros _. split; [done|]. intros ->.
    pose proof (String.compare_antisym y y) as Ha. rewrite E in Ha. done.
  - naive_solver.
Qed.

Lemma string_ltb_flip x y : x <> y -> String.ltb y x = negb (String.ltb x y).
Proof.
  intros Hne. destruct (String.ltb x y) eqn:E; simpl.
  - apply not_true_iff_false. rewrite string_ltb_spec in *. intros [Hyx _].
    destruct E as [Hxy _]. apply Hne. by apply (anti_symm String.le).
  - apply string_ltb_spec. split; [|done].
    destruct (total String.le x y) as [H|H]; [|done].
    assert (String.ltb x y = true) by (by apply string_ltb_spec). congruence.
Qed.

Lemma string_ltb_trans x y z :
  String.ltb x y = true -> String.ltb y z = true -> String.ltb x z = true.
Proof.
  rewrite !string_ltb_spec. intros [H1 N1] [H2 N2]. split; [by etrans|].
  intros ->. apply N1. by apply (anti_symm String.le).
Qed.

Lemma key_cmp_refl k : key_cmp k k = 0%Z.
Proof. induction k as [|x k IH]; simpl; [done|]. by rewrite bool_decide_true. Qed.

Lemma key_cmp_eq ka kb : key_cmp ka kb = 0%Z <-> ka = kb.
Proof.
  split; [|intros ->; apply key_cmp_refl].
  revert kb; induction ka as [|x ka IH]; intros [|y kb]; simpl; try done.
  case_bool_decide as Hxy; [|by case_tests]. intros ->%IH. by subst.
Qed.

Lemma key_cmp_antisym ka kb : key_cmp kb ka = (- key_cmp ka kb)%Z.
Proof.
  revert kb; induction ka as [|x ka IH]; intros [|y kb]; simpl; try done.
  case_bool_decide as H1; case_bool_decide as H2; try congruence.
  rewrite (string_ltb_flip x y) by done. by destruct (String.ltb x y).
Qed.

Lemma key_cmp_lt_trans ka kb kc :
  (key_cmp ka kb < 0)%Z -> (key_cmp kb kc < 0)%Z -> (key_cmp ka kc < 0)%Z.
Proof.
  revert kb kc; induction ka as [|x ka IH]; intros [|y kb] [|z kc]; simpl; try lia.
  intros H1 H2.
  case_bool_decide as Hxy; [subst; case_bool_decide; [by eapply IH|done]|].
  case_bool_decide as Hyz; [subst; by rewrite bool_decide_false|].
  destruct (String.ltb x y) eqn:E1; [|lia]. destruct (String.ltb y z) eqn:E2; [|lia].
  pose proof (string_ltb_trans _ _ _ E1 E2) as E3.
  rewrite bool_decide_false by (apply string_ltb_spec in E3; tauto).
  by rewrite E3.
Qed.

Lemma canonicalCmp_key `{DnsLib} a b : canonicalCmp a b = key_cmp (order_key a) (order_key b).
Proof.
  unfold canonicalCmp, order_key.
  rewrite <- (length_rev (dns_SplitDomainName (dns_CanonicalName a))),
    <- (length_rev (dns_SplitDomainName (dns_CanonicalName b))).
  generalize (rev (dns_SplitDomainName (dns_CanonicalName a))) as la.
  generalize (rev (dns_SplitDomainName (dns_CanonicalName b))) as lb.
  intros lb la; revert lb; induction la as [|x la IH]; intros [|y lb]; simpl; try done.
  destruct (decide (cmp_label x = cmp_label y)) as [He|Hne];
    [|by rewrite bool_decide_true, bool_decide_false by done].
  rewrite (bool_decide_false (cmp_label x <> cmp_label y)) by (by intros []).
  rewrite (bool_decide_true (cmp_label x = cmp_label y)) by done.
  rewrite <- IH. destruct (canonicalCmp_loop la lb); [done|].
  repeat case_bool_decide; try done; lia.
Qed.

(** [canonicalCmp] is a total order on names up to the equality of their
    decoded, lowercased label sequences: antisymmetric, zero exactly on equal
    keys, and transitive. *)
Theorem canonicalCmp_total_order `{DnsLib} :
  (forall a b, canonicalCmp b a = (- canonicalCmp a b)%Z) /\
  (forall a b, canonicalCmp a b = 0%Z <-> order_key a = order_key b) /\
  (forall a b c, (canonicalCmp a b <= 0)%Z -> (canonicalCmp b c <= 0)%Z ->
     (canonicalCmp a c <= 0)%Z).
Proof.
  split_and!; intros *; rewrite !canonicalCmp_key.
  - apply key_cmp_antisym.
  - apply key_cmp_eq.
  - intros H1 H2.
    destruct (decide (order_key a = order_key b)) as [->|N1]; [done|].
    destruct (decide (order_key b = order_key c)) as [<-|N2]; [done|].
    rewrite <- key_cmp_eq in N1, N2.
    pose proof (key_cmp_lt_trans (order_key a) (order_key b) (order_key c)). lia.
Qed.

(** ** NSEC chains

    A signed zone links its names, sorted by [canonicalCmp], into a cycle of
    NSEC records: each names its successor, the last one the apex. *)

Definition canonical_lt `{DnsLib} (a b : string) : Prop := (canonicalCmp a b < 0)%Z.

Fixpoint chain_pairs (apex : string) (names : list string) : list (string * string) :=
  match names with
  | [] => []
  | n :: rest =>
      match rest with
      | [] => [(n, apex)]
      | m :: _ => (n, m) :: chain_pairs apex rest
      end
  end.

Definition nsec_pair (r : NSEC) : string * string := (Name (NSEC_Hdr r), NSEC_NextDomain r).

(** The owner names of a zone, apex first. *)
Record zone_names `{DnsLib} (apex : string) (names : list string) : Prop := {
  zn_head : exists rest, names = apex :: rest;
  zn_sorted : StronglySorted canonical_lt names;
  zn_canonical : Forall canonical names
}.

Section order.
Context `{DnsLib}.

Lemma canonical_lt_irrefl a : ~ canonical_lt a a.
Proof. unfold canonical_lt. rewrite canonicalCmp_key, key_cmp_refl. lia. Qed.

Lemma canonical_lt_trans a b c : canonical_lt a b -> canonical_lt b c -> canonical_lt a c.
Proof. unfold canonical_lt. rewrite !canonicalCmp_key. apply key_cmp_lt_trans. Qed.

Lemma canonical_lt_cmp_0 a b c : canonicalCmp b c = 0%Z -> canonical_lt a b <-> canonical_lt a c.
Proof. unfold canonical_lt. rewrite !canonicalCmp_key. by intros ->%key_cmp_eq. Qed.

Lemma cmp_0_sym a b : canonicalCmp a b = 0%Z -> canonicalCmp b a = 0%Z.
Proof. rewrite !canonicalCmp_key, !key_cmp_eq. done. Qed.

Lemma canonical_trichotomy a b :
  canonical_lt a b \/ canonicalCmp a b = 0%Z \/ canonical_lt b a.
Proof.
  unfold canonical_lt. rewrite !canonicalCmp_key.
  rewrite (key_cmp_antisym (order_key a) (order_key b)). lia.
Qed.

(** Between a name and its successor in the chain there is no name; after
    the last one, whose successor is the apex, there is none either. *)
Lemma chain_pairs_gap apex ns o x :
  StronglySorted canonical_lt ns -> (o, x) ∈ chain_pairs apex ns ->
  o ∈ ns /\
  ((x = apex /\ forall n, n ∈ ns -> ~ canonical_lt o n) \/
   (x ∈ ns /\ canonical_lt o x /\
    forall n, n ∈ ns -> canonical_lt o n -> ~ canonical_lt n x)).
Proof.
  induction ns as [|n ns IH]; [set_solver|]. intros [Hs Hall]%StronglySorted_inv Hin.
  rewrite Forall_forall in Hall. destruct ns as [|m ns]; simpl in Hin.
  - apply list_elem_of_singleton in Hin. simplify_eq. split; [set_solver|]. left.
    split; [done|]. intros n' ->%list_elem_of_singleton. apply canonical_lt_irrefl.
  - apply elem_of_cons in Hin as [Heq|Hin].
    + simplify_eq. split; [set_solver|]. right. split_and!; [set_solver|apply Hall; set_solver|].
      intros k [->|[->|Hk]%elem_of_cons]%elem_of_cons Hok Hkx.
      * by eapply canonical_lt_irrefl.
      * by eapply canonical_lt_irrefl.
      * apply StronglySorted_inv in Hs as [_ Hs]. rewrite Forall_forall in Hs.
        apply (canonical_lt_irrefl k). eapply canonical_lt_trans; [done|]. by apply Hs.
    + destruct (IH Hs Hin) as [Ho Hcase].
      assert (Hlt : canonical_lt n o) by (apply Hall; done).
      split; [set_solver|]. destruct Hcase as [[-> Hlast]|(Hx & Hox & Hgap)]; [left|right].
      * split; [done|]. intros k [->|Hk]%elem_of_cons Hok; [|by eapply Hlast].
        apply (canonical_lt_irrefl o). by eapply canonical_lt_trans.
      * split_and!; [set_solver|done|]. intros k [->|Hk]%elem_of_cons Hok; [|by apply Hgap].
        exfalso. apply (canonical_lt_irrefl o). by eapply canonical_lt_trans.
Qed.

End order.

Section nsec_chain.
Context `{L : DnsLib} `{!DnsLaws L}.
Context (apex : string) (names : list string) (Hzone : zone_names apex names).

Lemma cmp_canonical_l a b : canonicalCmp (dns_CanonicalName a) b = canonicalCmp a b.
Proof. rewrite !canonicalCmp_key. unfold order_key. by rewrite canonical_idem. Qed.

Lemma cmp_canonical_r a b : canonicalCmp a (dns_CanonicalName b) = canonicalCmp a b.
Proof. rewrite !canonicalCmp_key. unfold order_key. by rewrite canonical_idem. Qed.

Lemma apex_least n : n ∈ names -> ~ canonical_lt n apex.
Proof.
  destruct Hzone as [[rest ->] Hs _]. apply StronglySorted_inv in Hs as [_ Hs].
  rewrite Forall_forall in Hs. intros [->|Hn]%elem_of_cons; [apply canonical_lt_irrefl|].
  intros Hlt. apply (canonical_lt_irrefl n). eapply canonical_lt_trans; [done|]. by apply Hs.
Qed.

(** A record of the chain covers no name of the zone. *)
Lemma chain_record_covers_none r q n :
  nsec_pair r ∈ chain_pairs apex names -> n ∈ names -> canonicalCmp n q = 0%Z ->
  Nsec.covers apex r q = false.
Proof.
  intros Hr Hn Hq. apply not_true_iff_false. unfold Nsec.covers.
  intros [Ho Hx]%andb_true_iff. bool_facts. fold (canonical_lt (Name (NSEC_Hdr r)) q) in Ho.
  rewrite <- (canonical_lt_cmp_0 _ _ _ Hq) in Ho.
  destruct Hzone as [Hh Hs Hc]. rewrite Forall_forall in Hc.
  apply chain_pairs_gap in Hr as [Ho' [[_ Hlast]|(Hx' & Hox & Hgap)]]; [by eapply Hlast| |done].
  apply orb_true_iff in Hx as [Hx|Hx]; bool_facts.
  - specialize (Hc _ Hx'). unfold canonical in Hc. rewrite Hx in Hc.
    apply (apex_least _ Ho'). by rewrite Hc.
  - apply (Hgap n Hn Ho). unfold canonical_lt in *. rewrite canonicalCmp_key in *.
    apply key_cmp_eq in Hq. by rewrite Hq.
Qed.
End nsec_chain.

Section nsec_proofs.
Context `{L : DnsLib} `{!DnsLaws L}.

(** With the last owner below [q], or [q] just below a successor, the chain
    has a record that covers [q]. *)
Lemma chain_covers apex n ns q :
  StronglySorted canonical_lt (n :: ns) ->
  canonical_lt n q -> (forall m, m ∈ ns -> canonicalCmp m q <> 0%Z) ->
  exists o x, (o, x) ∈ chain_pairs apex (n :: ns) /\ canonical_lt o q /\
    (x = apex \/ canonical_lt q x).
Proof.
  revert n; induction ns as [|m ns IH]; intros n Hs Hn Hne.
  - exists n, apex. split_and!; [apply list_elem_of_singleton; done|done|by left].
  - apply StronglySorted_inv in Hs as [Hs _].
    destruct (canonical_trichotomy m q) as [Hm|[Hm|Hm]].
    + destruct (IH m Hs Hm) as (o & x & Hin & Ho & Hx); [set_solver|].
      exists o, x. split; [|done]. simpl. by apply elem_of_cons; right.
    + exfalso. apply (Hne m); [set_solver|done].
    + exists n, m. split_and!; [simpl; by apply elem_of_cons; left|done|by right].
Qed.

Lemma nsec_covers_none apex names doe q n :
  zone_names apex names -> nsec_zone doe = apex ->
  (forall r, r ∈ nsec_records doe -> nsec_pair r ∈ chain_pairs apex names) ->
  existsb (fun r => Nsec.covers (nsec_zone doe) r q) (nsec_records doe) = true ->
  n ∈ names -> canonicalCmp n q <> 0%Z.
Proof.
  intros Hz <- Hrecs [r [Hr Hc]]%existsb_exists Hn Hq.
  rewrite (chain_record_covers_none _ _ Hz r q n) in Hc; [done| |done|done].
  by apply Hrecs, list_elem_of_In.
Qed.

(** C32: an NSEC proof of non-existence is sound.  When every NSEC record a
    response carries belongs to the zone's chain, a successful
    [PerformQNameDoesNotExistProof] implies that neither the query name nor
    the wildcard of its parent is a name of the zone. *)
Theorem nsec_nxdomain_sound apex names doe qname :
  zone_names apex names -> nsec_zone doe = apex ->
  (forall r, r ∈ nsec_records doe -> nsec_pair r ∈ chain_pairs apex names) ->
  Nsec.PerformQNameDoesNotExistProof doe qname = true ->
  forall n, n ∈ names ->
    canonicalCmp n qname <> 0%Z /\
    canonicalCmp n (wildcardName (dns_CanonicalName qname)) <> 0%Z.
Proof.
  intros Hz Hd Hrecs [_ [Hq Hw]%andb_true_iff]%andb_true_iff n Hn.
  split; [rewrite <- cmp_canonical_r|]; by eapply nsec_covers_none.
Qed.

(** C31: with the zone's whole NSEC chain at hand, [verifyQNameCovered] answers
    exactly: a name is covered if and only if it sorts after the apex and is
    no name of the zone. *)
Theorem nsec_full_chain_exact apex names doe qname :
  zone_names apex names -> nsec_zone doe = apex ->
  (forall p, p ∈ map nsec_pair (nsec_records doe) <-> p ∈ chain_pairs apex names) ->
  Nsec.verifyQNameCovered doe qname = true <->
  canonical_lt apex qname /\ (forall n, n ∈ names -> canonicalCmp n qname <> 0%Z).
Proof.
  intros Hz Hd Hp. split.
  - intros Hcov. pose proof Hcov as [r [Hr Hc]]%existsb_exists.
    assert (Hsub : forall r, r ∈ nsec_records doe -> nsec_pair r ∈ chain_pairs apex names).
    { intros r' Hr'. apply Hp, list_elem_of_fmap. eauto. }
    assert (Hne : forall n, n ∈ names -> canonicalCmp n qname <> 0%Z).
    { intros n Hn. rewrite <- cmp_canonical_r. by eapply nsec_covers_none. }
    split; [|done]. apply andb_true_iff in Hc as [Ho _]. bool_facts.
    rewrite cmp_canonical_r in Ho.
    apply list_elem_of_In, Hsub in Hr.
    assert (Hown : Name (NSEC_Hdr r) ∈ names) by (eapply chain_pairs_gap; [apply Hz|apply Hr]).
    destruct (canonical_trichotomy apex (Name (NSEC_Hdr r))) as [Hlt|[Heq|Hlt]].
    + by eapply canonical_lt_trans.
    + unfold canonical_lt. rewrite canonicalCmp_key in *. apply key_cmp_eq in Heq. by rewrite Heq.
    + exfalso. by eapply apex_least.
  - intros [Hlt Hne]. pose proof Hz as [[rest Hrest] Hs Hcan]. rewrite Hrest in Hs, Hne.
    destruct (chain_covers apex apex rest qname Hs Hlt) as (o & x & Hin & Ho & Hx); [set_solver|].
    rewrite <- Hrest in Hin. apply Hp, list_elem_of_fmap in Hin as (r & Hr & Hin).
    apply existsb_exists. exists r. split; [by apply list_elem_of_In|].
    unfold nsec_pair in Hr. simplify_eq. unfold Nsec.covers.
    rewrite cmp_canonical_r, bool_decide_true by done. simpl. apply orb_true_iff.
    destruct Hx as [Hx|Hx]; [left|right]; apply bool_decide_eq_true.
    + rewrite Hx. by apply Forall_inv in Hcan.
    + rewrite cmp_canonical_l. exact Hx.
Qed.
End nsec_proofs.

(** A zone with the names example., *.example. and z.example. *)
Module NsecExample.
Definition hdr (n : string) : RR_Header := mkHdr n TypeNSEC ClassINET 3600.
Definition names : list string := ["example."; "*.example."; "z.example."].
Definition records : list NSEC :=
  [mkNSEC (hdr "example.") "*.example." [TypeSOA; TypeNS];
   mkNSEC (hdr "*.example.") "z.example." [TypeA];
   mkNSEC (hdr "z.example.") "example." [TypeA]].
Definition doe : DenialOfExistenceNSEC := NewDenialOfExistenceNSEC "example." records.
End NsecExample.

(** The NSEC denial looks at one wildcard only, that of the parent of the
    query name.  In the zone {example., *.example., z.example.}, whose wildcard
    answers for a.b.example., the zone's own records make the code accept that
    a.b.example. does not exist, and make it refuse the wildcard expansion. *)
Theorem nsec_denies_wildcard_name :
  (forall r, r ∈ nsec_records NsecExample.doe ->
     nsec_pair r ∈ chain_pairs "example." NsecExample.names) /\
  "*.example." ∈ NsecExample.names /\
  @Nsec.PerformQNameDoesNotExistProof refLib NsecExample.doe "a.b.example." = true /\
  @Nsec.PerformExpandedWildcardProof refLib NsecExample.doe "a.b.example." = false.
Proof.
  split_and!; [|set_solver|vm_compute; reflexivity..].
  intros r Hr. repeat (apply elem_of_cons in Hr as [->|Hr]); set_solver.
Qed.

(** ** NSEC3 *)

Section nsec3_proofs.
Context `{L : DnsLib}.

(** The record may prove a closest encloser: no DNAME, and NS only at an apex. *)
Definition eligible (r : NSEC3) : bool :=
  negb (slices_Contains (NSEC3_TypeBitMap r) TypeDNAME)
  && (negb (slices_Contains (NSEC3_TypeBitMap r) TypeNS)
      || slices_Contains (NSEC3_TypeBitMap r) TypeSOA).

(** The [k]-th suffix of [qname] and all longer ones lie in the zone. *)
Definition in_zone (zone qname : string) (k : nat) : Prop :=
  forall j i, j <= k -> dns_Split qname !! j = Some i ->
    dns_IsSubDomain zone (str_drop i qname) = true.

(** The suffix one label longer than the [k]-th, or the name itself. *)
Definition next_closer (qname : string) (k : nat) : string :=
  match k with
  | O => qname
  | S k' => str_drop (default 0 (dns_Split qname !! k')) qname
  end.

Lemma contender_loop_cons zone qname r i idxs last :
  Nsec3.contender_loop zone qname r (i :: idxs) last =
  if dns_IsSubDomain zone (str_drop i qname) then
    if dns_NSEC3_Match r (str_drop i qname) then
      if eligible r then Some (str_drop i qname, str_drop last qname)
      else Nsec3.contender_loop zone qname r idxs last
    else Nsec3.contender_loop zone qname r idxs i
  else None.
Proof.
  simpl. unfold eligible.
  destruct (dns_IsSubDomain _ _), (dns_NSEC3_Match _ _); simpl; try done.
  by destruct (slices_Contains _ TypeDNAME), (slices_Contains _ TypeNS),
    (slices_Contains _ TypeSOA).
Qed.

Lemma contender_loop_ineligible zone qname r idxs last :
  eligible r = false -> Nsec3.contender_loop zone qname r idxs last = None.
Proof.
  intros He. revert last; induction idxs as [|i idxs IH]; intros last; [done|].
  rewrite contender_loop_cons, He. case_tests; auto.
Qed.

Lemma contender_loop_spec zone qname r idxs last ce ncn :
  Nsec3.contender_loop zone qname r idxs last = Some (ce, ncn) ->
  eligible r = true /\
  exists k i, idxs !! k = Some i /\ ce = str_drop i qname /\
    dns_NSEC3_Match r ce = true /\
    (forall j i', j <= k -> idxs !! j = Some i' ->
       dns_IsSubDomain zone (str_drop i' qname) = true) /\
    ncn = str_drop (match k with O => last | S k' => default 0 (idxs !! k') end) qname.
Proof.
  destruct (eligible r) eqn:He; [|by rewrite contender_loop_ineligible].
  intros H. split; [done|]. revert last H.
  induction idxs as [|i idxs IH]; intros last; [done|].
  rewrite contender_loop_cons, He. case_tests.
  - intros [= <- <-]. exists 0, i. split_and!; try done.
    intros j i' Hj Hi. assert (j = 0) as -> by lia. by simplify_eq/=.
  - intros (k & i0 & Hk & -> & Hmatch & Hin & ->)%IH.
    exists (S k), i0. split_and!; try done.
    + intros [|j] i' Hj Hi; simplify_eq/=; [done|]. apply (Hin j); [lia|done].
    + by destruct k.
Qed.

Lemma contender_loop_complete zone qname r idxs last k i :
  eligible r = true -> idxs !! k = Some i ->
  dns_NSEC3_Match r (str_drop i qname) = true ->
  (forall j i', j <= k -> idxs !! j = Some i' ->
     dns_IsSubDomain zone (str_drop i' qname) = true) ->
  StronglySorted lt idxs ->
  exists i' ncn, Nsec3.contender_loop zone qname r idxs last = Some (str_drop i' qname, ncn) /\
    i' <= i.
Proof.
  intros He. revert last k; induction idxs as [|i0 idxs IH]; intros last k Hk Hm Hz Hs; [done|].
  rewrite contender_loop_cons, He, (Hz 0 i0) by (done || lia).
  apply StronglySorted_inv in Hs as [Hs Hall]. rewrite Forall_forall in Hall.
  destruct k as [|k]; simplify_eq/=.
  - rewrite Hm. eauto.
  - case_tests.
    + exists i0. eexists. split; [done|].
      apply list_elem_of_lookup_2 in Hk. specialize (Hall _ Hk). lia.
    + apply (IH i0 k Hk Hm); [|done]. intros j i' Hj Hi. apply (Hz (S j)); [lia|done].
Qed.

Lemma elem_of_contenders zone qname records c :
  c ∈ Nsec3.contenders zone qname records <->
  exists r, r ∈ records /\ Nsec3.contender_loop zone qname r (dns_Split qname) 0 = Some c.
Proof.
  induction records as [|r records IH]; simpl; [set_solver|].
  destruct (Nsec3.contender_loop zone qname r (dns_Split qname) 0) eqn:E;
    rewrite ?elem_of_cons, IH; setoid_rewrite elem_of_cons; naive_solver.
Qed.

Lemma longest_spec c rest :
  Nsec3.longest c rest ∈ c :: rest /\
  forall c', c' ∈ c :: rest ->
    String.length (fst c') <= String.length (fst (Nsec3.longest c rest)).
Proof.
  revert c; induction rest as [|d rest IH]; intros c; simpl.
  - split; [set_solver|]. intros c' ->%list_elem_of_singleton. lia.
  - destruct (IH (if bool_decide (String.length c.1 < String.length d.1) then d else c))
      as [Hin Hmax].
    split; [case_bool_decide; set_solver|].
    assert (Hcd : forall c', c' ∈ c :: d :: rest -> String.length c'.1 <=
      String.length (if bool_decide (String.length c.1 < String.length d.1) then d else c).1
      \/ c' ∈ rest).
    { intros c' [->|[->|?]%elem_of_cons]%elem_of_cons; case_bool_decide; auto; left; lia. }
    intros c' [Hc'|Hc']%Hcd; [|apply Hmax; set_solver].
    etrans; [exact Hc'|]. apply Hmax. set_solver.
Qed.

(** C33: [FindClosestEncloser] returns the longest ancestor of the query name
    that an eligible record of the zone matches, together with the name one
    label longer, and returns nothing only when there is no such ancestor. *)
Theorem closest_encloser_spec `{!DnsLaws L} doe qname :
  match Nsec3.FindClosestEncloser doe qname with
  | Some (ce, ncn) =>
      (exists r k i, r ∈ nsec3_records doe /\ eligible r = true /\
         dns_Split qname !! k = Some i /\ in_zone (nsec3_zone doe) qname k /\
         ce = str_drop i qname /\ dns_NSEC3_Match r ce = true /\
         ncn = next_closer qname k) /\
      (forall r k i, r ∈ nsec3_records doe -> eligible r = true ->
         dns_Split qname !! k = Some i -> in_zone (nsec3_zone doe) qname k ->
         dns_NSEC3_Match r (str_drop i qname) = true ->
         String.length (str_drop i qname) <= String.length ce)
  | None =>
      forall r k i, r ∈ nsec3_records doe -> eligible r = true ->
        dns_Split qname !! k = Some i -> in_zone (nsec3_zone doe) qname k ->
        dns_NSEC3_Match r (str_drop i qname) = false
  end.
Proof.
  unfold Nsec3.FindClosestEncloser.
  assert (Hcompl : forall r k i, r ∈ nsec3_records doe -> eligible r = true ->
    dns_Split qname !! k = Some i -> in_zone (nsec3_zone doe) qname k ->
    dns_NSEC3_Match r (str_drop i qname) = true ->
    exists c, c ∈ Nsec3.contenders (nsec3_zone doe) qname (nsec3_records doe) /\
      String.length (str_drop i qname) <= String.length (fst c)).
  { intros r k i Hr He Hk Hz Hm.
    destruct (contender_loop_complete (nsec3_zone doe) qname r (dns_Split qname) 0 k i)
      as (i' & ncn & Hloop & Hi); try done; [apply split_sorted|].
    exists (str_drop i' qname, ncn). split; [apply elem_of_contenders; eauto|].
    simpl. rewrite !str_drop_length. lia. }
  pose proof (elem_of_contenders (nsec3_zone doe) qname (nsec3_records doe)) as Hmem.
  destruct (Nsec3.contenders _ _ _) as [|c rest].
  - intros r k i Hr He Hk Hz. apply not_true_iff_false. intros Hm.
    destruct (Hcompl r k i Hr He Hk Hz Hm) as (c & Hc & _). set_solver.
  - destruct (longest_spec c rest) as [Hin Hmax].
    destruct (Nsec3.longest c rest) as [ce ncn]. split.
    + apply Hmem in Hin as (r & Hr & Hloop).
      apply contender_loop_spec in Hloop as (He & k & i & Hk & -> & Hm & Hz & ->).
      exists r, k, i. split_and!; try done. destruct k; [apply str_drop_0|done].
    + intros r k i Hr He Hk Hz Hm. destruct (Hcompl r k i Hr He Hk Hz Hm) as (c' & Hc' & Hl).
      etrans; [exact Hl|]. by apply Hmax.
Qed.

(** [PerformExpandedWildcardProof] indexes the label list by the
    signature's label count and panics exactly when that count is 0 or not
    below the number of labels of the owner name. *)
Theorem expanded_wildcard_panics doe name labels :
  is_panic (Nsec3.PerformExpandedWildcardProof doe name labels) =
  negb (bool_decide (1 <= labels < Z.of_nat (length (dns_Split name)))%Z).
Proof.
  unfold Nsec3.PerformExpandedWildcardProof.
  set (n := Z.of_nat (length (dns_Split name))).
  pose proof (go_index_panics (dns_Split name) (n - labels)) as H1.
  pose proof (go_index_panics (dns_Split name) (n - labels - 1)) as H2.
  fold n in H1, H2. cbn zeta.
  destruct (go_index (dns_Split name) (n - labels)) as [i|p]; cbn [is_panic] in H1; cycle 1.
  - cbn. symmetry. apply negb_true_iff, bool_decide_eq_false. intros H.
    assert (true = false) by (apply H1; lia). done.
  - rewrite ret_bind.
    destruct (go_index (dns_Split name) (n - labels - 1)) as [j|p]; cbn [is_panic] in H2.
    + rewrite ret_bind. destruct (Nsec3.verifyNextCloserNameCovered _ _). cbn.
      symmetry. apply negb_false_iff, bool_decide_eq_true.
      pose proof (proj1 H1 eq_refl). pose proof (proj1 H2 eq_refl). lia.
    + cbn. symmetry. apply negb_true_iff, bool_decide_eq_false. intros H.
      assert (true = false) by (apply H2; lia). done.
Qed.
End nsec3_proofs.

(** ** Witnesses: the theorems at concrete inputs *)

Lemma NsecExample_zone : @zone_names refLib "example." NsecExample.names.
Proof.
  split.
  - by eexists.
  - repeat constructor.
  - repeat constructor.
Qed.

Lemma NsecExample_chain p :
  p ∈ map nsec_pair (nsec_records NsecExample.doe) <-> p ∈ chain_pairs "example." NsecExample.names.
Proof. done. Qed.

Lemma NsecExample_records r : r ∈ nsec_records NsecExample.doe ->
  nsec_pair r ∈ chain_pairs "example." NsecExample.names.
Proof.
  intros Hr. apply (proj1 (NsecExample_chain (nsec_pair r))).
  apply list_elem_of_fmap. eauto.
Qed.

Lemma nsec_nxdomain_sound_witness :
  @canonicalCmp refLib "z.example." "a.b.example." <> 0%Z /\
  @canonicalCmp refLib "z.example." "*.b.example." <> 0%Z.
Proof.
  apply (@nsec_nxdomain_sound refLib refLaws "example." NsecExample.names NsecExample.doe
    "a.b.example.").
  - apply NsecExample_zone.
  - reflexivity.
  - apply NsecExample_records.
  - vm_compute. reflexivity.
  - set_solver.
Defined.

Lemma nsec_full_chain_exact_witness :
  @Nsec.verifyQNameCovered refLib NsecExample.doe "b.example." = true /\
  forall n, n ∈ NsecExample.names -> @canonicalCmp refLib n "b.example." <> 0%Z.
Proof.
  assert (Hc : @Nsec.verifyQNameCovered refLib NsecExample.doe "b.example." = true)
    by (vm_compute; reflexivity).
  split; [exact Hc|].
  apply (@nsec_full_chain_exact refLib refLaws "example." NsecExample.names NsecExample.doe
    "b.example." NsecExample_zone eq_refl NsecExample_chain).
  exact Hc.
Defined.

(** The NSEC3 records of the zone example., whose only name is the apex. *)
Module Nsec3Example.
Definition record : NSEC3 :=
  mkNSEC3 (mkHdr "example." TypeNSEC3 ClassINET 3600) SHA1 0 0 "" "example." [TypeSOA; TypeNS].
Definition doe : DenialOfExistenceNSEC3 := NewDenialOfExistenceNSEC3 "example." [record].
End Nsec3Example.

Lemma closest_encloser_spec_witness :
  @Nsec3.FindClosestEncloser refLib Nsec3Example.doe "a.b.example." =
    Some ("example.", "b.example.") /\
  exists r k i, r ∈ nsec3_records Nsec3Example.doe /\ eligible r = true /\
    @dns_Split refLib "a.b.example." !! k = Some i /\
    @next_closer refLib "a.b.example." k = "b.example.".
Proof.
  pose proof (@closest_encloser_spec refLib refLaws Nsec3Example.doe "a.b.example.") as H.
  assert (E : @Nsec3.FindClosestEncloser refLib Nsec3Example.doe "a.b.example." =
    Some ("example.", "b.example.")) by (vm_compute; reflexivity).
  rewrite E in H. destruct H as [(r & k & i & Hr & He & Hk & _ & _ & _ & Hn) _].
  split; [exact E|]. exists r, k, i. repeat split; try assumption. symmetry. exact Hn.
Defined.
