(* ===== verification/Denial.v ===== *)
(** * What a denial of existence rests on

    The checks of package doe return booleans.  Here is what they mean in terms
    of the NSEC and NSEC3 records they were given: which record shows that a
    name has no data of a type, or that a name lies in a gap. *)

From S2P Require Import Prelude GoErrors Dns Doe.

Lemma slices_Contains_false s t : slices_Contains s t = false <-> t ∉ s.
Proof.
  unfold slices_Contains. rewrite <- not_true_iff_false, existsb_exists.
  setoid_rewrite <- list_elem_of_In. split.
  - intros H Ht. apply H. exists t. split; [done|apply Z.eqb_refl].
  - intros H (x & Hx & ->%Z.eqb_eq). done.
Qed.

Lemma any_type_in_false bitmap types : any_type_in bitmap types = false <-> Forall (fun t => t ∉ bitmap) types.
Proof.
  unfold any_type_in. rewrite Forall_forall, <- not_true_iff_false, existsb_exists. setoid_rewrite <- list_elem_of_In. split.
  - intros H t Ht. apply slices_Contains_false, not_true_iff_false. intros Hc. apply H. by exists t.
  - intros H (t & Ht & Hc). by rewrite (proj2 (slices_Contains_false bitmap t) (H t Ht)) in Hc.
Qed.

(** What the two loops over type bitmaps compute, on records that may own the
    name and have a bitmap. *)
Definition bitmap_result {R} (own : R -> bool) (bitmap : R -> list Z) (types : list Z) (records : list R)
    (seen : bool) : bool * bool :=
  (seen || existsb own records, existsb (fun r => own r && any_type_in (bitmap r) types) records).

(** Some record owns the name, and none that does lists one of the types. *)
Definition lacks {R} (own : R -> Prop) (bitmap : R -> list Z) (records : list R) (types : list Z) : Prop :=
  (exists r, r ∈ records /\ own r) /\ forall r, r ∈ records -> own r -> Forall (fun t => t ∉ bitmap r) types.

Lemma bitmap_result_spec {R} (own : R -> bool) (own' : R -> Prop) bitmap types records :
  (forall r, own r = true <-> own' r) ->
  bitmap_result own bitmap types records false = (true, false) <-> lacks own' bitmap records types.
Proof.
  intros Ho. unfold bitmap_result, lacks. cbn. rewrite pair_equal_spec, <- not_true_iff_false, !existsb_exists.
  setoid_rewrite <- list_elem_of_In. setoid_rewrite Ho. split; intros [H1 H2]; (split; [exact H1|]).
  - intros r Hr Hn. apply any_type_in_false, not_true_iff_false. intros Ha. apply H2. exists r.
    by rewrite andb_true_iff, Ho.
  - intros (r & Hr & [Hn Ha]%andb_true_iff). apply Ho in Hn. specialize (H2 r Hr Hn).
    apply any_type_in_false in H2. congruence.
Qed.

(** ** NSEC *)

Section nsec.
Context `{L : DnsLib}.

(** [r] is the record of [name]. *)
Definition nsec_of_name (name : string) (r : NSEC) : Prop := name = dns_CanonicalName (Name (NSEC_Hdr r)).
#[export] Instance nsec_of_name_dec name r : Decision (nsec_of_name name r).
Proof. unfold nsec_of_name. apply _. Defined.

Definition nsec_lacks (records : list NSEC) (name : string) (types : list Z) : Prop :=
  lacks (nsec_of_name name) NSEC_TypeBitMap records types.

(** The name lies between the owner and the next name of a record; the last
    record of a zone has the zone for next name. *)
Definition nsec_gap (zone : string) (records : list NSEC) (name : string) : Prop :=
  exists r, r ∈ records /\ canonical_lt (Name (NSEC_Hdr r)) name /\
    (dns_CanonicalName (NSEC_NextDomain r) = zone \/ canonical_lt name (NSEC_NextDomain r)).

Lemma nsec_bitmap_result records name types seen : Nsec.TypeBitMap_loop records name types seen =
  bitmap_result (fun r => bool_decide (nsec_of_name name r)) NSEC_TypeBitMap types records seen.
Proof.
  unfold bitmap_result, nsec_of_name. revert seen; induction records as [|r records IH]; intros seen; cbn; [by rewrite orb_false_r|].
  destruct (decide (name = dns_CanonicalName (Name (NSEC_Hdr r)))) as [Hn|Hn].
  - rewrite (bool_decide_false (name <> _)), (bool_decide_true (name = _)) by tauto. rewrite IH.
    destruct (any_type_in _ _); cbn; by rewrite ?orb_true_r.
  - rewrite (bool_decide_true (name <> _)), (bool_decide_false (name = _)) by done. by rewrite IH.
Qed.

Lemma nsec_lacks_spec doe name types :
  Nsec.TypeBitMapContainsAnyOf doe name types = (true, false) <-> nsec_lacks (nsec_records doe) name types.
Proof.
  unfold Nsec.TypeBitMapContainsAnyOf. rewrite nsec_bitmap_result. apply bitmap_result_spec. intros r. apply bool_decide_eq_true.
Qed.

Lemma nsec_gap_spec zone records name :
  existsb (fun r => Nsec.covers zone r name) records = true <-> nsec_gap zone records name.
Proof.
  rewrite existsb_exists. unfold nsec_gap, Nsec.covers, canonical_lt. setoid_rewrite <- list_elem_of_In.
  setoid_rewrite andb_true_iff. setoid_rewrite orb_true_iff. setoid_rewrite bool_decide_eq_true. done.
Qed.

(** A name that does not exist: neither it nor the wildcard beside it. *)
Definition nsec_denies_name (zone : string) (records : list NSEC) (qname : string) : Prop :=
  nsec_gap zone records (dns_CanonicalName qname) /\
  nsec_gap zone records (wildcardName (dns_CanonicalName qname)).

Lemma nsec_denies_spec doe qname : Nsec.PerformQNameDoesNotExistProof doe qname = true ->
  nsec_denies_name (nsec_zone doe) (nsec_records doe) qname.
Proof.
  unfold Nsec.PerformQNameDoesNotExistProof, Nsec.verifyQNameCovered, Nsec.verifyWildcardCovered.
  rewrite !andb_true_iff, !nsec_gap_spec. by intros (_ & ? & ?).
Qed.

Lemma nsec_expansion_spec doe qname : Nsec.PerformExpandedWildcardProof doe qname = true ->
  nsec_gap (nsec_zone doe) (nsec_records doe) (dns_CanonicalName qname).
Proof.
  unfold Nsec.PerformExpandedWildcardProof, Nsec.verifyQNameCovered. rewrite !andb_true_iff, nsec_gap_spec. tauto.
Qed.
End nsec.

(** ** NSEC3 *)

Section nsec3.
Context `{L : DnsLib}.

Definition nsec3_lacks (records : list NSEC3) (name : string) (types : list Z) : Prop :=
  lacks (fun r => dns_NSEC3_Match r name = true) NSEC3_TypeBitMap records types.

(** A record covers the hash of the name, and none has it for owner. *)
Definition nsec3_gap (records : list NSEC3) (name : string) : Prop :=
  (exists r, r ∈ records /\ dns_NSEC3_Cover r name = true) /\
  forall r, r ∈ records -> dns_NSEC3_Match r name = false.

Lemma nsec3_bitmap_result records name types seen : Nsec3.TypeBitMap_loop records name types seen =
  bitmap_result (fun r => dns_NSEC3_Match r name) NSEC3_TypeBitMap types records seen.
Proof.
  unfold bitmap_result. revert seen; induction records as [|r records IH]; intros seen; cbn; [by rewrite orb_false_r|].
  destruct (dns_NSEC3_Match r name); cbn; [|by rewrite IH]. rewrite IH.
  destruct (any_type_in _ _); cbn; by rewrite ?orb_true_r.
Qed.

Lemma nsec3_lacks_spec doe name types :
  Nsec3.TypeBitMapContainsAnyOf doe name types = (true, false) <-> nsec3_lacks (nsec3_records doe) name types.
Proof. unfold Nsec3.TypeBitMapContainsAnyOf. rewrite nsec3_bitmap_result. by apply bitmap_result_spec. Qed.

Lemma wildcard_loop_gap records name b : Nsec3.wildcardCovered_loop records name b = true ->
  (b = true \/ exists r, r ∈ records /\ dns_NSEC3_Cover r name = true) /\
  forall r, r ∈ records -> dns_NSEC3_Match r name = false.
Proof.
  revert b; induction records as [|r records IH]; intros b; cbn.
  { intros ->. split; [by left|]. intros r Hr. by apply not_elem_of_nil in Hr. }
  destruct (dns_NSEC3_Match r name) eqn:Em; [done|]. intros [Hc Hm]%IH.
  setoid_rewrite elem_of_cons. split; [|naive_solver].
  destruct (dns_NSEC3_Cover r name) eqn:Ec; naive_solver.
Qed.

Lemma next_closer_loop_gap records name oo b oo' : Nsec3.nextCloser_loop records name oo b = (oo', true) ->
  (b = true \/ exists r, r ∈ records /\ dns_NSEC3_Cover r name = true) /\
  (forall r, r ∈ records -> dns_NSEC3_Match r name = false) /\
  (oo' = true -> oo = true \/ exists r, r ∈ records /\ dns_NSEC3_Cover r name = true /\ NSEC3_Flags r = 1%Z).
Proof.
  revert oo b; induction records as [|r records IH]; intros oo b; cbn.
  { intros [= -> ->]. split_and!; [by left| |by left]. intros r Hr. by apply not_elem_of_nil in Hr. }
  destruct (dns_NSEC3_Match r name) eqn:Em; [done|]. setoid_rewrite elem_of_cons.
  destruct (dns_NSEC3_Cover r name) eqn:Ec; intros (Hc & Hm & Ho)%IH; (split_and!; [naive_solver..|]); [|naive_solver].
  intros Hoo. destruct (Ho Hoo) as [Hor|(r' & ? & ?)]; [|by right; exists r'; auto].
  apply orb_true_iff in Hor as [->|Hf]; [by left|]. bool_facts. right. exists r. auto.
Qed.

(** Without a cover nothing is opted out. *)
Lemma next_closer_loop_out records name oo b oo' b' : Nsec3.nextCloser_loop records name oo b = (oo', b') ->
  (oo = true -> b = true) -> oo' = true -> b' = true.
Proof.
  revert oo b; induction records as [|r records IH]; intros oo b; cbn; [by intros [= <- <-]|].
  destruct (dns_NSEC3_Match r name); [by intros [= <- <-]|].
  destruct (dns_NSEC3_Cover r name); intros H Hb; (eapply IH; [exact H|]); auto.
Qed.

(** A name that does not exist: its closest encloser does, the next closer name
    lies in a gap, and the wildcard of the encloser does too or, at least, has
    nothing of the types. *)
Definition nsec3_denies_name (doe : DenialOfExistenceNSEC3) (qname : string) (types : list Z) : Prop :=
  exists ce nc, Nsec3.FindClosestEncloser doe qname = Some (ce, nc) /\ nsec3_gap (nsec3_records doe) nc /\
    (nsec3_gap (nsec3_records doe) ("*." +:+ ce) \/ nsec3_lacks (nsec3_records doe) ("*." +:+ ce) types).

(** The closest encloser of the name exists, and the next closer name is in a
    gap that an opt-out record covers. *)
Definition nsec3_opts_out (doe : DenialOfExistenceNSEC3) (name : string) : Prop :=
  exists ce nc r, Nsec3.FindClosestEncloser doe name = Some (ce, nc) /\ nsec3_gap (nsec3_records doe) nc /\
    r ∈ nsec3_records doe /\ dns_NSEC3_Cover r nc = true /\ NSEC3_Flags r = 1%Z.

Lemma closest_encloser_proof_spec doe name : let p := Nsec3.PerformClosestEncloserProof doe name in
  (Nsec3.closestEncloserProof p = true -> exists ce nc, Nsec3.FindClosestEncloser doe name = Some (ce, nc) /\
     (Nsec3.nextCloserNameProof p = true -> nsec3_gap (nsec3_records doe) nc) /\
     (Nsec3.wildcardProof p = true -> nsec3_gap (nsec3_records doe) ("*." +:+ ce))) /\
  (Nsec3.optedOut p = true -> nsec3_opts_out doe name).
Proof.
  unfold Nsec3.PerformClosestEncloserProof, nsec3_opts_out. destruct (nsec3_Empty doe); [done|].
  destruct (Nsec3.FindClosestEncloser doe name) as [[ce nc]|]; [|done].
  destruct (Nsec3.verifyNextCloserNameCovered doe nc) as [oo ncn] eqn:En. cbn. split.
  - intros _. exists ce, nc. split_and!; [done| |].
    + intros ->. apply next_closer_loop_gap in En as ([?|?] & ? & _); done.
    + intros Hw. apply wildcard_loop_gap in Hw as ([?|?] & ?); done.
  - intros ->. assert (ncn = true) as -> by (by eapply next_closer_loop_out).
    pose proof En as (_ & _ & Ho)%next_closer_loop_gap. apply next_closer_loop_gap in En as ([?|Hc] & Hm & _); [done|].
    destruct (Ho eq_refl) as [?|(r & ? & ? & ?)]; [done|]. by exists ce, nc, r.
Qed.

(** The wildcard of an expansion: some ancestor of the owner lies in a gap. *)
Lemma nsec3_expansion_spec doe name labels : Nsec3.PerformExpandedWildcardProof doe name labels = Ret true ->
  exists i, i ∈ dns_Split name /\ nsec3_gap (nsec3_records doe) (str_drop i name).
Proof.
  unfold Nsec3.PerformExpandedWildcardProof. intros H. inv_bind.
  destruct (Nsec3.verifyNextCloserNameCovered doe _) as [oo ncn] eqn:En. inv_bind.
  match goal with Hr : _ && ncn = true |- _ => apply andb_true_iff in Hr as [_ ->] end.
  apply next_closer_loop_gap in En as ([?|Hc] & Hm & _); [done|]. eexists. split; [|split; [exact Hc|exact Hm]].
  match goal with Hi : go_index _ (_ - 1) = Ret _ |- _ => revert Hi; unfold go_index end.
  case_bool_decide; [|done]. destruct (_ !! _) eqn:El; [|done]. intros [= <-]. by eapply list_elem_of_lookup_2.
Qed.
End nsec3.
