(* ===== verification/Signatures.v ===== *)
(** * dnssec/signatures.go: signature sets and the two local policies

    Also dnssec/config.go (the package's configuration) and the [signature]
    struct of dnssec/types.go.  [RequireAllSignaturesValid], [MaxAllowedTTL] and
    [RootTrustAnchors] are package variables in Go; here they are the fields of
    the class [DnssecConfig], so that every theorem holds for each setting. *)

From S2P Require Import Prelude GoErrors Dns DnsRef DnssecFunctions.

(** ** dnssec/config.go *)

Definition DefaultRequireAllSignaturesValid : bool := false.
Definition DefaultMaxAllowedTTL : Z := (60 * 60 * 48)%Z.

Class DnssecConfig := {
  RootTrustAnchors : list DS;
  RequireAllSignaturesValid : bool;
  MaxAllowedTTL : Z
}.

(** The configuration the package starts with, given the anchors of the
    dnssec-root-anchors-go module. *)
Definition default_config (anchors : list DS) : DnssecConfig :=
  {| RootTrustAnchors := anchors;
     RequireAllSignaturesValid := DefaultRequireAllSignaturesValid;
     MaxAllowedTTL := DefaultMaxAllowedTTL |}.

(** ** The [signature] struct *)

Record signature := mkSignature {
  sig_zone : string;
  sig_name : string;
  sig_rtype : Z;
  sig_ttl : Z;
  sig_key : option DNSKEY;
  sig_rrsig : RRSIG;
  sig_rrset : list RR;
  wildcard : bool;
  verified : bool;
  sig_err : option error;
  dsSha256 : string
}.

Abbreviation signatures := (list signature).

(** ** dnssec/signatures.go *)

Fixpoint filterOnType (ss : signatures) (rtype : Z) : signatures :=
  match ss with
  | [] => []
  | sig :: rest =>
      if bool_decide (sig_rtype sig = rtype) then sig :: filterOnType rest rtype
      else filterOnType rest rtype
  end.

(** The set of (name, type) pairs a list of keys inserts into a Go map. *)
Definition combination_set (l : list (string * Z)) : gset (string * Z) :=
  foldl (fun m c => {[ c ]} ∪ m) ∅ l.

Definition sig_combination (sig : signature) : string * Z := (sig_name sig, sig_rtype sig).

Definition countNameTypeCombinations (ss : signatures) : nat :=
  size (combination_set (map sig_combination ss)).

(** [fmt.Errorf("%w / %w", err, e)] *)
Definition slash_error (e1 e2 : error) : error := errorf_ww e1 " / " e2 "".

Record rrsetState := mkState { verifiedSigSeen : bool; state_err : option error }.

(** One pass of the loop that fills [states]. *)
Definition update_state (state : rrsetState) (s : signature) : rrsetState :=
  mkState
    (verifiedSigSeen state || verified s)
    (if negb (verified s) then
       match state_err state with
       | None =>
           match sig_err s with
           | None => Some (ESentinel ErrUnableToVerify)
           | Some e => Some e
           end
       | Some e0 =>
           match sig_err s with
           | None => Some (slash_error e0 (ESentinel ErrUnableToVerify))
           | Some e => Some (slash_error e0 e)
           end
       end
     else state_err state).

Definition states_of (ss : signatures) : gmap Z rrsetState :=
  foldl (fun states s =>
    let state := default (mkState false None) (states !! sig_rtype s) in
    <[ sig_rtype s := update_state state s ]> states) ∅ ss.

(** The body of the loop over [states] that builds the error. *)
Definition collect_error (err : option error) (entry : Z * rrsetState) : option error :=
  let '(rtype, state) := entry in
  if negb (verifiedSigSeen state) then
    let e := default (ESentinel ErrVerifyFailed) err in
    let se := default (ESentinel ErrUnableToVerify) (state_err state) in
    Some (EWrap [e; se]
      (Error e +:+ "  type " +:+ pretty rtype +:+ " = (" +:+ Error se +:+ ")"))
  else err.

Definition verifyOneOrMoreRRSigPerRRSet `{MapRange} (ss : signatures) : option error :=
  match ss with
  | [] => Some (ESentinel ErrSignatureSetEmpty)
  | [s] =>
      if verified s then None
      else match sig_err s with
           | Some err => Some (slash_error (ESentinel ErrVerifyFailed) err)
           | None => Some (slash_error (ESentinel ErrVerifyFailed) (ESentinel ErrUnableToVerify))
           end
  | _ => foldl collect_error None (map_range (states_of ss))
  end.

Definition verifyAllRRSigsPerRRSet (ss : signatures) : option error :=
  match ss with
  | [] => Some (ESentinel ErrSignatureSetEmpty)
  | _ =>
      foldl (fun err s =>
        if negb (verified s) then
          let e := default (ESentinel ErrVerifyFailed) err in
          match sig_err s with
          | Some se => Some (slash_error e se)
          | None => Some (slash_error e (ESentinel ErrUnableToVerify))
          end
        else err) None ss
  end.

(** [signatures.Verify] *)
Definition Verify `{MapRange} `{DnssecConfig} (ss : signatures) : option error :=
  if RequireAllSignaturesValid then verifyAllRRSigsPerRRSet ss
  else verifyOneOrMoreRRSigPerRRSet ss.

Definition Valid `{MapRange} `{DnssecConfig} (ss : signatures) : bool :=
  match Verify ss with None => true | Some _ => false end.

(** The records of one Go type in the RRsets of the signatures of one type. *)
Definition extract_from (T : Type) `{RRType T} (rtype : Z) (ss : signatures) : list T :=
  flat_map (fun s => extractRecords T (sig_rrset s)) (filterOnType ss rtype).

Definition extractDSRecords (ss : signatures) : list DS := extract_from DS TypeDS ss.
Definition extractNSECRecords (ss : signatures) : list NSEC := extract_from NSEC TypeNSEC ss.
Definition extractNSEC3Records (ss : signatures) : list NSEC3 := extract_from NSEC3 TypeNSEC3 ss.

(** * Theory *)

Lemma elem_of_combination_set l c : c ∈ combination_set l <-> c ∈ l.
Proof.
  unfold combination_set. cut (forall m : gset (string * Z), c ∈ foldl (fun m c => {[ c ]} ∪ m) m l <-> c ∈ m \/ c ∈ l).
  { intros ->. set_solver. }
  induction l as [|d l IH]; intros m; simpl; [set_solver|]. rewrite IH. set_solver.
Qed.

Lemma filterOnType_filter ss t : filterOnType ss t = filter (fun s => sig_rtype s = t) ss.
Proof.
  induction ss as [|s ss IH]; [done|]. rewrite filter_cons. simpl.
  case_bool_decide; case_decide; by rewrite ?IH.
Qed.

(** ** The lenient policy *)

(** What a pass over [ss] leaves in [states]. *)
Lemma states_of_snoc ss s :
  states_of (ss ++ [s]) =
  <[ sig_rtype s := update_state (default (mkState false None) (states_of ss !! sig_rtype s)) s ]>
    (states_of ss).
Proof. unfold states_of. by rewrite foldl_app. Qed.

Lemma states_of_lookup ss t :
  match states_of ss !! t with
  | Some st =>
      (exists s, s ∈ ss /\ sig_rtype s = t) /\
      (verifiedSigSeen st = true <-> exists s, s ∈ ss /\ sig_rtype s = t /\ verified s = true)
  | None => forall s, s ∈ ss -> sig_rtype s <> t
  end.
Proof.
  induction ss as [|s ss IH] using rev_ind; [set_solver|].
  rewrite states_of_snoc. destruct (decide (sig_rtype s = t)) as [<-|Hne].
  - rewrite lookup_insert_eq. split; [exists s; set_solver|]. simpl. rewrite orb_true_iff.
    destruct (states_of ss !! sig_rtype s) as [st|]; simpl.
    + destruct IH as [_ ->]. set_solver.
    + set_solver.
  - rewrite lookup_insert_ne by done.
    destruct (states_of ss !! t) as [st|]; [|set_solver].
    destruct IH as [Hex ->]. split; [set_solver|].
    split; intros (s' & Hs' & Ht & Hv); exists s'; set_solver.
Qed.

Lemma collect_error_none l err :
  foldl collect_error err l = None <->
  err = None /\ forall t st, (t, st) ∈ l -> verifiedSigSeen st = true.
Proof.
  revert err; induction l as [|[t st] l IH]; intros err; simpl; [set_solver|].
  rewrite IH. unfold collect_error. destruct (verifiedSigSeen st) eqn:E; simpl.
  - split; intros [-> Hl]; (split; [done|]); intros t' st' Hin; [|by apply (Hl t'); right].
    apply elem_of_cons in Hin as [[= -> ->]|Hin]; [done|by eapply Hl].
  - split; [naive_solver|]. intros [-> Hl]. specialize (Hl t st). rewrite E in Hl.
    discriminate Hl. set_solver.
Qed.

(** Every record type that has a signature has a verified one. *)
Definition every_type_verified (ss : signatures) : Prop :=
  forall s, s ∈ ss -> exists s', s' ∈ ss /\ sig_rtype s' = sig_rtype s /\ verified s' = true.

Lemma states_all_verified `{MapRange} ss :
  foldl collect_error None (map_range (states_of ss)) = None <-> every_type_verified ss.
Proof.
  rewrite collect_error_none. setoid_rewrite map_range_perm.
  setoid_rewrite elem_of_map_to_list. split.
  - intros [_ Hl] s Hs. pose proof (states_of_lookup ss (sig_rtype s)) as Hst.
    destruct (states_of ss !! sig_rtype s) as [st|] eqn:E; [|by apply Hst in Hs].
    apply Hst. by eapply Hl.
  - intros Hev. split; [done|]. intros t st Hst. pose proof (states_of_lookup ss t) as Hl.
    rewrite Hst in Hl. destruct Hl as [(s & Hs & <-) ->]. by apply Hev.
Qed.

Lemma verifyOneOrMore_none `{MapRange} ss :
  verifyOneOrMoreRRSigPerRRSet ss = None <-> ss <> [] /\ every_type_verified ss.
Proof.
  destruct ss as [|s [|s' ss]]; [naive_solver| |].
  - assert (Hone : every_type_verified [s] <-> verified s = true).
    { unfold every_type_verified. split.
      - intros Hev. destruct (Hev s) as (s' & ->%list_elem_of_singleton & _ & Hv); set_solver.
      - intros Hv s' ->%list_elem_of_singleton. exists s. set_solver. }
    rewrite Hone. simpl. destruct (verified s), (sig_err s); naive_solver.
  - rewrite <- states_all_verified. simpl. naive_solver.
Qed.

Lemma verifyAll_none ss :
  verifyAllRRSigsPerRRSet ss = None <-> ss <> [] /\ Forall (fun s => verified s = true) ss.
Proof.
  destruct ss as [|s0 ss0]; [naive_solver|]. set (ss := s0 :: ss0).
  unfold verifyAllRRSigsPerRRSet. set (f := fun (err : option error) (s : signature) => _).
  assert (Hf : forall l err, foldl f err l = None <->
    err = None /\ Forall (fun s => verified s = true) l).
  { induction l as [|s l IH]; intros err; simpl; [naive_solver|].
    rewrite IH, Forall_cons. unfold f. destruct (verified s), (sig_err s); naive_solver. }
  change (foldl f None ss = None <-> ss <> [] /\ Forall (fun s => verified s = true) ss).
  rewrite (Hf ss None). naive_solver.
Qed.

(** [signatures.Verify] accepts a set exactly when it is not empty and,
    under the strict policy, every signature is verified; under the default
    policy, every record type in the set has a verified signature.  The strict
    policy accepts no more than the default one. *)
Theorem Verify_spec `{MapRange} `{Cfg : DnssecConfig} ss :
  (Verify ss = None <->
    ss <> [] /\
    if RequireAllSignaturesValid then Forall (fun s => verified s = true) ss
    else every_type_verified ss) /\
  (verifyAllRRSigsPerRRSet ss = None -> verifyOneOrMoreRRSigPerRRSet ss = None).
Proof.
  split.
  - unfold Verify. destruct RequireAllSignaturesValid;
      [apply verifyAll_none | apply verifyOneOrMore_none].
  - rewrite verifyAll_none, verifyOneOrMore_none. intros [Hne Hall]. split; [done|].
    rewrite Forall_forall in Hall. intros s Hs. exists s. auto.
Qed.
