(* ===== verification/AuthenticateRRset.v ===== *)
(** * dnssec/authenticate_rrset.go: matching RRSIGs with their RRsets and keys

    [time.Now] is an input: [clock i] gives the instants of the two readings
    made in the iteration for the [i]-th RRSIG. *)

From S2P Require Import Prelude GoErrors Dns DnsRef DnssecConst DnssecFunctions Signatures.

(** dnssec/const.go *)
Definition year68 : Z := (2 ^ 31)%Z.

Section authenticate.
Context `{L : DnsLib}.

(** The signature as it is built before any test. *)
Definition new_signature (zone : string) (rrsets : list RR) (rrsig : RRSIG) : signature :=
  {| sig_zone := zone;
     sig_name := Name (RRSIG_Hdr rrsig);
     sig_rtype := TypeCovered rrsig;
     sig_ttl := Z.min (Ttl (RRSIG_Hdr rrsig)) (OrigTtl rrsig);
     sig_key := None;
     sig_rrsig := rrsig;
     sig_rrset := extractRecordsOfNameAndType rrsets (Name (RRSIG_Hdr rrsig)) (TypeCovered rrsig);
     wildcard := false;
     verified := false;
     sig_err := None;
     dsSha256 := "" |}.

Definition set_sig_err (e : option error) (s : signature) : signature :=
  mkSignature (sig_zone s) (sig_name s) (sig_rtype s) (sig_ttl s) (sig_key s) (sig_rrsig s)
    (sig_rrset s) (wildcard s) (verified s) e (dsSha256 s).
Definition set_sig_wildcard_ttl (w : bool) (ttl : Z) (s : signature) : signature :=
  mkSignature (sig_zone s) (sig_name s) (sig_rtype s) ttl (sig_key s) (sig_rrsig s)
    (sig_rrset s) w (verified s) (sig_err s) (dsSha256 s).
Definition set_sig_verified (k : DNSKEY) (ds : string) (s : signature) : signature :=
  mkSignature (sig_zone s) (sig_name s) (sig_rtype s) (sig_ttl s) (Some k) (sig_rrsig s)
    (sig_rrset s) (wildcard s) true None ds.

(** [uint32(te - utc)]: the seconds until the signature expires. *)
Definition remaining_validity (expiration utc : Z) : Z :=
  let mode := Z.quot (expiration - utc) year68 in
  let te := (expiration + mode * year68)%Z in
  uint32 (te - utc).

(** [sig.ttl] after the two limits are applied. *)
Definition limit_ttl (sig : signature) (utc : Z) : Z :=
  foldl (fun ttl rr => Z.min ttl (Ttl (Header rr)))
    (Z.min (sig_ttl sig) (remaining_validity (Expiration (sig_rrsig sig)) utc))
    (sig_rrset sig).

(** The condition under which a key is tried. *)
Definition key_matches (rrsig : RRSIG) (key : DNSKEY) : bool :=
  bool_decide (DNSKEY_Algorithm key = RRSIG_Algorithm rrsig)
  && bool_decide (dns_KeyTag key = RRSIG_KeyTag rrsig)
  && bool_decide (dns_CanonicalName (Name (DNSKEY_Hdr key)) =
                  dns_CanonicalName (SignerName rrsig)).

(** The loop over the keys; [key.ToDS(dns.SHA256).Digest] dereferences the
    DS record it computes. *)
Fixpoint try_keys (dnskeys : list DNSKEY) (sig : signature) : outcome signature :=
  match dnskeys with
  | [] => Ret sig
  | key :: rest =>
      if key_matches (sig_rrsig sig) key then
        match dns_Verify (sig_rrsig sig) key (sig_rrset sig) with
        | Some e =>
            try_keys rest
              (set_sig_err (Some (errorf_ww (ESentinel ErrInvalidSignature) ": " e "")) sig)
        | None =>
            match dns_ToDS key SHA256 with
            | Some ds => Ret (set_sig_verified key (Digest ds) sig)
            | None => Panic NilDereference
            end
        end
      else try_keys rest sig
  end.

Definition authenticate_sig (zone : string) (rrsets : list RR) (dnskeys : list DNSKEY)
    (times : Z * Z) (rrsig : RRSIG) : outcome signature :=
  let '(now, now') := times in
  let sig := new_signature zone rrsets rrsig in
  let owner := Name (RRSIG_Hdr rrsig) in
  if bool_decide (dns_CanonicalName zone <> dns_CanonicalName (SignerName rrsig)) then
    Ret (set_sig_err (Some (errorf_s ErrAuthSignerNameMismatch
           (": zone:[" +:+ zone +:+ "] SignerName:[" +:+ SignerName rrsig +:+ "]"))) sig)
  else if bool_decide (Z.of_nat (dns_CountLabel owner) < Labels rrsig)%Z then
    Ret (set_sig_err (Some (errorf_s ErrInvalidLabelCount
           (": owner name has " +:+ pretty (dns_CountLabel owner) +:+
            " labels and the rrsig labels field is " +:+ pretty (Labels rrsig)))) sig)
  else if negb (dns_ValidityPeriod rrsig now) then
    Ret (set_sig_err (Some (errorf_s ErrInvalidTime
           (": msg valid " +:+ dns_TimeToString (Inception rrsig) +:+ " to " +:+
            dns_TimeToString (Expiration rrsig)))) sig)
  else
    let w := bool_decide (Labels rrsig < Z.of_nat (dns_CountLabel owner))%Z in
    let utc := unix now' in
    sig ← try_keys dnskeys (set_sig_wildcard_ttl w (limit_ttl sig utc) sig);
    Ret (if negb (verified sig) && bool_decide (sig_err sig = None)
         then set_sig_err (Some (ESentinel ErrNoKeyFoundForSignature)) sig
         else sig).

Fixpoint authenticate_all (zone : string) (rrsets : list RR) (dnskeys : list DNSKEY)
    (clock : nat -> Z * Z) (i : nat) (rrsigs : list RRSIG) : outcome signatures :=
  match rrsigs with
  | [] => Ret []
  | rrsig :: rest =>
      sig ← authenticate_sig zone rrsets dnskeys (clock i) rrsig;
      sigs ← authenticate_all zone rrsets dnskeys clock (S i) rest;
      Ret (sig :: sigs)
  end.

(** The name and type pairs that must be signed. *)
Fixpoint rrset_combinations (sect : section) (ss : signatures) (rrsets : list RR) :
    list (string * Z) :=
  match rrsets with
  | [] => []
  | rrset :: rest =>
      if bool_decide (Rrtype (Header rrset) = TypeRRSIG)
      then rrset_combinations sect ss rest
      else if bool_decide (sect = authoritySection)
              && bool_decide (Rrtype (Header rrset) = TypeNS)
              && bool_decide (length (filterOnType ss TypeNS) = 0)
      then rrset_combinations sect ss rest
      else (Name (Header rrset), Rrtype (Header rrset)) :: rrset_combinations sect ss rest
  end.

Definition authenticate (zone : string) (rrsets : list RR) (dnskeys : list DNSKEY)
    (sect : section) (clock : nat -> Z * Z) : outcome (signatures * option error) :=
  let zone := dns_CanonicalName zone in
  let rrsigs := extractRecords RRSIG rrsets in
  sigs ← authenticate_all zone rrsets dnskeys clock 0 rrsigs;
  let combinations := combination_set (rrset_combinations sect sigs rrsets) in
  let err :=
    if bool_decide (size combinations <> countNameTypeCombinations sigs) then
      Some (errorf_s ErrUnexpectedSignatureCount
        (": we found " +:+ pretty (countNameTypeCombinations sigs) +:+ " signatures but "
         +:+ pretty (size combinations) +:+ " rrsets"))
    else None in
  Ret (sigs, err).
End authenticate.

(** * Theory *)

Section authenticate_facts.
Context `{L : DnsLib}.

(** What the loop over the keys never changes. *)
Definition same_cover (s s' : signature) : Prop :=
  sig_name s' = sig_name s /\ sig_rtype s' = sig_rtype s /\ sig_rrsig s' = sig_rrsig s /\
  sig_rrset s' = sig_rrset s /\ sig_ttl s' = sig_ttl s /\ wildcard s' = wildcard s.

(** The key validates the RRset under the signature. *)
Definition key_validates (sig : signature) (key : DNSKEY) : Prop :=
  key_matches (sig_rrsig sig) key = true /\
  dns_Verify (sig_rrsig sig) key (sig_rrset sig) = None.

Lemma try_keys_spec keys sig sig' :
  try_keys keys sig = Ret sig' -> verified sig = false ->
  same_cover sig sig' /\
  (verified sig' = true <-> exists k, k ∈ keys /\ key_validates sig k) /\
  (verified sig' = true -> exists k, k ∈ keys /\ key_validates sig k /\ sig_key sig' = Some k).
Proof.
  unfold same_cover.
  revert sig; induction keys as [|k keys IH]; intros sig H Hv; simpl in H.
  - simplify_eq. rewrite Hv, exists_elem_nil. naive_solver.
  - rewrite !exists_elem_cons. unfold key_validates at 1 3.
    destruct (key_matches (sig_rrsig sig) k) eqn:Hm;
      [destruct (dns_Verify (sig_rrsig sig) k (sig_rrset sig)) eqn:Hver|].
    + destruct (IH _ H Hv) as (Hs & Hi & Hk). simpl in *. split; [done|]. naive_solver.
    + destruct (dns_ToDS k SHA256); [|done]. simplify_eq. simpl. naive_solver.
    + destruct (IH _ H Hv) as (Hs & Hi & Hk). split; [done|]. naive_solver.
Qed.

(** The tests a signature passes before any key is tried. *)
Definition sig_admissible (zone : string) (now : Z) (rrsig : RRSIG) : Prop :=
  dns_CanonicalName zone = dns_CanonicalName (SignerName rrsig) /\
  (Labels rrsig <= Z.of_nat (dns_CountLabel (Name (RRSIG_Hdr rrsig))))%Z /\
  dns_ValidityPeriod rrsig now = true.

Lemma verified_if_no_key sig :
  verified (if negb (verified sig) && bool_decide (sig_err sig = None)
            then set_sig_err (Some (ESentinel ErrNoKeyFoundForSignature)) sig else sig)
  = verified sig /\
  sig_key (if negb (verified sig) && bool_decide (sig_err sig = None)
           then set_sig_err (Some (ESentinel ErrNoKeyFoundForSignature)) sig else sig)
  = sig_key sig /\
  same_cover sig
    (if negb (verified sig) && bool_decide (sig_err sig = None)
     then set_sig_err (Some (ESentinel ErrNoKeyFoundForSignature)) sig else sig).
Proof. unfold same_cover. by case_tests. Qed.

(** The three early exits leave an unverified signature. *)
Lemma authenticate_sig_cases zone rrsets keys now now' rrsig sig :
  authenticate_sig zone rrsets keys (now, now') rrsig = Ret sig ->
  let sig0 := new_signature zone rrsets rrsig in
  (~ sig_admissible zone now rrsig /\ same_cover sig0 sig /\ verified sig = false) \/
  (sig_admissible zone now rrsig /\
   exists sig1, try_keys keys (set_sig_wildcard_ttl
       (bool_decide (Labels rrsig < Z.of_nat (dns_CountLabel (Name (RRSIG_Hdr rrsig))))%Z)
       (limit_ttl sig0 (unix now')) sig0) = Ret sig1 /\
     verified sig = verified sig1 /\ sig_key sig = sig_key sig1 /\ same_cover sig1 sig).
Proof.
  unfold authenticate_sig, sig_admissible, same_cover. intros H.
  case_bool_decide as H1; [simplify_eq; left; naive_solver|].
  case_bool_decide as H2; [simplify_eq; left; split; [lia|done]|].
  destruct (dns_ValidityPeriod rrsig now) eqn:H3; simpl in H;
    [|simplify_eq; left; naive_solver].
  right. split; [split_and!; [done|lia|done]|].
  apply bind_ret_inv in H as (sig1 & Hk & [= <-]). exists sig1.
  destruct (verified_if_no_key sig1) as (-> & -> & Hc). done.
Qed.

Lemma authenticate_sig_verified zone rrsets keys now now' rrsig sig :
  authenticate_sig zone rrsets keys (now, now') rrsig = Ret sig -> verified sig = true ->
  sig_admissible zone now rrsig /\ sig_rrsig sig = rrsig /\
  exists k, sig_key sig = Some k /\ k ∈ keys /\ key_validates sig k.
Proof.
  intros H Hver. apply authenticate_sig_cases in H as
    [(_ & _ & Hv)|(Ha & sig1 & Hk & Hv & -> & Hc)]; [congruence|].
  apply try_keys_spec in Hk as (Hc1 & _ & Hx); [|done]. rewrite Hv in Hver.
  destruct (Hx Hver) as (k & Hin & Hval & ->). unfold key_validates in *.
  destruct Hc as (_ & _ & -> & -> & _). destruct Hc1 as (_ & _ & -> & -> & _).
  split_and!; [done|done|]. exists k. done.
Qed.

(** C21: a signature is marked verified exactly when the zone is its signer,
    its label count fits the owner name, it is inside its validity period
    and some matching key of the set validates the RRset; the key recorded
    is such a key. *)
Theorem sig_verified_iff zone rrsets keys now now' rrsig sig :
  authenticate_sig zone rrsets keys (now, now') rrsig = Ret sig ->
  sig_rrsig sig = rrsig /\
  sig_rrset sig = extractRecordsOfNameAndType rrsets (sig_name sig) (sig_rtype sig) /\
  (verified sig = true <->
    sig_admissible zone now rrsig /\ exists k, k ∈ keys /\ key_validates sig k) /\
  (verified sig = true ->
    exists k, sig_key sig = Some k /\ k ∈ keys /\ key_validates sig k).
Proof.
  intros H. apply authenticate_sig_cases in H as
    [(Hn & Hc & Hv)|(Ha & sig1 & Hk & Hv & Hkey & Hc)].
  - destruct Hc as (Hn1 & Ht1 & Hr1 & Hs1 & _). rewrite Hv, Hn1, Ht1, Hr1, Hs1. naive_solver.
  - apply try_keys_spec in Hk as (Hc1 & Hi & Hx); [|done].
    assert (Hsame : forall k, key_validates sig k <->
      key_validates (new_signature zone rrsets rrsig) k).
    { unfold key_validates. destruct Hc as (_ & _ & -> & -> & _).
      by destruct Hc1 as (_ & _ & -> & -> & _). }
    setoid_rewrite Hsame. rewrite Hv, Hkey.
    destruct Hc as (-> & -> & -> & -> & _). destruct Hc1 as (-> & -> & -> & -> & _).
    unfold key_validates in *. simpl in *. naive_solver.
Qed.

Lemma foldl_min_le {A} (f : A -> Z) l z :
  (foldl (fun ttl x => Z.min ttl (f x)) z l <= z)%Z /\
  forall x, x ∈ l -> (foldl (fun ttl x => Z.min ttl (f x)) z l <= f x)%Z.
Proof.
  revert z; induction l as [|y l IH]; intros z; simpl.
  - split; [lia|]. intros x Hx. by apply not_elem_of_nil in Hx.
  - destruct (IH (Z.min z (f y))) as [H1 H2]. split; [lia|].
    intros x [->|Hx]%elem_of_cons; [lia|]. by apply H2.
Qed.

Lemma remaining_validity_near exp utc :
  (0 <= exp - utc < 2 ^ 31)%Z -> remaining_validity exp utc = (exp - utc)%Z.
Proof.
  intros H. unfold remaining_validity, year68, uint32.
  rewrite Z.quot_small by lia. rewrite Z.mod_small; lia.
Qed.

(** Past the expiration the subtraction wraps. *)
Lemma remaining_validity_past exp utc :
  (- 2 ^ 31 < exp - utc < 0)%Z -> remaining_validity exp utc = (2 ^ 32 + (exp - utc))%Z.
Proof.
  intros H. unfold remaining_validity, year68, uint32.
  assert (Z.quot (exp - utc) (2 ^ 31) = 0)%Z as -> by (apply Z.quot_small_iff; lia).
  rewrite Z.mul_0_l, Z.add_0_r. symmetry. apply (Z.mod_unique_pos _ _ (-1)); lia.
Qed.

(** C34: the TTL of a verified signature is the least of the TTL of the RRSIG,
    its original TTL, the TTLs of the RRset and the remaining validity that the
    code computes at its second reading of the clock.  That is the time left
    when the expiration is less than 2^31 seconds ahead of the reading; when
    the clock has passed the expiration since the first reading, which found
    the signature valid, the subtraction wraps and does not bound the TTL. *)
Theorem sig_ttl_bounds zone rrsets keys now now' rrsig sig :
  authenticate_sig zone rrsets keys (now, now') rrsig = Ret sig ->
  verified sig = true ->
  let left_over := (Expiration rrsig - unix now')%Z in
  sig_ttl sig = foldl (fun ttl rr => Z.min ttl (Ttl (Header rr)))
    (Z.min (Z.min (Ttl (RRSIG_Hdr rrsig)) (OrigTtl rrsig)) (remaining_validity (Expiration rrsig) (unix now')))
    (sig_rrset sig) /\
  (sig_ttl sig <= Ttl (RRSIG_Hdr rrsig) /\ sig_ttl sig <= OrigTtl rrsig /\
   (forall rr, rr ∈ sig_rrset sig -> sig_ttl sig <= Ttl (Header rr)) /\
   (0 <= left_over < 2 ^ 31 -> sig_ttl sig <= left_over) /\
   (- 2 ^ 31 < left_over < 0 -> remaining_validity (Expiration rrsig) (unix now') = 2 ^ 32 + left_over))%Z.
Proof.
  intros H Hver left_over. apply authenticate_sig_cases in H as
    [(_ & _ & Hv)|(Ha & sig1 & Hk & Hv & _ & Hc)]; [congruence|].
  apply try_keys_spec in Hk as (Hc1 & _ & _); [|done].
  destruct Hc as (_ & _ & _ & -> & -> & _). destruct Hc1 as (_ & _ & _ & -> & -> & _).
  cbn [sig_ttl sig_rrset set_sig_wildcard_ttl]. unfold limit_ttl. split; [done|].
  set (l := sig_rrset (new_signature zone rrsets rrsig)).
  destruct (foldl_min_le (fun rr => Ttl (Header rr)) l (Z.min
    (sig_ttl (new_signature zone rrsets rrsig))
    (remaining_validity (Expiration (sig_rrsig (new_signature zone rrsets rrsig))) (unix now'))))
    as [Hle Hrr].
  simpl in Hle, Hrr |- *. split_and!; [lia|lia|done| |apply remaining_validity_past].
  intros Hnear. unfold left_over in *. rewrite remaining_validity_near in Hle |- * by done. lia.
Qed.
End authenticate_facts.

Section coverage.
Context `{L : DnsLib}.

Lemma authenticate_all_sound zone rrsets keys clock i rrsigs sigs sig :
  authenticate_all zone rrsets keys clock i rrsigs = Ret sigs -> sig ∈ sigs ->
  exists j rrsig, rrsig ∈ rrsigs /\ authenticate_sig zone rrsets keys (clock j) rrsig = Ret sig.
Proof.
  revert i sigs; induction rrsigs as [|r rrsigs IH]; intros i sigs H Hin; simpl in H.
  - simplify_eq. by apply not_elem_of_nil in Hin.
  - inv_bind. apply elem_of_cons in Hin as [->|Hin].
    + exists i, r. split; [apply elem_of_cons; by left|done].
    + destruct (IH _ _ E0 Hin) as (j & r' & Hr' & Hs). exists j, r'.
      split; [apply elem_of_cons; by right|done].
Qed.

Lemma authenticate_sound zone rrsets keys sect clock sigs err sig :
  authenticate zone rrsets keys sect clock = Ret (sigs, err) -> sig ∈ sigs ->
  exists j rrsig, rrsig ∈ extractRecords RRSIG rrsets /\
    authenticate_sig (dns_CanonicalName zone) rrsets keys (clock j) rrsig = Ret sig.
Proof.
  unfold authenticate. intros H Hin. inv_bind. by eapply authenticate_all_sound.
Qed.

Lemma sig_rrset_of zone rrsets keys times rrsig sig :
  authenticate_sig zone rrsets keys times rrsig = Ret sig ->
  sig_rrset sig = extractRecordsOfNameAndType rrsets (sig_name sig) (sig_rtype sig).
Proof.
  destruct times as [now now']. intros H.
  apply authenticate_sig_cases in H as [(_ & Hc & _)|(_ & sig1 & Hk & _ & _ & Hc)].
  - by destruct Hc as (-> & -> & _ & -> & _).
  - apply try_keys_spec in Hk as (Hc1 & _); [|done].
    destruct Hc as (-> & -> & _ & -> & _). by destruct Hc1 as (-> & -> & _ & -> & _).
Qed.

Lemma try_keys_ret `{!DnsLaws L} keys sig : is_panic (try_keys keys sig) = false.
Proof.
  revert sig; induction keys as [|k keys IH]; intros sig; [done|]. simpl.
  case_tests; [|apply IH]. destruct (dns_Verify _ _ _); [apply IH|].
  destruct (dns_ToDS k SHA256) eqn:E; [done|]. by apply tods_sha256 in E.
Qed.

Lemma authenticate_ret `{!DnsLaws L} zone rrsets keys sect clock :
  is_panic (authenticate zone rrsets keys sect clock) = false.
Proof.
  assert (Hsig : forall z times s, is_panic (authenticate_sig z rrsets keys times s) = false).
  { intros z [t t'] s. unfold authenticate_sig. case_tests; try done.
    apply is_panic_bind; [apply try_keys_ret|done]. }
  unfold authenticate. apply is_panic_bind; [|done]. generalize 0 as i.
  induction (extractRecords RRSIG rrsets) as [|s l IH]; intros i; [done|]. simpl.
  apply is_panic_bind; [apply Hsig|]. intros sig _. apply is_panic_bind; [apply IH|done].
Qed.

(** The records [authenticate] requires a signature for. *)
Definition must_be_signed (sect : section) (sigs : signatures) (rr : RR) : Prop :=
  Rrtype (Header rr) <> TypeRRSIG /\
  ~ (sect = authoritySection /\ Rrtype (Header rr) = TypeNS /\ filterOnType sigs TypeNS = []).

Lemma elem_of_rrset_combinations sect sigs rrsets c :
  c ∈ rrset_combinations sect sigs rrsets <->
  exists rr, rr ∈ rrsets /\ must_be_signed sect sigs rr /\
    c = (Name (Header rr), Rrtype (Header rr)).
Proof.
  unfold must_be_signed. induction rrsets as [|rr rrsets IH].
  - simpl. rewrite exists_elem_nil. split; [|done]. intros H. by apply not_elem_of_nil in H.
  - rewrite exists_elem_cons, <- IH. simpl. case_bool_decide as H1; [naive_solver|].
    destruct (bool_decide (sect = authoritySection)) eqn:E1,
      (bool_decide (Rrtype (Header rr) = TypeNS)) eqn:E2,
      (bool_decide (length (filterOnType sigs TypeNS) = 0)) eqn:E3; bool_facts; simpl;
      rewrite ?elem_of_cons; rewrite ?length_zero_iff_nil in *; naive_solver.
Qed.

(** The signatures of a verified set, when none claims to cover an RRSIG,
    name exactly the RRsets that need one. *)
Lemma verified_combinations `{!DnsLaws L} zone rrsets keys sect clock sigs :
  authenticate zone rrsets keys sect clock = Ret (sigs, None) ->
  Forall (fun s => verified s = true) sigs ->
  Forall (fun s => sig_rtype s <> TypeRRSIG) sigs ->
  combination_set (map sig_combination sigs) =
  combination_set (rrset_combinations sect sigs rrsets).
Proof.
  intros H Hv Ht. pose proof (fun s => authenticate_sound _ _ _ _ _ _ _ s H) as Hs.
  unfold authenticate in H. inv_bind. case_bool_decide as Hcount; [done|]. unfold countNameTypeCombinations in Hcount.
  apply set_subseteq_size_eq; [|lia]. intros c. rewrite !elem_of_combination_set.
  intros (sig & -> & Hin)%list_elem_of_fmap. rewrite Forall_forall in Hv, Ht.
  destruct (Hs _ Hin) as (j & rrsig & _ & Hauth). destruct (clock j) as [t0 t1].
  pose proof (sig_rrset_of _ _ _ _ _ _ Hauth) as Hset.
  pose proof (authenticate_sig_cases _ _ _ _ _ _ _ Hauth) as Hcases.
  destruct Hcases as [(_ & _ & Hn)|(_ & sig1 & Hk & Hv1 & _ & Hc)];
    [rewrite Hv in Hn by done; done|].
  apply try_keys_spec in Hk as (Hc1 & Hi & _); [|done].
  assert (Hv1' : verified sig1 = true) by (rewrite <- Hv1; by apply Hv).
  apply Hi in Hv1' as (k & _ & _ & Hver).
  destruct Hc as (_ & _ & _ & Hrs & _). destruct Hc1 as (_ & _ & Hr1 & Hrs1 & _).
  rewrite <- Hrs1, <- Hrs, Hset in Hver.
  destruct (extractRecordsOfNameAndType rrsets (sig_name sig) (sig_rtype sig)) as [|rr l] eqn:Erl;
    [by apply verify_rrset_nonempty in Hver|].
  assert (Hrr : rr ∈ rr :: l) by (apply elem_of_cons; by left).
  rewrite <- Erl in Hrr. apply elem_of_extractRecordsOfNameAndType in Hrr as (Hrr & Hty & Hna).
  apply elem_of_rrset_combinations. exists rr. unfold sig_combination, must_be_signed.
  rewrite Hty, Hna. split_and!; try done; [by apply Ht|].
  intros (_ & Hns & Hnil). assert (Hf : sig ∈ filterOnType sigs TypeNS).
  { rewrite filterOnType_filter. by apply list_elem_of_filter. }
  rewrite Hnil in Hf. by apply not_elem_of_nil in Hf.
Qed.

Lemma verified_set_covers `{!DnsLaws L} zone rrsets keys sect clock sigs :
  authenticate zone rrsets keys sect clock = Ret (sigs, None) ->
  Forall (fun s => verified s = true) sigs ->
  Forall (fun s => sig_rtype s <> TypeRRSIG) sigs ->
  forall rr, rr ∈ rrsets -> must_be_signed sect sigs rr ->
  exists sig, sig ∈ sigs /\ verified sig = true /\ rr ∈ sig_rrset sig.
Proof.
  intros H Hv Ht rr Hrr Hm.
  pose proof (verified_combinations _ _ _ _ _ _ H Hv Ht) as Heq.
  assert (Hc : (Name (Header rr), Rrtype (Header rr)) ∈
    combination_set (map sig_combination sigs)).
  { rewrite Heq, elem_of_combination_set. apply elem_of_rrset_combinations. eauto. }
  apply elem_of_combination_set, list_elem_of_fmap in Hc as (sig & Hsc & Hin).
  unfold sig_combination in Hsc. injection Hsc as Hn Hty. exists sig.
  rewrite Forall_forall in Hv. split_and!; [done|by apply Hv|].
  destruct (authenticate_sound _ _ _ _ _ _ _ _ H Hin) as (j & rrsig & _ & Hauth).
  rewrite (sig_rrset_of _ _ _ _ _ _ Hauth). by apply elem_of_extractRecordsOfNameAndType.
Qed.
(** C22: when [authenticate] reports no error and every signature is verified
    (what the strict policy asks for), every record that needs a signature is
    in the RRset of a verified one, or some signature covers the type RRSIG.
    Signatures over RRSIG records are not made (RFC 4035, 2.2), but the count
    of [authenticate] takes them in and not the records they cover, so that one
    can stand in for an RRset without signature ([rrsig_over_rrsig]). *)
Theorem strict_policy_covers `{!DnsLaws L} zone rrsets keys sect clock sigs :
  authenticate zone rrsets keys sect clock = Ret (sigs, None) ->
  Forall (fun s => verified s = true) sigs ->
  (exists sig, sig ∈ sigs /\ sig_rtype sig = TypeRRSIG) \/
  forall rr, rr ∈ rrsets -> must_be_signed sect sigs rr ->
    exists sig, sig ∈ sigs /\ verified sig = true /\ rr ∈ sig_rrset sig.
Proof.
  intros H Hv. destruct (decide (Exists (fun s => sig_rtype s = TypeRRSIG) sigs)) as [He|He].
  - left. apply Exists_exists in He. exact He.
  - right. eapply verified_set_covers; [done..|]. by apply Forall_Exists_neg.
Qed.
End coverage.
