(* ===== verification/Verify.v ===== *)
(** * dnssec/verify*.go: validating one response

    The [result] struct of dnssec/types.go is passed through the five checks,
    which fill it in.  A [Zone] is its name and what [GetDNSKEYRecords] returns
    when the response is processed. *)

From S2P Require Import Prelude GoErrors Dns DnsRef DnssecConst DnssecFunctions Signatures AuthenticateRRset Doe Denial.

(** ** dnssec/types.go *)

Record Zone := mkZone {
  zone_Name : string;
  GetDNSKEYRecords : list RR * option error
}.

Record result := mkResult {
  r_name : string;
  r_zone : Zone;
  r_msg : Msg;
  r_keys : signatures;
  r_answer : signatures;
  r_authority : signatures;
  r_err : option error;
  r_dsRecords : list DS;
  r_state : AuthenticationResult;
  r_denialOfExistence : DenialOfExistenceState
}.

Definition new_result (zone : Zone) (msg : Msg) : result :=
  mkResult (zone_Name zone) zone msg [] [] [] None [] Unknown NotFound.

Definition set_keys (v : signatures) (r : result) : result :=
  mkResult (r_name r) (r_zone r) (r_msg r) v (r_answer r) (r_authority r) (r_err r)
    (r_dsRecords r) (r_state r) (r_denialOfExistence r).
Definition set_signatures (answer authority : signatures) (r : result) : result :=
  mkResult (r_name r) (r_zone r) (r_msg r) (r_keys r) answer authority (r_err r)
    (r_dsRecords r) (r_state r) (r_denialOfExistence r).
Definition set_err (v : option error) (r : result) : result :=
  mkResult (r_name r) (r_zone r) (r_msg r) (r_keys r) (r_answer r) (r_authority r) v
    (r_dsRecords r) (r_state r) (r_denialOfExistence r).
Definition set_dsRecords (v : list DS) (r : result) : result :=
  mkResult (r_name r) (r_zone r) (r_msg r) (r_keys r) (r_answer r) (r_authority r) (r_err r)
    v (r_state r) (r_denialOfExistence r).
Definition set_state (v : AuthenticationResult) (r : result) : result :=
  mkResult (r_name r) (r_zone r) (r_msg r) (r_keys r) (r_answer r) (r_authority r) (r_err r)
    (r_dsRecords r) v (r_denialOfExistence r).
Definition set_doe (v : DenialOfExistenceState) (r : result) : result :=
  mkResult (r_name r) (r_zone r) (r_msg r) (r_keys r) (r_answer r) (r_authority r) (r_err r)
    (r_dsRecords r) (r_state r) v.

(** What a check returns: a status, an error, and the result it filled in. *)
Definition verdict : Type := AuthenticationResult * option error * result.

(** The clock readings of the three [authenticate] calls of one response. *)
Record Clocks := mkClocks {
  key_clock : nat -> Z * Z;
  answer_clock : nat -> Z * Z;
  authority_clock : nat -> Z * Z
}.

(** A clock that stands still. *)
Definition frozen (t : Z) : Clocks :=
  mkClocks (fun _ => (t, t)) (fun _ => (t, t)) (fun _ => (t, t)).

(** [fmt.Errorf("%w: %w", ErrBogusResultFound, err)] *)
Definition bogus_error (e : error) : error := errorf_ww (ESentinel ErrBogusResultFound) ": " e "".

Section verify.
Context `{L : DnsLib} `{MapRange} `{DnssecConfig}.

(** ** dnssec/verify_dnskey.go *)

(** The inner loop: the first zone key that matches the DS record.
    [k.ToDS(d.DigestType).Digest] dereferences nil for an unknown digest. *)
Fixpoint matching_key (d : DS) (zoneKeys : list DNSKEY) : outcome (option DNSKEY) :=
  match zoneKeys with
  | [] => Ret None
  | k :: rest =>
      if bool_decide (DS_Algorithm d = DNSKEY_Algorithm k)
         && bool_decide (DS_KeyTag d = dns_KeyTag k)
      then match dns_ToDS k (DigestType d) with
           | None => Panic NilDereference
           | Some ds =>
               if equal_fold (Digest d) (Digest ds) then Ret (Some k) else matching_key d rest
           end
      else matching_key d rest
  end.

Fixpoint key_signing_keys (dsRecordsFromParent : list DS) (zoneKeys : list DNSKEY) :
    outcome (list DNSKEY) :=
  match dsRecordsFromParent with
  | [] => Ret []
  | d :: rest =>
      k ← matching_key d zoneKeys;
      ks ← key_signing_keys rest zoneKeys;
      Ret (match k with Some k => k :: ks | None => ks end)
  end.

Definition verifyDNSKEYs (clocks : Clocks) (r : result) (keys : list RR)
    (dsRecordsFromParent : list DS) : outcome verdict :=
  let zoneKeys := extractRecords DNSKEY keys in
  if bool_decide (length zoneKeys = 0) then Ret (Insecure, Some (ESentinel ErrKeysNotFound), r)
  else
    keySigningKeys ← key_signing_keys dsRecordsFromParent zoneKeys;
    if bool_decide (length keySigningKeys = 0)
    then Ret (Insecure, Some (ESentinel ErrKeysNotFound), r)
    else
      '(keySignatures, err) ←
        authenticate (zone_Name (r_zone r)) keys keySigningKeys answerSection (key_clock clocks);
      match err with
      | Some e => Ret (Bogus, Some (bogus_error e), r)
      | None =>
          let r := set_keys keySignatures r in
          match Verify keySignatures with
          | Some e => Ret (Bogus, Some (bogus_error e), r)
          | None => Ret (Unknown, None, r)
          end
      end.

(** ** dnssec/verify_rrset.go *)

Definition verifyRRSETs (clocks : Clocks) (r : result) (keys : list DNSKEY) : outcome verdict :=
  '(answerSignatures, err) ←
    authenticate (zone_Name (r_zone r)) (Answer (r_msg r)) keys answerSection
      (answer_clock clocks);
  match err with
  | Some e => Ret (Bogus, Some (bogus_error e), r)
  | None =>
      '(authoritySignatures, err) ←
        authenticate (zone_Name (r_zone r)) (Ns (r_msg r)) keys authoritySection
          (authority_clock clocks);
      match err with
      | Some e => Ret (Bogus, Some (bogus_error e), r)
      | None =>
          match Verify (answerSignatures ++ authoritySignatures) with
          | Some e => Ret (Bogus, Some (bogus_error e), r)
          | None =>
              Ret (Unknown, None, set_signatures answerSignatures authoritySignatures r)
          end
      end
  end.

(** The two denial-of-existence views every validation builds. *)
Definition nsec_of (r : result) : DenialOfExistenceNSEC :=
  NewDenialOfExistenceNSEC (zone_Name (r_zone r)) (extractNSECRecords (r_authority r)).
Definition nsec3_of (r : result) : DenialOfExistenceNSEC3 :=
  NewDenialOfExistenceNSEC3 (zone_Name (r_zone r)) (extractNSEC3Records (r_authority r)).

(** ** dnssec/verify_delegating.go *)

Definition seen_and (b : bool * bool) : bool := fst b && snd b.
Definition seen_and_not (b : bool * bool) : bool := fst b && negb (snd b).

Definition validateDelegatingResponse (r : result) : outcome verdict :=
  let r := set_dsRecords (extractDSRecords (r_authority r)) r in
  if bool_decide (0 < length (r_dsRecords r)) then Ret (Secure, None, r)
  else
    let nsRecords := extractRecordsOfType (Ns (r_msg r)) TypeNS in
    if negb (recordsHaveTheSameOwner nsRecords) then
      Ret (Bogus, Some (errorf_s ErrNSRecordsHaveMismatchingOwners
             ": this prevents us from checking nsec(3) records"), r)
    else
      first ← go_index nsRecords 0;
      let delegationName := Name (Header first) in
      let nsec := nsec_of r in
      let nsec3 := nsec3_of r in
      if negb (nsec_Empty nsec)
         && seen_and (Nsec.TypeBitMapContainsAnyOf nsec delegationName [TypeNS])
         && seen_and_not
              (Nsec.TypeBitMapContainsAnyOf nsec delegationName [TypeCNAME; TypeDS; TypeSOA])
      then Ret (Secure, None, set_doe NsecMissingDS r)
      else if negb (nsec3_Empty nsec3)
         && seen_and (Nsec3.TypeBitMapContainsAnyOf nsec3 delegationName [TypeNS])
         && seen_and_not
              (Nsec3.TypeBitMapContainsAnyOf nsec3 delegationName [TypeCNAME; TypeDS; TypeSOA])
      then Ret (Secure, None, set_doe Nsec3MissingDS r)
      else if negb (nsec3_Empty nsec3)
         && Nsec3.optedOut (Nsec3.PerformClosestEncloserProof nsec3 delegationName)
      then Ret (Secure, None, set_doe Nsec3OptOut r)
      else Ret (Bogus, Some (ESentinel ErrBogusDoeRecordsNotFound), r).

(** ** dnssec/verify_positive.go *)

(** The loop over the answer's signatures: [(seen, verified)] and the result,
    or the early return on a second wildcard signature. *)
Fixpoint wildcard_loop (nsec : DenialOfExistenceNSEC) (nsec3 : DenialOfExistenceNSEC3)
    (sigs : signatures) (seen ver : bool) (r : result) :
    outcome (option (bool * bool) * result) :=
  match sigs with
  | [] => Ret (Some (seen, ver), r)
  | sig :: rest =>
      if wildcard sig then
        if seen then Ret (None, r)
        else
          '(nsecVerified, r) ←
            (if negb (nsec_Empty nsec) then
               q ← go_index (Question (r_msg r)) 0;
               let v := Nsec.PerformExpandedWildcardProof nsec (Q_Name q) in
               Ret (v, if v then set_doe NsecWildcard r else r)
             else Ret (false, r));
          '(nsec3Verified, r) ←
            (if negb (nsec3_Empty nsec3) then
               v ← Nsec3.PerformExpandedWildcardProof nsec3 (sig_name sig) (Labels (sig_rrsig sig));
               Ret (v, if (v : bool) then set_doe Nsec3Wildcard r else r)
             else Ret (false, r));
          wildcard_loop nsec nsec3 rest true (ver || (nsecVerified || nsec3Verified)) r
      else wildcard_loop nsec nsec3 rest seen ver r
  end.

Definition validatePositiveResponse (r : result) : outcome verdict :=
  let r := set_dsRecords (extractDSRecords (r_answer r)) r in
  '(flags, r) ← wildcard_loop (nsec_of r) (nsec3_of r) (r_answer r) false false r;
  match flags with
  | None => Ret (Bogus, Some (ESentinel ErrMultipleWildcardSignatures), r)
  | Some (wildcardSignaturesSeen, wildcardSignaturesVerified) =>
      if negb wildcardSignaturesSeen || wildcardSignaturesVerified then Ret (Secure, None, r)
      else Ret (Bogus, Some (ESentinel ErrBogusWildcardDoeNotFound), r)
  end.

(** ** dnssec/verify_negative.go *)

Definition validateNegativeResponse (r : result) : outcome verdict :=
  q ← go_index (Question (r_msg r)) 0;
  let qname := Q_Name q in
  let qtype := Qtype q in
  let nsec := nsec_of r in
  let nsec3 := nsec3_of r in
  if negb (nsec_Empty nsec)
     && seen_and_not (Nsec.TypeBitMapContainsAnyOf nsec qname [TypeCNAME; qtype])
  then Ret (Secure, None, set_doe NsecNoData r)
  else if negb (nsec_Empty nsec) && Nsec.PerformQNameDoesNotExistProof nsec qname
  then Ret (Secure, None, set_doe NsecNxDomain r)
  else if negb (nsec3_Empty nsec3) then
    if seen_and_not (Nsec3.TypeBitMapContainsAnyOf nsec3 qname [TypeCNAME; qtype])
    then Ret (Secure, None, set_doe Nsec3NoData r)
    else
      let proof := Nsec3.PerformClosestEncloserProof nsec3 qname in
      if Nsec3.optedOut proof && bool_decide (qtype = TypeDS)
      then Ret (Secure, None, set_doe Nsec3OptOut r)
      else
        let wildcardProof :=
          if Nsec3.closestEncloserProof proof && Nsec3.nextCloserNameProof proof
             && negb (Nsec3.wildcardProof proof)
          then match Nsec3.FindClosestEncloser nsec3 qname with
               | Some (closestEncloser, _) =>
                   seen_and_not (Nsec3.TypeBitMapContainsAnyOf nsec3
                     ("*." +:+ closestEncloser) [TypeCNAME; qtype])
               | None => false
               end
          else Nsec3.wildcardProof proof in
        if Nsec3.closestEncloserProof proof && Nsec3.nextCloserNameProof proof && wildcardProof
        then Ret (Secure, None, set_doe Nsec3NxDomain r)
        else Ret (Bogus, Some (ESentinel ErrBogusDoeRecordsNotFound), r)
  else Ret (Bogus, Some (ESentinel ErrBogusDoeRecordsNotFound), r).

(** ** dnssec/verify.go *)

(** The [verifier] struct: the five checks, as replaceable functions. *)
Record verifier := mkVerifier {
  v_verifyDNSKEYs : result -> list RR -> list DS -> outcome verdict;
  v_verifyRRSETs : result -> list DNSKEY -> outcome verdict;
  v_validateDelegatingResponse : result -> outcome verdict;
  v_validatePositiveResponse : result -> outcome verdict;
  v_validateNegativeResponse : result -> outcome verdict
}.

Definition verify (v : verifier) (zone : Zone) (msg : Msg) (dsRecordsFromParent : list DS) :
    outcome verdict :=
  let r := new_result zone msg in
  if bool_decide (length dsRecordsFromParent = 0) then Ret (Insecure, None, r)
  else
    let '(keys, err) := GetDNSKEYRecords zone in
    match err with
    | Some e => Ret (Bogus, Some e, r)
    | None =>
        '(status, err, r) ← v_verifyDNSKEYs v r keys dsRecordsFromParent;
        if bool_decide (status <> Unknown) || bool_decide (is_Some err) then Ret (status, err, r)
        else
          '(status, err, r) ← v_verifyRRSETs v r (extractRecords DNSKEY keys);
          if bool_decide (status <> Unknown) || bool_decide (is_Some err)
          then Ret (status, err, r)
          else
            let soaFoundInAuthority := recordsOfTypeExist (Ns (r_msg r)) TypeSOA in
            if negb soaFoundInAuthority && bool_decide (length (Answer (r_msg r)) = 0)
               && recordsOfTypeExist (Ns (r_msg r)) TypeNS
            then v_validateDelegatingResponse v r
            else if negb soaFoundInAuthority && bool_decide (0 < length (Answer (r_msg r)))
            then v_validatePositiveResponse v r
            else if soaFoundInAuthority then v_validateNegativeResponse v r
            else Ret (Bogus, Some (ESentinel ErrFailsafeResponse), r)
    end.

(** The verifier [NewAuth] builds. *)
Definition concrete_verifier (clocks : Clocks) : verifier :=
  {| v_verifyDNSKEYs := verifyDNSKEYs clocks;
     v_verifyRRSETs := verifyRRSETs clocks;
     v_validateDelegatingResponse := validateDelegatingResponse;
     v_validatePositiveResponse := validatePositiveResponse;
     v_validateNegativeResponse := validateNegativeResponse |}.
End verify.

(** * Theory *)

Section verify_facts.
Context `{L : DnsLib} `{R : MapRange} `{Cfg : DnssecConfig}.

(** The parent's DS record [d] vouches for the key [k]. *)
Definition vouches (d : DS) (k : DNSKEY) : Prop :=
  DS_Algorithm d = DNSKEY_Algorithm k /\ DS_KeyTag d = dns_KeyTag k /\
  exists ds, dns_ToDS k (DigestType d) = Some ds /\ equal_fold (Digest d) (Digest ds) = true.

Definition anchored (parent : list DS) (k : DNSKEY) : Prop :=
  exists d, d ∈ parent /\ vouches d k.

(** What the configured policy asks of a signature set. *)
Definition policy_ok (ss : signatures) : Prop :=
  ss <> [] /\
  if RequireAllSignaturesValid then Forall (fun s => verified s = true) ss
  else every_type_verified ss.

(** Every verified signature of the set was made by one of the keys, in the
    name of the zone. *)
Definition signed_by (zone : string) (keys : DNSKEY -> Prop) (ss : signatures) : Prop :=
  forall s, s ∈ ss -> verified s = true ->
    dns_CanonicalName (SignerName (sig_rrsig s)) = dns_CanonicalName zone /\
    exists k, sig_key s = Some k /\ keys k /\ key_validates s k.

Lemma Verify_none ss : Verify ss = None <-> policy_ok ss.
Proof.
  unfold Verify, policy_ok. destruct RequireAllSignaturesValid;
    [apply verifyAll_none | apply verifyOneOrMore_none].
Qed.

Lemma matching_key_spec d keys k :
  matching_key d keys = Ret (Some k) -> k ∈ keys /\ vouches d k.
Proof.
  unfold vouches. induction keys as [|k' keys IH]; [done|]. simpl. intros Hm.
  destruct (bool_decide (DS_Algorithm d = DNSKEY_Algorithm k') &&
    bool_decide (DS_KeyTag d = dns_KeyTag k')) eqn:Et; bool_facts;
    [destruct (dns_ToDS k' (DigestType d)) as [ds|] eqn:Eds; [|done];
     destruct (equal_fold (Digest d) (Digest ds)) eqn:Ef|].
  - simplify_eq. split; [apply elem_of_cons; by left|naive_solver].
  - destruct (IH Hm). split; [apply elem_of_cons; by right|done].
  - destruct (IH Hm). split; [apply elem_of_cons; by right|done].
Qed.

Lemma key_signing_keys_spec parent keys ks k :
  key_signing_keys parent keys = Ret ks -> k ∈ ks -> k ∈ keys /\ anchored parent k.
Proof.
  revert ks; induction parent as [|d parent IH]; intros ks Hk Hin; simpl in Hk.
  - simplify_eq. by apply not_elem_of_nil in Hin.
  - inv_bind. unfold anchored. setoid_rewrite exists_elem_cons.
    destruct a as [k'|]; [apply elem_of_cons in Hin as [->|Hin]|].
    + apply matching_key_spec in E. tauto.
    + destruct (IH _ E0 Hin). tauto.
    + destruct (IH _ E0 Hin). tauto.
Qed.

Lemma authenticate_signed_by `{!DnsLaws L} zone rrsets keys sect clock sigs err :
  authenticate zone rrsets keys sect clock = Ret (sigs, err) ->
  signed_by zone (fun k => k ∈ keys) sigs.
Proof.
  intros Ha s Hs Hv. destruct (authenticate_sound _ _ _ _ _ _ _ _ Ha Hs) as (j & rrsig & _ & Hsig).
  destruct (clock j) as [now now'].
  destruct (authenticate_sig_verified _ _ _ _ _ _ _ Hsig Hv) as ((Hz & _) & -> & Hk).
  split; [|exact Hk]. by rewrite <- Hz, canonical_idem.
Qed.

(** A check that fills in its findings leaves the signatures, the zone and
    the message alone. *)
Definition same_signatures (r r' : result) : Prop :=
  r_keys r' = r_keys r /\ r_answer r' = r_answer r /\ r_authority r' = r_authority r /\
  r_zone r' = r_zone r /\ r_msg r' = r_msg r.

#[local] Instance same_signatures_po : PreOrder same_signatures.
Proof. unfold same_signatures. split; [done|]. intros ???. naive_solver congruence. Qed.

Lemma set_doe_same d r : same_signatures r (set_doe d r).
Proof. done. Qed.
Lemma set_ds_same d r : same_signatures r (set_dsRecords d r).
Proof. done. Qed.
Hint Resolve set_doe_same set_ds_same : core.

Lemma delegating_same r st e r' :
  validateDelegatingResponse r = Ret (st, e, r') -> same_signatures r r'.
Proof.
  unfold validateDelegatingResponse. intros H.
  case_bool_decide; [inv_bind; auto|]. destruct (negb _); [inv_bind; auto|].
  inv_bind. case_tests; inv_bind; done.
Qed.

Lemma negative_same r st e r' :
  validateNegativeResponse r = Ret (st, e, r') -> same_signatures r r'.
Proof.
  unfold validateNegativeResponse. intros H. inv_bind.
  repeat (match type of H with (if ?b then _ else _) = _ => destruct b end);
    inv_bind; done.
Qed.

Lemma wildcard_loop_same n n3 sigs seen ver r f r' :
  wildcard_loop n n3 sigs seen ver r = Ret (f, r') -> same_signatures r r'.
Proof.
  revert seen ver r; induction sigs as [|sig sigs IH]; intros seen ver r H; simpl in H;
    [by inv_bind|].
  destruct (wildcard sig); [|by apply IH in H]. destruct seen; [by inv_bind|].
  apply bind_ret_inv in H as ([v r1] & E1 & H).
  apply bind_ret_inv in H as ([v3 r2] & E2 & H).
  apply IH in H. etrans; [|exact H]. etrans.
  - destruct (negb (nsec_Empty n)); inv_bind; [|done]. by case_tests.
  - destruct (negb (nsec3_Empty n3)); inv_bind; [|done]. by case_tests.
Qed.

Lemma positive_same r st e r' :
  validatePositiveResponse r = Ret (st, e, r') -> same_signatures r r'.
Proof.
  unfold validatePositiveResponse. intros H.
  apply bind_ret_inv in H as ([f r1] & E & H). apply wildcard_loop_same in E.
  destruct f as [[s v]|]; [destruct (negb s || v)|]; inv_bind; exact E.
Qed.

(** Under the strict policy no record that must be signed is left out, unless a
    signature covers the type RRSIG (see [strict_policy_covers]). *)
Definition covered (sect : section) (rrsets : list RR) (sigs : signatures) : Prop :=
  RequireAllSignaturesValid = true -> Forall (fun s => sig_rtype s <> TypeRRSIG) sigs ->
  forall rr, rr ∈ rrsets -> must_be_signed sect sigs rr ->
    exists s, s ∈ sigs /\ verified s = true /\ rr ∈ sig_rrset s.

Lemma authenticate_covered `{!DnsLaws L} zone rrsets keys sect clock sigs :
  authenticate zone rrsets keys sect clock = Ret (sigs, None) ->
  (RequireAllSignaturesValid = true -> Forall (fun s => verified s = true) sigs) -> covered sect rrsets sigs.
Proof. intros Ha Hall Hr Ht. eapply verified_set_covers; eauto. Qed.

Lemma policy_all ss : policy_ok ss -> RequireAllSignaturesValid = true -> Forall (fun s => verified s = true) ss.
Proof. unfold policy_ok. intros [_ H] Hr. by rewrite Hr in H. Qed.

Lemma policy_one ss : policy_ok ss -> exists s, s ∈ ss /\ verified s = true.
Proof.
  unfold policy_ok. destruct ss as [|s ss]; [by intros []|]. intros [_ H].
  destruct RequireAllSignaturesValid.
  - apply Forall_inv in H. exists s. split; [left|done].
  - destruct (H s ltac:(left)) as (s' & ? & _ & ?). by exists s'.
Qed.

Lemma authenticate_nil zone keys sect clock sigs err :
  authenticate zone [] keys sect clock = Ret (sigs, err) -> sigs = [].
Proof. by intros [= <- _]. Qed.

Lemma verifyDNSKEYs_unknown `{!DnsLaws L} clocks r keys parent e r' :
  verifyDNSKEYs clocks r keys parent = Ret (Unknown, e, r') ->
  e = None /\ policy_ok (r_keys r') /\ r' = set_keys (r_keys r') r /\
  signed_by (zone_Name (r_zone r))
    (fun k => k ∈ extractRecords DNSKEY keys /\ anchored parent k) (r_keys r') /\
  covered answerSection keys (r_keys r').
Proof.
  unfold verifyDNSKEYs. intros H. case_bool_decide; [by inv_bind|].
  apply bind_ret_inv in H as (ks & Eks & H). case_bool_decide; [by inv_bind|].
  apply bind_ret_inv in H as ([sigs err] & Ea & H).
  destruct err; [by inv_bind|]. destruct (Verify sigs) eqn:Ev; [by inv_bind|]. inv_bind.
  simpl. apply Verify_none in Ev. split_and!; try done.
  - intros s Hs Hv. destruct (authenticate_signed_by _ _ _ _ _ _ _ Ea s Hs Hv) as (Hz & k & Hk & Hin & Hval).
    split; [done|]. exists k. split_and!; try done; by eapply key_signing_keys_spec.
  - eapply authenticate_covered; [done|by apply policy_all].
Qed.

Lemma verifyRRSETs_unknown `{!DnsLaws L} clocks r keys e r' :
  verifyRRSETs clocks r keys = Ret (Unknown, e, r') ->
  e = None /\ policy_ok (r_answer r' ++ r_authority r') /\ r' = set_signatures (r_answer r') (r_authority r') r /\
  signed_by (zone_Name (r_zone r)) (fun k => k ∈ keys) (r_answer r' ++ r_authority r') /\
  covered answerSection (Answer (r_msg r)) (r_answer r') /\ covered authoritySection (Ns (r_msg r)) (r_authority r') /\
  (Answer (r_msg r) = [] -> r_answer r' = []).
Proof.
  unfold verifyRRSETs. intros H.
  apply bind_ret_inv in H as ([s1 err] & E1 & H). destruct err; [by inv_bind|].
  apply bind_ret_inv in H as ([s2 err] & E2 & H). destruct err; [by inv_bind|].
  destruct (Verify (s1 ++ s2)) eqn:Ev; [by inv_bind|]. inv_bind. simpl.
  apply Verify_none in Ev. pose proof (policy_all _ Ev) as Hall. setoid_rewrite Forall_app in Hall.
  split_and!; try done.
  - apply authenticate_signed_by in E1, E2. intros s [Hs|Hs]%elem_of_app; auto.
  - eapply authenticate_covered; [done|]. intros Hr. by apply Hall.
  - eapply authenticate_covered; [done|]. intros Hr. by apply Hall.
  - intros Ha. rewrite Ha in E1. by eapply authenticate_nil.
Qed.

(** ** What the denial tag of a Secure result stands for

    The records are those of the RRsets that the authority section has
    signatures for.  Under the strict policy those signatures are verified; by
    default one of each type is ([unverified_denial_accepted]). *)

Definition asks (r : result) (P : Question_ -> Prop) : Prop :=
  exists q qs, Question (r_msg r) = q :: qs /\ P q.
Definition delegates (r : result) (P : string -> Prop) : Prop :=
  exists rr, rr ∈ Ns (r_msg r) /\ Rrtype (Header rr) = TypeNS /\ P (Name (Header rr)).

Definition shown (r : result) : Prop :=
  let zone := zone_Name (r_zone r) in
  let records := extractNSECRecords (r_authority r) in
  let doe3 := nsec3_of r in
  match r_denialOfExistence r with
  | NotFound => Forall (fun s => wildcard s = false) (r_answer r)
  | NsecNoData => asks r (fun q => nsec_lacks records (Q_Name q) [TypeCNAME; Qtype q])
  | NsecNxDomain => asks r (fun q => nsec_denies_name zone records (Q_Name q))
  | NsecWildcard => asks r (fun q => nsec_gap zone records (dns_CanonicalName (Q_Name q)))
  | NsecMissingDS => delegates r (fun n => nsec_lacks records n [TypeCNAME; TypeDS; TypeSOA])
  | Nsec3NoData => asks r (fun q => nsec3_lacks (nsec3_records doe3) (Q_Name q) [TypeCNAME; Qtype q])
  | Nsec3NxDomain => asks r (fun q => nsec3_denies_name doe3 (Q_Name q) [TypeCNAME; Qtype q])
  | Nsec3Wildcard => exists s i, s ∈ r_answer r /\ wildcard s = true /\ i ∈ dns_Split (sig_name s) /\
      nsec3_gap (nsec3_records doe3) (str_drop i (sig_name s))
  | Nsec3MissingDS => delegates r (fun n => nsec3_lacks (nsec3_records doe3) n [TypeCNAME; TypeDS; TypeSOA])
  | Nsec3OptOut => delegates r (nsec3_opts_out doe3) \/
      asks r (fun q => Qtype q = TypeDS /\ nsec3_opts_out doe3 (Q_Name q))
  end.

Lemma seen_and_not_true b : seen_and_not b = true <-> b = (true, false).
Proof. by destruct b as [[] []]. Qed.

Lemma nsec_seen doe name types : seen_and_not (Nsec.TypeBitMapContainsAnyOf doe name types) = true ->
  nsec_lacks (nsec_records doe) name types.
Proof. intros H%seen_and_not_true. by apply nsec_lacks_spec. Qed.
Lemma nsec3_seen doe name types : seen_and_not (Nsec3.TypeBitMapContainsAnyOf doe name types) = true ->
  nsec3_lacks (nsec3_records doe) name types.
Proof. intros H%seen_and_not_true. by apply nsec3_lacks_spec. Qed.

Lemma delegating_shown r e r' : validateDelegatingResponse r = Ret (Secure, e, r') ->
  r_denialOfExistence r = NotFound -> r_answer r = [] -> shown r'.
Proof.
  unfold validateDelegatingResponse. intros H Hd Ha.
  case_bool_decide; [inv_bind; unfold shown; cbn; by rewrite Hd, Ha|]. destruct (negb _); [by inv_bind|].
  apply bind_ret_inv in H as (first & Ef & H). apply go_index_0 in Ef as [rest Ef].
  assert (first ∈ extractRecordsOfType (Ns (r_msg r)) TypeNS) as Hin by (cbn in Ef; rewrite Ef; left).
  apply elem_of_extractRecordsOfType in Hin as [Hin Ht].
  repeat (match type of H with (if ?b then _ else _) = _ => destruct b eqn:? end; [inv_bind; bool_facts|]); [..|by inv_bind].
  all: unfold shown; cbn; try left; exists first; (split_and!; [done..|]).
  - eapply (nsec_seen (nsec_of r)); eassumption.
  - eapply (nsec3_seen (nsec3_of r)); eassumption.
  - eapply (closest_encloser_proof_spec (nsec3_of r)); eassumption.
Qed.

(** The next test of the code. *)
Ltac test_in H E := match type of H with (if ?b then _ else _) = _ => destruct b eqn:E end.

Lemma negative_shown r e r' : validateNegativeResponse r = Ret (Secure, e, r') -> shown r'.
Proof.
  unfold validateNegativeResponse. intros H. apply bind_ret_inv in H as (q & Eq & H). apply go_index_0 in Eq as [qs Eq].
  unfold shown, asks.
  test_in H E1.
  { bool_facts. inv_bind. cbn [r_denialOfExistence set_doe r_msg]. exists q, qs. split; [done|]. eapply (nsec_seen (nsec_of r)); eassumption. }
  test_in H E2.
  { bool_facts. inv_bind. cbn [r_denialOfExistence set_doe r_msg]. exists q, qs. split; [done|]. eapply (nsec_denies_spec (nsec_of r)); eassumption. }
  test_in H E3; [|by inv_bind].
  test_in H E4.
  { inv_bind. cbn [r_denialOfExistence set_doe r_msg]. exists q, qs. split; [done|]. eapply (nsec3_seen (nsec3_of r)); eassumption. }
  destruct (closest_encloser_proof_spec (nsec3_of r) (Q_Name q)) as [Hce Hoo].
  set (p := Nsec3.PerformClosestEncloserProof (nsec3_of r) (Q_Name q)) in *.
  test_in H E5.
  { bool_facts. inv_bind. cbn [r_denialOfExistence set_doe r_msg]. right. exists q, qs. split_and!; [done..|]. by apply Hoo. }
  test_in H E6; [|by inv_bind].
  bool_facts. inv_bind. cbn [r_denialOfExistence set_doe r_msg]. destruct Hce as (ce & nc & Ef & Hnc & Hw); [done|].
  exists q, qs. split; [done|]. exists ce, nc. split_and!; [done|by apply Hnc|].
  change (nsec3_of (set_doe Nsec3NxDomain r)) with (nsec3_of r). rewrite Ef in *.
  destruct (negb (Nsec3.wildcardProof p)) eqn:E7; bool_facts.
  - right. apply nsec3_seen. by destruct (Nsec3.closestEncloserProof p), (Nsec3.nextCloserNameProof p).
  - left. by apply Hw.
Qed.

Lemma wildcard_loop_none nsec nsec3 sigs seen ver r : Forall (fun s => wildcard s = false) sigs ->
  wildcard_loop nsec nsec3 sigs seen ver r = Ret (Some (seen, ver), r).
Proof. induction 1 as [|s sigs Hs _ IH]; [done|]. cbn. by rewrite Hs. Qed.

(** Only one wildcard signature gets through the loop. *)
Lemma wildcard_loop_seen nsec nsec3 sigs ver r x r' :
  wildcard_loop nsec nsec3 sigs true ver r = Ret (Some x, r') -> Forall (fun s => wildcard s = false) sigs.
Proof.
  induction sigs as [|s sigs IH]; [constructor|]. cbn. destruct (wildcard s) eqn:Es; [by intros [=]|].
  intros H. constructor; [done|by apply IH].
Qed.

Lemma wildcard_loop_shown sigs r seen ver r' :
  wildcard_loop (nsec_of r) (nsec3_of r) sigs false false r = Ret (Some (seen, ver), r') ->
  negb seen || ver = true -> r_denialOfExistence r = NotFound -> (forall s, s ∈ sigs -> s ∈ r_answer r) ->
  (r' = r /\ Forall (fun s => wildcard s = false) sigs) \/ r_denialOfExistence r' <> NotFound /\ shown r'.
Proof.
  intros H Hok Hd Hin. induction sigs as [|s sigs IH]; cbn in H; [inv_bind; by left|].
  destruct (wildcard s) eqn:Es.
  2:{ destruct IH as [[-> ?]|?]; [done|intros s' Hs'; by apply Hin; right| |by right]. left. split; [done|by constructor]. }
  right. apply bind_ret_inv in H as ([v r1] & E1 & H). apply bind_ret_inv in H as ([v3 r2] & E2 & H).
  pose proof (wildcard_loop_seen _ _ _ _ _ _ _ H) as Hnone. rewrite wildcard_loop_none in H by done. injection H as <- <- <-. cbn in Hok.
  assert (v = true -> asks r (fun q => nsec_gap (zone_Name (r_zone r)) (extractNSECRecords (r_authority r)) (dns_CanonicalName (Q_Name q))) /\
    r1 = set_doe NsecWildcard r) as H1.
  { intros ->. destruct (negb (nsec_Empty _)); [|by inv_bind]. inv_bind.
    match goal with Hq : go_index _ 0 = Ret _ |- _ => apply go_index_0 in Hq as [qs Hq] end.
    match goal with Hq : Nsec.PerformExpandedWildcardProof _ _ = true |- _ => rewrite Hq; apply nsec_expansion_spec in Hq end.
    split; [|done]. by eexists _, qs. }
  assert (v = false -> r1 = r) as H1'.
  { intros ->. destruct (negb (nsec_Empty _)); inv_bind; [|done].
    by match goal with Hq : Nsec.PerformExpandedWildcardProof _ _ = false |- _ => rewrite Hq end. }
  assert (r2 = r1 /\ v3 = false \/ v3 = true /\ r2 = set_doe Nsec3Wildcard r1 /\ exists i, i ∈ dns_Split (sig_name s) /\
    nsec3_gap (nsec3_records (nsec3_of r)) (str_drop i (sig_name s))) as [[-> ->]|(-> & -> & i & Hi & Hg)].
  { destruct (negb (nsec3_Empty _)); [|inv_bind; by left]. apply bind_ret_inv in E2 as ([|] & Ev & E2); inv_bind; [right|by left].
    split_and!; [done..|]. by eapply nsec3_expansion_spec. }
  - rewrite orb_false_r in Hok. subst v. destruct (H1 eq_refl) as [Ha ->]. by split.
  - split; [done|]. assert (r_answer r1 = r_answer r /\ r_authority r1 = r_authority r /\ r_zone r1 = r_zone r) as (Ea & Eau & _).
    { destruct v; [by destruct (H1 eq_refl) as [_ ->]|by rewrite H1']. }
    exists s, i. cbn. unfold nsec3_of. cbn. rewrite Ea, Eau. split_and!; [apply Hin; left|done..].
Qed.

Lemma positive_shown r e r' : validatePositiveResponse r = Ret (Secure, e, r') ->
  r_denialOfExistence r = NotFound -> shown r'.
Proof.
  unfold validatePositiveResponse. intros H Hd. set (r0 := set_dsRecords (extractDSRecords (r_answer r)) r) in H.
  apply bind_ret_inv in H as ([f r1] & E & H). destruct f as [[seen ver]|]; [|by inv_bind].
  destruct (negb seen || ver) eqn:Ev; [|by inv_bind]. inv_bind.
  destruct (wildcard_loop_shown (r_answer r) r0 seen ver r' E Ev Hd (fun s H => H)) as [[-> Hw]|[_ ?]]; [|done].
  unfold shown. cbn. by rewrite Hd.
Qed.

Lemma verifyDNSKEYs_not_secure clocks r keys parent e r' :
  verifyDNSKEYs clocks r keys parent <> Ret (Secure, e, r').
Proof.
  unfold verifyDNSKEYs. intros H. case_bool_decide; [by inv_bind|].
  apply bind_ret_inv in H as (ks & Eks & H). case_bool_decide; [by inv_bind|].
  apply bind_ret_inv in H as ([sigs err] & Ea & H).
  destruct err; [by inv_bind|]. destruct (Verify sigs); by inv_bind.
Qed.

Lemma verifyRRSETs_not_secure clocks r keys e r' :
  verifyRRSETs clocks r keys <> Ret (Secure, e, r').
Proof.
  unfold verifyRRSETs. intros H.
  apply bind_ret_inv in H as ([s1 err] & E1 & H). destruct err; [by inv_bind|].
  apply bind_ret_inv in H as ([s2 err] & E2 & H). destruct err; [by inv_bind|].
  destruct (Verify (s1 ++ s2)); by inv_bind.
Qed.

(** The DS record [d] reaches, before any key it vouches for, a key with its
    algorithm and tag for which the library does not know its digest type. *)
Definition chokes_on (d : DS) (keys : list DNSKEY) : Prop :=
  exists pre k post, keys = pre ++ k :: post /\ DS_Algorithm d = DNSKEY_Algorithm k /\
    DS_KeyTag d = dns_KeyTag k /\ dns_ToDS k (DigestType d) = None /\ Forall (fun k' => ~ vouches d k') pre.

Lemma matching_key_panics d keys p :
  matching_key d keys = Panic p <-> p = NilDereference /\ chokes_on d keys.
Proof.
  induction keys as [|k keys IH]; cbn [matching_key].
  { split; [done|]. by intros (_ & pre & k & post & H & _); destruct pre. }
  assert (Hskip : ~ vouches d k -> dns_ToDS k (DigestType d) <> None \/
      ~ (DS_Algorithm d = DNSKEY_Algorithm k /\ DS_KeyTag d = dns_KeyTag k) ->
    chokes_on d (k :: keys) <-> chokes_on d keys).
  { intros Hv Hd. split.
    - intros ([|k' pre] & k0 & post & [=-> ->] & Ha & Ht & Hn & Hpre); [naive_solver|].
      apply Forall_cons in Hpre as [_ ?]. by exists pre, k0, post.
    - intros (pre & k0 & post & -> & ? & ? & ? & ?). exists (k :: pre), k0, post. split_and!; try done. by constructor. }
  destruct (bool_decide (DS_Algorithm d = DNSKEY_Algorithm k) && bool_decide (DS_KeyTag d = dns_KeyTag k)) eqn:Et.
  - bool_facts. destruct (dns_ToDS k (DigestType d)) as [ds|] eqn:Eds.
    + destruct (equal_fold (Digest d) (Digest ds)) eqn:Ef.
      * split; [done|]. intros (_ & [|k' pre] & k0 & post & [=-> ->] & _ & _ & Hn & Hpre); [congruence|].
        apply Forall_cons in Hpre as [Hv _]. destruct Hv. unfold vouches. naive_solver.
      * rewrite Hskip, IH; [done| |left; congruence]. intros (_ & _ & ds' & ? & ?). congruence.
    + split; [|by intros [-> _]]. intros [= <-]. split; [done|]. exists [], k, keys. split_and!; done.
  - assert (~ (DS_Algorithm d = DNSKEY_Algorithm k /\ DS_KeyTag d = dns_KeyTag k)) as Hno.
    { intros [Ha Ht]. by rewrite !bool_decide_true in Et. }
    rewrite Hskip, IH; [done| |by right]. intros (? & ? & _). by apply Hno.
Qed.

Lemma key_signing_keys_panics parent keys p :
  key_signing_keys parent keys = Panic p <-> p = NilDereference /\ exists d, d ∈ parent /\ chokes_on d keys.
Proof.
  induction parent as [|d parent IH]; cbn [key_signing_keys]; [rewrite exists_elem_nil; naive_solver|].
  rewrite exists_elem_cons. pose proof (matching_key_panics d keys) as Hm.
  destruct (matching_key d keys) as [o|p'] eqn:Em; cbn.
  - assert (~ chokes_on d keys) as Hno by (intros Hc; discriminate (proj2 (Hm NilDereference) (conj eq_refl Hc))).
    destruct (key_signing_keys parent keys); cbn; naive_solver.
  - destruct (proj1 (Hm p') eq_refl) as [-> Hc]. naive_solver.
Qed.

(** C36: [verifyDNSKEYs] panics exactly when one of the parent's DS records
    has a digest type the library does not know and reaches a key with its
    algorithm and tag. *)
Theorem verifyDNSKEYs_panics `{!DnsLaws L} clocks r keys parent p :
  verifyDNSKEYs clocks r keys parent = Panic p <->
  p = NilDereference /\ exists d, d ∈ parent /\ chokes_on d (extractRecords DNSKEY keys).
Proof.
  unfold verifyDNSKEYs. case_bool_decide as He.
  { split; [done|]. intros (_ & d & _ & pre & k & post & H & _).
    apply length_zero_iff_nil in He. rewrite He in H. by destruct pre. }
  rewrite <- key_signing_keys_panics. destruct (key_signing_keys parent _) as [ks|p'] eqn:Ek; cbn; [|split; by intros [= ->]].
  split; [|done]. intros H. exfalso. revert H. case_bool_decide; [done|].
  pose proof (authenticate_ret (zone_Name (r_zone r)) keys ks answerSection (key_clock clocks)) as Ha.
  destruct (authenticate _ _ _ _ _) as [[sigs [e|]]|]; cbn; [done| |done]. by destruct (Verify sigs).
Qed.

(** Among the verified signatures there is one by a key that a DS record
    vouches for. *)
Definition anchored_signature (parent : list DS) (keys : list DNSKEY) (ss : signatures) : Prop :=
  exists s k, s ∈ ss /\ verified s = true /\ sig_key s = Some k /\ k ∈ keys /\ anchored parent k.

Lemma policy_anchored zone parent keys ss :
  policy_ok ss -> signed_by zone (fun k => k ∈ keys /\ anchored parent k) ss ->
  anchored_signature parent keys ss.
Proof.
  intros (s & Hs & Hv)%policy_one Hsig. destruct (Hsig s Hs Hv) as (_ & k & Hk & [Hin Ha] & _).
  by exists s, k.
Qed.

(** The evidence behind a Secure verdict on a response of [zone] under the
    parent's DS records. Of the DNSKEY answer: the policy holds, its verified
    signatures are by keys that a DS record vouches for, and there is one. Of
    the response: the policy holds, its verified signatures are by keys of that
    answer, and its denial tag is backed by records that come with a signature
    (which is verified under the strict policy). Under the strict policy the signatures cover the keys and both sections. *)
Definition secure_evidence (zone : Zone) (parent : list DS) (r : result) : Prop :=
  parent <> [] /\
  exists keys, GetDNSKEYRecords zone = (keys, None) /\
    policy_ok (r_keys r) /\
    signed_by (zone_Name zone)
      (fun k => k ∈ extractRecords DNSKEY keys /\ anchored parent k) (r_keys r) /\
    anchored_signature parent (extractRecords DNSKEY keys) (r_keys r) /\
    covered answerSection keys (r_keys r) /\
    policy_ok (r_answer r ++ r_authority r) /\
    signed_by (zone_Name zone) (fun k => k ∈ extractRecords DNSKEY keys)
      (r_answer r ++ r_authority r) /\
    covered answerSection (Answer (r_msg r)) (r_answer r) /\
    covered authoritySection (Ns (r_msg r)) (r_authority r) /\
    shown r.

(** The validation that follows the two checks keeps their findings and
    justifies the tag it sets. *)
Lemma validation_shown clocks r e r' :
  r_denialOfExistence r = NotFound -> (Answer (r_msg r) = [] -> r_answer r = []) ->
  (let v := concrete_verifier clocks in
   let soa := recordsOfTypeExist (Ns (r_msg r)) TypeSOA in
   if negb soa && bool_decide (length (Answer (r_msg r)) = 0) && recordsOfTypeExist (Ns (r_msg r)) TypeNS
   then v_validateDelegatingResponse v r
   else if negb soa && bool_decide (0 < length (Answer (r_msg r))) then v_validatePositiveResponse v r
   else if soa then v_validateNegativeResponse v r
   else Ret (Bogus, Some (ESentinel ErrFailsafeResponse), r)) = Ret (Secure, e, r') ->
  same_signatures r r' /\ shown r'.
Proof.
  intros Hd Ha H. cbv zeta in H.
  test_in H E1; [|test_in H E2; [|test_in H E3; [|by inv_bind]]].
  - bool_facts. split; [exact (delegating_same _ _ _ _ H)|apply (delegating_shown r e r' H Hd)].
    apply Ha. by apply length_zero_iff_nil.
  - split; [exact (positive_same _ _ _ _ H)|exact (positive_shown r e r' H Hd)].
  - split; [exact (negative_same _ _ _ _ H)|exact (negative_shown r e r' H)].
Qed.

Lemma verify_secure_evidence `{!DnsLaws L} clocks zone msg parent e r :
  verify (concrete_verifier clocks) zone msg parent = Ret (Secure, e, r) ->
  r_zone r = zone /\ r_msg r = msg /\ secure_evidence zone parent r.
Proof.
  unfold verify. intros H. case_bool_decide as Hp; [by inv_bind|].
  destruct (GetDNSKEYRecords zone) as [keys [err|]] eqn:Ek; [by inv_bind|].
  apply bind_ret_inv in H as ([[st1 e1] r1] & E1 & H). cbn in E1.
  destruct (bool_decide (st1 <> Unknown) || bool_decide (is_Some e1)) eqn:Eb1.
  { inv_bind. by apply verifyDNSKEYs_not_secure in E1. }
  apply orb_false_iff in Eb1 as [Eb1 _]. apply bool_decide_eq_false, dec_stable in Eb1. subst st1.
  apply verifyDNSKEYs_unknown in E1 as (-> & Hp1 & Hr1 & Hs1 & Hc1).
  apply bind_ret_inv in H as ([[st2 e2] r2] & E2 & H). cbn in E2.
  destruct (bool_decide (st2 <> Unknown) || bool_decide (is_Some e2)) eqn:Eb2.
  { inv_bind. by apply verifyRRSETs_not_secure in E2. }
  apply orb_false_iff in Eb2 as [Eb2 _]. apply bool_decide_eq_false, dec_stable in Eb2. subst st2.
  apply verifyRRSETs_unknown in E2 as (-> & Hp2 & Hr2 & Hs2 & Hc2 & Hc3 & Hn).
  apply (validation_shown clocks r2) in H as [(Hk & Ha & Hau & Hz & Hm) Hsh];
    [|by rewrite Hr2, Hr1|rewrite Hr2; by rewrite Hr2 in Hn].
  assert (r_keys r2 = r_keys r1) as Hk2 by (by rewrite Hr2).
  assert (r_zone r2 = zone /\ r_msg r2 = msg) as [Hz2 Hm2] by (by rewrite Hr2, Hr1).
  assert (r_zone r1 = zone /\ r_msg r1 = msg) as [Hz1 Hm1] by (by rewrite Hr1).
  cbn [r_zone new_result] in Hs1. rewrite Hz1 in Hs2. rewrite Hm1 in Hc2, Hc3.
  split_and!; [congruence|congruence|]. split; [by destruct parent|].
  exists keys. rewrite Hk, Hk2, Ha, Hau, Hm, Hm2. split_and!; try done. by eapply policy_anchored.
Qed.

(** Whatever the verdict, the result is about the zone and message given. *)
Definition same_subject (r r' : result) : Prop := r_zone r' = r_zone r /\ r_msg r' = r_msg r.

Lemma verifyDNSKEYs_subject clocks r keys parent st e r' :
  verifyDNSKEYs clocks r keys parent = Ret (st, e, r') -> same_subject r r'.
Proof.
  unfold verifyDNSKEYs. intros H. case_bool_decide; [by inv_bind|].
  apply bind_ret_inv in H as (ks & _ & H). case_bool_decide; [by inv_bind|].
  apply bind_ret_inv in H as ([sigs err] & _ & H).
  destruct err; [by inv_bind|]. by destruct (Verify sigs); inv_bind.
Qed.

Lemma verifyRRSETs_subject clocks r keys st e r' :
  verifyRRSETs clocks r keys = Ret (st, e, r') -> same_subject r r'.
Proof.
  unfold verifyRRSETs. intros H.
  apply bind_ret_inv in H as ([s1 err] & _ & H). destruct err; [by inv_bind|].
  apply bind_ret_inv in H as ([s2 err] & _ & H). destruct err; [by inv_bind|].
  by destruct (Verify (s1 ++ s2)); inv_bind.
Qed.

Lemma verify_subject clocks zone msg parent st e r :
  verify (concrete_verifier clocks) zone msg parent = Ret (st, e, r) ->
  r_zone r = zone /\ r_msg r = msg.
Proof.
  unfold verify. intros H. case_bool_decide as Hp; [by inv_bind|].
  destruct (GetDNSKEYRecords zone) as [keys [err|]] eqn:Ek; [by inv_bind|]. cbn in H.
  apply bind_ret_inv in H as ([[st1 e1] r1] & [Hz1 Hm1]%verifyDNSKEYs_subject & H).
  destruct (_ || _) in H; [by inv_bind|].
  apply bind_ret_inv in H as ([[st2 e2] r2] & [Hz2 Hm2]%verifyRRSETs_subject & H).
  destruct (_ || _) in H; [inv_bind; cbn in *; split; congruence|].
  assert (Hsame : same_signatures r2 r).
  { cbn zeta in H. repeat (match type of H with (if ?b then _ else _) = _ => destruct b end);
      eauto using delegating_same, positive_same, negative_same. by inv_bind. }
  destruct Hsame as (_ & _ & _ & Hz & Hm). cbn in *. split; congruence.
Qed.

(** The evidence does not depend on the state and error recorded. *)
Lemma shown_ext r r' :
  r_answer r' = r_answer r -> r_authority r' = r_authority r -> r_zone r' = r_zone r -> r_msg r' = r_msg r ->
  r_denialOfExistence r' = r_denialOfExistence r -> shown r -> shown r'.
Proof. unfold shown, asks, delegates, nsec3_of. by intros -> -> -> -> ->. Qed.

Lemma secure_evidence_ext zone parent r r' :
  r_keys r' = r_keys r -> r_answer r' = r_answer r -> r_authority r' = r_authority r ->
  r_zone r' = r_zone r -> r_msg r' = r_msg r -> r_denialOfExistence r' = r_denialOfExistence r ->
  secure_evidence zone parent r -> secure_evidence zone parent r'.
Proof.
  intros H1 H2 H3 H4 H5 H6. pose proof (shown_ext r r' H2 H3 H4 H5 H6). unfold secure_evidence.
  rewrite H1, H2, H3, H5. naive_solver.
Qed.

(** C19: a Secure verdict is backed by a chain of evidence (see
    [secure_evidence]) under whichever policy is configured. *)
Theorem verify_secure_sound `{!DnsLaws L} clocks zone msg parent e r :
  verify (concrete_verifier clocks) zone msg parent = Ret (Secure, e, r) ->
  r_zone r = zone /\ r_msg r = msg /\ secure_evidence zone parent r.
Proof. exact (verify_secure_evidence clocks zone msg parent e r). Qed.
End verify_facts.

(** ** A zone signed by one key

    The zone example. has a single key, which the parent's DS record names, and
    its A record www.example. is genuinely signed by it. *)
Module CskExample.
#[export] Existing Instance refLib.
#[export] Existing Instance map_range_std.

Definition hdr (n : string) (t : Z) : RR_Header := mkHdr n t ClassINET 300.
Definition key (text : string) : DNSKEY := mkDNSKEY (hdr "example." TypeDNSKEY) 257 3 13 text.
Definition csk : DNSKEY := key "csk".
Definition evil : DNSKEY := key "evil".
Definition parent : list DS := [mkDS (hdr "example." TypeDS) (dns_KeyTag csk) 13 SHA256 "CSK"].

Definition rrsig (k : DNSKEY) (owner : string) (t labels : Z) : RRSIG :=
  mkRRSIG (hdr owner TypeRRSIG) t 13 labels 300 2000 1000 (dns_KeyTag k) "example."
    (ref_sign k owner t).
Definition a (owner addr : string) : RR := RR_A (mkA (hdr owner TypeA) addr).

(** The honest answers to the DNSKEY question and to www.example. A. *)
Definition honest_keys : list RR :=
  [RR_DNSKEY csk; RR_RRSIG (rrsig csk "example." TypeDNSKEY 1)].
Definition question : Question_ := mkQ "www.example." TypeA ClassINET.
Definition response (answer : list RR) : Msg :=
  mkMsg 7 true true false true true false false RcodeSuccess [question] answer [] [].
Definition honest_answer : list RR :=
  [a "www.example." "192.0.2.1"; RR_RRSIG (rrsig csk "www.example." TypeA 2)].

(** A forged pair: a DNSKEY RRset that carries a second key and no signature
    of its own, padded with the genuine www.example. RRset and with an RRSIG
    that covers nothing; and an answer signed by the second key. *)
Definition forged_keys : list RR :=
  [RR_DNSKEY csk; RR_DNSKEY evil] ++ honest_answer ++
  [RR_RRSIG (mkRRSIG (hdr "x.example." TypeRRSIG) TypeA 13 2 300 2000 1000 0 "example." "")].
Definition forged_answer : list RR :=
  [a "www.example." "203.0.113.66"; RR_RRSIG (rrsig evil "www.example." TypeA 2)].

Definition zone (keys : list RR) : Zone := mkZone "example." (keys, None).
Definition clocks : Clocks := frozen (1500 * second).
Definition lenient : DnssecConfig := default_config parent.
Definition strict : DnssecConfig :=
  {| RootTrustAnchors := parent; RequireAllSignaturesValid := true;
     MaxAllowedTTL := DefaultMaxAllowedTTL |}.

Definition status_of (v : outcome verdict) : outcome AuthenticationResult :=
  match v with Ret (st, _, _) => Ret st | Panic p => Panic p end.
Definition run (cfg : DnssecConfig) (keys answer : list RR) : outcome AuthenticationResult :=
  status_of (verify (concrete_verifier clocks) (zone keys) (response answer) parent).
End CskExample.

Example csk_honest_lenient :
  CskExample.run CskExample.lenient CskExample.honest_keys CskExample.honest_answer = Ret Secure.
Proof. vm_compute. reflexivity. Qed.
Example csk_honest_strict :
  CskExample.run CskExample.strict CskExample.honest_keys CskExample.honest_answer = Ret Secure.
Proof. vm_compute. reflexivity. Qed.

(** The default policy groups signatures by record type only and compares
    counts of (name, type) pairs, so a DNSKEY RRset that no signature covers is
    accepted when another RRset of the zone and an empty signature stand in for
    it: the forged answer is Secure by default, and Bogus under the strict
    policy. *)
Theorem unsigned_dnskey_accepted :
  filter (fun s => TypeCovered s = TypeDNSKEY)
    (extractRecords RRSIG CskExample.forged_keys) = [] /\
  ~ @anchored refLib CskExample.parent CskExample.evil /\
  CskExample.run CskExample.lenient CskExample.forged_keys CskExample.forged_answer = Ret Secure /\
  CskExample.run CskExample.strict CskExample.forged_keys CskExample.forged_answer = Ret Bogus.
Proof.
  split_and!; try (vm_compute; reflexivity).
  intros (d & Hd & _ & Htag & _). apply list_elem_of_singleton in Hd as ->. done.
Qed.

(** The checks of denial read the RRsets of all signatures, verified or not. By
    default one verified NSEC signature is enough for the type, and a forged
    NSEC record, which denies the A record of www.example., rides along. *)
Definition forged_denial : Msg :=
  let nsec n next := RR_NSEC (mkNSEC (CskExample.hdr n TypeNSEC) next [TypeNSEC]) in
  mkMsg 7 true true false true true false false RcodeSuccess [CskExample.question] []
    [RR_SOA (mkSOA (CskExample.hdr "example." TypeSOA) "");
     RR_RRSIG (CskExample.rrsig CskExample.csk "example." TypeSOA 1);
     nsec "example." "www.example."; RR_RRSIG (CskExample.rrsig CskExample.csk "example." TypeNSEC 1);
     nsec "www.example." "example."; RR_RRSIG (CskExample.rrsig CskExample.evil "www.example." TypeNSEC 2)] [].
Definition forged_denial_run (cfg : DnssecConfig) : outcome AuthenticationResult :=
  CskExample.status_of (verify (@concrete_verifier refLib map_range_std cfg CskExample.clocks)
    (CskExample.zone CskExample.honest_keys) forged_denial CskExample.parent).

Theorem unverified_denial_accepted :
  forged_denial_run CskExample.lenient = Ret Secure /\ forged_denial_run CskExample.strict = Ret Bogus.
Proof. split; vm_compute; reflexivity. Qed.

(** An answer whose A record has no signature, and a signature over itself:
    [authenticate] counts one signed RRset and one that needs a signature, and
    does not notice that they differ. The answer is Secure even under the strict
    policy. (No signer makes such a signature: RFC 4035, 2.2.) *)
Theorem rrsig_over_rrsig :
  let answer := [CskExample.a "www.example." "203.0.113.66";
                 RR_RRSIG (CskExample.rrsig CskExample.csk "www.example." TypeRRSIG 2)] in
  CskExample.run CskExample.strict CskExample.honest_keys answer = Ret Secure /\
  (exists sig, @authenticate refLib "example." answer [CskExample.csk] answerSection (key_clock CskExample.clocks) =
    Ret ([sig], None) /\ verified sig = true /\ CskExample.a "www.example." "203.0.113.66" ∉ sig_rrset sig).
Proof.
  split; [vm_compute; reflexivity|]. eexists. split_and!; [vm_compute; reflexivity..|].
  apply (bool_decide_unpack _). vm_compute. exact I.
Qed.

(** ** The hypotheses of the theorems hold on the example *)

Module CskWitness.
Import CskExample.

Definition sig_of (keys : list DNSKEY) (rrsets : list RR) (r : RRSIG) : signature :=
  match authenticate_sig "example." rrsets keys (1500 * second, 1500 * second)%Z r with
  | Ret s => s
  | Panic _ => new_signature "" [] r
  end.
Definition www_rrsig : RRSIG := rrsig csk "www.example." TypeA 2.
Definition www_sig : signature := sig_of [csk] honest_answer www_rrsig.

Definition sigs_of (rrsets : list RR) : signatures :=
  match authenticate "example." rrsets [csk] answerSection (key_clock clocks) with
  | Ret (s, _) => s
  | Panic _ => []
  end.

Definition secure_result : result :=
  match verify (@concrete_verifier refLib map_range_std lenient clocks)
          (zone honest_keys) (response honest_answer) parent with
  | Ret (_, _, r) => r
  | Panic _ => new_result (zone []) new_Msg
  end.

Lemma sig_verified_iff_witness :
  verified www_sig = true /\
  (verified www_sig = true <->
    sig_admissible "example." (1500 * second) www_rrsig /\
    exists k, k ∈ [csk] /\ key_validates www_sig k).
Proof.
  split; [vm_compute; reflexivity|].
  apply (sig_verified_iff "example." honest_answer [csk] (1500 * second) (1500 * second)
    www_rrsig www_sig).
  vm_compute. reflexivity.
Defined.

Lemma sig_ttl_bounds_witness :
  sig_ttl www_sig = 300%Z /\ (sig_ttl www_sig <= 500)%Z.
Proof.
  destruct (sig_ttl_bounds "example." honest_answer [csk] (1500 * second) (1500 * second)
    www_rrsig www_sig) as (H1 & _ & _ & _ & H2 & _); [vm_compute; reflexivity..|].
  split; [exact H1|]. apply H2. vm_compute. split; congruence.
Defined.

Lemma strict_policy_covers_witness :
  exists sig, sig ∈ sigs_of honest_answer /\ verified sig = true /\
    a "www.example." "192.0.2.1" ∈ sig_rrset sig.
Proof.
  destruct (@strict_policy_covers refLib refLaws "example." honest_answer [csk] answerSection
    (key_clock clocks) (sigs_of honest_answer)) as [(sig & Hs & Ht)|Hc].
  - vm_compute. reflexivity.
  - apply (bool_decide_unpack _). vm_compute. exact I.
  - apply list_elem_of_singleton in Hs as ->. discriminate Ht.
  - apply Hc; [left|]. split; [done|]. by intros [? _].
Defined.

Lemma verify_secure_sound_witness :
  @secure_evidence refLib lenient (zone honest_keys) parent secure_result.
Proof.
  apply (@verify_secure_sound refLib map_range_std lenient refLaws clocks (zone honest_keys)
    (response honest_answer) parent None secure_result).
  vm_compute. reflexivity.
Defined.

Definition sha384_ds : DS := mkDS (hdr "example." TypeDS) (dns_KeyTag csk) 13 4 "CSK".

Lemma verifyDNSKEYs_panics_witness :
  @verifyDNSKEYs refLib map_range_std lenient clocks (new_result (zone []) new_Msg)
    honest_keys [sha384_ds] = Panic NilDereference.
Proof.
  apply (@verifyDNSKEYs_panics refLib map_range_std lenient refLaws clocks
    (new_result (zone []) new_Msg) honest_keys [sha384_ds] NilDereference).
  split; [reflexivity|]. exists sha384_ds. split; [left|].
  exists [], csk, []. split_and!; try reflexivity. constructor.
Defined.
End CskWitness.
