(* ===== verification/Authenticator.v ===== *)
(** * dnssec/authenticator.go and dnssec/result.go: the authentication chain

    An [Authenticator] buffers one response per zone, ordered by the zone's
    label count, processes them from the root down as soon as there is no gap,
    and judges the chain in [Result]. *)

From S2P Require Import Prelude GoErrors Dns DnsRef DnssecConst DnssecFunctions Signatures AuthenticateRRset Doe Verify.

(** ** dnssec/types.go *)

Record input := mkInput { in_zone : Zone; in_msg : Msg }.

(** The type of the [verify] field; a nil result is [None]. *)
Definition verify_fn : Type :=
  Zone -> Msg -> list DS -> outcome (AuthenticationResult * option result * option error).

Record Authenticator := mkAuthenticator {
  question : Question_;
  inputBuffer : list (option input);
  inputBufferIdx : nat;
  results : list result;
  a_verify : verify_fn
}.

Definition set_inputBuffer (v : list (option input)) (a : Authenticator) : Authenticator :=
  mkAuthenticator (question a) v (inputBufferIdx a) (results a) (a_verify a).
Definition incr_inputBufferIdx (a : Authenticator) : Authenticator :=
  mkAuthenticator (question a) (inputBuffer a) (S (inputBufferIdx a)) (results a) (a_verify a).
Definition append_result (r : result) (a : Authenticator) : Authenticator :=
  mkAuthenticator (question a) (inputBuffer a) (inputBufferIdx a) (results a ++ [r]) (a_verify a).

Section authenticator.
Context `{L : DnsLib} `{MapRange} `{Cfg : DnssecConfig}.

(** The [verify] method of a verifier as the field's function.  [clocks]
    gives the clock readings made while a response is processed. *)
Definition verify_method (v : Zone -> Msg -> verifier) : verify_fn := fun zone msg ds =>
  '(state, err, r) ← verify (v zone msg) zone msg ds;
  Ret (state, Some r, err).

Definition NewAuth (clocks : Zone -> Msg -> Clocks) (q : Question_) : Authenticator :=
  let maxExpectedItems := dns_CountLabel (Q_Name q) + 1 in
  mkAuthenticator q (replicate maxExpectedItems None) 0 []
    (verify_method (fun zone msg => concrete_verifier (clocks zone msg))).

(** The tests [processResponse] makes against the previous result: the DS
    records to verify with, or the error. *)
Definition previous_ds (a : Authenticator) (zone : Zone) : list DS + error :=
  match last (results a) with
  | None => inl RootTrustAnchors
  | Some l =>
      let lastName := zone_Name (r_zone l) in
      if negb (dns_IsSubDomain lastName (zone_Name zone)) then
        inr (errorf_s ErrNotSubdomain
          (": last zone:[" +:+ lastName +:+ "] current zone:[" +:+ zone_Name zone +:+ "]"))
      else if namesEqual lastName (zone_Name zone) then
        inr (errorf_s ErrSameName
          (": last result must be a child of the previous result; they cannot be the same. both are "
           +:+ zone_Name zone))
      else inl (r_dsRecords l)
  end.

(** The signer of the first RRSIG against the owner of the first DS record. *)
Definition signer_error (a : Authenticator) (msg : Msg) (ds : list DS) : option error :=
  match extractRecords RRSIG (Answer msg ++ Ns msg), ds with
  | rrsig :: _, d :: _ =>
      let signerName := dns_CanonicalName (SignerName rrsig) in
      let lastDSOwner := dns_CanonicalName (Name (DS_Hdr d)) in
      if bool_decide (lastDSOwner <> signerName) then
        if negb (dns_IsSubDomain signerName (Q_Name (question a))) then
          Some (errorf_s ErrNotSubdomain
            (": signerName:[" +:+ signerName +:+ "] target qname:[" +:+ Q_Name (question a) +:+ "]"))
        else Some (MissingDSRecordError signerName)
      else None
  | _, _ => None
  end.

Definition processResponse (zone : Zone) (msg : Msg) (a : Authenticator) :
    outcome (Authenticator * option error) :=
  match previous_ds a zone with
  | inr e => Ret (a, Some e)
  | inl ds =>
      match signer_error a msg ds with
      | Some e => Ret (a, Some e)
      | None =>
          '(state, r, err) ← a_verify a zone msg ds;
          match r with
          | Some r =>
              let r := match err with Some e => set_err (Some e) r | None => r end in
              let state := if bool_decide (state = Unknown) then Bogus else state in
              Ret (append_result (set_state state r) a, None)
          | None => Ret (a, Some (ESentinel ErrUnknown))
          end
      end
  end.

(** The loop of [AddResponse]: stops at the first gap or error.  [rest] is
    the buffer from [inputBufferIdx] on. *)
Fixpoint add_loop (rest : list (option input)) (a : Authenticator) :
    outcome (Authenticator * option error) :=
  match rest with
  | [] | None :: _ => Ret (a, None)
  | Some i :: rest' =>
      '(a, err) ← processResponse (in_zone i) (in_msg i) a;
      match err with
      | Some e => Ret (a, Some e)
      | None => add_loop rest' (incr_inputBufferIdx a)
      end
  end.

Definition AddResponse (zone : Zone) (msg : Msg) (a : Authenticator) :
    outcome (Authenticator * option error) :=
  let not_sub := errorf_s ErrNotSubdomain
    (": current zone:[" +:+ zone_Name zone +:+ "] target qname:[" +:+ Q_Name (question a) +:+ "]") in
  let not_sub_q := errorf_s ErrNotSubdomain
    (": current qname:[" +:+ zone_Name zone +:+ "] target qname:[" +:+ Q_Name (question a) +:+ "]") in
  if negb (dns_IsSubDomain (zone_Name zone) (Q_Name (question a))) then Ret (a, Some not_sub)
  else
    q ← go_index (Question msg) 0;
    if negb (dns_IsSubDomain (Q_Name q) (Q_Name (question a))) then Ret (a, Some not_sub_q)
    else
      let position := dns_CountLabel (zone_Name zone) in
      v ← go_index (inputBuffer a) (Z.of_nat position);
      match v with
      | Some _ =>
          Ret (a, Some (errorf_s ErrDuplicateInputForZone
            (": we already have a dnssec authenticator input for zone [" +:+ zone_Name zone +:+ "]")))
      | None =>
          let a := set_inputBuffer (<[ position := Some (mkInput zone msg) ]> (inputBuffer a)) a in
          add_loop (drop (inputBufferIdx a) (inputBuffer a)) a
      end.

(** ** dnssec/result.go *)

(** The first loop of [Result]: gaps are skipped. *)
Fixpoint result_loop (rest : list (option input)) (a : Authenticator) :
    outcome (Authenticator * option error) :=
  match rest with
  | [] => Ret (a, None)
  | None :: rest' => result_loop rest' (incr_inputBufferIdx a)
  | Some i :: rest' =>
      '(a, err) ← processResponse (in_zone i) (in_msg i) a;
      match err with
      | Some e => Ret (a, Some e)
      | None => result_loop rest' (incr_inputBufferIdx a)
      end
  end.

Definition judgement : Type := AuthenticationResult * DenialOfExistenceState * option error.

Fixpoint first_bogus (rs : list result) : option result :=
  match rs with
  | [] => None
  | r :: rest => if bool_decide (r_state r = Bogus) then Some r else first_bogus rest
  end.

(** The loop that looks for the step from Secure to Insecure. *)
Fixpoint insecure_step (previous : option result) (rs : list result) :
    outcome (option judgement) :=
  match rs with
  | [] => Ret None
  | current :: rest =>
      if bool_decide (r_state current = Secure) then insecure_step (Some current) rest
      else
        match previous with
        | None => Ret (Some (r_state current, r_denialOfExistence current, r_err current))
        | Some previous =>
            let doe := r_denialOfExistence previous in
            let bogus := Some (Bogus, doe, r_err current) in
            let insecure := Some (Insecure, doe, r_err current) in
            match doe with
            | Nsec3OptOut | NsecMissingDS | Nsec3MissingDS => Ret insecure
            | NsecNoData | Nsec3NoData =>
                previousQ ← go_index (Question (r_msg previous)) 0;
                if bool_decide (Qtype previousQ = TypeDS)
                   && bool_decide (dns_CanonicalName (Q_Name previousQ) =
                                   dns_CanonicalName (zone_Name (r_zone current)))
                then Ret insecure
                else Ret bogus
            | _ => Ret bogus
            end
        end
  end.

(** The verdict on the last result. *)
Definition judge_last (q : Question_) (l : result) : judgement :=
  let doe := r_denialOfExistence l in
  let positive :=
    if recordsOfTypeExist (Ns (r_msg l)) TypeSOA then (Bogus, doe, r_err l)
    else if bool_decide
        (0 < length (extractRecordsOfNameAndType (Answer (r_msg l)) (Q_Name q) (Qtype q)))
    then (Secure, doe, r_err l)
    else if bool_decide
        (0 < length (extractRecordsOfNameAndType (Answer (r_msg l)) (Q_Name q) TypeCNAME))
    then (Secure, doe, r_err l)
    else (Bogus, doe, r_err l) in
  if bool_decide (r_state l <> Secure) then (r_state l, doe, r_err l)
  else
    match doe with
    | Nsec3OptOut => (Insecure, doe, r_err l)
    | NsecNxDomain | Nsec3NxDomain | NsecNoData | Nsec3NoData => (Secure, doe, r_err l)
    | NotFound | NsecWildcard | Nsec3Wildcard => positive
    | _ => (Bogus, doe, r_err l)
    end.

(** [Result] once all inputs are processed. *)
Definition judge (q : Question_) (rs : list result) : outcome judgement :=
  match last rs with
  | None => Ret (Unknown, NotFound, Some (ESentinel ErrNoResults))
  | Some l =>
      match first_bogus rs with
      | Some r => Ret (Bogus, NotFound, r_err r)
      | None =>
          step ← insecure_step None rs;
          Ret (match step with Some j => j | None => judge_last q l end)
      end
  end.

Definition Result (a : Authenticator) : outcome (judgement * Authenticator) :=
  '(a, err) ← result_loop (drop (inputBufferIdx a) (inputBuffer a)) a;
  match err with
  | Some e => Ret ((Unknown, NotFound, Some e), a)
  | None => j ← judge (question a) (results a); Ret (j, a)
  end.

(** [None] for Go's [(0, false)]. *)
Definition resultTTL (rtype : Z) (ss : signatures) : option Z :=
  let '(found, ttl) :=
    foldl (fun '(found, ttl) sig =>
      if bool_decide (sig_rtype sig = rtype) && verified sig
      then (true, Z.min ttl (sig_ttl sig)) else (found, ttl))
      (false, MaxAllowedTTL) ss in
  if negb found then None else Some ttl.

Definition ResultTTLAnswer (a : Authenticator) (rtype : Z) : option Z :=
  match last (results a) with
  | None => None
  | Some l => resultTTL rtype (r_answer l)
  end.

Definition ResultTTLAuthority (a : Authenticator) (rtype : Z) : option Z :=
  match last (results a) with
  | None => None
  | Some l => resultTTL rtype (r_authority l)
  end.
End authenticator.

(** * Theory *)

Section judge_facts.
Context `{L : DnsLib} `{Cfg : DnssecConfig}.

Lemma first_bogus_none rs :
  first_bogus rs = None <-> Forall (fun r => r_state r <> Bogus) rs.
Proof.
  induction rs as [|r rs IH]; simpl; [done|]. rewrite Forall_cons, <- IH.
  case_bool_decide; naive_solver.
Qed.

(** The previous result proves that the next zone is not signed. *)
Definition denies_ds (previous current : result) : Prop :=
  match r_denialOfExistence previous with
  | Nsec3OptOut | NsecMissingDS | Nsec3MissingDS => True
  | NsecNoData | Nsec3NoData =>
      exists q rest, Question (r_msg previous) = q :: rest /\ Qtype q = TypeDS /\
        dns_CanonicalName (Q_Name q) = dns_CanonicalName (zone_Name (r_zone current))
  | _ => False
  end.

Lemma insecure_step_spec previous rs j :
  insecure_step previous rs = Ret j ->
  match j with
  | None => Forall (fun r => r_state r = Secure) rs
  | Some (st, doe, err) =>
      exists before current after, rs = before ++ current :: after /\
        Forall (fun r => r_state r = Secure) before /\ r_state current <> Secure /\
        match last before, previous with
        | Some p, _ | None, Some p =>
            doe = r_denialOfExistence p /\
            (st = Insecure /\ denies_ds p current \/ st = Bogus)
        | None, None => st = r_state current
        end
  end.
Proof.
  revert previous; induction rs as [|r rs IH]; intros previous; simpl;
    [intros Hj; inv_bind; constructor|].
  case_bool_decide as Hst.
  - intros H. specialize (IH _ H). destruct j as [[[st doe] err]|]; [|by constructor].
    destruct IH as (before & current & after & -> & Hb & Hc & Hm).
    exists (r :: before), current, after. split_and!; [done|by constructor|done|].
    rewrite last_cons. destruct (last before); [done|]. by destruct previous.
  - intros H.
    assert (Hgo : forall st doe err, j = Some (st, doe, err) ->
      match previous with
      | Some p => doe = r_denialOfExistence p /\
          (st = Insecure /\ denies_ds p r \/ st = Bogus)
      | None => st = r_state r
      end).
    { intros st doe err ->. destruct previous as [p|]; [|by inv_bind; simplify_eq].
      unfold denies_ds. destruct (r_denialOfExistence p); inv_bind; simplify_eq; auto;
        apply go_index_0 in E as [rest Hq]; case_tests; inv_bind; simplify_eq; bool_facts;
        split; eauto 10. }
    destruct j as [[[st doe] err]|].
    + exists [], r, rs. split_and!; [done|constructor|done|]. by eapply Hgo.
    + exfalso. destruct previous as [p|]; [|by inv_bind].
      destruct (r_denialOfExistence p); inv_bind; try done; case_tests; by inv_bind.
Qed.

(** What [Result] asks of the last result: a record of the question's name and
    type, or a CNAME of that name, in an answer without SOA; or one of the tags
    of a denial, whatever name was denied. *)
Definition conclusive (q : Question_) (l : result) : Prop :=
  match r_denialOfExistence l with
  | NsecNxDomain | Nsec3NxDomain | NsecNoData | Nsec3NoData => True
  | NotFound | NsecWildcard | Nsec3Wildcard =>
      recordsOfTypeExist (Ns (r_msg l)) TypeSOA = false /\
      exists rr, rr ∈ Answer (r_msg l) /\ Name (Header rr) = Q_Name q /\
        (Rrtype (Header rr) = Qtype q \/ Rrtype (Header rr) = TypeCNAME)
  | _ => False
  end.

Lemma extract_nonempty rr name t :
  0 < length (extractRecordsOfNameAndType rr name t) <->
  exists r, r ∈ rr /\ Rrtype (Header r) = t /\ Name (Header r) = name.
Proof.
  setoid_rewrite <- elem_of_extractRecordsOfNameAndType.
  destruct (extractRecordsOfNameAndType rr name t) as [|r l]; simpl.
  - split; [lia|]. intros (r & Hr). by apply not_elem_of_nil in Hr.
  - split; [|lia]. intros _. exists r. apply elem_of_cons. by left.
Qed.

Lemma judge_last_secure q l :
  r_state l = Secure ->
  fst (fst (judge_last q l)) = Secure <-> conclusive q l.
Proof.
  intros Hs. unfold judge_last, conclusive. rewrite bool_decide_false by naive_solver.
  assert (Hpos : forall d e,
    fst (fst (if recordsOfTypeExist (Ns (r_msg l)) TypeSOA then (Bogus, d, e)
     else if bool_decide (0 < length (extractRecordsOfNameAndType (Answer (r_msg l)) (Q_Name q) (Qtype q)))
     then (Secure, d, e)
     else if bool_decide (0 < length (extractRecordsOfNameAndType (Answer (r_msg l)) (Q_Name q) TypeCNAME))
     then (Secure, d, e) else (Bogus, d, e) : judgement)) = Secure <->
    recordsOfTypeExist (Ns (r_msg l)) TypeSOA = false /\
    exists rr, rr ∈ Answer (r_msg l) /\ Name (Header rr) = Q_Name q /\
      (Rrtype (Header rr) = Qtype q \/ Rrtype (Header rr) = TypeCNAME)).
  { intros d e. destruct (recordsOfTypeExist _ _); [naive_solver|].
    repeat case_bool_decide; rewrite extract_nonempty in *; naive_solver. }
  destruct (r_denialOfExistence l); simpl; try apply Hpos; naive_solver.
Qed.

Lemma judge_secure q rs st doe err :
  judge q rs = Ret (st, doe, err) ->
  st = Secure <->
  exists l, last rs = Some l /\ Forall (fun r => r_state r = Secure) rs /\ conclusive q l.
Proof.
  unfold judge. destruct (last rs) as [l|] eqn:Hl.
  2:{ intros Hj. inv_bind. split; [done|]. by intros (l & ? & _). }
  destruct (first_bogus rs) as [b|] eqn:Hb.
  { intros H. inv_bind. split; [done|].
    intros (l' & _ & Hall & _). exfalso.
    assert (Hn : first_bogus rs = None).
    { apply first_bogus_none. eapply Forall_impl; [exact Hall|]. simpl. congruence. }
    congruence. }
  intros H. apply bind_ret_inv in H as (step & Hstep & H).
  apply insecure_step_spec in Hstep. destruct step as [[[st' doe'] err']|].
  - inv_bind. destruct Hstep as (before & current & after & -> & Hbe & Hc & Hm).
    split.
    + intros ->. destruct (last before); [naive_solver|]. done.
    + intros (l' & _ & Hall & _). rewrite Forall_app, Forall_cons in Hall. naive_solver.
  - inv_bind.
    assert (Hs : r_state l = Secure).
    { apply last_Some in Hl as [rs' ->]. rewrite Forall_app, Forall_singleton in Hstep. tauto. }
    pose proof (judge_last_secure q l Hs) as Hj.
    match goal with Hx : judge_last q l = _ |- _ => rewrite Hx in Hj end.
    simpl in Hj. rewrite Hj. naive_solver.
Qed.

Lemma judge_last_insecure q l :
  r_state l = Secure -> fst (fst (judge_last q l)) = Insecure ->
  r_denialOfExistence l = Nsec3OptOut.
Proof.
  intros Hs. unfold judge_last. rewrite bool_decide_false by naive_solver.
  destruct (r_denialOfExistence l); simpl; repeat case_match; done.
Qed.

(** C30: [Result] judges a chain Secure exactly when it has a last result,
    every result is Secure and the last one is conclusive; and when it calls
    a chain Insecure, either the first result that is not Secure follows a
    result that denies its DS records, or the chain starts that way, or the
    last result is an opt-out. *)
Theorem judge_spec q rs st doe err :
  judge q rs = Ret (st, doe, err) ->
  (st = Secure <->
    exists l, last rs = Some l /\ Forall (fun r => r_state r = Secure) rs /\ conclusive q l) /\
  (st = Insecure ->
    (exists before p current after, rs = before ++ p :: current :: after /\
       r_state current <> Secure /\ doe = r_denialOfExistence p /\ denies_ds p current) \/
    (exists r rest, rs = r :: rest /\ r_state r = Insecure) \/
    (exists l, last rs = Some l /\ r_denialOfExistence l = Nsec3OptOut)).
Proof.
  intros H. split; [by eapply judge_secure|]. intros ->. revert H. unfold judge.
  destruct (last rs) as [l|] eqn:Hl; [|by intros; inv_bind].
  destruct (first_bogus rs) as [b|]; [by intros; inv_bind|].
  intros H. apply bind_ret_inv in H as (step & Hstep & H).
  apply insecure_step_spec in Hstep. destruct step as [[[st' doe'] err']|]; inv_bind.
  - destruct Hstep as (before & current & after & -> & Hbe & Hc & Hm).
    destruct (last before) as [p|] eqn:Hp.
    + left. apply last_Some in Hp as [before' ->]. exists before', p, current, after.
      rewrite <- app_assoc. naive_solver.
    + right. left. apply last_None in Hp as ->. by exists current, after.
  - right. right. exists l. split; [done|].
    assert (Hs : r_state l = Secure).
    { apply last_Some in Hl as [rs' ->]. rewrite Forall_app, Forall_singleton in Hstep. tauto. }
    apply (judge_last_insecure q l Hs).
    by match goal with Hx : judge_last q l = _ |- _ => rewrite Hx end.
Qed.

Lemma resultTTL_loop rtype ss found ttl :
  foldl (fun '(found, ttl) sig =>
      if bool_decide (sig_rtype sig = rtype) && verified sig
      then (true, Z.min ttl (sig_ttl sig)) else (found, ttl)) (found, ttl) ss =
  let l := filter (fun s => sig_rtype s = rtype /\ verified s = true) ss in
  (match l with [] => found | _ => true end,
   foldl (fun ttl s => Z.min ttl (sig_ttl s)) ttl l).
Proof.
  revert found ttl; induction ss as [|s ss IH]; intros found ttl; [done|].
  cbn [foldl]. rewrite filter_cons.
  destruct (bool_decide (sig_rtype s = rtype)) eqn:E1, (verified s) eqn:E2; simpl;
    rewrite IH; bool_facts; case_decide; try tauto; try naive_solver.
  simpl. by destruct (filter _ ss).
Qed.

Lemma foldl_min_attained {A} (f : A -> Z) l z :
  foldl (fun t x => Z.min t (f x)) z l = z \/
  exists x, x ∈ l /\ foldl (fun t x => Z.min t (f x)) z l = f x.
Proof.
  revert z; induction l as [|x l IH]; intros z; simpl; [by left|].
  destruct (IH (Z.min z (f x))) as [->|(y & Hy & ->)].
  - destruct (Z.min_spec z (f x)) as [[_ ->]|[_ ->]]; [by left|].
    right. exists x. split; [apply elem_of_cons; by left|done].
  - right. exists y. split; [apply elem_of_cons; by right|done].
Qed.

(** The TTL computed for a record type is a bound for every verified
    signature of that type and for the configured maximum, it is the least
    of them, and it is found exactly when such a signature exists. *)
Theorem resultTTL_spec rtype ss :
  match resultTTL rtype ss with
  | None => forall s, s ∈ ss -> sig_rtype s = rtype -> verified s = false
  | Some ttl =>
      (exists s, s ∈ ss /\ sig_rtype s = rtype /\ verified s = true) /\
      (ttl <= MaxAllowedTTL)%Z /\
      (forall s, s ∈ ss -> sig_rtype s = rtype -> verified s = true -> (ttl <= sig_ttl s)%Z) /\
      (ttl = MaxAllowedTTL \/
       exists s, s ∈ ss /\ sig_rtype s = rtype /\ verified s = true /\ ttl = sig_ttl s)
  end.
Proof.
  unfold resultTTL. rewrite resultTTL_loop.
  set (l := filter (fun s => sig_rtype s = rtype /\ verified s = true) ss).
  assert (Hl : forall s, s ∈ l <-> (sig_rtype s = rtype /\ verified s = true) /\ s ∈ ss)
    by (intros s; unfold l; by rewrite list_elem_of_filter).
  clearbody l.
  destruct (foldl_min_le sig_ttl l MaxAllowedTTL) as [Hmax Hmin].
  destruct (foldl_min_attained sig_ttl l MaxAllowedTTL) as [Hatt|(s0 & Hs0 & Hatt)];
    destruct l as [|s l]; cbn [negb].
  - intros s Hs Ht. apply not_true_iff_false. intros Hv. by apply (not_elem_of_nil s), Hl.
  - assert (Hs : s ∈ s :: l) by (apply elem_of_cons; by left). apply Hl in Hs.
    split_and!; [exists s; tauto|done| |by left].
    intros s' H1 H2 H3. by apply Hmin, Hl.
  - by apply not_elem_of_nil in Hs0.
  - apply Hl in Hs0. split_and!; [exists s0; tauto|done| |].
    + intros s' H1 H2 H3. by apply Hmin, Hl.
    + right. exists s0. tauto.
Qed.
End judge_facts.

(** ** A chain of responses *)

Section chain.
Context `{L : DnsLib} `{R : MapRange} `{Cfg : DnssecConfig}.

(** What a caller does with the responses of one question: [AddResponse] for
    each, in the order they arrive; an error of one call does not stop the
    next. *)
Fixpoint add_all (inputs : list input) (a : Authenticator) : outcome Authenticator :=
  match inputs with
  | [] => Ret a
  | i :: rest => '(a, _) ← AddResponse (in_zone i) (in_msg i) a; add_all rest a
  end.

(** The DS records a result is verified with. *)
Definition parent_ds (previous : option result) : list DS :=
  match previous with None => RootTrustAnchors | Some p => r_dsRecords p end.

(** The zone of a result is a proper descendant of the one before it. *)
Definition follows (previous : option result) (zone : Zone) : Prop :=
  match previous with
  | None => True
  | Some p =>
      dns_IsSubDomain (zone_Name (r_zone p)) (zone_Name zone) = true /\
      dns_CanonicalName (zone_Name (r_zone p)) <> dns_CanonicalName (zone_Name zone)
  end.

(** [r] may follow [previous]: its zone is a proper descendant, and if it is
    Secure there is evidence for it under the DS records of [previous]. *)
Definition linked (previous : option result) (r : result) : Prop :=
  follows previous (r_zone r) /\
  (r_state r = Secure -> secure_evidence (r_zone r) (parent_ds previous) r).

Inductive trust_chain : list result -> Prop :=
| chain_empty : trust_chain []
| chain_add rs r : trust_chain rs -> linked (last rs) r -> trust_chain (rs ++ [r]).

(** What [processResponse] records of an outcome of [verify]. *)
Definition recorded (state : AuthenticationResult) (err : option error) (r : result) : result :=
  set_state (if bool_decide (state = Unknown) then Bogus else state)
    (match err with Some e => set_err (Some e) r | None => r end).

(** [r] is what [verify] finds of the input [i] after [previous]. *)
Definition produced (clocks : Zone -> Msg -> Clocks) (previous : option result) (i : input) (r : result) : Prop :=
  exists state err r0,
    verify (concrete_verifier (clocks (in_zone i) (in_msg i))) (in_zone i) (in_msg i) (parent_ds previous) =
      Ret (state, err, r0) /\ r = recorded state err r0.

(** The results of a sequence of inputs. *)
Inductive processed (clocks : Zone -> Msg -> Clocks) : list input -> list result -> Prop :=
| processed_none : processed clocks [] []
| processed_next ins rs i r : processed clocks ins rs -> follows (last rs) (in_zone i) ->
    produced clocks (last rs) i r -> processed clocks (ins ++ [i]) (rs ++ [r]).

Lemma recorded_subject state err r : same_subject r (recorded state err r).
Proof. by destruct err. Qed.

Lemma produced_subject clocks previous i r : produced clocks previous i r -> mkInput (r_zone r) (r_msg r) = i.
Proof.
  intros (st & er & r0 & [Hz Hm]%verify_subject & ->). destruct (recorded_subject st er r0) as [-> ->].
  rewrite Hz, Hm. by destruct i.
Qed.

Lemma produced_linked `{!DnsLaws L} clocks previous i r :
  follows previous (in_zone i) -> produced clocks previous i r -> linked previous r.
Proof.
  intros Hf Hp. pose proof (produced_subject _ _ _ _ Hp) as Hi. subst i. split; [done|].
  destruct Hp as (st & er & r0 & Hv & Hr). intros Hs. rewrite Hr in Hs. cbn in Hs. case_bool_decide; [done|].
  cbn in Hs. subst st. apply verify_secure_evidence in Hv as (Hz & Hm & Hev). cbn in Hz, Hm, Hev.
  rewrite Hr at 2. apply (secure_evidence_ext _ _ r0); [by destruct er..|done].
Qed.

Lemma processed_chain `{!DnsLaws L} clocks ins rs : processed clocks ins rs -> trust_chain rs.
Proof. induction 1 as [|ins rs i r _ IH Hf Hp]; constructor; [done|]. by eapply produced_linked. Qed.

Lemma processed_inputs clocks ins rs :
  processed clocks ins rs -> ins = map (fun r => mkInput (r_zone r) (r_msg r)) rs.
Proof.
  induction 1 as [|ins rs i r _ -> _ Hp%produced_subject]; [done|]. by rewrite map_app, <- Hp.
Qed.

Lemma processResponse_produced clocks zone msg a a' :
  a_verify a = verify_method (fun zone msg => concrete_verifier (clocks zone msg)) ->
  processResponse zone msg a = Ret (a', None) ->
  exists r, results a' = results a ++ [r] /\ follows (last (results a)) zone /\
    produced clocks (last (results a)) (mkInput zone msg) r.
Proof.
  unfold processResponse, previous_ds. intros Hv H.
  destruct (match last (results a) with None => _ | Some l => _ end) as [ds|e] eqn:Ep; [|by inv_bind].
  destruct (signer_error a msg ds); [by inv_bind|]. rewrite Hv in H. unfold verify_method in H.
  apply bind_ret_inv in H as ([[st o] er] & E & H).
  apply bind_ret_inv in E as ([[st' er'] r] & Ever & E). inv_bind. simplify_eq.
  exists (recorded st er r). split; [done|]. unfold follows, produced, parent_ds.
  destruct (last (results a)) as [p|]; simplify_eq.
  - unfold namesEqual in Ep. case_tests; bool_facts. simplify_eq. split; [done|]. by exists st, er, r.
  - split; [done|]. by exists st, er, r.
Qed.

Lemma result_loop_question rest a a' err :
  result_loop rest a = Ret (a', err) -> question a' = question a.
Proof.
  revert a; induction rest as [|[i|] rest IH]; intros a H; simpl in H; [by inv_bind| |].
  - apply bind_ret_inv in H as ([a1 e] & E & H).
    assert (Hq : question a1 = question a).
    { unfold processResponse in E. destruct (previous_ds _ _); [|by inv_bind].
      destruct (signer_error _ _ _); [by inv_bind|].
      apply bind_ret_inv in E as ([[st [r|]] er] & _ & E); by inv_bind. }
    destruct e; [by inv_bind|]. rewrite (IH _ H). exact Hq.
  - by rewrite (IH _ H).
Qed.
End chain.

(** ** Incremental processing against processing at once

    [AddResponse] processes what it can as the responses arrive.  The
    reference is [judge_batch]: all the buffered responses processed from the
    root down, once. *)

Section batch.
Context `{L : DnsLib} `{R : MapRange} `{Cfg : DnssecConfig}.

Definition set_results (rs : list result) (a : Authenticator) : Authenticator :=
  mkAuthenticator (question a) (inputBuffer a) (inputBufferIdx a) rs (a_verify a).

(** [processResponse] as a function of the results so far. *)
Definition process_results (q : Question_) (v : verify_fn) (i : input) (rs : list result) :
    outcome (list result * option error) :=
  (fun '(a, e) => (results a, e)) <$>
    processResponse (in_zone i) (in_msg i) (mkAuthenticator q [] 0 rs v).

Fixpoint scan (q : Question_) (v : verify_fn) (buffer : list (option input))
    (rs : list result) : outcome (list result * option error) :=
  match buffer with
  | [] => Ret (rs, None)
  | None :: rest => scan q v rest rs
  | Some i :: rest =>
      '(rs, err) ← process_results q v i rs;
      match err with Some e => Ret (rs, Some e) | None => scan q v rest rs end
  end.

Definition judge_batch (q : Question_) (v : verify_fn) (buffer : list (option input)) :
    outcome judgement :=
  '(rs, err) ← scan q v buffer [];
  match err with Some e => Ret (Unknown, NotFound, Some e) | None => judge q rs end.

(** The buffer after a response: [AddResponse] without the processing. *)
Definition place (q : Question_) (buffer : list (option input)) (i : input) :
    list (option input) :=
  let position := dns_CountLabel (zone_Name (in_zone i)) in
  if dns_IsSubDomain (zone_Name (in_zone i)) (Q_Name q)
     && match Question (in_msg i) with
        | mq :: _ => dns_IsSubDomain (Q_Name mq) (Q_Name q)
        | [] => false
        end
  then match buffer !! position with
       | Some None => <[ position := Some i ]> buffer
       | _ => buffer
       end
  else buffer.

Lemma processResponse_results i a :
  processResponse (in_zone i) (in_msg i) a =
  (fun '(rs, e) => (set_results rs a, e)) <$>
    process_results (question a) (a_verify a) i (results a).
Proof.
  destruct a as [q buf idx rs v]. unfold process_results, processResponse. simpl.
  change (previous_ds (mkAuthenticator q [] 0 rs v)) with
    (previous_ds (mkAuthenticator q buf idx rs v)).
  destruct (previous_ds _ _) as [ds|e]; [|done].
  change (signer_error (mkAuthenticator q [] 0 rs v)) with
    (signer_error (mkAuthenticator q buf idx rs v)).
  destruct (signer_error _ _ _); [done|].
  by destruct (v (in_zone i) (in_msg i) ds) as [[[st [r|]] er]|].
Qed.

Lemma scan_app q v b1 b2 rs :
  scan q v (b1 ++ b2) rs =
  '(rs', err) ← scan q v b1 rs;
  match err with Some e => Ret (rs', Some e) | None => scan q v b2 rs' end.
Proof.
  revert rs; induction b1 as [|[i|] b1 IH]; intros rs; simpl; [done| |apply IH].
  destruct (process_results q v i rs) as [[rs' [e|]]|]; simpl; [done|apply IH|done].
Qed.

Lemma result_loop_scan rest a :
  (fun '(a', e) => (results a', e)) <$> result_loop rest a =
  scan (question a) (a_verify a) rest (results a).
Proof.
  revert a; induction rest as [|[i|] rest IH]; intros a; simpl;
    [done| |apply (IH (incr_inputBufferIdx a))].
  rewrite processResponse_results.
  destruct (process_results _ _ _ _) as [[rs [e|]]|]; simpl; [done| |done].
  by rewrite IH.
Qed.

(** What has been processed is a prefix of the buffer with no gap. *)
Definition coherent (a : Authenticator) : Prop :=
  Forall is_Some (take (inputBufferIdx a) (inputBuffer a)) /\
  scan (question a) (a_verify a) (take (inputBufferIdx a) (inputBuffer a)) [] =
    Ret (results a, None).

Lemma result_judge_batch a :
  coherent a -> fst <$> Result a = judge_batch (question a) (a_verify a) (inputBuffer a).
Proof.
  intros [_ Hscan]. unfold judge_batch.
  rewrite <- (take_drop (inputBufferIdx a) (inputBuffer a)) at 1.
  rewrite scan_app, Hscan. cbn [mbind outcome_bind]. rewrite <- result_loop_scan.
  unfold Result.
  destruct (result_loop (drop (inputBufferIdx a) (inputBuffer a)) a) as [[a1 [e|]]|] eqn:E;
    simpl; [done| |done].
  rewrite (result_loop_question _ _ _ _ E). by destruct (judge _ _).
Qed.

Lemma process_results_error q v i rs rs' e :
  process_results q v i rs = Ret (rs', Some e) -> rs' = rs.
Proof.
  unfold process_results, processResponse.
  destruct (previous_ds _ _); [|by intros [= <- _]].
  destruct (signer_error _ _ _); [by intros [= <- _]|]. simpl.
  destruct (v _ _ _) as [[[st [r|]] er]|]; [done| |done]. by intros [= <- _].
Qed.

Lemma add_loop_coherent rest a a' err :
  add_loop rest a = Ret (a', err) -> coherent a ->
  rest = drop (inputBufferIdx a) (inputBuffer a) ->
  coherent a' /\ inputBuffer a' = inputBuffer a /\ question a' = question a /\
  a_verify a' = a_verify a.
Proof.
  revert a; induction rest as [|[i|] rest IH]; intros a H [Hf Hs] Hr; simpl in H;
    try (inv_bind; by split_and!).
  rewrite processResponse_results in H.
  destruct (process_results _ _ _ _) as [[rs [e|]]|] eqn:Ep; simpl in H; [| |done].
  { inv_bind. apply process_results_error in Ep as ->. by destruct a. }
  assert (Hi : inputBuffer a !! inputBufferIdx a = Some (Some i)).
  { rewrite <- (Nat.add_0_r (inputBufferIdx a)), <- lookup_drop, <- Hr. done. }
  apply IH in H; [exact H| |].
  - unfold coherent. cbn. rewrite (take_S_r _ _ _ Hi). split.
    + apply Forall_app. split; [done|]. by apply Forall_singleton.
    + rewrite scan_app, Hs. cbn. by rewrite Ep.
  - cbn. rewrite (drop_S _ _ _ Hi) in Hr. by injection Hr.
Qed.

Definition position (i : input) : nat := dns_CountLabel (zone_Name (in_zone i)).

Lemma AddResponse_coherent i a a' err :
  AddResponse (in_zone i) (in_msg i) a = Ret (a', err) -> coherent a ->
  coherent a' /\ inputBuffer a' = place (question a) (inputBuffer a) i /\
  question a' = question a /\ a_verify a' = a_verify a.
Proof.
  intros H [Hf Hs]. unfold AddResponse in H. unfold place.
  destruct (dns_IsSubDomain (zone_Name (in_zone i)) (Q_Name (question a))); simpl in H |- *;
    [|by inv_bind].
  apply bind_ret_inv in H as (mq & Hq & H). apply go_index_0 in Hq as [qs ->].
  destruct (dns_IsSubDomain (Q_Name mq) (Q_Name (question a))); simpl in H; [|by inv_bind].
  apply bind_ret_inv in H as (v & Hv & H). apply go_index_nat_inv in Hv. rewrite Hv.
  destruct v as [v|]; [by inv_bind|].
  assert (Hge : inputBufferIdx a <= position i).
  { apply Nat.nlt_ge. intros Hlt. rewrite Forall_lookup in Hf.
    apply (is_Some_None (A:=input)), (Hf (position i)). by rewrite lookup_take_lt. }
  change (dns_CountLabel (zone_Name (in_zone i))) with (position i) in *.
  destruct i as [zone msg]. cbn [in_zone in_msg] in *.
  apply add_loop_coherent in H; [exact H| |done].
  split; cbn; by rewrite take_insert_ge.
Qed.

Lemma add_all_coherent inputs a a' :
  add_all inputs a = Ret a' -> coherent a ->
  coherent a' /\ inputBuffer a' = foldl (place (question a)) (inputBuffer a) inputs /\
  question a' = question a /\ a_verify a' = a_verify a.
Proof.
  revert a; induction inputs as [|i inputs IH]; intros a H Hc; simpl in H; [by inv_bind|].
  apply bind_ret_inv in H as ([a1 err] & E & H).
  apply AddResponse_coherent in E as (Hc1 & Hb1 & Hq1 & Hv1); [|done].
  destruct (IH _ H Hc1) as (Hc2 & Hb2 & Hq2 & Hv2).
  rewrite Hb2, Hq2, Hv2, Hb1, Hq1, Hv1. done.
Qed.

Lemma NewAuth_coherent clocks q : coherent (NewAuth clocks q).
Proof. split; [constructor|done]. Qed.

(** The inputs of the buffer in its order: from the root down. *)
Definition buffered (buffer : list (option input)) : list input := omap id buffer.

Lemma scan_processed clocks q buffer ins rs rs' err :
  scan q (verify_method (fun zone msg => concrete_verifier (clocks zone msg))) buffer rs = Ret (rs', err) ->
  processed clocks ins rs ->
  exists served left_, buffered buffer = served ++ left_ /\ processed clocks (ins ++ served) rs' /\
    (err = None -> left_ = []).
Proof.
  revert ins rs; induction buffer as [|[i|] buffer IH]; intros ins rs H Hp; cbn in H.
  - inv_bind. exists [], []. by rewrite !app_nil_r.
  - apply bind_ret_inv in H as ([rs1 [e|]] & E & H).
    { inv_bind. apply process_results_error in E as ->. exists [], (i :: buffered buffer). by rewrite app_nil_r. }
    unfold process_results in E.
    destruct (processResponse _ _ _) as [[a1 e1]|] eqn:Ea; [|done]. cbn in E. injection E as <- ->.
    apply (processResponse_produced clocks) in Ea as (r & Hr & Hf & Hpr); [|done]. cbn in Hr, Hf, Hpr. rewrite Hr in H.
    destruct (IH (ins ++ [i]) _ H) as (served & left_ & Hb & Hd & He).
    { constructor; [done..|]. by destruct i. }
    exists (i :: served), left_. cbn. rewrite <- app_assoc in Hd. split_and!; [by f_equal|done..].
  - by apply (IH ins rs).
Qed.

(** The results of [Result] are those of the buffered inputs, of all of them
    unless it reports an error. *)
Lemma Result_processed clocks a j a' :
  coherent a -> a_verify a = verify_method (fun zone msg => concrete_verifier (clocks zone msg)) ->
  Result a = Ret (j, a') ->
  exists served left_, buffered (inputBuffer a) = served ++ left_ /\ processed clocks served (results a') /\
    ((exists e, j = (Unknown, NotFound, Some e)) \/ left_ = [] /\ judge (question a) (results a') = Ret j).
Proof.
  intros [_ Hscan] Hv H. unfold Result in H. apply bind_ret_inv in H as ([a1 err] & Hloop & H).
  pose proof (result_loop_question _ _ _ _ Hloop) as Hq.
  assert (scan (question a) (a_verify a) (inputBuffer a) [] = Ret (results a1, err)) as Hs.
  { rewrite <- (take_drop (inputBufferIdx a) (inputBuffer a)) at 1.
    rewrite scan_app, Hscan. cbn [mbind outcome_bind]. rewrite <- result_loop_scan, Hloop. done. }
  rewrite Hv in Hs. apply (scan_processed clocks _ _ [] []) in Hs as (served & left_ & Hb & Hd & He); [|constructor].
  exists served, left_. destruct err as [e|]; inv_bind; (split_and!; [done..|]); [left; by eexists|right].
  split; [by apply He|]. by rewrite <- Hq.
Qed.

(** What [AddResponse] admits to the chain of [q]. *)
Definition admissible (q : Question_) (inputs : list input) (i : input) : Prop :=
  i ∈ inputs /\ dns_IsSubDomain (zone_Name (in_zone i)) (Q_Name q) = true /\
  exists mq qs, Question (in_msg i) = mq :: qs /\ dns_IsSubDomain (Q_Name mq) (Q_Name q) = true.

Lemma buffered_admissible q inputs buffer :
  (forall i, i ∈ buffered buffer -> admissible q inputs i) ->
  forall i inputs', i :: inputs' ⊆ inputs -> forall j, j ∈ buffered (place q buffer i) -> admissible q inputs j.
Proof.
  intros Hb i inputs' Hi j Hj. apply list_elem_of_omap in Hj as (o & Ho & Hoj). cbn in Hoj. subst o.
  assert (Some j ∈ buffer \/ j = i /\ dns_IsSubDomain (zone_Name (in_zone i)) (Q_Name q) = true /\
    exists mq qs, Question (in_msg i) = mq :: qs /\ dns_IsSubDomain (Q_Name mq) (Q_Name q) = true) as [Hin|(-> & Hs & Hm)].
  { unfold place in Ho. destruct (_ && _) eqn:Ea; [|by left]. bool_facts.
    destruct (buffer !! _) as [[?|]|]; [by left| |by left].
    apply list_elem_of_lookup in Ho as [n Hn]. apply list_lookup_insert_Some in Hn as [(_ & [= ->] & _)|[_ Hn]];
      [right|left; by eapply list_elem_of_lookup_2].
    destruct (Question (in_msg j)) as [|mq qs]; [done|]. split_and!; [done..|]. by exists mq, qs. }
  - apply Hb. apply list_elem_of_omap. by exists (Some j).
  - split; [|done]. apply Hi. left.
Qed.

Lemma foldl_place_admissible q inputs rest buffer :
  rest ⊆ inputs -> (forall i, i ∈ buffered buffer -> admissible q inputs i) ->
  forall i, i ∈ buffered (foldl (place q) buffer rest) -> admissible q inputs i.
Proof.
  revert buffer; induction rest as [|i rest IH]; intros buffer Hr Hb; [done|]. cbn.
  apply IH; [set_solver|]. by eapply buffered_admissible.
Qed.

Lemma new_buffer_empty q inputs n i : i ∈ buffered (replicate n None) -> admissible q inputs i.
Proof. intros Hi. exfalso. induction n as [|n IH]; [by apply not_elem_of_nil in Hi|by apply IH]. Qed.

(** The results the responses of one question lead to. *)
Lemma add_all_processed clocks q inputs a j a' :
  add_all inputs (NewAuth clocks q) = Ret a -> Result a = Ret (j, a') ->
  exists served left_, buffered (inputBuffer a) = served ++ left_ /\ processed clocks served (results a') /\
    Forall (admissible q inputs) served /\
    ((exists e, j = (Unknown, NotFound, Some e)) \/ left_ = [] /\ judge q (results a') = Ret j).
Proof.
  intros Hadd Hres.
  destruct (add_all_coherent _ _ _ Hadd (NewAuth_coherent clocks q)) as (Hc & Hb & Hq & Hv).
  destruct (Result_processed clocks a j a' Hc Hv Hres) as (served & left_ & Hbuf & Hp & Hj).
  rewrite Hq in Hj. exists served, left_. split_and!; [done|done| |done].
  apply Forall_forall. intros i Hi. apply (foldl_place_admissible q inputs inputs
    (replicate (dns_CountLabel (Q_Name q) + 1) None)); [done|intros ?; apply new_buffer_empty|].
  cbn in Hb. rewrite <- Hb, Hbuf. apply elem_of_app. by left.
Qed.

(** The input a result is of. *)
Definition link_input (r : result) : input := mkInput (r_zone r) (r_msg r).

(** The links of a Secure verdict: Secure results of the question's own
    responses, each under the DS records of the one before, the last of which
    is conclusive, with records that prove what its tag denies (see [shown]), for
    a question at or above the one asked. *)
Definition secure_links (q : Question_) (inputs : list input) (rs : list result) : Prop :=
  trust_chain rs /\
  Forall (fun r => r_state r = Secure /\ link_input r ∈ inputs) rs /\
  exists l, last rs = Some l /\ conclusive q l /\ shown l /\
    asks l (fun mq => dns_IsSubDomain (Q_Name mq) (Q_Name q) = true).

(** A Secure verdict has a chain of trust. *)
Lemma secure_has_chain `{!DnsLaws L} clocks q inputs a a' doe err :
  add_all inputs (NewAuth clocks q) = Ret a ->
  Result a = Ret ((Secure, doe, err), a') ->
  secure_links q inputs (results a') /\ map link_input (results a') = buffered (inputBuffer a).
Proof.
  intros Hadd Hres.
  destruct (add_all_processed _ _ _ _ _ _ Hadd Hres) as (served & left_ & Hb & Hp & Hin & [[e He]|[-> Hj]]); [done|].
  pose proof (processed_chain _ _ _ Hp) as Hc. apply processed_inputs in Hp as ->. rewrite Forall_map in Hin.
  rewrite app_nil_r in Hb. split; [|done].
  destruct (proj1 (judge_secure _ _ _ _ _ Hj) eq_refl) as (l & Hl & Hall & Hcon).
  split_and!; [done| |].
  - apply Forall_and. split; [done|]. eapply Forall_impl; [exact Hin|]. by intros r [? _].
  - exists l. assert (exists rs, results a' = rs ++ [l]) as [rs Hrs] by (by apply last_Some in Hl).
    rewrite Hrs in Hc, Hin, Hall. apply Forall_app in Hin as [_ Hin], Hall as [_ Hall].
    apply Forall_singleton in Hin as (_ & _ & Hmq). apply Forall_inv in Hall. split_and!; [done..| |exact Hmq].
    inversion Hc as [|rs' r' _ [_ Hev] Heq]; [by destruct rs|]. apply app_inj_tail in Heq as [_ ->].
    apply Hev in Hall as (_ & keys & Hev'). tauto.
Qed.

(** An accepted response is in the buffer. *)
Lemma buffered_insert buffer n i : buffer !! n = Some None ->
  buffered (<[ n := Some i ]> buffer) ≡ₚ i :: buffered buffer.
Proof.
  revert n; induction buffer as [|[j|] buffer IH]; intros [|n] H; try done.
  - unfold buffered. cbn. rewrite Permutation_swap. constructor. by apply IH.
  - by apply IH.
Qed.

Lemma AddResponse_accepts i a a' : AddResponse (in_zone i) (in_msg i) a = Ret (a', None) -> coherent a ->
  buffered (inputBuffer a') ≡ₚ i :: buffered (inputBuffer a).
Proof.
  intros H Hc. pose proof (AddResponse_coherent _ _ _ _ H Hc) as (_ & -> & _). unfold AddResponse in H. unfold place.
  destruct (dns_IsSubDomain (zone_Name (in_zone i)) (Q_Name (question a))); cbn in H |- *; [|by inv_bind].
  apply bind_ret_inv in H as (mq & Hq & H). apply go_index_0 in Hq as [qs ->].
  destruct (dns_IsSubDomain (Q_Name mq) (Q_Name (question a))); cbn in H; [|by inv_bind].
  apply bind_ret_inv in H as (v & Hv & H). apply go_index_nat_inv in Hv. rewrite Hv.
  destruct v; [by inv_bind|]. by apply buffered_insert.
Qed.

(** C18: soundness of the whole authenticator.  Whatever responses arrive
    and in whatever order, a Secure verdict on the question comes from a
    chain of results that starts at the configured trust anchors: each is the
    result of one of the responses, Secure with evidence under the DS records
    of the one before it, and each zone is a proper descendant of the one
    before.  The last holds an answer of the question's name, or a denial that
    is [shown].  That denial is of the response's own question, which is only
    known to be at or above the one asked ([denial_of_another_question]). *)
Theorem authenticator_sound `{!DnsLaws L} clocks q inputs a a' doe err :
  add_all inputs (NewAuth clocks q) = Ret a ->
  Result a = Ret ((Secure, doe, err), a') -> secure_links q inputs (results a').
Proof. intros Hadd Hres. exact (proj1 (secure_has_chain _ _ _ _ _ _ _ Hadd Hres)). Qed.

(** Processing the responses as they arrive gives the verdict that
    processing them all at the end gives. *)
Theorem incremental_is_batch clocks q inputs a :
  add_all inputs (NewAuth clocks q) = Ret a ->
  fst <$> Result a =
  judge_batch q (verify_method (fun zone msg => concrete_verifier (clocks zone msg)))
    (foldl (place q) (replicate (dns_CountLabel (Q_Name q) + 1) None) inputs).
Proof.
  intros H. destruct (add_all_coherent _ _ _ H (NewAuth_coherent clocks q))
    as (Hc & Hb & Hq & Hv).
  by rewrite (result_judge_batch a Hc), Hb, Hq, Hv.
Qed.

Lemma place_comm q buffer i j :
  position i <> position j ->
  place q (place q buffer i) j = place q (place q buffer j) i.
Proof.
  unfold place. fold (position i) (position j). intros Hne.
  destruct (dns_IsSubDomain (zone_Name (in_zone i)) (Q_Name q) && _),
    (dns_IsSubDomain (zone_Name (in_zone j)) (Q_Name q) && _); try done.
  destruct (buffer !! position i) as [[x|]|] eqn:Ei, (buffer !! position j) as [[y|]|] eqn:Ej;
    rewrite ?list_lookup_insert_ne, ?Ei, ?Ej by congruence; try done.
  by apply list_insert_insert_ne.
Qed.

Lemma place_perm q inputs inputs' buffer :
  inputs ≡ₚ inputs' -> NoDup (map position inputs) ->
  foldl (place q) buffer inputs = foldl (place q) buffer inputs'.
Proof.
  intros Hp. revert buffer. induction Hp as [|i l l' Hp IH|i j l|l l' l'' Hp1 IH1 Hp2 IH2];
    intros buffer Hnd; simpl in *; [done| | |].
  - apply NoDup_cons in Hnd as [_ Hnd]. by apply IH.
  - apply NoDup_cons in Hnd as [Hni _]. rewrite place_comm; [done|].
    intros Heq. apply Hni. rewrite Heq. apply elem_of_cons. by left.
  - rewrite IH1 by done. apply IH2. by rewrite <- Hp1.
Qed.

Lemma add_all_perm clocks q inputs inputs' a a' :
  inputs ≡ₚ inputs' -> NoDup (map position inputs) ->
  add_all inputs (NewAuth clocks q) = Ret a ->
  add_all inputs' (NewAuth clocks q) = Ret a' ->
  fst <$> Result a = fst <$> Result a'.
Proof.
  intros Hp Hnd H H'.
  destruct (add_all_coherent _ _ _ H (NewAuth_coherent clocks q)) as (Hc & Hb & Hq & Hv).
  destruct (add_all_coherent _ _ _ H' (NewAuth_coherent clocks q)) as (Hc' & Hb' & Hq' & Hv').
  rewrite !result_judge_batch, Hb, Hb', Hq, Hq', Hv, Hv' by done.
  by rewrite (place_perm _ _ _ _ Hp Hnd).
Qed.

(** C20: the verdict does not depend on the order in which the responses of
    the zones arrive. *)
Theorem verdict_order_independent clocks q inputs inputs' a a' :
  inputs ≡ₚ inputs' -> NoDup (map position inputs) ->
  add_all inputs (NewAuth clocks q) = Ret a ->
  add_all inputs' (NewAuth clocks q) = Ret a' ->
  fst <$> Result a = fst <$> Result a'.
Proof. apply add_all_perm. Qed.

Lemma place_length q buffer i : length (place q buffer i) = length buffer.
Proof. unfold place. repeat case_match; by rewrite ?length_insert. Qed.

Lemma foldl_place_length q buffer inputs :
  length (foldl (place q) buffer inputs) = length buffer.
Proof.
  revert buffer; induction inputs as [|i inputs IH]; intros buffer; [done|].
  simpl. by rewrite IH, place_length.
Qed.

Lemma ancestor_count `{!DnsLaws L} p c :
  canonical p -> canonical c -> dns_IsSubDomain p c = true ->
  dns_CountLabel p <= dns_CountLabel c.
Proof.
  intros Hp Hc Hs. apply subdomain_ancestor in Hs; [|done..].
  apply list_elem_of_fmap in Hs as (k & -> & Hk).
  apply list_elem_of_lookup in Hk as [i Hi]. pose proof (suffix_count c i k Hc Hi). lia.
Qed.

Lemma add_loop_panic rest a p :
  add_loop rest a = Panic p -> exists zone msg ds, a_verify a zone msg ds = Panic p.
Proof.
  revert a; induction rest as [|[i|] rest IH]; intros a H; simpl in H; try done.
  unfold processResponse in H. destruct (previous_ds _ _) as [ds|]; [|done].
  destruct (signer_error _ _ _); [done|].
  destruct (a_verify a (in_zone i) (in_msg i) ds) as [[[st [r|]] er]|] eqn:E;
    cbn in H; [by apply IH in H|done|]. simplify_eq. by eexists _, _, _.
Qed.

(** With the names of the question and of the zone in canonical form,
    [AddResponse] never indexes its buffer out of range: it panics only on a
    message with no question, or when [verify] does. *)
Theorem AddResponse_in_range `{!DnsLaws L} clocks q inputs a i p :
  add_all inputs (NewAuth clocks q) = Ret a ->
  canonical (Q_Name q) -> canonical (zone_Name (in_zone i)) ->
  AddResponse (in_zone i) (in_msg i) a = Panic p ->
  Question (in_msg i) = [] \/
  exists zone msg ds, a_verify a zone msg ds = Panic p.
Proof.
  intros Hadd Hq Hz H.
  destruct (add_all_coherent _ _ _ Hadd (NewAuth_coherent clocks q)) as (_ & Hb & Hqa & _).
  unfold AddResponse in H. rewrite Hqa in H. cbn [question NewAuth] in H.
  destruct (dns_IsSubDomain (zone_Name (in_zone i)) (Q_Name q)) eqn:Es; simpl in H; [|done].
  destruct (Question (in_msg i)) as [|mq qs]; [by left|]. right. simpl in H.
  destruct (dns_IsSubDomain (Q_Name mq) (Q_Name q)); simpl in H; [|done].
  assert (Hlen : position i < length (inputBuffer a)).
  { rewrite Hb, foldl_place_length. cbn. rewrite length_replicate. unfold position.
    pose proof (ancestor_count _ _ Hz Hq Es). lia. }
  apply lookup_lt_is_Some in Hlen as [v Hv]. unfold position in Hv.
  rewrite (go_index_nat _ _ _ Hv) in H. cbn in H. destruct v as [v|]; [done|].
  by apply add_loop_panic in H.
Qed.
End batch.

(** ** A root whose keys the anchors do not name *)

Section downgrade.
Context `{L : DnsLib} `{R : MapRange} `{Cfg : DnssecConfig}.

(** Nothing a DS record names: no key signing key. *)
Lemma key_signing_keys_none parent keys ks :
  key_signing_keys parent keys = Ret ks -> (forall k, k ∈ keys -> ~ anchored parent k) -> ks = [].
Proof.
  intros H Hk. destruct ks as [|k ks]; [done|]. exfalso.
  destruct (key_signing_keys_spec _ _ _ k H) as [Hin Ha]; [left|]. by apply (Hk k).
Qed.

(** A result of [verify] that stopped for want of keys or of DS records. *)
Definition unvalidated (r : result) : Prop := r_state r = Insecure /\ r_dsRecords r = [] /\ r_denialOfExistence r = NotFound.

Lemma produced_unmatched clocks i r keys :
  RootTrustAnchors <> [] -> GetDNSKEYRecords (in_zone i) = (keys, None) ->
  (forall k, k ∈ extractRecords DNSKEY keys -> ~ anchored RootTrustAnchors k) ->
  produced clocks None i r -> unvalidated r /\ r_err r = Some (ESentinel ErrKeysNotFound).
Proof.
  intros Hne Hkeys Hno (st & er & r0 & Hv & ->). unfold verify in Hv.
  rewrite bool_decide_false in Hv by (cbn; by destruct RootTrustAnchors). rewrite Hkeys in Hv.
  apply bind_ret_inv in Hv as ([[st1 e1] r1] & E1 & Hv). cbn in E1. unfold verifyDNSKEYs in E1.
  assert (E : Ret (Insecure, Some (ESentinel ErrKeysNotFound), new_result (in_zone i) (in_msg i)) = Ret (st1, e1, r1)).
  { clear Hv. case_bool_decide; [done|]. apply bind_ret_inv in E1 as (ks & Eks & E1).
    by rewrite (key_signing_keys_none _ _ _ Eks Hno) in E1. }
  injection E as <- <- <-. cbn in Hv. by injection Hv as <- <- <-.
Qed.

Lemma produced_unvalidated clocks p i r : unvalidated p -> produced clocks (Some p) i r -> unvalidated r.
Proof.
  intros (_ & Hd & _) (st & er & r0 & Hv & ->). unfold verify in Hv. cbn [parent_ds] in Hv. rewrite Hd in Hv.
  by injection Hv as <- <- <-.
Qed.

Lemma processed_unvalidated clocks ins r rs :
  processed clocks ins (r :: rs) -> unvalidated r -> Forall unvalidated (r :: rs).
Proof.
  intros Hp Hr. remember (r :: rs) as l eqn:Hl. revert r rs Hl Hr.
  induction Hp as [|ins l i x Hp IH Hf Hx]; intros r rs Hl Hr; [done|].
  destruct l as [|r' l]; cbn in Hl; injection Hl as -> <-; [by apply Forall_singleton|].
  pose proof (IH r l eq_refl Hr) as Hall. apply (Forall_app_2 _ (r :: l) [x]); [done|]. apply Forall_singleton.
  destruct (last (r :: l)) as [p|] eqn:Ep; [|by apply last_None in Ep].
  eapply produced_unvalidated; [|exact Hx]. rewrite Forall_forall in Hall. apply Hall.
  apply last_Some in Ep as [l' ->]. apply elem_of_app. right. left.
Qed.

Lemma processed_first clocks ins r rs : processed clocks ins (r :: rs) ->
  exists i, mkInput (r_zone r) (r_msg r) = i /\ produced clocks None i r.
Proof.
  intros Hp. remember (r :: rs) as l eqn:Hl. revert r rs Hl.
  induction Hp as [|ins l i x Hp IH Hf Hx]; intros r rs Hl; [done|].
  destruct l as [|r' l]; cbn in Hl; injection Hl as -> <-; [|by eapply IH].
  exists i. split; [by eapply produced_subject|done].
Qed.

Lemma judge_unvalidated q r rs : Forall unvalidated (r :: rs) ->
  judge q (r :: rs) = Ret (Insecure, NotFound, r_err r).
Proof.
  intros Hall. unfold judge. destruct (last (r :: rs)) as [l|] eqn:El; [|by apply last_None in El].
  assert (first_bogus (r :: rs) = None) as ->.
  { apply first_bogus_none. eapply Forall_impl; [exact Hall|]. intros x (-> & _). done. }
  apply Forall_inv in Hall as (Hs & _ & Hd). cbn. by rewrite bool_decide_false, Hs, Hd by (by rewrite Hs).
Qed.

(** C35: when none of the first zone's keys is vouched for by a trust anchor,
    the whole answer is Insecure and not Bogus, whatever the zones below
    present: forged root keys switch validation off. (Or there is no verdict,
    because a later response was not processed.) *)
Theorem unmatched_root_keys_insecure clocks q inputs a j a' r rest keys :
  RootTrustAnchors <> [] ->
  add_all inputs (NewAuth clocks q) = Ret a -> Result a = Ret (j, a') ->
  results a' = r :: rest -> GetDNSKEYRecords (r_zone r) = (keys, None) ->
  (forall k, k ∈ extractRecords DNSKEY keys -> ~ anchored RootTrustAnchors k) ->
  Forall (fun r => r_state r = Insecure) (results a') /\
  (j = (Insecure, NotFound, Some (ESentinel ErrKeysNotFound)) \/ exists e, j = (Unknown, NotFound, Some e)).
Proof.
  intros Hne Hadd Hres Hrs Hkeys Hno.
  destruct (add_all_processed _ _ _ _ _ _ Hadd Hres) as (served & left_ & _ & Hp & _ & Hj). rewrite Hrs in *.
  destruct (processed_first _ _ _ _ Hp) as (i & Hi & Hfirst).
  destruct (produced_unmatched clocks i r keys Hne) as [Hr He]; [by rewrite <- Hi|done..|].
  pose proof (processed_unvalidated _ _ _ _ Hp Hr) as Hall. split.
  - eapply Forall_impl; [exact Hall|]. by intros x (? & _).
  - destruct Hj as [?|[_ Hj]]; [by right|left]. rewrite judge_unvalidated, He in Hj by done. by injection Hj.
Qed.
End downgrade.

(** ** Two signed zones: the root delegates example. to its key *)
Module ChainExample.
Import CskExample.

Definition root_hdr (t : Z) : RR_Header := mkHdr "." t ClassINET 300.
Definition root_key : DNSKEY := mkDNSKEY (root_hdr TypeDNSKEY) 257 3 13 "root".
Definition root_rrsig (owner : string) (t labels : Z) : RRSIG :=
  mkRRSIG (hdr owner TypeRRSIG) t 13 labels 300 2000 1000 (dns_KeyTag root_key) "."
    (ref_sign root_key owner t).
Definition anchors : list DS := [mkDS (root_hdr TypeDS) (dns_KeyTag root_key) 13 SHA256 "ROOT"].
#[export] Instance cfg : DnssecConfig := default_config anchors.

Definition root_zone : Zone :=
  mkZone "." ([RR_DNSKEY root_key; RR_RRSIG (root_rrsig "." TypeDNSKEY 0)], None).
(** The root's referral to example., with its signed DS record. *)
Definition referral : Msg :=
  mkMsg 7 true true false true true false false RcodeSuccess [CskExample.question] []
    (RR_NS (mkNS (hdr "example." TypeNS) "ns.example.") :: map RR_DS parent ++
     [RR_RRSIG (root_rrsig "example." TypeDS 1)]) [].

Definition at_root : input := mkInput root_zone referral.
Definition at_example : input := mkInput (zone honest_keys) (response honest_answer).

Definition start : Authenticator := NewAuth (fun _ _ => clocks) CskExample.question.
Definition after (inputs : list input) : Authenticator :=
  match add_all inputs start with Ret a => a | Panic _ => start end.
Definition final (a : Authenticator) : Authenticator :=
  match Result a with Ret (_, a') => a' | Panic _ => a end.

Lemma after_ret inputs :
  is_panic (add_all inputs start) = false -> add_all inputs start = Ret (after inputs).
Proof. unfold after. by destruct (add_all inputs start). Qed.

Lemma final_ret a j : fst <$> Result a = Ret j -> Result a = Ret (j, final a).
Proof. unfold final. destruct (Result a) as [[j' a']|]; [|done]. by intros [= ->]. Qed.

Example both_orders_secure :
  fst <$> Result (after [at_root; at_example]) = Ret (Secure, NotFound, None) /\
  fst <$> Result (after [at_example; at_root]) = Ret (Secure, NotFound, None).
Proof. split; vm_compute; reflexivity. Qed.

(** A root zone that presents a key of the attacker's own. *)
Definition forged_root : Zone :=
  mkZone "." ([RR_DNSKEY (mkDNSKEY (root_hdr TypeDNSKEY) 257 3 13 "evilroot")], None).

Definition at_forged_root : input := mkInput forged_root referral.
Definition downgraded : Authenticator := final (after [at_example; at_forged_root]).

Lemma unmatched_root_keys_insecure_witness :
  length (results downgraded) = 2 /\ Forall (fun r => r_state r = Insecure) (results downgraded).
Proof.
  split; [vm_compute; reflexivity|].
  apply (@unmatched_root_keys_insecure refLib map_range_std cfg (fun _ _ => clocks) CskExample.question
    [at_example; at_forged_root] (after [at_example; at_forged_root])
    (Insecure, NotFound, Some (ESentinel ErrKeysNotFound)) downgraded
    (recorded Insecure (Some (ESentinel ErrKeysNotFound)) (new_result forged_root referral))
    (drop 1 (results downgraded))
    [RR_DNSKEY (mkDNSKEY (root_hdr TypeDNSKEY) 257 3 13 "evilroot")]).
  - done.
  - apply after_ret. vm_compute. reflexivity.
  - apply final_ret. vm_compute. reflexivity.
  - vm_compute. reflexivity.
  - reflexivity.
  - intros k Hk%list_elem_of_singleton (d & Hd%list_elem_of_singleton & _ & Htag & _). subst. done.
Defined.

(** Genuine records of example., which say that example. has no MX record and
    that the next owner name of the zone is www.example., in a response with
    the question example. MX. *)
Definition no_mx : Msg :=
  mkMsg 7 true true false true true false false RcodeSuccess [mkQ "example." 15 ClassINET] []
    [RR_SOA (mkSOA (hdr "example." TypeSOA) ""); RR_RRSIG (rrsig csk "example." TypeSOA 1);
     RR_NSEC (mkNSEC (hdr "example." TypeNSEC) "www.example." [TypeNS; TypeSOA; TypeNSEC; TypeDNSKEY]);
     RR_RRSIG (rrsig csk "example." TypeNSEC 1)] [].
Definition at_no_mx : input := mkInput (zone honest_keys) no_mx.
Lemma judge_spec_witness :
  Secure = Secure <->
  exists l, last (results (final (after [at_root; at_example]))) = Some l /\
    Forall (fun r => r_state r = Secure) (results (final (after [at_root; at_example]))) /\
    conclusive CskExample.question l.
Proof.
  apply (judge_spec CskExample.question (results (final (after [at_root; at_example])))
    Secure NotFound None).
  vm_compute. reflexivity.
Defined.

(** The denial of [no_mx] is taken for one of www.example. A, a record that
    exists and that the same zone signs: the verdict is the one on a genuine
    denial. *)
Theorem denial_of_another_question :
  fst <$> Result (after [at_root; at_no_mx]) = Ret (Secure, NsecNoData, None) /\
  fst <$> Result (after [at_root; at_example]) = Ret (Secure, NotFound, None).
Proof. split; vm_compute; reflexivity. Qed.

Lemma authenticator_sound_witness :
  secure_links CskExample.question [at_example; at_root] (results (final (after [at_example; at_root]))).
Proof.
  apply (@authenticator_sound refLib map_range_std cfg refLaws (fun _ _ => clocks)
    CskExample.question [at_example; at_root] (after [at_example; at_root])
    (final (after [at_example; at_root])) NotFound None).
  - apply after_ret. vm_compute. reflexivity.
  - apply final_ret. vm_compute. reflexivity.
Defined.

Lemma incremental_is_batch_witness :
  fst <$> Result (after [at_example; at_root]) =
  judge_batch CskExample.question
    (verify_method (fun _ _ => concrete_verifier clocks))
    (foldl (place CskExample.question)
      (replicate (dns_CountLabel (Q_Name CskExample.question) + 1) None)
      [at_example; at_root]).
Proof.
  apply (incremental_is_batch (fun _ _ => clocks) CskExample.question [at_example; at_root]).
  apply after_ret. vm_compute. reflexivity.
Defined.

Lemma verdict_order_independent_witness :
  fst <$> Result (after [at_root; at_example]) = fst <$> Result (after [at_example; at_root]).
Proof.
  apply (verdict_order_independent (fun _ _ => clocks) CskExample.question
    [at_root; at_example] [at_example; at_root]).
  - by apply Permutation_swap.
  - apply (bool_decide_unpack _). vm_compute. exact I.
  - apply after_ret. vm_compute. reflexivity.
  - apply after_ret. vm_compute. reflexivity.
Defined.

(** The DS record names a digest the library does not know, so [verify]
    panics inside [AddResponse]. *)
Definition bad_anchors : DnssecConfig :=
  default_config [mkDS (root_hdr TypeDS) (dns_KeyTag root_key) 13 4 "ROOT"].
Definition bad_start : Authenticator :=
  @NewAuth refLib map_range_std bad_anchors (fun _ _ => clocks) CskExample.question.

Lemma AddResponse_in_range_witness :
  exists zone msg ds, a_verify bad_start zone msg ds = Panic NilDereference.
Proof.
  destruct (@AddResponse_in_range refLib map_range_std bad_anchors refLaws
    (fun _ _ => clocks) CskExample.question [] bad_start at_root NilDereference) as [H|H];
    [reflexivity|vm_compute; reflexivity|vm_compute; reflexivity|vm_compute; reflexivity
    |discriminate H|exact H].
Defined.
End ChainExample.
