(* ===== verification/Auth.v ===== *)
(** * auth.go: the queue in front of the authentication chain

    One goroutine per DS lookup, the goroutine that resolves the question and
    a worker that feeds the chain share a bounded queue and a wait group.  The
    state below is theirs; [step] lists what each may do next, and an execution
    is any interleaving of such steps. *)

From S2P Require Import Prelude GoErrors Dns DnsRef DnssecConst Signatures Verify Authenticator.

(** ** State *)

(** What the goroutine that owns the authenticator is doing. *)
Inductive owner : Type :=
| Running
| Sending (i : input) (* blocked on the queue in addResponse *)
| Waiting (* in result or close, before Wait returns *)
| Closed_.

(** The struct [authenticator], with the goroutines it started: [lookups] are
    DS lookups in flight, [link_senders] those that hold a response and wait for
    room in the queue, [working] is the input the worker took. *)
Record authenticator := mkAuth {
  chain : Authenticator;
  errors : list error;
  queue : list input;
  finished : bool;
  processing : nat;
  queue_closed : bool;
  owner_at : owner;
  lookups : list (Zone * string);
  link_senders : list input;
  working : option input
}.

(** [make(chan authenticatorInput, 8)] *)
Definition queue_capacity : nat := 8.

Section auth.
Context `{L : DnsLib} `{R : MapRange} `{Cfg : DnssecConfig}.

Definition newAuthenticator (clocks : Zone -> Msg -> Clocks) (q : Question_) : authenticator :=
  mkAuth (NewAuth clocks q) [] [] false 0 false Running [] [] None.

(** ** Steps *)

(** What a step does to the chain's inputs. *)
Inductive event : Type :=
| Accepted (i : input) (* counted in the wait group *)
| Delivered (i : input) (* processed by the worker *)
| Silent.

Inductive step (s : authenticator) : event -> authenticator -> Prop :=
| addDelegationSignerLink z qname :
    owner_at s = Running -> finished s = false ->
    step s Silent
      (mkAuth (chain s) (errors s) (queue s) (finished s) (processing s + 1) (queue_closed s)
        (owner_at s) ((z, qname) :: lookups s) (link_senders s) (working s))
| lookup_answered l1 z qname l2 msg :
    lookups s = l1 ++ (z, qname) :: l2 ->
    step s (Accepted (mkInput z msg))
      (mkAuth (chain s) (errors s) (queue s) (finished s) (processing s + 1) (queue_closed s)
        (owner_at s) (l1 ++ l2) (mkInput z msg :: link_senders s) (working s))
| lookup_failed l1 z qname l2 :
    lookups s = l1 ++ (z, qname) :: l2 ->
    step s Silent
      (mkAuth (chain s) (errors s) (queue s) (finished s) (processing s - 1) (queue_closed s)
        (owner_at s) (l1 ++ l2) (link_senders s) (working s))
| link_sent l1 i l2 :
    link_senders s = l1 ++ i :: l2 -> length (queue s) < queue_capacity -> queue_closed s = false ->
    step s Silent
      (mkAuth (chain s) (errors s) (queue s ++ [i]) (finished s) (processing s - 1)
        (queue_closed s) (owner_at s) (lookups s) (l1 ++ l2) (working s))
| addResponse i :
    owner_at s = Running -> finished s = false ->
    step s (Accepted i)
      (mkAuth (chain s) (errors s) (queue s) (finished s) (processing s + 1) (queue_closed s)
        (Sending i) (lookups s) (link_senders s) (working s))
| response_sent i :
    owner_at s = Sending i -> length (queue s) < queue_capacity -> queue_closed s = false ->
    step s Silent
      (mkAuth (chain s) (errors s) (queue s ++ [i]) (finished s) (processing s) (queue_closed s)
        Running (lookups s) (link_senders s) (working s))
| worker_takes i rest :
    working s = None -> queue s = i :: rest ->
    step s Silent
      (mkAuth (chain s) (errors s) rest (finished s) (processing s) (queue_closed s)
        (owner_at s) (lookups s) (link_senders s) (Some i))
| worker_done i a err :
    working s = Some i -> Authenticator.AddResponse (in_zone i) (in_msg i) (chain s) = Ret (a, err) ->
    step s (Delivered i)
      (mkAuth a (match err with Some e => errors s ++ [e] | None => errors s end) (queue s)
        (finished s) (processing s - 1) (queue_closed s) (owner_at s) (lookups s)
        (link_senders s) None)
| finish :
    owner_at s = Running ->
    step s Silent
      (mkAuth (chain s) (errors s) (queue s) true (processing s) (queue_closed s) Waiting
        (lookups s) (link_senders s) (working s))
| wait_over :
    owner_at s = Waiting -> processing s = 0 ->
    step s Silent
      (mkAuth (chain s) (errors s) (queue s) (finished s) (processing s) true Closed_
        (lookups s) (link_senders s) (working s)).

Inductive steps : authenticator -> list event -> authenticator -> Prop :=
| steps_nil s : steps s [] s
| steps_snoc s tr s' e s'' : steps s tr s' -> step s' e s'' -> steps s (tr ++ [e]) s''.

Definition accepted (tr : list event) : list input :=
  omap (fun e => match e with Accepted i => Some i | _ => None end) tr.
Definition delivered (tr : list event) : list input :=
  omap (fun e => match e with Delivered i => Some i | _ => None end) tr.

(** A send on a closed channel panics. *)
Definition send_panics (s : authenticator) : Prop :=
  queue_closed s = true /\ ((exists i, owner_at s = Sending i) \/ link_senders s <> []).

(** ** [result], once the queue is closed *)

(** [errors] of the value returned are those of [a.errors]: one is returned, and
    with several the text built from them is dropped. *)
Definition result (s : authenticator) : outcome (judgement * Authenticator) :=
  match errors s with
  | [e] => Ret ((Unknown, NotFound, Some e), chain s)
  | _ => Authenticator.Result (chain s)
  end.

Definition resultTTLAnswer (s : authenticator) (rtype : Z) : option Z :=
  ResultTTLAnswer (chain s) rtype.
Definition resultTTLAuthority (s : authenticator) (rtype : Z) : option Z :=
  ResultTTLAuthority (chain s) rtype.
End auth.

(** * Theory *)

Section auth_facts.
Context `{L : DnsLib} `{R : MapRange} `{Cfg : DnssecConfig}.

Definition sending (s : authenticator) : list input :=
  match owner_at s with Sending i => [i] | _ => [] end.
Definition taken (s : authenticator) : list input :=
  match working s with Some i => [i] | None => [] end.

(** Everything between acceptance and delivery. *)
Definition in_flight (s : authenticator) : list input :=
  taken s ++ queue s ++ sending s ++ link_senders s.

Record auth_inv (tr : list event) (s : authenticator) : Prop := {
  inv_count : processing s = length (taken s) + length (queue s) + length (sending s) +
    2 * length (link_senders s) + length (lookups s);
  inv_inputs : accepted tr ≡ₚ delivered tr ++ in_flight s;
  inv_closed : queue_closed s = true -> processing s = 0 /\ owner_at s = Closed_;
  inv_owner : owner_at s = Closed_ -> queue_closed s = true;
  inv_finished : finished s = true <-> owner_at s = Waiting \/ owner_at s = Closed_
}.

Lemma accepted_snoc tr e :
  accepted (tr ++ [e]) = accepted tr ++ match e with Accepted i => [i] | _ => [] end.
Proof. unfold accepted. rewrite omap_app. by destruct e. Qed.
Lemma delivered_snoc tr e :
  delivered (tr ++ [e]) = delivered tr ++ match e with Delivered i => [i] | _ => [] end.
Proof. unfold delivered. rewrite omap_app. by destruct e. Qed.

Lemma newAuthenticator_inv clocks q : auth_inv [] (newAuthenticator clocks q).
Proof. split; try done. split; [done|]. by intros []. Qed.

(** A step keeps every count, and moves inputs along the stages. *)
Lemma step_inv tr s e s' : auth_inv tr s -> step s e s' -> auth_inv (tr ++ [e]) s'.
Proof.
  intros [Hn Hp Hc Ho Hf] Hstep.
  assert (Hopen : forall P : Prop, (queue_closed s = false -> P) ->
    (processing s = 0 -> P) -> P).
  { intros P H1 H2. destruct (queue_closed s) eqn:E; [apply H2, Hc; done|by apply H1]. }
  destruct Hstep; split; unfold in_flight, taken, sending in *;
    cbn [owner_at working queue lookups link_senders processing queue_closed finished] in *;
    rewrite ?accepted_snoc, ?delivered_snoc, ?app_nil_r;
    repeat match goal with
    | H : owner_at s = _ |- _ => rewrite H in *; clear H
    | H : working s = _ |- _ => rewrite H in *; clear H
    | H : queue s = _ |- _ => rewrite H in *; clear H
    | H : lookups s = _ |- _ => rewrite H in *; clear H
    | H : link_senders s = _ |- _ => rewrite H in *; clear H
    end; cbn [length app] in *; rewrite ?length_app in *; cbn [length] in *.
  all: try lia.
  all: try (rewrite Hp; solve_Permutation).
  all: try (intros Hcl; destruct (Hc Hcl) as [Hz Hown]; discriminate Hown).
  all: try (intros Hcl; destruct (Hc Hcl) as [Hz Hown]; split; [lia|done]).
  all: try tauto.
  all: try intuition congruence.
Qed.

Lemma steps_inv clocks q tr s : steps (newAuthenticator clocks q) tr s -> auth_inv tr s.
Proof.
  remember (newAuthenticator clocks q) as s0 eqn:E. induction 1 as [|s0 tr s1 e s2 Hs IH Hstep].
  - subst. apply newAuthenticator_inv.
  - eapply step_inv; [by apply IH|done].
Qed.

(** The chain has seen the delivered inputs, in their order. *)
Fixpoint deliver (inputs : list input) (a : Authenticator) (errs : list error) :
    outcome (Authenticator * list error) :=
  match inputs with
  | [] => Ret (a, errs)
  | i :: rest =>
      '(a, err) ← Authenticator.AddResponse (in_zone i) (in_msg i) a;
      deliver rest a (match err with Some e => errs ++ [e] | None => errs end)
  end.

Lemma deliver_snoc inputs i a errs :
  deliver (inputs ++ [i]) a errs = deliver inputs a errs ≫= fun '(a, errs) => deliver [i] a errs.
Proof.
  revert a errs; induction inputs as [|j inputs IH]; intros a errs; [done|]. cbn [app deliver].
  destruct (Authenticator.AddResponse (in_zone j) (in_msg j) a) as [[a' err]|]; [apply IH|done].
Qed.

Lemma steps_deliver clocks q tr s : steps (newAuthenticator clocks q) tr s ->
  deliver (delivered tr) (NewAuth clocks q) [] = Ret (chain s, errors s).
Proof.
  remember (newAuthenticator clocks q) as s0 eqn:E. induction 1 as [|s0 tr s1 e s2 Hs IH Hstep].
  - by subst.
  - rewrite delivered_snoc. specialize (IH E). destruct Hstep; rewrite ?app_nil_r; try exact IH.
    rewrite deliver_snoc, IH. cbn. by rewrite H0.
Qed.

Lemma deliver_add_all inputs a errs a' errs' :
  deliver inputs a errs = Ret (a', errs') -> add_all inputs a = Ret a'.
Proof.
  revert a errs; induction inputs as [|i inputs IH]; intros a errs H; cbn in H |- *; [by inv_bind|].
  destruct (Authenticator.AddResponse (in_zone i) (in_msg i) a) as [[a1 err]|]; [|done]. by eapply IH.
Qed.

(** C27: when the wait is over, every response that was accepted has gone
    through the chain exactly once, nothing is in flight, and no goroutine can
    send on the closed queue: closing it never panics, in any interleaving. *)
Theorem wait_drains clocks q tr s :
  steps (newAuthenticator clocks q) tr s ->
  ~ send_panics s /\
  (owner_at s = Closed_ ->
    accepted tr ≡ₚ delivered tr /\ lookups s = [] /\
    queue s = [] /\ working s = None /\
    deliver (delivered tr) (NewAuth clocks q) [] = Ret (chain s, errors s)).
Proof.
  intros Hs. pose proof (steps_inv _ _ _ _ Hs) as [Hn Hp Hc Ho Hf]. split.
  - intros [Hq Hw]. destruct (Hc Hq) as [Hz Hcl]. destruct Hw as [[i Hi]|Hl]; [congruence|].
    destruct (link_senders s) as [|i l]; [done|]. simpl in Hn. lia.
  - intros Hcl. destruct (Hc (Ho Hcl)) as [Hz _].
    assert (Hnil : taken s = [] /\ queue s = [] /\ sending s = [] /\ link_senders s = [] /\
      lookups s = []).
    { rewrite Hz in Hn. destruct (taken s), (queue s), (sending s), (link_senders s), (lookups s);
        simpl in Hn; try lia. done. }
    destruct Hnil as (Ht & Hqu & Hse & Hl & Hlo). split_and!; [|done|done| |by apply steps_deliver].
    + rewrite Hp. unfold in_flight. by rewrite Ht, Hqu, Hse, Hl, !app_nil_r.
    + unfold taken in Ht. by destruct (working s).
Qed.

(** C28: the verdict does not depend on the interleaving: two executions that
    accept the same responses, one per zone, and meet no error give the same
    verdict. *)
Theorem interleaving_irrelevant clocks q tr tr' s s' :
  steps (newAuthenticator clocks q) tr s -> steps (newAuthenticator clocks q) tr' s' ->
  owner_at s = Closed_ -> owner_at s' = Closed_ ->
  accepted tr ≡ₚ accepted tr' -> NoDup (map position (accepted tr)) ->
  errors s = [] -> errors s' = [] ->
  fst <$> result s = fst <$> result s'.
Proof.
  intros Hs Hs' Hc Hc' Hacc Hnd He He'.
  assert (Hd : forall tr s, steps (newAuthenticator clocks q) tr s -> owner_at s = Closed_ ->
    accepted tr ≡ₚ delivered tr /\ add_all (delivered tr) (NewAuth clocks q) = Ret (chain s)).
  { intros t u Ht Hu. pose proof (steps_inv _ _ _ _ Ht) as [Hn Hp Hcl Ho _].
    destruct (Hcl (Ho Hu)) as [Hz _]. split.
    - rewrite Hp. unfold in_flight. rewrite Hz in Hn.
      destruct (taken u), (queue u), (sending u), (link_senders u); simpl in Hn; try lia.
      by rewrite app_nil_r.
    - eapply deliver_add_all, steps_deliver, Ht. }
  destruct (Hd _ _ Hs Hc) as [H1 Ha], (Hd _ _ Hs' Hc') as [H1' Ha'].
  unfold result. rewrite He, He'.
  apply (add_all_perm clocks q (delivered tr) (delivered tr')); [|by rewrite <- H1|done|done].
  by rewrite <- H1, Hacc, H1'.
Qed.

(** The internal steps left before the wait can end. *)
Definition work_left (s : authenticator) : nat :=
  4 * length (lookups s) + 3 * length (link_senders s) + 3 * length (sending s) +
  2 * length (queue s) + length (taken s).

(** C29: while [result] waits, the goroutines are never stuck: as long as the
    wait group is not at zero some step is possible, unless the chain itself
    panics on the input at hand, and every step brings the end nearer. *)
Theorem wait_ends clocks q tr s :
  steps (newAuthenticator clocks q) tr s -> owner_at s = Waiting ->
  (forall e s', step s e s' -> owner_at s' = Closed_ \/
     owner_at s' = Waiting /\ work_left s' < work_left s) /\
  ((exists e s', step s e s') \/
   exists i p, working s = Some i /\
     Authenticator.AddResponse (in_zone i) (in_msg i) (chain s) = Panic p).
Proof.
  intros Hs Hw. pose proof (steps_inv _ _ _ _ Hs) as [Hn Hp Hc Ho Hf]. split.
  - intros e s' Hstep. unfold work_left, sending, taken.
    destruct Hstep; cbn; rewrite ?Hw in *; try congruence;
      try (by left); right; split; try done;
      repeat match goal with
      | H : working s = _ |- _ => rewrite H in *; clear H
      | H : queue s = _ |- _ => rewrite H in *; clear H
      | H : lookups s = _ |- _ => rewrite H in *; clear H
      | H : link_senders s = _ |- _ => rewrite H in *; clear H
      end; rewrite ?length_app; cbn; lia.
  - destruct (working s) as [i|] eqn:Ew.
    { destruct (Authenticator.AddResponse (in_zone i) (in_msg i) (chain s)) as [[a err]|p] eqn:E.
      - left. eexists _, _. by eapply worker_done.
      - right. by exists i, p. }
    left. destruct (queue s) as [|i rest] eqn:Eq; [|by eexists _, _; eapply worker_takes].
    assert (Hopen : queue_closed s = false).
    { destruct (queue_closed s) eqn:E; [|done]. destruct (Hc eq_refl). congruence. }
    destruct (link_senders s) as [|i l] eqn:El.
    2:{ eexists _, _. apply (link_sent s [] i l); [done| |done]. rewrite Eq. unfold queue_capacity. simpl. lia. }
    destruct (lookups s) as [|[z n] l] eqn:Elo; [|by eexists _, _; apply (lookup_failed s [] z n l)].
    eexists _, _. apply wait_over; [done|]. unfold taken, sending in Hn.
    rewrite ?Ew, ?Eq, ?El, ?Elo, ?Hw in Hn. exact Hn.
Qed.
End auth_facts.

(** ** The two zones of [ChainExample] through the queue *)
Module AuthExample.
Import CskExample ChainExample.

Definition idle (c : Authenticator) (errs : list error) : authenticator :=
  mkAuth c errs [] false 0 false Running [] [] None.
Definition closed (c : Authenticator) (errs : list error) : authenticator :=
  mkAuth c errs [] true 0 true Closed_ [] [] None.
Definition fed (i : input) : list event := [Accepted i; Silent; Silent; Delivered i].

Definition s0 : authenticator := newAuthenticator (fun _ _ => clocks) CskExample.question.

Lemma feed_events tr c errs i a : steps s0 tr (idle c errs) ->
  Authenticator.AddResponse (in_zone i) (in_msg i) c = Ret (a, None) ->
  steps s0 (tr ++ fed i) (idle a errs).
Proof.
  intros Hs Ha.
  change (fed i) with ([Accepted i] ++ [Silent] ++ [Silent] ++ [Delivered i]).
  rewrite !app_assoc. repeat eapply steps_snoc; [exact Hs| | | |].
  - by apply (addResponse _ i).
  - apply (response_sent _ i); [done|unfold queue_capacity; simpl; lia|done].
  - by apply (worker_takes _ i []).
  - exact (worker_done (mkAuth c errs [] false 1 false Running [] [] (Some i)) i a None eq_refl Ha).
Qed.

Lemma shut tr c errs : steps s0 tr (idle c errs) ->
  steps s0 (tr ++ [Silent; Silent]) (closed c errs).
Proof.
  intros Hs. change [Silent; Silent] with ([Silent] ++ [Silent]). rewrite app_assoc.
  repeat eapply steps_snoc; [exact Hs| |].
  - by apply finish.
  - by apply wait_over.
Qed.

Definition chain_of (inputs : list input) : Authenticator := after inputs.
Definition no_error (i : input) (c : Authenticator) : bool :=
  match Authenticator.AddResponse (in_zone i) (in_msg i) c with Ret (_, None) => true | _ => false end.

Lemma add_two i j : no_error i start = true -> no_error j (chain_of [i]) = true ->
  steps s0 (fed i ++ fed j ++ [Silent; Silent]) (closed (chain_of [i; j]) []).
Proof.
  unfold no_error, chain_of, after. cbn [add_all].
  destruct (Authenticator.AddResponse (in_zone i) (in_msg i) start) as [[a [e|]]|] eqn:E1; try done.
  cbn [mbind outcome_bind add_all]. intros _.
  destruct (Authenticator.AddResponse (in_zone j) (in_msg j) a) as [[b [e|]]|] eqn:E2; try done.
  intros _. cbn [mbind outcome_bind]. rewrite app_assoc. apply shut. apply (feed_events _ a); [|done].
  apply (feed_events [] start); [constructor|done].
Qed.

Lemma run_root_first :
  steps s0 (fed at_root ++ fed at_example ++ [Silent; Silent]) (closed (chain_of [at_root; at_example]) []).
Proof. apply add_two; vm_compute; reflexivity. Qed.
Lemma run_example_first :
  steps s0 (fed at_example ++ fed at_root ++ [Silent; Silent]) (closed (chain_of [at_example; at_root]) []).
Proof. apply add_two; vm_compute; reflexivity. Qed.

Lemma wait_drains_witness :
  accepted (fed at_root ++ fed at_example ++ [Silent; Silent]) ≡ₚ
    delivered (fed at_root ++ fed at_example ++ [Silent; Silent]) /\
  ~ send_panics (closed (chain_of [at_root; at_example]) []).
Proof.
  destruct (wait_drains (fun _ _ => clocks) CskExample.question _ _ run_root_first) as [Hp Hd].
  split; [apply Hd; reflexivity|exact Hp].
Defined.

Lemma interleaving_irrelevant_witness :
  fst <$> result (closed (chain_of [at_root; at_example]) []) =
  fst <$> result (closed (chain_of [at_example; at_root]) []).
Proof.
  apply (interleaving_irrelevant (fun _ _ => clocks) CskExample.question _ _ _ _
    run_root_first run_example_first); try reflexivity.
  - apply Permutation_swap.
  - apply (bool_decide_unpack _). vm_compute. exact I.
Defined.

(** [result] waits while a DS lookup is in flight. *)
Definition waiting : authenticator :=
  mkAuth start [] [] true 1 false Waiting [(root_zone, "example.")] [] None.

Lemma wait_ends_witness :
  (exists e s', step waiting e s') \/
  exists i p, working waiting = Some i /\
    Authenticator.AddResponse (in_zone i) (in_msg i) (chain waiting) = Panic p.
Proof.
  assert (Hs : steps s0 [Silent; Silent] waiting).
  { change [Silent; Silent] with (([] ++ [Silent]) ++ [@Silent]).
    repeat eapply steps_snoc; [constructor| |].
    - by apply (addDelegationSignerLink _ root_zone "example.").
    - by apply finish. }
  apply (wait_ends (fun _ _ => clocks) CskExample.question _ _ Hs). reflexivity.
Defined.
End AuthExample.
