(* ===== verification/Domain.v ===== *)
(** * domain.go: walking a name from the root down

    [labelIndexes] holds the offsets of the name's ancestors, the root's
    first; [currentIdx] moves along it, one step past the end included. *)

From S2P Require Import Prelude GoErrors Dns DnsRef.

Record domain := mkDomain {
  d_name : string;
  labelIndexes : list nat;
  currentIdx : nat
}.

Section domain.
Context `{L : DnsLib}.

(** A canonical name ends with the root's dot, so [len(d)-1] is an offset. *)
Definition newDomain (d : string) : domain :=
  let d := dns_CanonicalName d in
  mkDomain d (reverse (dns_Split d ++ [String.length d - 1])) 0.

Definition current (d : domain) : outcome string :=
  match labelIndexes d !! currentIdx d with
  | None => Ret (d_name d) (* the index is past the end *)
  | Some i => go_slice_from (d_name d) (Z.of_nat i)
  end.

Definition next (d : domain) : domain :=
  mkDomain (d_name d) (labelIndexes d) (S (currentIdx d)).

Definition more (d : domain) : bool :=
  bool_decide (currentIdx d <= length (labelIndexes d)).

(** [last]; the name is taken by the function on lists. *)
Definition domain_last (d : domain) : bool :=
  bool_decide (length (labelIndexes d) <= S (currentIdx d)).

(** The loop of [windTo]: each iteration moves one step, so it ends after
    as many as there are indexes left. *)
Fixpoint wind_loop (fuel : nat) (target : string) (d : domain) :
    outcome (domain * option error) :=
  match fuel with
  | O => Ret (d, Some (ENew (target +:+ " not found")))
  | S fuel' =>
      if negb (more d) then Ret (d, Some (ENew (target +:+ " not found")))
      else
        c ← current d;
        if bool_decide (c = target) then Ret (d, None)
        else wind_loop fuel' target (next d)
  end.

Definition windTo (target : string) (d : domain) : outcome (domain * option error) :=
  let target := dns_CanonicalName target in
  if negb (dns_IsSubDomain target (d_name d)) then
    Ret (d, Some (ENew (target +:+ " is not a subdomain of " +:+ d_name d)))
  else wind_loop (S (length (labelIndexes d)) - currentIdx d) target d.

(** The slices the loop of [gap] appends, [n] of them from index [i] on. *)
Fixpoint gap_loop (d : domain) (i n : nat) : outcome (list string) :=
  match n with
  | O => Ret []
  | S n' =>
      k ← go_index (labelIndexes d) (Z.of_nat i);
      s ← go_slice_from (d_name d) (Z.of_nat k);
      rest ← gap_loop d (S i) n';
      Ret (s :: rest)
  end.

Definition gap (target : string) (d : domain) : outcome (list string) :=
  if negb (dns_IsSubDomain target (d_name d)) then Ret []
  else
    c ← current d;
    let missing := (Z.of_nat (dns_CountLabel target) - Z.of_nat (dns_CountLabel c))%Z in
    if bool_decide (missing <= 0)%Z then Ret []
    else gap_loop d (currentIdx d) (Z.to_nat missing).
End domain.

(** * Theory *)

Section domain_facts.
Context `{Laws : DnsLaws}.

(** The ancestors of a name, the root first. *)
Definition descent (n : string) : list string := reverse (ancestors n).

(** A walk along a canonical name. *)
Definition domain_wf (d : domain) : Prop :=
  canonical (d_name d) /\
  labelIndexes d = reverse (dns_Split (d_name d) ++ [String.length (d_name d) - 1]).

Lemma newDomain_wf n : domain_wf (newDomain n).
Proof. split; [apply canonical_idem|done]. Qed.

Lemma next_wf d : domain_wf d -> domain_wf (next d).
Proof. done. Qed.

Lemma descent_indexes d : domain_wf d ->
  descent (d_name d) = map (fun i => str_drop i (d_name d)) (labelIndexes d).
Proof.
  intros [_ ->]. unfold descent, ancestors. rewrite <- fmap_reverse. done.
Qed.

Lemma descent_length n : length (descent n) = S (dns_CountLabel n).
Proof.
  unfold descent, ancestors. rewrite length_reverse, length_map, length_app, countlabel_split.
  simpl. lia.
Qed.

Lemma wf_length d : domain_wf d -> length (labelIndexes d) = length (descent (d_name d)).
Proof. intros H. by rewrite (descent_indexes d H), length_map. Qed.

Lemma wf_offset d i k : domain_wf d -> labelIndexes d !! i = Some k ->
  k <= String.length (d_name d).
Proof.
  intros [Hc Hl] Hk. apply list_elem_of_lookup_2 in Hk. rewrite Hl in Hk.
  apply elem_of_reverse, elem_of_app in Hk as [Hk|Hk].
  - apply split_bound in Hk; [lia|done].
  - apply list_elem_of_singleton in Hk. lia.
Qed.

Lemma wf_slice d i k : domain_wf d -> labelIndexes d !! i = Some k ->
  go_slice_from (d_name d) (Z.of_nat k) = Ret (str_drop k (d_name d)) /\
  descent (d_name d) !! i = Some (str_drop k (d_name d)).
Proof.
  intros Hd Hk. split; [apply go_slice_from_ret; by eapply wf_offset|].
  rewrite descent_indexes by done. by rewrite list_lookup_fmap, Hk.
Qed.

(** [current] never panics: the ancestor at the index, the name past the end. *)
Lemma current_spec d : domain_wf d ->
  current d = Ret (default (d_name d) (descent (d_name d) !! currentIdx d)).
Proof.
  intros Hd. unfold current. destruct (labelIndexes d !! currentIdx d) as [k|] eqn:E.
  - destruct (wf_slice d _ k Hd E) as [-> ->]. done.
  - apply lookup_ge_None in E. rewrite (wf_length d Hd) in E.
    by rewrite (proj2 (lookup_ge_None _ _) E).
Qed.

Lemma elem_of_descent n s : s ∈ descent n <-> s ∈ ancestors n.
Proof. unfold descent. apply elem_of_reverse. Qed.

(** The [i]-th ancestor from the root has [i] labels. *)
Lemma descent_count n i s : canonical n -> descent n !! i = Some s -> dns_CountLabel s = i.
Proof.
  intros Hc H. unfold descent in H. pose proof (descent_length n) as Hl.
  apply reverse_lookup_Some in H as [H Hi]. unfold ancestors in H, Hi.
  rewrite list_lookup_fmap in H. rewrite length_map in H, Hi.
  destruct ((dns_Split n ++ [String.length n - 1]) !!
    (length (dns_Split n ++ [String.length n - 1]) - S i)) as [k|] eqn:Ek; [|done].
  simplify_eq/=. pose proof (suffix_count _ _ _ Hc Ek) as Hs.
  rewrite countlabel_split in Hs |- *. rewrite (countlabel_split n) in Hs.
  rewrite length_app in Hs, Hi. simpl in Hs, Hi. lia.
Qed.

Lemma descent_inj n i j s : canonical n ->
  descent n !! i = Some s -> descent n !! j = Some s -> i = j.
Proof.
  intros Hc Hi Hj. apply descent_count in Hi, Hj; [|done..]. congruence.
Qed.

Lemma wind_loop_spec target d j fuel : domain_wf d ->
  descent (d_name d) !! j = Some target -> currentIdx d <= j -> j - currentIdx d < fuel ->
  wind_loop fuel target d = Ret (mkDomain (d_name d) (labelIndexes d) j, None).
Proof.
  revert d; induction fuel as [|fuel IH]; intros d Hd Hj Hle Hf; [lia|]. simpl.
  assert (Hlen : j < length (labelIndexes d)).
  { rewrite wf_length by done. by apply lookup_lt_is_Some_1. }
  unfold more. rewrite bool_decide_true by lia. simpl. rewrite current_spec by done. simpl.
  destruct (decide (currentIdx d = j)) as [He|Hne].
  - rewrite He, Hj. simpl. rewrite bool_decide_true by done. destruct d. simpl in *. by subst.
  - destruct (lookup_lt_is_Some_2 (descent (d_name d)) (currentIdx d)) as [s Hs];
      [rewrite <- wf_length by done; lia|].
    rewrite Hs. simpl. rewrite bool_decide_false.
    + apply (IH (next d)); [done|done|simpl; lia|simpl; lia].
    + intros ->. apply Hne. eapply descent_inj; [apply Hd|done..].
Qed.

Lemma wind_loop_miss target d fuel : domain_wf d ->
  (forall j, currentIdx d <= j -> default (d_name d) (descent (d_name d) !! j) <> target) ->
  exists d', wind_loop fuel target d = Ret (d', Some (ENew (target +:+ " not found"))).
Proof.
  revert d; induction fuel as [|fuel IH]; intros d Hd Hm; simpl; [by exists d|].
  destruct (negb (more d)); [by exists d|]. rewrite current_spec by done. simpl.
  rewrite bool_decide_false by (by apply Hm). apply (IH (next d)); [done|].
  simpl. intros j Hj. apply Hm. lia.
Qed.

(** The walk a caller makes: [current], [next], while [more]. *)
Fixpoint walk (fuel : nat) (d : domain) : outcome (list string) :=
  match fuel with
  | O => Ret []
  | S fuel' =>
      if more d then
        c ← current d;
        rest ← walk fuel' (next d);
        Ret (c :: rest)
      else Ret []
  end.

Lemma walk_spec d fuel : domain_wf d -> S (length (labelIndexes d)) - currentIdx d <= fuel ->
  currentIdx d <= length (labelIndexes d) ->
  walk fuel d = Ret (drop (currentIdx d) (descent (d_name d)) ++ [d_name d]).
Proof.
  revert d; induction fuel as [|fuel IH]; intros d Hd Hf Hc; [lia|]. simpl. unfold more.
  rewrite bool_decide_true by done. rewrite current_spec by done. cbn [mbind outcome_bind].
  destruct (decide (currentIdx d = length (labelIndexes d))) as [He|Hne].
  - assert (Hn : descent (d_name d) !! currentIdx d = None).
    { apply lookup_ge_None. rewrite <- wf_length by done. lia. }
    rewrite Hn. assert (Hw : walk fuel (next d) = Ret []).
    { destruct fuel; [done|]. simpl. unfold more. rewrite bool_decide_false; [done|simpl; lia]. }
    rewrite Hw, drop_ge; [done|]. rewrite <- wf_length by done. lia.
  - destruct (lookup_lt_is_Some_2 (descent (d_name d)) (currentIdx d)) as [s Hs];
      [rewrite <- wf_length by done; lia|].
    rewrite Hs, (IH (next d)) by (simpl; try done; lia). simpl.
    by rewrite (drop_S _ _ _ Hs).
Qed.

(** Walking a name visits each of its ancestors once, from the root
    down, and then the full name a second time. *)
Theorem walk_from_root n :
  let c := dns_CanonicalName n in
  walk (length (labelIndexes (newDomain n)) + 1) (newDomain n) =
    Ret (reverse (ancestors c) ++ [c]).
Proof.
  cbn zeta. rewrite (walk_spec (newDomain n)); [done|apply newDomain_wf|simpl; lia|simpl; lia].
Qed.

Lemma subdomain_descent t d j : domain_wf d -> canonical t ->
  descent (d_name d) !! j = Some t -> dns_IsSubDomain t (d_name d) = true.
Proof.
  intros Hd Ht Hj. apply subdomain_ancestor; [done|apply Hd|].
  apply elem_of_descent. by eapply list_elem_of_lookup_2.
Qed.

Lemma windTo_reaches target d j : domain_wf d ->
  descent (d_name d) !! j = Some (dns_CanonicalName target) -> currentIdx d <= j ->
  windTo target d = Ret (mkDomain (d_name d) (labelIndexes d) j, None).
Proof.
  intros Hd Hj Hle. unfold windTo. rewrite (subdomain_descent _ d j) by (done || apply canonical_idem).
  cbn [negb]. apply wind_loop_spec; [done..|].
  pose proof (lookup_lt_Some _ _ _ Hj). rewrite wf_length by done. lia.
Qed.

(** The walk starts at the root. *)
Lemma descent_root n : canonical n -> exists l, descent n = "."%string :: l.
Proof.
  intros Hc. unfold descent, ancestors. rewrite map_app, reverse_app. cbn.
  eexists. f_equal. destruct (canonical_dot n) as [s Hs]. rewrite Hc in Hs. subst n.
  apply str_drop_app. rewrite str_app_length. simpl. lia.
Qed.

(** [windTo] stops at the target when the target is an ancestor that has
    not been passed, and fails otherwise: at once, without moving, when the
    target is no ancestor, after the end when it has been passed. *)
Theorem windTo_spec target d : domain_wf d ->
  let t := dns_CanonicalName target in
  (forall j, descent (d_name d) !! j = Some t -> currentIdx d <= j ->
    windTo target d = Ret (mkDomain (d_name d) (labelIndexes d) j, None)) /\
  (t ∉ ancestors (d_name d) -> exists e, windTo target d = Ret (d, Some e)) /\
  (forall j, descent (d_name d) !! j = Some t -> j < currentIdx d -> t <> d_name d ->
    exists d', windTo target d = Ret (d', Some (ENew (t +:+ " not found")))).
Proof.
  intros Hd t. assert (Hsub : dns_IsSubDomain t (d_name d) = true <-> t ∈ ancestors (d_name d))
    by (apply subdomain_ancestor; [apply canonical_idem|apply Hd]).
  split_and!; [intros j Hj Hle; by apply windTo_reaches|..]; unfold windTo; fold t.
  - intros Hn. destruct (dns_IsSubDomain t (d_name d)); [by destruct Hn; apply Hsub|]. simpl. eauto.
  - intros j Hj Hlt Hne. rewrite (subdomain_descent t d j) by (done || apply canonical_idem).
    cbn [negb]. apply wind_loop_miss; [done|].
    intros i Hi. destruct (descent (d_name d) !! i) as [s|] eqn:Es; simpl; [|congruence].
    intros ->. assert (i = j) by (eapply descent_inj; [apply Hd|done..]). lia.
Qed.

Lemma gap_loop_spec d i n : domain_wf d -> i + n <= length (descent (d_name d)) ->
  gap_loop d i n = Ret (take n (drop i (descent (d_name d)))).
Proof.
  intros Hd. revert i; induction n as [|n IH]; intros i Hn; [done|]. simpl.
  destruct (lookup_lt_is_Some_2 (labelIndexes d) i) as [k Hk];
    [rewrite wf_length by done; lia|].
  destruct (wf_slice d i k Hd Hk) as [Hs Hdesc].
  rewrite (go_index_nat _ _ _ Hk). cbn. rewrite Hs. cbn. rewrite IH by lia. cbn.
  by rewrite (drop_S _ _ _ Hdesc).
Qed.

(** [gap] never panics, whatever the target is. *)
Lemma gap_total target d : domain_wf d ->
  exists n, gap target d = Ret (take n (drop (currentIdx d) (descent (d_name d)))).
Proof.
  intros Hd. unfold gap. destruct (dns_IsSubDomain target (d_name d)) eqn:Es; [|by exists 0].
  cbn [negb]. rewrite current_spec by done. cbn [mbind outcome_bind].
  pose proof (subdomain_count _ _ (proj1 Hd) Es) as Hn. pose proof (descent_length (d_name d)) as Hl.
  case_bool_decide as Hm; [by exists 0|].
  set (n := Z.to_nat _). exists n. apply gap_loop_spec; [done|].
  assert (currentIdx d < length (descent (d_name d))) as Hlt.
  { destruct (descent (d_name d) !! currentIdx d) eqn:E; [by eapply lookup_lt_Some|].
    cbn [from_option id] in Hm. lia. }
  destruct (lookup_lt_is_Some_2 _ _ Hlt) as [s Hs]. subst n. rewrite Hs in Hm |- *.
  cbn [from_option id] in *. rewrite (descent_count _ _ _ (proj1 Hd) Hs) in *. lia.
Qed.

(** [gap] returns the ancestors from the current one, included, down to
    the target, excluded, and never indexes out of range. *)
Theorem gap_spec target d j : domain_wf d ->
  descent (d_name d) !! j = Some target ->
  gap target d = Ret (take (j - currentIdx d) (drop (currentIdx d) (descent (d_name d)))).
Proof.
  intros Hd Hj. pose proof (lookup_lt_Some _ _ _ Hj) as Hlt.
  assert (Ht : canonical target).
  { eapply suffix_canonical; [apply Hd|]. apply elem_of_descent. by eapply list_elem_of_lookup_2. }
  unfold gap. rewrite (proj2 (subdomain_ancestor _ _ Ht (proj1 Hd))); cycle 1.
  { apply elem_of_descent. by eapply list_elem_of_lookup_2. }
  cbn [negb]. rewrite current_spec by done. cbn [mbind outcome_bind].
  rewrite (descent_count _ _ _ (proj1 Hd) Hj).
  destruct (descent (d_name d) !! currentIdx d) as [s|] eqn:Es; cbn [from_option id].
  - rewrite (descent_count _ _ _ (proj1 Hd) Es). pose proof (lookup_lt_Some _ _ _ Es).
    case_bool_decide as Hm.
    + by replace (j - currentIdx d) with 0 by lia.
    + rewrite gap_loop_spec by (done || lia). do 2 f_equal. lia.
  - apply lookup_ge_None in Es. pose proof (descent_length (d_name d)).
    rewrite bool_decide_true by lia. by replace (j - currentIdx d) with 0 by lia.
Qed.
End domain_facts.

(** ** A walk down www.example.com. *)
Module DomainExample.
#[export] Existing Instance refLib.
#[export] Existing Instance refLaws.

Definition d : domain := newDomain "WWW.example.com".

Example d_walk : walk 6 d =
  Ret ["."; "com."; "example.com."; "www.example.com."; "www.example.com."].
Proof. vm_compute. reflexivity. Qed.

Lemma walk_from_root_witness : walk (length (labelIndexes d) + 1) d =
  Ret (reverse (ancestors (dns_CanonicalName "WWW.example.com")) ++
       [dns_CanonicalName "WWW.example.com"]).
Proof. apply (walk_from_root "WWW.example.com"). Defined.

Lemma windTo_spec_witness :
  windTo "Example.com" d = Ret (mkDomain (d_name d) (labelIndexes d) 2, None).
Proof.
  apply (windTo_spec "Example.com" d); [apply newDomain_wf|vm_compute; reflexivity|simpl; lia].
Defined.

Lemma gap_spec_witness :
  gap "example.com." (next d) = Ret ["com."].
Proof.
  rewrite (gap_spec "example.com." (next d) 2); [|apply newDomain_wf|vm_compute; reflexivity].
  vm_compute. reflexivity.
Defined.
End DomainExample.
