(* ===== verification/Cache.v ===== *)
(** * server.go: the sharded DNS cache

    [DNSCache] keeps 32 shards, each an LRU list with two maps into it.  A
    [*list.Element] and the [*cacheEntry] it carries are created together, and
    one location names both; [heap] is the entry a location points to, so that
    [items], [lruMap] and [lruList] share it.  Every operation runs under the
    shard's lock and is one step; [time.Now] is an argument. *)

From S2P Require Import Prelude GoErrors Dns DnsRef.

Definition loc : Type := nat.

Record CacheStats := mkStats {
  Hits : Z; Misses : Z; Evictions : Z; Expired : Z; Negative : Z
}.

Record cacheEntry := mkEntry {
  entry_msg : Msg;
  expires : Z;
  dsRecord : list DS;
  entry_key : string;
  isNegative : bool;
  frequency : Z
}.

Record cacheShard := mkShard {
  items : gmap string loc;
  lruList : list loc;
  lruMap : gmap string loc;
  heap : gmap loc cacheEntry;
  next_loc : loc
}.

Record DNSCache := mkCache {
  shards : list cacheShard;
  maxSize : Z;
  stats : CacheStats
}.

(** [len(c.shards)] *)
Definition shard_count : nat := 32.

Definition new_shard : cacheShard := mkShard ∅ [] ∅ ∅ 0.
Definition new_cache (size : Z) : DNSCache :=
  mkCache (replicate shard_count new_shard) size (mkStats 0 0 0 0 0).

(** [NewServerWithConfig]: the capacity taken from [config.CacheSize]. *)
Definition configured_size (CacheSize : Z) : Z :=
  if bool_decide (0 < CacheSize)%Z then CacheSize else 100000.

(** [atomic.AddUint64(&c.stats.F, 1)] *)
Definition add_Hits (s : CacheStats) : CacheStats :=
  mkStats (uint64 (Hits s + 1)) (Misses s) (Evictions s) (Expired s) (Negative s).
Definition add_Misses (s : CacheStats) : CacheStats :=
  mkStats (Hits s) (uint64 (Misses s + 1)) (Evictions s) (Expired s) (Negative s).
Definition add_Evictions (s : CacheStats) : CacheStats :=
  mkStats (Hits s) (Misses s) (uint64 (Evictions s + 1)) (Expired s) (Negative s).
Definition add_Expired (s : CacheStats) : CacheStats :=
  mkStats (Hits s) (Misses s) (Evictions s) (uint64 (Expired s + 1)) (Negative s).
Definition add_Negative (s : CacheStats) : CacheStats :=
  mkStats (Hits s) (Misses s) (Evictions s) (Expired s) (uint64 (Negative s + 1)).

(** ** Keys and shards *)

(** [fmt.Sprintf("%s-%d-%d", q.Name, q.Qtype, q.Qclass)] *)
Definition key_of (q : Question_) : string :=
  Q_Name q +:+ "-" +:+ pretty (Qtype q) +:+ "-" +:+ pretty (Qclass q).
Definition negative_key_of (q : Question_) : string := key_of q +:+ "-negative".

(** [fnv.New32a]: the 32-bit FNV-1a hash. *)
Fixpoint fnv32a (h : Z) (s : string) : Z :=
  match s with
  | EmptyString => h
  | String c s' => fnv32a (uint32 (Z.lxor h (Z.of_N (Ascii.N_of_ascii c)) * 16777619)) s'
  end.

(** The index of [getShard]. *)
Definition getShard (key : string) : nat :=
  Z.to_nat (fnv32a 2166136261 key `mod` Z.of_nat shard_count).

Definition shard_at (c : DNSCache) (i : nat) : cacheShard := default new_shard (shards c !! i).
Definition put_shard (c : DNSCache) (i : nat) (st : CacheStats) (s : cacheShard) : DNSCache :=
  mkCache (<[ i := s ]> (shards c)) (maxSize c) st.

(** ** container/list *)

(** [l.Remove(e)] *)
Definition list_Remove (e : loc) (l : list loc) : list loc := filter (fun x => x <> e) l.
(** [l.MoveToFront(e)]: nothing happens when [e] is not an element of [l]. *)
Definition list_MoveToFront (e : loc) (l : list loc) : list loc :=
  if bool_decide (e ∈ l) then e :: list_Remove e l else l.

(** ** Operations on a shard; the statistics are threaded through *)

Definition evictEntry (st : CacheStats) (s : cacheShard) (elem : loc) : CacheStats * cacheShard :=
  match heap s !! elem with
  | None => (st, s) (* an element always has its entry *)
  | Some entry =>
      (add_Evictions st,
       mkShard (delete (entry_key entry) (items s)) (list_Remove elem (lruList s))
         (delete (entry_key entry) (lruMap s)) (heap s) (next_loc s))
  end.

Definition evictOldest (st : CacheStats) (s : cacheShard) : CacheStats * cacheShard :=
  match last (lruList s) with
  | Some elem => evictEntry st s elem
  | None => (st, s)
  end.

(** The loop of [ensureCapacity]; [None] when [fuel] iterations do not end it. *)
Fixpoint ensureCapacity (fuel : nat) (maxShardSize : Z) (st : CacheStats) (s : cacheShard) :
    option (CacheStats * cacheShard) :=
  if bool_decide (maxShardSize <= Z.of_nat (size (items s)))%Z then
    match fuel with
    | O => None
    | S fuel' => let '(st, s) := evictOldest st s in ensureCapacity fuel' maxShardSize st s
    end
  else Some (st, s).

(** [c.maxSize / len(c.shards)]; Go's division truncates. *)
Definition max_shard_size (c : DNSCache) : Z := Z.quot (maxSize c) (Z.of_nat shard_count).

(** The end of [set] and [setNegative]: an existing element is dropped, the
    new one goes to the front. *)
Definition push_entry (entry : cacheEntry) (s : cacheShard) : cacheShard :=
  let key := entry_key entry in
  let s :=
    match lruMap s !! key with
    | Some elem =>
        mkShard (delete key (items s)) (list_Remove elem (lruList s)) (delete key (lruMap s))
          (heap s) (next_loc s)
    | None => s
    end in
  let elem := next_loc s in
  mkShard (<[ key := elem ]> (items s)) (elem :: lruList s) (<[ key := elem ]> (lruMap s))
    (<[ elem := entry ]> (heap s)) (S elem).

(** ** [get], [set] and [setNegative] *)

Definition incr_frequency (e : cacheEntry) : cacheEntry :=
  mkEntry (entry_msg e) (expires e) (dsRecord e) (entry_key e) (isNegative e)
    (uint32 (frequency e + 1)).

Definition shard_get (key : string) (requestID now : Z) (st : CacheStats) (s : cacheShard) :
    option Msg * (CacheStats * cacheShard) :=
  match lruMap s !! key with
  | None => (None, (add_Misses st, s))
  | Some elem =>
      match heap s !! elem with
      | None => (None, (st, s)) (* an element always has its entry *)
      | Some entry =>
          if bool_decide (now < expires entry)%Z then
            (Some (set_Id requestID (entry_msg entry)),
             (add_Hits st,
              mkShard (items s) (list_MoveToFront elem (lruList s)) (lruMap s)
                (<[ elem := incr_frequency entry ]> (heap s)) (next_loc s)))
          else
            let '(st, s) := evictEntry (add_Expired st) s elem in
            (None, (add_Misses st, s))
      end
  end.

Definition get (q : Question_) (requestID now : Z) (c : DNSCache) : option Msg * DNSCache :=
  let key := key_of q in
  let i := getShard key in
  let '(m, (st, s)) := shard_get key requestID now (stats c) (shard_at c i) in
  (m, put_shard c i st s).

(** The TTL [set] computes. *)
Definition min_ttl (ttl : Z) (rrs : list RR) : Z :=
  foldl (fun ttl rr => if bool_decide (Ttl (Header rr) < ttl)%Z then Ttl (Header rr) else ttl)
    ttl rrs.
Definition cache_ttl (msg : Msg) : Z :=
  let ttl := min_ttl (min_ttl (min_ttl 3600 (Answer msg)) (Ns msg)) (Extra msg) in
  let ttl := if bool_decide (ttl = 0)%Z then 300%Z else ttl in
  let ttl := if bool_decide (86400 < ttl)%Z then 86400%Z else ttl in
  if bool_decide (ttl < 60)%Z then 60%Z else ttl.

Definition set (fuel : nat) (q : Question_) (msg : Msg) (now : Z) (c : DNSCache) :
    option DNSCache :=
  let key := key_of q in
  let i := getShard key in
  match ensureCapacity fuel (max_shard_size c) (stats c) (shard_at c i) with
  | None => None
  | Some (st, s) =>
      let entry := mkEntry msg (add_seconds now (cache_ttl msg)) [] key false 1 in
      Some (put_shard c i st (push_entry entry s))
  end.

(** The message of a negative entry. *)
Definition negative_msg `{DnsLib} (q : Question_) (rcode : Z) : Msg :=
  dns_SetRcode (mkMsg 0 false false false false false false false 0 [q] [] [] []) rcode.

Definition setNegative `{DnsLib} (fuel : nat) (q : Question_) (rcode now : Z) (c : DNSCache) :
    option DNSCache :=
  let key := negative_key_of q in
  let i := getShard key in
  match ensureCapacity fuel (max_shard_size c) (stats c) (shard_at c i) with
  | None => None
  | Some (st, s) =>
      let entry := mkEntry (negative_msg q rcode) (add_seconds now 300) [] key true 1 in
      Some (put_shard c i (add_Negative st) (push_entry entry s))
  end.

(** ** The rest *)

Definition Stats (c : DNSCache) : CacheStats := stats c.
Definition Size (c : DNSCache) : nat :=
  foldl (fun total s => total + size (items s)) 0 (shards c).
Definition Clear (c : DNSCache) : DNSCache :=
  mkCache (map (fun s => mkShard ∅ [] ∅ (heap s) (next_loc s)) (shards c)) (maxSize c) (stats c).

(** [strings.Split(s, "-")]: the pieces between the hyphens. *)
Fixpoint split_hyphen (s : string) : list string :=
  match s with
  | EmptyString => [""]
  | String c s' =>
      if bool_decide (c = "-"%char) then "" :: split_hyphen s'
      else match split_hyphen s' with
           | p :: ps => String c p :: ps
           | [] => [String c ""]
           end
  end.

(** [strconv.Atoi] with its error ignored: 0 unless the text is a signed
    decimal number, the nearest [int] when it is out of range. *)
Definition digit_value (c : ascii) : option Z :=
  let n := Z.of_N (Ascii.N_of_ascii c) in
  if bool_decide (48 <= n <= 57)%Z then Some (n - 48)%Z else None.
Fixpoint digits_value (acc : Z) (s : string) : option Z :=
  match s with
  | EmptyString => Some acc
  | String c s' =>
      match digit_value c with
      | Some d => digits_value (acc * 10 + d) s'
      | None => None
      end
  end.
Definition atoi (s : string) : Z :=
  let num (s : string) : Z :=
    match s with EmptyString => 0%Z | _ => default 0%Z (digits_value 0 s) end in
  match s with
  | String "-"%char s' => Z.max (- 2 ^ 63) (- num s')
  | String "+"%char s' => Z.min (2 ^ 63 - 1) (num s')
  | _ => Z.min (2 ^ 63 - 1) (num s)
  end.

Definition uint16 (z : Z) : Z := (z `mod` 2 ^ 16)%Z.

(** The question [getAllDomains] reads back from a key. *)
Definition parse_key (key : string) : option Question_ :=
  match split_hyphen key with
  | [name; qtype; qclass] => Some (mkQ name (uint16 (atoi qtype)) (uint16 (atoi qclass)))
  | _ => None
  end.

Section iteration.
Context `{MapRange}.

(** [clock key] is the instant at which the entry of [key] is examined. *)
Definition getAllDomains (clock : string -> Z) (c : DNSCache) : list Question_ :=
  flat_map (fun s =>
    flat_map (fun '(key, elem) =>
      match heap s !! elem with
      | Some entry =>
          if bool_decide (clock key < expires entry)%Z then
            match parse_key key with Some q => [q] | None => [] end
          else []
      | None => []
      end) (map_range (items s))) (shards c).

Definition clean_entry (now : Z) (acc : CacheStats * cacheShard) (item : string * loc) :
    CacheStats * cacheShard :=
  let '(st, s) := acc in
  let '(key, entry_loc) := item in
  match heap s !! entry_loc with
  | None => (st, s)
  | Some entry =>
      if bool_decide (expires entry < now)%Z then
        let s := match lruMap s !! key with
                 | Some elem =>
                     mkShard (items s) (list_Remove elem (lruList s)) (delete key (lruMap s))
                       (heap s) (next_loc s)
                 | None => s
                 end in
        (add_Expired st,
         mkShard (delete key (items s)) (lruList s) (lruMap s) (heap s) (next_loc s))
      else (st, s)
  end.

Definition clean_shard (now : Z) (st : CacheStats) (s : cacheShard) : CacheStats * cacheShard :=
  foldl (clean_entry now) (st, s) (map_range (items s)).

Definition cleanExpired (now : Z) (c : DNSCache) : DNSCache :=
  let '(st, ss) :=
    foldl (fun '(st, done) s => let '(st, s) := clean_shard now st s in (st, done ++ [s]))
      (stats c, []) (shards c) in
  mkCache ss (maxSize c) st.
End iteration.

(** * Theory of the keys *)

(** A question as the wire carries it: 16-bit type and class. *)
Definition wire_question (q : Question_) : Prop :=
  (0 <= Qtype q < 2 ^ 16)%Z /\ (0 <= Qclass q < 2 ^ 16)%Z.

Fixpoint has_hyphen (s : string) : bool :=
  match s with
  | EmptyString => false
  | String c s' => bool_decide (c = "-"%char) || has_hyphen s'
  end.

Lemma split_hyphen_nonempty s : split_hyphen s <> [].
Proof. destruct s as [|c s]; [done|]. simpl. repeat case_match; done. Qed.

Lemma split_hyphen_app s t : split_hyphen (s +:+ "-" +:+ t) = split_hyphen s ++ split_hyphen t.
Proof.
  induction s as [|c s IH]; [done|]. rewrite str_app_cons. cbn [split_hyphen]. rewrite IH.
  case_bool_decide; [done|]. by destruct (split_hyphen s) eqn:E; [apply split_hyphen_nonempty in E|].
Qed.

Lemma split_hyphen_single s : has_hyphen s = false -> split_hyphen s = [s].
Proof.
  induction s as [|c s IH]; [done|]. simpl. intros H. bool_facts.
  rewrite bool_decide_false by done. by rewrite IH.
Qed.

Lemma split_hyphen_many s : has_hyphen s = true -> 2 <= length (split_hyphen s).
Proof.
  induction s as [|c s IH]; [done|]. simpl. case_bool_decide; simpl.
  - intros _. destruct (split_hyphen s) eqn:E; [by apply split_hyphen_nonempty in E|]. simpl. lia.
  - intros Hs. specialize (IH Hs). destruct (split_hyphen s); simpl in *; lia.
Qed.

(** Decimal digits. *)

Lemma digit_value_char d : (d < 10)%N -> digit_value (pretty_N_char d) = Some (Z.of_N d).
Proof.
  intros H. assert (Hd : d = 0%N \/ d = 1%N \/ d = 2%N \/ d = 3%N \/ d = 4%N \/ d = 5%N \/
    d = 6%N \/ d = 7%N \/ d = 8%N \/ d = 9%N) by lia.
  repeat destruct Hd as [->|Hd]; try reflexivity. by subst.
Qed.

Lemma digits_value_go x s : digits_value 0 (pretty_N_go x s) = digits_value (Z.of_N x) s.
Proof.
  revert s; induction (N.lt_wf_0 x) as [x _ IH]; intros s.
  destruct (decide (x = 0)%N) as [->|Hx]; [by rewrite pretty_N_go_0|].
  rewrite pretty_N_go_step by lia. rewrite IH by (apply N.div_lt; lia).
  cbn [digits_value]. rewrite digit_value_char by (apply N.mod_lt; lia). f_equal.
  pose proof (N.div_mod x 10). lia.
Qed.

Lemma digits_value_pretty (n : N) : digits_value 0 (pretty n) = Some (Z.of_N n).
Proof.
  unfold pretty, pretty_N. case_decide; [by subst|]. by rewrite digits_value_go.
Qed.

Lemma pretty_Z_nonneg (z : Z) : (0 <= z)%Z -> pretty z = pretty (Z.to_N z).
Proof. by destruct z. Qed.

Lemma digits_value_pretty_Z z : (0 <= z)%Z -> digits_value 0 (pretty z) = Some z.
Proof.
  intros H. rewrite pretty_Z_nonneg, digits_value_pretty by done. by rewrite Z2N.id.
Qed.

Lemma digits_no_hyphen acc s v : digits_value acc s = Some v -> has_hyphen s = false.
Proof.
  revert acc; induction s as [|c s IH]; intros acc; [done|]. simpl.
  destruct (digit_value c) as [d|] eqn:E; [|done]. intros H. rewrite (IH _ H), orb_false_r.
  case_bool_decide; [by subst|done].
Qed.

Lemma pretty_no_hyphen z : (0 <= z)%Z -> has_hyphen (pretty z) = false.
Proof. intros H. eapply digits_no_hyphen. by apply digits_value_pretty_Z. Qed.

Lemma atoi_pretty z : (0 <= z < 2 ^ 16)%Z -> atoi (pretty z) = z.
Proof.
  intros H. assert (Hv : digits_value 0 (pretty z) = Some z) by (apply digits_value_pretty_Z; lia).
  destruct (pretty z) as [|c s] eqn:E; [simpl in Hv; by simplify_eq|].
  assert (Hc : c <> "-"%char /\ c <> "+"%char) by (split; intros ->; done).
  assert (Hn : default 0%Z (digits_value 0 (String c s)) = z) by (by rewrite Hv).
  unfold atoi. destruct Hc as [Hm Hp].
  destruct c as [[] [] [] [] [] [] [] []]; try (by destruct Hm); try (by destruct Hp);
    rewrite Hn; lia.
Qed.

Lemma split_key_of q :
  wire_question q ->
  split_hyphen (key_of q) = split_hyphen (Q_Name q) ++ [pretty (Qtype q); pretty (Qclass q)].
Proof.
  intros [Ht Hc]. unfold key_of. rewrite !split_hyphen_app.
  by rewrite (split_hyphen_single (pretty (Qtype q))), (split_hyphen_single (pretty (Qclass q)))
    by (apply pretty_no_hyphen; lia).
Qed.

Lemma key_of_inj q q' : wire_question q -> wire_question q' -> key_of q = key_of q' -> q = q'.
Proof.
  intros Hq Hq' H. pose proof (f_equal split_hyphen H) as Hs.
  rewrite !split_key_of in Hs by done.
  change [pretty (Qtype q); pretty (Qclass q)] with ([pretty (Qtype q)] ++ [pretty (Qclass q)]) in Hs.
  change [pretty (Qtype q'); pretty (Qclass q')]
    with ([pretty (Qtype q')] ++ [pretty (Qclass q')]) in Hs.
  rewrite !app_assoc in Hs. apply app_inj_tail in Hs as [Hs Hc].
  apply app_inj_tail in Hs as [_ Ht]. apply (inj pretty) in Hc, Ht.
  unfold key_of in H. rewrite Hc, Ht in H. apply str_app_inj_r in H.
  destruct q, q'. simpl in *. congruence.
Qed.

Lemma negative_key_fresh q q' : wire_question q -> wire_question q' ->
  key_of q <> negative_key_of q'.
Proof.
  intros Hq Hq' H. apply (f_equal split_hyphen) in H. unfold negative_key_of in H.
  change "-negative" with ("-" +:+ "negative") in H.
  rewrite split_hyphen_app, split_key_of in H by done.
  change (split_hyphen "negative") with ["negative"] in H.
  change [pretty (Qtype q); pretty (Qclass q)] with ([pretty (Qtype q)] ++ [pretty (Qclass q)]) in H.
  rewrite app_assoc in H. apply app_inj_tail in H as [_ H].
  destruct Hq as [_ Hc]. pose proof (digits_value_pretty_Z (Qclass q)) as Hd.
  rewrite H in Hd. by specialize (Hd ltac:(lia)).
Qed.

Lemma parse_key_of q :
  wire_question q ->
  parse_key (key_of q) = if has_hyphen (Q_Name q) then None else Some q.
Proof.
  intros Hq. unfold parse_key. rewrite split_key_of by done.
  destruct (has_hyphen (Q_Name q)) eqn:Eh.
  - apply split_hyphen_many in Eh. destruct (split_hyphen (Q_Name q)) as [|a [|b l]]; simpl in *;
      [lia|lia|]. by destruct l as [|? []].
  - rewrite split_hyphen_single by done. simpl. destruct Hq as [Ht Hc].
    rewrite !atoi_pretty by done. unfold uint16. rewrite !Z.mod_small by done.
    by destruct q.
Qed.

(** * Theory of a shard

    The contract of a shard is an LRU list of entries, the most recently used
    first; the two maps and the locations are how it is implemented. *)

(** ** The abstract LRU *)

Fixpoint lru_lookup (k : string) (es : list cacheEntry) : option cacheEntry :=
  match es with
  | [] => None
  | e :: es' => if bool_decide (entry_key e = k) then Some e else lru_lookup k es'
  end.
Definition lru_remove (k : string) (es : list cacheEntry) : list cacheEntry :=
  filter (fun e => entry_key e <> k) es.
Definition lru_get (k : string) (requestID now : Z) (es : list cacheEntry) :
    option Msg * list cacheEntry :=
  match lru_lookup k es with
  | None => (None, es)
  | Some e =>
      if bool_decide (now < expires e)%Z
      then (Some (set_Id requestID (entry_msg e)), incr_frequency e :: lru_remove k es)
      else (None, lru_remove k es)
  end.
Definition lru_put (capacity : nat) (e : cacheEntry) (es : list cacheEntry) : list cacheEntry :=
  e :: lru_remove (entry_key e) (take (capacity - 1) es).

(** ** The shard as an LRU *)

Definition entries (h : gmap loc cacheEntry) (l : list loc) : list cacheEntry :=
  omap (fun x => h !! x) l.
Definition contents (s : cacheShard) : list cacheEntry := entries (heap s) (lruList s).

Record shard_ok (s : cacheShard) : Prop := {
  ok_items : items s = lruMap s;
  ok_map k l : lruMap s !! k = Some l <->
    l ∈ lruList s /\ exists e, heap s !! l = Some e /\ entry_key e = k;
  ok_nodup : NoDup (lruList s);
  ok_heap l : l ∈ lruList s -> exists e, heap s !! l = Some e;
  ok_fresh l e : heap s !! l = Some e -> l < next_loc s
}.

Lemma elem_of_list_Remove x e l : x ∈ list_Remove e l <-> x <> e /\ x ∈ l.
Proof. unfold list_Remove. by rewrite list_elem_of_filter. Qed.

Lemma new_shard_ok : shard_ok new_shard.
Proof.
  split; simpl; try done.
  - intros k l. rewrite lookup_empty. split; [done|]. intros [H _]. by apply not_elem_of_nil in H.
  - constructor.
  - intros l H. by apply not_elem_of_nil in H.
Qed.

Lemma ok_inj s l l' e e' : shard_ok s -> l ∈ lruList s -> l' ∈ lruList s ->
  heap s !! l = Some e -> heap s !! l' = Some e' -> entry_key e = entry_key e' -> l = l'.
Proof.
  intros Hs Hl Hl' He He' Hk.
  assert (H1 : lruMap s !! entry_key e = Some l) by (apply (ok_map s Hs); eauto).
  assert (H2 : lruMap s !! entry_key e = Some l') by (apply (ok_map s Hs); eauto).
  congruence.
Qed.

Lemma entries_remove h k x l :
  (forall y, y ∈ l -> exists e, h !! y = Some e /\ (y = x <-> entry_key e = k)) ->
  entries h (list_Remove x l) = lru_remove k (entries h l).
Proof.
  unfold entries, list_Remove, lru_remove. induction l as [|y l IH]; intros H; [done|].
  destruct (H y) as (e & He & Hk); [apply elem_of_cons; by left|].
  assert (IH' := IH (fun z Hz => H z (proj2 (elem_of_cons _ _ _) (or_intror Hz)))).
  rewrite filter_cons. cbn [omap list_omap]. rewrite He, filter_cons.
  destruct (decide (y <> x)), (decide (entry_key e <> k)); [|tauto|tauto|exact IH'].
  cbn [omap list_omap]. rewrite He. by rewrite <- IH'.
Qed.

Lemma entries_insert_fresh h l x e : x ∉ l -> entries (<[ x := e ]> h) l = entries h l.
Proof.
  unfold entries. induction l as [|y l IH]; intros Hx; [done|].
  apply not_elem_of_cons in Hx as [Hne Hx]. cbn [omap list_omap].
  rewrite lookup_insert_ne by done. by rewrite IH.
Qed.

Lemma entries_length h l : (forall x, x ∈ l -> exists e, h !! x = Some e) ->
  length (entries h l) = length l.
Proof.
  unfold entries. induction l as [|x l IH]; intros H; [done|].
  destruct (H x) as [e He]; [apply elem_of_cons; by left|]. cbn [omap list_omap]. rewrite He.
  simpl. f_equal. apply IH. intros y Hy. apply H, elem_of_cons. by right.
Qed.

Lemma entries_app h l l' : entries h (l ++ l') = entries h l ++ entries h l'.
Proof. unfold entries. by rewrite omap_app. Qed.

Lemma elem_of_contents s e :
  e ∈ contents s <-> exists l, l ∈ lruList s /\ heap s !! l = Some e.
Proof. unfold contents, entries. apply list_elem_of_omap. Qed.

Lemma lru_lookup_elem k es e : lru_lookup k es = Some e -> e ∈ es /\ entry_key e = k.
Proof.
  induction es as [|e' es IH]; [done|]. simpl. rewrite elem_of_cons. case_bool_decide.
  - intros [= ->]. tauto.
  - intros H'. destruct (IH H'). tauto.
Qed.

Lemma lru_lookup_none k es : lru_lookup k es = None <-> forall e, e ∈ es -> entry_key e <> k.
Proof.
  induction es as [|e' es IH]; simpl.
  - split; [|done]. intros _ e He. by apply not_elem_of_nil in He.
  - case_bool_decide as Hk.
    + split; [done|]. intros H'. exfalso. apply (H' e'); [apply elem_of_cons; by left|done].
    + rewrite IH. split; intros H' e He; [|apply H', elem_of_cons; by right].
      apply elem_of_cons in He as [->|He]; [done|by apply H'].
Qed.

(** The maps implement the lookup. *)
Lemma lookup_contents s k : shard_ok s ->
  lru_lookup k (contents s) = lruMap s !! k ≫= fun l => heap s !! l.
Proof.
  intros Hs. destruct (lruMap s !! k) as [l|] eqn:E; simpl.
  - apply (ok_map s Hs) in E as (Hl & e & He & Hk). rewrite He.
    destruct (lru_lookup k (contents s)) as [e'|] eqn:El.
    + apply lru_lookup_elem in El as [Hin Hk']. apply elem_of_contents in Hin as (l' & Hl' & He').
      assert (l = l') by (eapply ok_inj; eauto; congruence). congruence.
    + rewrite lru_lookup_none in El. exfalso. apply (El e); [|done]. apply elem_of_contents. eauto.
  - apply lru_lookup_none. intros e (l & Hl & He)%elem_of_contents Hk.
    assert (lruMap s !! k = Some l) by (apply (ok_map s Hs); eauto). congruence.
Qed.

(** Dropping one element, as eviction, [push_entry] and [cleanExpired] do. *)
Definition drop_elem (k : string) (elem : loc) (s : cacheShard) : cacheShard :=
  mkShard (delete k (items s)) (list_Remove elem (lruList s)) (delete k (lruMap s))
    (heap s) (next_loc s).

Lemma drop_elem_ok s k elem : shard_ok s -> lruMap s !! k = Some elem ->
  shard_ok (drop_elem k elem s) /\ contents (drop_elem k elem s) = lru_remove k (contents s).
Proof.
  intros Hs Hk. apply (ok_map s Hs) in Hk as Hel. destruct Hel as (Hel & e & He & Hke).
  assert (Heq : forall y, y ∈ lruList s -> exists e', heap s !! y = Some e' /\
    (y = elem <-> entry_key e' = k)).
  { intros y Hy. destruct (ok_heap s Hs y Hy) as [e' He']. exists e'. split; [done|].
    split; [intros ->; congruence|]. intros Hk'. eapply (ok_inj s); eauto. congruence. }
  split; [|by apply entries_remove].
  split; cbn.
  - by rewrite (ok_items s Hs).
  - intros k' l. rewrite elem_of_list_Remove, lookup_delete_Some, (ok_map s Hs). split.
    + intros (Hne & Hl & e' & He' & Hk'). split; [|eauto]. split; [|done].
      intros ->. congruence.
    + intros ((Hne & Hl) & e' & He' & Hk'). split; [|eauto]. intros <-.
      destruct (Heq l Hl) as (e2 & He2 & Hiff). naive_solver congruence.
  - apply NoDup_filter, (ok_nodup s Hs).
  - intros l [_ Hl]%elem_of_list_Remove. by apply (ok_heap s Hs).
  - apply (ok_fresh s Hs).
Qed.

Lemma evictEntry_drop st s elem entry :
  heap s !! elem = Some entry ->
  evictEntry st s elem = (add_Evictions st, drop_elem (entry_key entry) elem s).
Proof. unfold evictEntry. by intros ->. Qed.

Lemma list_Remove_last x l : NoDup (l ++ [x]) -> list_Remove x (l ++ [x]) = l.
Proof.
  intros (Hl & Hx & _)%NoDup_app. unfold list_Remove. rewrite filter_app.
  rewrite filter_cons, decide_False by (intros Hn; by apply Hn). rewrite app_nil_r.
  apply filter_true, Forall_forall. intros y Hy ->. apply (Hx x Hy). apply elem_of_cons. by left.
Qed.

Lemma contents_length s : shard_ok s -> length (contents s) = length (lruList s).
Proof. intros Hs. apply entries_length. apply (ok_heap s Hs). Qed.

Lemma evictOldest_ok st s st' s' : shard_ok s -> evictOldest st s = (st', s') ->
  shard_ok s' /\ contents s' = take (length (contents s) - 1) (contents s).
Proof.
  intros Hs H. unfold evictOldest in H. destruct (last (lruList s)) as [elem|] eqn:El.
  - apply last_Some in El as [l Hl].
    assert (Hin : elem ∈ lruList s) by (rewrite Hl; apply elem_of_app; right; by apply list_elem_of_singleton).
    destruct (ok_heap s Hs elem Hin) as [e He]. rewrite (evictEntry_drop _ _ _ _ He) in H.
    simplify_eq. destruct (drop_elem_ok s (entry_key e) elem Hs) as [Hok Hc];
      [by apply (ok_map s Hs); eauto|]. split; [done|].
    unfold contents at 1. cbn [drop_elem lruList heap].
    pose proof (ok_nodup s Hs) as Hnd. rewrite Hl in Hnd |- *. rewrite list_Remove_last by done.
    rewrite contents_length by done. unfold contents. rewrite Hl, entries_app, length_app, take_app_length'; [done|].
    rewrite entries_length; [simpl; lia|]. intros x Hx. apply (ok_heap s Hs). rewrite Hl.
    apply elem_of_app. by left.
  - simplify_eq. split; [done|]. apply last_None in El. unfold contents. by rewrite El.
Qed.

Lemma size_items s : shard_ok s -> size (items s) = length (contents s).
Proof.
  intros Hs. rewrite contents_length, (ok_items s Hs) by done.
  rewrite <- (length_map_to_list (lruMap s)), <- (length_fmap snd).
  apply Permutation_length, NoDup_Permutation; [|apply (ok_nodup s Hs)|].
  - apply NoDup_fmap_2_strong; [|apply NoDup_map_to_list].
    intros [k l] [k' l'] H1%elem_of_map_to_list H2%elem_of_map_to_list Heq. simpl in Heq. subst l'.
    apply (ok_map s Hs) in H1 as (_ & e & He & <-). apply (ok_map s Hs) in H2 as (_ & e' & He' & <-).
    congruence.
  - intros l. rewrite list_elem_of_fmap. split.
    + intros ([k l'] & -> & Hin%elem_of_map_to_list). by apply (ok_map s Hs) in Hin as [? _].
    + intros Hl. destruct (ok_heap s Hs l Hl) as [e He]. exists (entry_key e, l). split; [done|].
      apply elem_of_map_to_list, (ok_map s Hs). eauto.
Qed.

Lemma ensureCapacity_ok fuel m st s : shard_ok s -> (1 <= m)%Z ->
  length (contents s) <= fuel ->
  exists st' s', ensureCapacity fuel m st s = Some (st', s') /\ shard_ok s' /\
    contents s' = take (Z.to_nat m - 1) (contents s).
Proof.
  revert st s; induction fuel as [|fuel IH]; intros st s Hs Hm Hf; simpl;
    rewrite size_items by done; case_bool_decide as Hle.
  - lia.
  - exists st, s. split_and!; [done..|]. rewrite take_ge; [done|lia].
  - destruct (evictOldest st s) as [st1 s1] eqn:E.
    destruct (evictOldest_ok _ _ _ _ Hs E) as [Hs1 Hc1].
    destruct (IH st1 s1 Hs1 Hm) as (st2 & s2 & H2 & Hs2 & Hc2).
    { rewrite Hc1, length_take. lia. }
    exists st2, s2. split_and!; [done..|]. rewrite Hc2, Hc1, take_take. f_equal. lia.
  - exists st, s. split_and!; [done..|]. rewrite take_ge; [done|lia].
Qed.

Lemma ensureCapacity_diverges fuel m st s : (m <= 0)%Z -> ensureCapacity fuel m st s = None.
Proof.
  revert st s; induction fuel as [|fuel IH]; intros st s Hm; simpl;
    rewrite bool_decide_true by lia; [done|].
  destruct (evictOldest st s) as [st' s']. by apply IH.
Qed.

Lemma push_fresh_ok entry s : shard_ok s -> lruMap s !! entry_key entry = None ->
  let s' := mkShard (<[ entry_key entry := next_loc s ]> (items s)) (next_loc s :: lruList s)
    (<[ entry_key entry := next_loc s ]> (lruMap s)) (<[ next_loc s := entry ]> (heap s))
    (S (next_loc s)) in
  shard_ok s' /\ contents s' = entry :: contents s.
Proof.
  intros Hs Hk s'.
  assert (Hn : forall l, l ∈ lruList s -> l <> next_loc s).
  { intros l Hl ->. destruct (ok_heap s Hs _ Hl) as [e He]. apply (ok_fresh s Hs) in He. lia. }
  assert (Hni : next_loc s ∉ lruList s) by (intros Hin; by apply (Hn _ Hin)).
  split; cycle 1.
  { unfold contents, s'. cbn [lruList heap]. unfold entries at 1. cbn [omap list_omap].
    rewrite lookup_insert_eq. f_equal. by apply entries_insert_fresh. }
  split; cbn.
  - by rewrite (ok_items s Hs).
  - intros k l. rewrite lookup_insert_Some, elem_of_cons, (ok_map s Hs). split.
    + intros [[<- <-]|(Hne & Hl & e & He & Hke)].
      * split; [by left|]. exists entry. by rewrite lookup_insert_eq.
      * split; [by right|]. exists e. by rewrite lookup_insert_ne by (symmetry; by apply Hn).
    + intros [[->|Hl] (e & He & Hke)].
      * rewrite lookup_insert_eq in He. simplify_eq. by left.
      * rewrite lookup_insert_ne in He by (symmetry; by apply Hn). right. split; [|eauto].
        intros Heq. assert (lruMap s !! k = Some l) by (apply (ok_map s Hs); eauto). congruence.
  - constructor; [done|apply (ok_nodup s Hs)].
  - intros l [->|Hl]%elem_of_cons; [exists entry; by rewrite lookup_insert_eq|].
    rewrite lookup_insert_ne by (symmetry; by apply Hn). by apply (ok_heap s Hs).
  - intros l e [[<- _]|[Hne He]]%lookup_insert_Some; [lia|]. apply (ok_fresh s Hs) in He. lia.
Qed.

Lemma push_entry_ok entry s : shard_ok s ->
  shard_ok (push_entry entry s) /\
  contents (push_entry entry s) = entry :: lru_remove (entry_key entry) (contents s).
Proof.
  intros Hs. unfold push_entry. destruct (lruMap s !! entry_key entry) as [elem|] eqn:E.
  - destruct (drop_elem_ok s _ _ Hs E) as [Hs1 Hc1].
    destruct (push_fresh_ok entry _ Hs1) as [Hs2 Hc2]; [apply lookup_delete_eq|].
    split; [exact Hs2|]. rewrite <- Hc1. exact Hc2.
  - destruct (push_fresh_ok entry s Hs E) as [Hs2 Hc2]. split; [exact Hs2|].
    rewrite Hc2. f_equal. symmetry. apply filter_true, Forall_forall. intros e He.
    apply (proj1 (lru_lookup_none (entry_key entry) (contents s))); [|done].
    by rewrite lookup_contents, E.
Qed.

Lemma touch_ok s elem e : shard_ok s -> elem ∈ lruList s -> heap s !! elem = Some e ->
  let s' := mkShard (items s) (list_MoveToFront elem (lruList s)) (lruMap s)
    (<[ elem := incr_frequency e ]> (heap s)) (next_loc s) in
  shard_ok s' /\ contents s' = incr_frequency e :: lru_remove (entry_key e) (contents s).
Proof.
  intros Hs Hel He s'. unfold s', list_MoveToFront. rewrite bool_decide_true by done.
  assert (Hm : lruMap s !! entry_key e = Some elem) by (apply (ok_map s Hs); eauto).
  assert (Hni : elem ∉ list_Remove elem (lruList s)).
  { intros Hin. by apply elem_of_list_Remove in Hin as [? _]. }
  assert (Hin : forall l, l ∈ elem :: list_Remove elem (lruList s) <-> l ∈ lruList s).
  { intros l. rewrite elem_of_cons, elem_of_list_Remove.
    destruct (decide (l = elem)) as [->|]; tauto. }
  assert (Hh : forall l k, (exists e', <[elem := incr_frequency e]> (heap s) !! l = Some e' /\
      entry_key e' = k) <-> (exists e', heap s !! l = Some e' /\ entry_key e' = k)).
  { intros l k. destruct (decide (l = elem)) as [->|Hne].
    - rewrite lookup_insert_eq, He. split; intros (e' & Heq & Hk); simplify_eq; eauto.
    - by rewrite lookup_insert_ne. }
  split; cycle 1.
  { unfold contents at 1. cbn [lruList heap]. unfold entries at 1. cbn [omap list_omap].
    rewrite lookup_insert_eq. destruct (drop_elem_ok s (entry_key e) elem Hs Hm) as [_ <-].
    f_equal. by apply entries_insert_fresh. }
  split; cbn.
  - apply (ok_items s Hs).
  - intros k l. by rewrite Hin, Hh, (ok_map s Hs).
  - constructor; [done|]. apply NoDup_filter, (ok_nodup s Hs).
  - intros l Hl%Hin. destruct (decide (l = elem)) as [->|Hne].
    + rewrite lookup_insert_eq. eauto.
    + rewrite lookup_insert_ne by done. by apply (ok_heap s Hs).
  - intros l e' [[<- _]|[_ Hl]]%lookup_insert_Some; by eapply (ok_fresh s Hs).
Qed.

Lemma shard_get_ok k id now st s m st' s' : shard_ok s ->
  shard_get k id now st s = (m, (st', s')) ->
  shard_ok s' /\ lru_get k id now (contents s) = (m, contents s').
Proof.
  intros Hs H. unfold shard_get in H. unfold lru_get. rewrite lookup_contents by done.
  destruct (lruMap s !! k) as [elem|] eqn:Ek; simpl; [|by simplify_eq].
  apply (ok_map s Hs) in Ek as Hel. destruct Hel as (Hel & e & He & Hk).
  rewrite He in H |- *. case_bool_decide.
  - destruct (touch_ok s elem e Hs Hel He) as [Hs' Hc']. simplify_eq. split; [done|].
    by rewrite Hc'.
  - rewrite (evictEntry_drop _ _ _ _ He) in H. simplify_eq.
    destruct (drop_elem_ok s (entry_key e) elem Hs) as [Hs' Hc']; [done|]. split; [done|].
    by rewrite Hc'.
Qed.

(** A store on a shard: make room, then push. *)
Lemma store_ok fuel m st s e st' s' : shard_ok s -> (1 <= m)%Z ->
  length (contents s) <= fuel ->
  ensureCapacity fuel m st s = Some (st', s') ->
  shard_ok (push_entry e s') /\
  contents (push_entry e s') = lru_put (Z.to_nat m) e (contents s).
Proof.
  intros Hs Hm Hf H. destruct (ensureCapacity_ok fuel m st s Hs Hm Hf) as (st2 & s2 & H2 & Hs2 & Hc2).
  rewrite H2 in H. simplify_eq. destruct (push_entry_ok e s' Hs2) as [Hs3 Hc3].
  split; [done|]. rewrite Hc3, Hc2. done.
Qed.

Lemma lru_remove_length k es : length (lru_remove k es) <= length es.
Proof. apply length_filter. Qed.

Lemma lru_put_length capacity e es : 1 <= capacity -> length (lru_put capacity e es) <= capacity.
Proof.
  intros H. unfold lru_put. simpl.
  pose proof (lru_remove_length (entry_key e) (take (capacity - 1) es)) as Hl.
  rewrite length_take in Hl. lia.
Qed.

Lemma elem_of_lru_remove k es e : e ∈ lru_remove k es <-> entry_key e <> k /\ e ∈ es.
Proof. unfold lru_remove. by rewrite list_elem_of_filter. Qed.

Lemma elem_of_take_sub {A} (x : A) n l : x ∈ take n l -> x ∈ l.
Proof. apply subseteq_take. Qed.

Lemma lru_remove_cons k e es :
  lru_remove k (e :: es) =
  if bool_decide (entry_key e = k) then lru_remove k es else e :: lru_remove k es.
Proof.
  unfold lru_remove. rewrite filter_cons. case_bool_decide; case_decide; tauto.
Qed.

Lemma lru_lookup_remove k k' es :
  lru_lookup k (lru_remove k' es) = if bool_decide (k = k') then None else lru_lookup k es.
Proof.
  induction es as [|e es IH]; [by case_bool_decide|].
  rewrite lru_remove_cons. destruct (bool_decide (entry_key e = k')) eqn:Ek; simpl;
    rewrite IH; bool_facts; repeat case_bool_decide; congruence.
Qed.

Lemma lru_lookup_put capacity e es : lru_lookup (entry_key e) (lru_put capacity e es) = Some e.
Proof. unfold lru_put. simpl. by rewrite bool_decide_true. Qed.

(** Cleaning *)

Section cleaning.
Context `{MapRange}.

Definition stale (now : Z) (keys : list string) (e : cacheEntry) : Prop :=
  (expires e < now)%Z /\ entry_key e ∈ keys.
#[local] Instance stale_dec now keys e : Decision (stale now keys e).
Proof. unfold stale. apply _. Defined.

Lemma clean_entry_ok now st s k l st' s' : shard_ok s -> lruMap s !! k = Some l ->
  clean_entry now (st, s) (k, l) = (st', s') ->
  shard_ok s' /\ contents s' = filter (fun e => ~ stale now [k] e) (contents s) /\
  (forall k', k' <> k -> lruMap s' !! k' = lruMap s !! k').
Proof.
  intros Hs Hk H1. unfold clean_entry in H1.
  apply (ok_map s Hs) in Hk as Hl. destruct Hl as (Hl & e & He & Hke).
  assert (Huniq : forall e', e' ∈ contents s -> entry_key e' = k -> e' = e).
  { intros e' (l' & Hl' & He')%elem_of_contents Hk'.
    assert (l' = l) by (eapply (ok_inj s); eauto; congruence). congruence. }
  rewrite He in H1. case_bool_decide as Hexp.
  - rewrite Hk in H1. simplify_eq. destruct (drop_elem_ok s (entry_key e) l Hs Hk) as [Hs' Hc'].
    split_and!; [exact Hs'| |].
    + change (contents (drop_elem (entry_key e) l s) =
        filter (fun e0 => ~ stale now [entry_key e] e0) (contents s)). rewrite Hc'.
      unfold lru_remove. apply filter_ext_in. intros e' Hin. unfold stale. rewrite list_elem_of_singleton.
      split; [tauto|]. intros Hn Heq. apply Hn. by rewrite (Huniq e' Hin Heq).
    + intros k' Hne. simpl. by rewrite lookup_delete_ne.
  - simplify_eq. split_and!; [done| |done]. symmetry. apply filter_true, Forall_forall.
    intros e' Hin [Hx Heq%list_elem_of_singleton]. by rewrite (Huniq e' Hin Heq) in Hx.
Qed.

Lemma clean_fold_ok now L st s st' s' : shard_ok s -> NoDup (map fst L) ->
  (forall k l, (k, l) ∈ L -> lruMap s !! k = Some l) ->
  foldl (clean_entry now) (st, s) L = (st', s') ->
  shard_ok s' /\ contents s' = filter (fun e => ~ stale now (map fst L) e) (contents s).
Proof.
  revert st s; induction L as [|[k l] L IH]; intros st s Hs Hnd HL H1; cbn [foldl] in H1.
  - simplify_eq. split; [done|]. symmetry. apply filter_true, Forall_forall.
    intros e _ [_ Hn]. by apply not_elem_of_nil in Hn.
  - destruct (clean_entry now (st, s) (k, l)) as [st1 s1] eqn:E.
    cbn [map fst] in Hnd. apply NoDup_cons in Hnd as [Hni Hnd].
    destruct (clean_entry_ok now st s k l st1 s1 Hs) as (Hs1 & Hc1 & Hm1);
      [apply HL, elem_of_cons; by left|done|].
    apply IH in H1 as [Hs2 Hc2]; [|done|done|].
    + split; [done|]. rewrite Hc2, Hc1, list_filter_filter. apply filter_ext_in.
      intros e _. unfold stale. cbn [map fst]. rewrite list_elem_of_singleton, elem_of_cons. tauto.
    + intros k' l' Hin. rewrite Hm1; [apply HL, elem_of_cons; by right|].
      intros ->. apply Hni, list_elem_of_fmap. by exists (k, l').
Qed.

Lemma clean_shard_ok now st s st' s' : shard_ok s -> clean_shard now st s = (st', s') ->
  shard_ok s' /\ contents s' = filter (fun e => ~ (expires e < now)%Z) (contents s).
Proof.
  intros Hs H1. unfold clean_shard in H1.
  pose proof (map_range_perm (items s)) as Hp. rewrite (ok_items s Hs) in Hp, H1.
  apply clean_fold_ok in H1 as [Hs' Hc']; [|done| |].
  - split; [done|]. rewrite Hc'. apply filter_ext_in. intros e He. unfold stale.
    split; [|tauto]. intros Hn Hexp. apply Hn. split; [done|].
    apply elem_of_contents in He as (l & Hl & He). apply list_elem_of_fmap.
    exists (entry_key e, l). split; [done|]. rewrite Hp. apply elem_of_map_to_list, (ok_map s Hs).
    eauto.
  - rewrite Hp. apply NoDup_fst_map_to_list.
  - intros k l Hin. by rewrite Hp, elem_of_map_to_list in Hin.
Qed.
End cleaning.

(** * Theory of the cache *)

Record cache_ok (c : DNSCache) : Prop := {
  ok_count : length (shards c) = shard_count;
  ok_shard i s : shards c !! i = Some s -> shard_ok s;
  ok_hash i s e : shards c !! i = Some s -> e ∈ contents s -> getShard (entry_key e) = i;
  ok_capacity i s : shards c !! i = Some s ->
    (Z.of_nat (length (contents s)) <= Z.max 0 (max_shard_size c))%Z
}.

(** What the cache holds for a key. *)
Definition cached (c : DNSCache) (key : string) : option cacheEntry :=
  lru_lookup key (contents (shard_at c (getShard key))).

Lemma fnv32a_bound h s : (0 <= h < 2 ^ 32)%Z -> (0 <= fnv32a h s < 2 ^ 32)%Z.
Proof.
  revert h; induction s as [|c s IH]; intros h Hh; [done|]. apply IH. apply Z.mod_pos_bound. lia.
Qed.

Lemma getShard_lt key : getShard key < shard_count.
Proof.
  unfold getShard. pose proof (Z.mod_pos_bound (fnv32a 2166136261 key) (Z.of_nat shard_count)) as H.
  unfold shard_count in *. lia.
Qed.

Lemma shard_at_lookup c i : cache_ok c -> i < shard_count ->
  shards c !! i = Some (shard_at c i).
Proof.
  intros Hc Hi. unfold shard_at. destruct (shards c !! i) eqn:E; [done|].
  apply lookup_ge_None in E. rewrite (ok_count c Hc) in E. lia.
Qed.

Lemma put_shard_ok c i st s : cache_ok c -> i < shard_count -> shard_ok s ->
  (forall e, e ∈ contents s -> getShard (entry_key e) = i) ->
  (Z.of_nat (length (contents s)) <= Z.max 0 (max_shard_size c))%Z ->
  cache_ok (put_shard c i st s).
Proof.
  intros Hc Hi Hs Hh Hn. split; cbn.
  - by rewrite length_insert, (ok_count c Hc).
  - intros j s' [(-> & <- & _)|[_ Hj]]%list_lookup_insert_Some; [done|by eapply (ok_shard c Hc)].
  - intros j s' e [(-> & <- & _)|[_ Hj]]%list_lookup_insert_Some; [by apply Hh|by eapply (ok_hash c Hc)].
  - intros j s' [(-> & <- & _)|[_ Hj]]%list_lookup_insert_Some; [done|by eapply (ok_capacity c Hc)].
Qed.

Lemma cached_put c i st s key : cache_ok c -> i < shard_count ->
  cached (put_shard c i st s) key =
  if bool_decide (getShard key = i) then lru_lookup key (contents s) else cached c key.
Proof.
  intros Hc Hi. unfold cached, shard_at, put_shard. cbn [shards]. case_bool_decide as Hk.
  - subst i. rewrite list_lookup_insert_eq; [done|]. by rewrite (ok_count c Hc).
  - by rewrite list_lookup_insert_ne.
Qed.

Lemma new_cache_ok n : cache_ok (new_cache n).
Proof.
  split; cbn [shards new_cache].
  - apply length_replicate.
  - intros i s [-> _]%lookup_replicate. apply new_shard_ok.
  - intros i s e [-> _]%lookup_replicate He. by apply not_elem_of_nil in He.
  - intros i s [-> _]%lookup_replicate. cbn. lia.
Qed.

Lemma lru_lookup_take k n es e : lru_lookup k (take n es) = Some e -> lru_lookup k es = Some e.
Proof.
  revert n; induction es as [|e' es IH]; intros [|n]; try done. simpl.
  case_bool_decide; [done|apply IH].
Qed.

Lemma lru_get_lookup k id now es m es' k' : lru_get k id now es = (m, es') ->
  lru_lookup k' es' =
  if bool_decide (k' = k) then
    match lru_lookup k es with
    | Some e => if bool_decide (now < expires e)%Z then Some (incr_frequency e) else None
    | None => None
    end
  else lru_lookup k' es.
Proof.
  unfold lru_get. destruct (lru_lookup k es) as [e|] eqn:E; [|intros; simplify_eq].
  - apply lru_lookup_elem in E as [_ Hk]. case_bool_decide; intros [= <- <-]; simpl;
      rewrite lru_lookup_remove; repeat case_bool_decide; try done; congruence.
  - case_bool_decide; by subst.
Qed.

Lemma lru_get_incl k id now es m es' e : lru_get k id now es = (m, es') -> e ∈ es' ->
  exists e', e' ∈ es /\ entry_key e' = entry_key e.
Proof.
  unfold lru_get. destruct (lru_lookup k es) as [e0|] eqn:E; [|intros [= _ <-]; eauto].
  apply lru_lookup_elem in E as [Hin _].
  case_bool_decide; intros [= _ <-]; [intros [->|He]%elem_of_cons; [by exists e0|]|intros He];
    apply elem_of_lru_remove in He as [_ He]; eauto.
Qed.

Lemma lru_remove_hit_length k es e : lru_lookup k es = Some e ->
  S (length (lru_remove k es)) <= length es.
Proof.
  induction es as [|e' es IH]; [done|]. rewrite lru_remove_cons. cbn [lru_lookup length].
  pose proof (lru_remove_length k es). case_bool_decide; [lia|]. intros Hl. simpl.
  specialize (IH Hl). lia.
Qed.

Lemma lru_get_length k id now es m es' : lru_get k id now es = (m, es') ->
  length es' <= length es.
Proof.
  unfold lru_get. destruct (lru_lookup k es) as [e|] eqn:E; [|by intros [= _ <-]].
  apply lru_remove_hit_length in E. case_bool_decide; intros [= _ <-]; simpl; lia.
Qed.

Lemma get_ok q id now c m c' : cache_ok c -> get q id now c = (m, c') ->
  cache_ok c' /\ maxSize c' = maxSize c /\
  m = match cached c (key_of q) with
      | Some e => if bool_decide (now < expires e)%Z then Some (set_Id id (entry_msg e)) else None
      | None => None
      end /\
  forall k, cached c' k =
    if bool_decide (k = key_of q) then
      match cached c (key_of q) with
      | Some e => if bool_decide (now < expires e)%Z then Some (incr_frequency e) else None
      | None => None
      end
    else cached c k.
Proof.
  intros Hc H. unfold get in H. set (i := getShard (key_of q)) in H.
  assert (Hi : i < shard_count) by apply getShard_lt.
  pose proof (shard_at_lookup c i Hc Hi) as Hsi. pose proof (ok_shard c Hc _ _ Hsi) as Hs.
  destruct (shard_get (key_of q) id now (stats c) (shard_at c i)) as [m' [st s]] eqn:E.
  simplify_eq. apply shard_get_ok in E as [Hs' Hl]; [|done].
  split_and!.
  - apply put_shard_ok; [done..| |].
    + intros e He. destruct (lru_get_incl _ _ _ _ _ _ _ Hl He) as (e' & He' & <-).
      by eapply (ok_hash c Hc).
    + pose proof (lru_get_length _ _ _ _ _ _ Hl). pose proof (ok_capacity c Hc _ _ Hsi). lia.
  - done.
  - unfold cached. fold i. unfold lru_get in Hl.
    destruct (lru_lookup (key_of q) (contents (shard_at c i))) as [e|]; [|by simplify_eq].
    case_bool_decide; by simplify_eq.
  - intros k. rewrite cached_put by done. rewrite (lru_get_lookup _ _ _ _ _ _ k Hl).
    unfold cached. fold i. destruct (bool_decide (getShard k = i)) eqn:Ek; bool_facts.
    + by rewrite Ek.
    + rewrite bool_decide_false; [done|]. by intros ->.
Qed.

Definition enough_fuel (fuel : nat) (c : DNSCache) : Prop := Z.to_nat (max_shard_size c) <= fuel.

Lemma max_shard_size_pos c : (1 <= max_shard_size c <-> 32 <= maxSize c)%Z.
Proof.
  unfold max_shard_size, shard_count. change (Z.of_nat 32) with 32%Z. split; intros H.
  - destruct (Z.lt_ge_cases (maxSize c) 32) as [Hlt|]; [|done].
    destruct (Z.lt_ge_cases (maxSize c) 0).
    + pose proof (Z.quot_opp_l (- maxSize c) 32). rewrite Z.opp_involutive in *.
      pose proof (Z.quot_pos (- maxSize c) 32). lia.
    + rewrite Z.quot_small in H by lia. lia.
  - rewrite Z.quot_div_nonneg by lia. apply Z.div_le_lower_bound; lia.
Qed.

(** Both stores: make room on the key's shard and push the entry. *)
Lemma store_cache_ok fuel c st0 e : cache_ok c -> (32 <= maxSize c)%Z -> enough_fuel fuel c ->
  let i := getShard (entry_key e) in
  exists st s, ensureCapacity fuel (max_shard_size c) (stats c) (shard_at c i) = Some (st, s) /\
    let c' := put_shard c i (st0 st) (push_entry e s) in
    cache_ok c' /\ maxSize c' = maxSize c /\ cached c' (entry_key e) = Some e /\
    forall k e', k <> entry_key e -> cached c' k = Some e' -> cached c k = Some e'.
Proof.
  intros Hc Hm Hf i. assert (Hi : i < shard_count) by apply getShard_lt.
  pose proof (shard_at_lookup c i Hc Hi) as Hsi. pose proof (ok_shard c Hc _ _ Hsi) as Hs.
  pose proof (ok_capacity c Hc _ _ Hsi) as Hcap. apply max_shard_size_pos in Hm as Hm1.
  assert (Hf' : length (contents (shard_at c i)) <= fuel) by (unfold enough_fuel in Hf; lia).
  destruct (ensureCapacity_ok fuel (max_shard_size c) (stats c) _ Hs Hm1 Hf') as (st & s & E & _).
  destruct (store_ok _ _ _ _ e _ _ Hs Hm1 Hf' E) as [Hs' Hc'].
  exists st, s. split; [done|]. cbn zeta. split_and!.
  - apply put_shard_ok; [done..| |].
    + intros e'. rewrite Hc'. intros [->|He]%elem_of_cons; [done|].
      apply elem_of_lru_remove in He as [_ He]. apply elem_of_take_sub in He.
      by eapply (ok_hash c Hc).
    + rewrite Hc'. pose proof (lru_put_length (Z.to_nat (max_shard_size c)) e
        (contents (shard_at c i))). lia.
  - done.
  - rewrite cached_put, bool_decide_true, Hc' by done. apply lru_lookup_put.
  - intros k e' Hne. rewrite cached_put by done. case_bool_decide as Hk; [|done].
    rewrite Hc'. unfold lru_put. simpl. rewrite bool_decide_false by done.
    rewrite lru_lookup_remove, bool_decide_false by done. intros Hl%lru_lookup_take.
    unfold cached. by rewrite Hk.
Qed.

Definition set_entry (q : Question_) (msg : Msg) (now : Z) : cacheEntry :=
  mkEntry msg (add_seconds now (cache_ttl msg)) [] (key_of q) false 1.
Definition negative_entry `{DnsLib} (q : Question_) (rcode now : Z) : cacheEntry :=
  mkEntry (negative_msg q rcode) (add_seconds now 300) [] (negative_key_of q) true 1.

Lemma set_ok fuel q msg now c : cache_ok c -> (32 <= maxSize c)%Z -> enough_fuel fuel c ->
  exists c', set fuel q msg now c = Some c' /\ cache_ok c' /\ maxSize c' = maxSize c /\
    cached c' (key_of q) = Some (set_entry q msg now) /\
    forall k e', k <> key_of q -> cached c' k = Some e' -> cached c k = Some e'.
Proof.
  intros Hc Hm Hf.
  destruct (store_cache_ok fuel c (fun st => st) (set_entry q msg now) Hc Hm Hf)
    as (st & s & E & H). eexists. unfold set. cbn [entry_key set_entry] in E, H.
  by rewrite E.
Qed.

Lemma setNegative_ok `{DnsLib} fuel q rcode now c : cache_ok c -> (32 <= maxSize c)%Z ->
  enough_fuel fuel c ->
  exists c', setNegative fuel q rcode now c = Some c' /\ cache_ok c' /\ maxSize c' = maxSize c /\
    cached c' (negative_key_of q) = Some (negative_entry q rcode now) /\
    forall k e', k <> negative_key_of q -> cached c' k = Some e' -> cached c k = Some e'.
Proof.
  intros Hc Hm Hf.
  destruct (store_cache_ok fuel c add_Negative (negative_entry q rcode now) Hc Hm Hf)
    as (st & s & E & H'). eexists. unfold setNegative. cbn [entry_key negative_entry] in E, H'.
  by rewrite E.
Qed.

Section cleaning_cache.
Context `{MapRange}.

Lemma clean_all_shards now st done ss :
  Forall2 (fun s s' => exists st st', clean_shard now st s = (st', s'))
    ss (drop (length done)
      (snd (foldl (fun '(st, done) s => let '(st, s) := clean_shard now st s in (st, done ++ [s]))
        (st, done) ss))) /\
  take (length done)
      (snd (foldl (fun '(st, done) s => let '(st, s) := clean_shard now st s in (st, done ++ [s]))
        (st, done) ss)) = done.
Proof.
  revert st done; induction ss as [|s ss IH]; intros st done; cbn [foldl snd].
  - rewrite drop_all, firstn_all. by split.
  - destruct (clean_shard now st s) as [st1 s1] eqn:E.
    destruct (IH st1 (done ++ [s1])) as [H1 H2].
    set (l := snd (foldl _ _ ss)) in *. clearbody l. rewrite length_app in H1, H2. simpl in H1, H2.
    assert (Hl : l = done ++ s1 :: drop (length done + 1) l).
    { rewrite <- (take_drop (length done + 1) l) at 1. rewrite H2, <- app_assoc. done. }
    set (l' := drop (length done + 1) l) in *. clearbody l'. rewrite Hl.
    rewrite drop_app_length, take_app_length. split; [|done]. constructor; [by eauto|done].
Qed.

Lemma clean_ok now c : cache_ok c ->
  cache_ok (cleanExpired now c) /\ maxSize (cleanExpired now c) = maxSize c /\
  forall i, i < shard_count -> contents (shard_at (cleanExpired now c) i) =
    filter (fun e => ~ (expires e < now)%Z) (contents (shard_at c i)).
Proof.
  intros Hc. unfold cleanExpired.
  destruct (clean_all_shards now (stats c) [] (shards c)) as [Hf _].
  destruct (foldl _ _ (shards c)) as [st ss]. cbn [snd length] in Hf. rewrite drop_0 in Hf.
  assert (Hcl : forall i s s', shards c !! i = Some s -> ss !! i = Some s' -> shard_ok s' /\
    contents s' = filter (fun e => ~ (expires e < now)%Z) (contents s)).
  { intros i s s' Hi Hi'. destruct (Forall2_lookup_lr _ _ _ _ _ _ Hf Hi Hi') as (st1 & st2 & E).
    apply clean_shard_ok in E; [done|]. by eapply (ok_shard c Hc). }
  assert (Hback : forall i s', ss !! i = Some s' -> exists s, shards c !! i = Some s /\
    shard_ok s' /\ contents s' = filter (fun e => ~ (expires e < now)%Z) (contents s)).
  { intros i s' Hi. destruct (Forall2_lookup_r _ _ _ _ _ Hf Hi) as (s & Hi' & _). eauto. }
  split_and!; [|done|].
  - split; cbn.
    + rewrite <- (Forall2_length _ _ _ Hf). apply (ok_count c Hc).
    + intros i s' Hi. by destruct (Hback _ _ Hi) as (s & _ & Hs & _).
    + intros i s' e Hi He. destruct (Hback _ _ Hi) as (s & His & _ & Hcs). rewrite Hcs in He.
      apply list_elem_of_filter in He as [_ He]. by eapply (ok_hash c Hc).
    + intros i s' Hi. destruct (Hback _ _ Hi) as (s & His & _ & Hcs). rewrite Hcs.
      pose proof (ok_capacity c Hc _ _ His).
      pose proof (length_filter (fun e => ~ (expires e < now)%Z) (contents s)).
      unfold max_shard_size in *. cbn. lia.
  - intros i Hi. pose proof (shard_at_lookup c i Hc Hi) as Hsi.
    destruct (Forall2_lookup_l _ _ _ _ _ Hf Hsi) as (s' & Hi' & _).
    destruct (Hcl _ _ _ Hsi Hi') as [_ Hcs]. unfold shard_at at 1. cbn [shards]. by rewrite Hi'.
Qed.
End cleaning_cache.

Lemma lru_lookup_filter_spec (P : cacheEntry -> Prop) `{!forall e, Decision (P e)} k es e :
  lru_lookup k (filter P es) = Some e -> NoDup (map entry_key es) -> lru_lookup k es = Some e.
Proof.
  induction es as [|e' es IH]; [done|]. rewrite filter_cons. cbn [map]. intros Hl Hnd.
  apply NoDup_cons in Hnd as [Hni Hnd]. simpl. case_decide; simpl in Hl.
  - case_bool_decide; [done|by apply IH].
  - case_bool_decide as Hk; [|by apply IH]. specialize (IH Hl Hnd). exfalso. apply Hni.
    apply lru_lookup_elem in IH as [Hin Hk']. apply list_elem_of_fmap. exists e. by subst.
Qed.

Lemma contents_keys_NoDup s : shard_ok s -> NoDup (map entry_key (contents s)).
Proof.
  intros Hs. unfold contents. pose proof (ok_nodup s Hs) as Hnd. pose proof (ok_heap s Hs) as Hh.
  assert (Hinj : forall l l' e e', l ∈ lruList s -> l' ∈ lruList s -> heap s !! l = Some e ->
    heap s !! l' = Some e' -> entry_key e = entry_key e' -> l = l') by (intros; by eapply (ok_inj s)).
  induction (lruList s) as [|x l IH]; [constructor|].
  apply NoDup_cons in Hnd as [Hni Hnd]. cbn [entries omap list_omap].
  destruct (Hh x) as [e He]; [apply elem_of_cons; by left|]. unfold entries. cbn [omap list_omap].
  rewrite He. cbn [map]. apply NoDup_cons. split.
  - intros (e' & Heq & Hin)%list_elem_of_fmap.
    apply list_elem_of_omap in Hin as (y & Hy & He').
    assert (x = y); [|by subst]. eapply Hinj; [..|exact He|exact He'|done]; apply elem_of_cons; auto.
  - apply IH; [done| |].
    + intros y Hy. apply Hh, elem_of_cons. by right.
    + intros y y' e1 e2 Hy Hy'. apply Hinj; apply elem_of_cons; by right.
Qed.

Lemma clear_ok c : cache_ok c ->
  cache_ok (Clear c) /\ forall key, cached (Clear c) key = None.
Proof.
  intros Hc. split.
  - split; cbn.
    + by rewrite length_fmap, (ok_count c Hc).
    + intros i s (s0 & -> & Hs0)%list_lookup_fmap_Some. pose proof (ok_shard c Hc _ _ Hs0) as Hok.
      split; cbn; try done.
      * intros k l. rewrite lookup_empty. split; [done|]. intros [H _]. by apply not_elem_of_nil in H.
      * constructor.
      * intros l H. by apply not_elem_of_nil in H.
      * apply (ok_fresh s0 Hok).
    + intros i s e (s0 & -> & Hs0)%list_lookup_fmap_Some He. by apply not_elem_of_nil in He.
    + intros i s (s0 & -> & Hs0)%list_lookup_fmap_Some. cbn. lia.
  - intros key. unfold cached, shard_at, Clear. cbn [shards].
    destruct (map _ (shards c) !! getShard key) as [s|] eqn:E; [|done].
    apply list_lookup_fmap_Some in E as (s0 & -> & _). done.
Qed.

(** * Histories

    A history is the sequence of operations a server performs on its cache,
    each atomic under its shard's lock. *)

Section histories.
Context `{L : DnsLib} `{R : MapRange}.

Inductive op : Type :=
| OpGet (q : Question_) (requestID now : Z)
| OpSet (q : Question_) (msg : Msg) (now : Z)
| OpSetNegative (q : Question_) (rcode now : Z)
| OpClean (now : Z)
| OpClear.

(** [None] when an [ensureCapacity] loop does not end within [fuel]. *)
Definition apply_op (fuel : nat) (c : DNSCache) (o : op) : option DNSCache :=
  match o with
  | OpGet q requestID now => Some (snd (get q requestID now c))
  | OpSet q msg now => set fuel q msg now c
  | OpSetNegative q rcode now => setNegative fuel q rcode now c
  | OpClean now => Some (cleanExpired now c)
  | OpClear => Some (Clear c)
  end.

Fixpoint run (fuel : nat) (ops : list op) (c : DNSCache) : option DNSCache :=
  match ops with
  | [] => Some c
  | o :: ops' => c ← apply_op fuel c o; run fuel ops' c
  end.

Definition op_question (o : op) : option Question_ :=
  match o with OpGet q _ _ | OpSet q _ _ | OpSetNegative q _ _ => Some q | _ => None end.
Definition wire_op (o : op) : Prop :=
  match op_question o with Some q => wire_question q | None => True end.

(** The entry an operation writes. *)
Definition written (o : op) : option cacheEntry :=
  match o with
  | OpSet q msg now => Some (set_entry q msg now)
  | OpSetNegative q rcode now => Some (negative_entry q rcode now)
  | _ => None
  end.

(** The last entry written under a key. *)
Definition last_written (ops : list op) (key : string) : option cacheEntry :=
  last (omap (fun o => match written o with
    | Some e => if bool_decide (entry_key e = key) then Some e else None
    | None => None end) ops).

Definition same_data (e e' : cacheEntry) : Prop :=
  entry_msg e = entry_msg e' /\ expires e = expires e'.

Lemma last_written_snoc ops o key :
  last_written (ops ++ [o]) key =
  match written o with
  | Some e => if bool_decide (entry_key e = key) then Some e else last_written ops key
  | None => last_written ops key
  end.
Proof.
  unfold last_written. rewrite omap_app. cbn [omap list_omap].
  destruct (written o) as [e|]; [case_bool_decide|]; by rewrite ?app_nil_r, ?last_snoc.
Qed.

Lemma apply_op_ok fuel c o : cache_ok c -> (32 <= maxSize c)%Z -> enough_fuel fuel c ->
  exists c', apply_op fuel c o = Some c' /\ cache_ok c' /\ maxSize c' = maxSize c /\
    forall key e', cached c' key = Some e' ->
      match written o with
      | Some e => if bool_decide (entry_key e = key) then same_data e' e
                  else cached c key = Some e'
      | None => exists e, cached c key = Some e /\ same_data e' e
      end.
Proof.
  intros Hc Hm Hf. unfold same_data. destruct o as [q id now|q msg now|q rcode now|now|]; cbn [apply_op written].
  - destruct (get q id now c) as [m c'] eqn:E. destruct (get_ok _ _ _ _ _ _ Hc E) as (Hc' & Hm' & _ & Hl).
    exists c'. split_and!; [done..|]. intros key e'. rewrite Hl. case_bool_decide as Hk.
    + subst key. destruct (cached c (key_of q)) as [e|]; [|done].
      case_bool_decide; [|done]. intros [= <-]. by exists e.
    + intros He. by exists e'.
  - destruct (set_ok fuel q msg now c Hc Hm Hf) as (c' & E & Hc' & Hm' & He & Ho).
    exists c'. split_and!; [done..|]. intros key e' He'. case_bool_decide as Hk.
    + cbn [entry_key set_entry] in Hk. subst key. rewrite He in He'. by simplify_eq.
    + by apply Ho.
  - destruct (setNegative_ok fuel q rcode now c Hc Hm Hf) as (c' & E & Hc' & Hm' & He & Ho).
    exists c'. split_and!; [done..|]. intros key e' He'. case_bool_decide as Hk.
    + cbn [entry_key negative_entry] in Hk. subst key. rewrite He in He'. by simplify_eq.
    + by apply Ho.
  - destruct (clean_ok now c Hc) as (Hc' & Hm' & Hl). eexists. split_and!; [done..|].
    intros key e'. unfold cached. rewrite Hl by apply getShard_lt. intros He. exists e'.
    split; [|done]. eapply lru_lookup_filter_spec; [exact He|]. apply contents_keys_NoDup.
    eapply (ok_shard c Hc), shard_at_lookup; [done|apply getShard_lt].
  - destruct (clear_ok c Hc) as [Hc' Hl]. eexists. split_and!; [done..|].
    intros key e'. by rewrite Hl.
Qed.

Lemma run_app fuel ops ops' c :
  run fuel (ops ++ ops') c = run fuel ops c ≫= run fuel ops'.
Proof.
  revert c; induction ops as [|o ops IH]; intros c; simpl; [done|].
  destruct (apply_op fuel c o) as [c'|]; [apply IH|done].
Qed.

Lemma run_ok fuel ops n : (32 <= n)%Z -> Z.to_nat n <= fuel ->
  exists c, run fuel ops (new_cache n) = Some c /\ cache_ok c /\ maxSize c = n /\
    forall key e, cached c key = Some e ->
      exists e', last_written ops key = Some e' /\ same_data e e'.
Proof.
  intros Hn Hf. induction ops as [|o ops IH] using rev_ind.
  - eexists. split_and!; [done|apply new_cache_ok|done|]. intros key e. unfold cached, shard_at.
    destruct (shards (new_cache n) !! getShard key) as [s|] eqn:E; [|done].
    apply lookup_replicate in E as [-> _]. done.
  - destruct IH as (c & Hr & Hc & Hm & Hl). rewrite run_app, Hr. cbn.
    destruct (apply_op_ok fuel c o) as (c' & E & Hc' & Hm' & Hw); [done|lia| |].
    { unfold enough_fuel, max_shard_size. rewrite Hm. unfold shard_count.
      rewrite Z.quot_div_nonneg by lia. pose proof (Z.div_le_upper_bound n (Z.of_nat 32) n). lia. }
    exists c'. rewrite E. split_and!; [done|done|lia|]. intros key e He. specialize (Hw key e He).
    rewrite last_written_snoc. destruct (written o) as [e0|].
    + case_bool_decide; [by exists e0|]. by apply Hl.
    + destruct Hw as (e1 & He1 & [Hm1 Hx1]). destruct (Hl _ _ He1) as (e2 & He2 & [Hm2 Hx2]).
      exists e2. split; [done|]. split; congruence.
Qed.

Lemma Size_sum c : Size c = sum_list (map (fun s => size (items s)) (shards c)).
Proof.
  unfold Size. change (sum_list (map (fun s => size (items s)) (shards c))) with
    (0 + sum_list (map (fun s => size (items s)) (shards c))). generalize 0 as z.
  induction (shards c) as [|s l IH]; intros z; cbn [foldl map sum_list]; [simpl; lia|].
  rewrite IH. simpl. lia.
Qed.

Lemma Size_le c : cache_ok c -> (0 <= maxSize c)%Z -> (Z.of_nat (Size c) <= maxSize c)%Z.
Proof.
  intros Hc Hm. rewrite Size_sum.
  assert (Hb : forall s, s ∈ shards c -> (Z.of_nat (size (items s)) <= maxSize c / 32)%Z).
  { intros s [i Hi]%list_elem_of_lookup. rewrite (size_items s) by (by eapply (ok_shard c Hc)).
    pose proof (ok_capacity c Hc _ _ Hi) as Hcap. unfold max_shard_size, shard_count in Hcap.
    rewrite Z.quot_div_nonneg in Hcap by lia. pose proof (Z.div_pos (maxSize c) 32). simpl in Hcap. lia. }
  assert (Hs : (Z.of_nat (sum_list (map (fun s => size (items s)) (shards c))) <=
    Z.of_nat (length (shards c)) * (maxSize c / 32))%Z).
  { induction (shards c) as [|s l IH]; simpl; [lia|].
    assert (Hs : (Z.of_nat (size (items s)) <= maxSize c / 32)%Z)
      by (apply Hb, elem_of_cons; by left).
    assert (IH' := IH (fun x Hx => Hb x ltac:(apply elem_of_cons; by right))). lia. }
  rewrite (ok_count c Hc) in Hs. pose proof (Z.mul_div_le (maxSize c) 32). unfold shard_count in Hs. lia.
Qed.
End histories.

(** * What the cache guarantees *)

Section guarantees.
Context `{L : DnsLib} `{R : MapRange}.

Lemma last_written_split ops key e : last_written ops key = Some e ->
  exists before o after, ops = before ++ o :: after /\ written o = Some e /\
    entry_key e = key /\
    Forall (fun o' => forall e', written o' = Some e' -> entry_key e' <> key) after.
Proof.
  induction ops as [|o ops IH] using rev_ind; [done|]. rewrite last_written_snoc.
  destruct (written o) as [e0|] eqn:Ew; [case_bool_decide as Hk|].
  - intros [= ->]. exists ops, o, []. split_and!; [done..|constructor].
  - intros H. destruct (IH H) as (before & o' & after & -> & Hw & Hke & Hf).
    exists before, o', (after ++ [o]). rewrite <- app_assoc. split_and!; [done..|].
    apply Forall_app. split; [done|]. apply Forall_singleton. intros e' He'. congruence.
  - intros H. destruct (IH H) as (before & o' & after & -> & Hw & Hke & Hf).
    exists before, o', (after ++ [o]). rewrite <- app_assoc. split_and!; [done..|].
    apply Forall_app. split; [done|]. apply Forall_singleton. intros e' He'. congruence.
Qed.

(** C24: an answer from the cache is the last message stored for that very
    question, under the request's id, and its time has not run out; in
    particular it is never one stored for another question, nor a negative
    entry. *)
Theorem cache_get_sound fuel n ops c q id now m c' :
  (32 <= n)%Z -> Z.to_nat n <= fuel -> Forall wire_op ops -> wire_question q ->
  run fuel ops (new_cache n) = Some c -> get q id now c = (Some m, c') ->
  exists before msg t after, ops = before ++ OpSet q msg t :: after /\
    Forall (fun o => forall msg' t', o <> OpSet q msg' t') after /\
    m = set_Id id msg /\ (now < add_seconds t (cache_ttl msg))%Z.
Proof.
  intros Hn Hf Hw Hq Hr Hg.
  destruct (run_ok fuel ops n Hn Hf) as (c0 & Hr' & Hc & _ & Hl). rewrite Hr in Hr'. simplify_eq.
  destruct (get_ok _ _ _ _ _ _ Hc Hg) as (_ & _ & Hm & _).
  destruct (cached c0 (key_of q)) as [e|] eqn:Ee; [|done]. case_bool_decide as Ht; [|done].
  destruct (Hl _ _ Ee) as (e' & Hlw & [Hme Hxe]). simplify_eq.
  apply last_written_split in Hlw as (before & o & after & -> & Hwr & Hke & Hafter).
  apply Forall_app in Hw as [_ Hw]. apply Forall_cons in Hw as [Ho Hwa].
  destruct o as [|q' msg t|q' rcode t| |]; try done; cbn in Hwr, Ho; simplify_eq; cbn in Hke, Hme, Hxe.
  - apply key_of_inj in Hke as ->; [|done..]. exists before, msg, t, after. rewrite Hme.
    split_and!; [done| |done|congruence]. eapply Forall_impl; [exact Hafter|].
    intros o' Ho' msg' t' ->. by apply (Ho' _ eq_refl).
  - exfalso. by apply (negative_key_fresh q q').
Qed.

(** C23: A stored answer is found: in any consistent cache of capacity at
    least 32, [set] ends and [get] then returns the message, with the
    request's id, until its time runs out, and nothing from then on. *)
Theorem cache_get_after_set fuel c q msg t : cache_ok c -> (32 <= maxSize c)%Z ->
  enough_fuel fuel c ->
  exists c', set fuel q msg t c = Some c' /\ cache_ok c' /\
    forall id now, fst (get q id now c') =
      if bool_decide (now < add_seconds t (cache_ttl msg))%Z then Some (set_Id id msg) else None.
Proof.
  intros Hc Hm Hf. destruct (set_ok fuel q msg t c Hc Hm Hf) as (c' & E & Hc' & _ & He & _).
  exists c'. split_and!; [done..|]. intros id now. destruct (get q id now c') as [m c2] eqn:Eg.
  destruct (get_ok _ _ _ _ _ _ Hc' Eg) as (_ & _ & -> & _). by rewrite He.
Qed.

(** C26: whatever the history, a cache of capacity at least 32 goes through
    it without an endless loop, stays consistent and never holds more entries
    than its capacity. *)
Theorem cache_capacity fuel n ops : (32 <= n)%Z -> Z.to_nat n <= fuel ->
  exists c, run fuel ops (new_cache n) = Some c /\ cache_ok c /\ (Z.of_nat (Size c) <= n)%Z.
Proof.
  intros Hn Hf. destruct (run_ok fuel ops n Hn Hf) as (c & Hr & Hc & Hm & _).
  exists c. split_and!; [done..|]. rewrite <- Hm. apply Size_le; [done|lia].
Qed.

(** C37: with a capacity below 32, which [NewServerWithConfig] accepts, the
    first store never ends: no number of iterations leaves the loop of
    [ensureCapacity]. *)
Theorem small_cache_loops fuel c q msg rcode t : (maxSize c < 32)%Z ->
  set fuel q msg t c = None /\ setNegative fuel q rcode t c = None.
Proof.
  intros Hm. assert (Hz : (max_shard_size c <= 0)%Z).
  { apply Z.nlt_ge. intros H. apply Z.le_succ_l, max_shard_size_pos in H. lia. }
  unfold set, setNegative. by rewrite !ensureCapacity_diverges.
Qed.

(** A negative entry answers nothing: what [get] returns after
    [setNegative] it would have returned before it. *)
Theorem negative_cache_is_write_only fuel c c' q q' rcode t id now m :
  cache_ok c -> (32 <= maxSize c)%Z -> enough_fuel fuel c ->
  wire_question q -> wire_question q' ->
  setNegative fuel q' rcode t c = Some c' ->
  fst (get q id now c') = Some m -> fst (get q id now c) = Some m.
Proof.
  intros Hc Hm Hf Hq Hq' Hs.
  destruct (setNegative_ok fuel q' rcode t c Hc Hm Hf) as (c2 & E & Hc2 & _ & _ & Ho).
  rewrite Hs in E. simplify_eq.
  destruct (get q id now c2) as [m1 c3] eqn:E1, (get q id now c) as [m2 c4] eqn:E2.
  destruct (get_ok _ _ _ _ _ _ Hc2 E1) as (_ & _ & -> & _).
  destruct (get_ok _ _ _ _ _ _ Hc E2) as (_ & _ & -> & _). cbn [fst].
  destruct (cached c2 (key_of q)) as [e|] eqn:Ee; [|done].
  by rewrite (Ho _ _ (negative_key_fresh q q' Hq Hq') Ee).
Qed.

(** C25: a shard is an LRU list: [get] and the store of an entry act on its
    contents, most recently used first, as the abstract list operations do. *)
Theorem shard_refines_lru fuel k id now st s max e :
  shard_ok s -> (1 <= max)%Z -> length (contents s) <= fuel ->
  (let '(m, (_, s')) := shard_get k id now st s in
   shard_ok s' /\ lru_get k id now (contents s) = (m, contents s')) /\
  (exists st' s', ensureCapacity fuel max st s = Some (st', s') /\
    shard_ok (push_entry e s') /\
    contents (push_entry e s') = lru_put (Z.to_nat max) e (contents s)).
Proof.
  intros Hs Hm Hf. split.
  - destruct (shard_get k id now st s) as [m [st' s']] eqn:E. by eapply shard_get_ok.
  - destruct (ensureCapacity_ok fuel max st s Hs Hm Hf) as (st' & s' & E & _).
    exists st', s'. split; [done|]. by eapply store_ok.
Qed.

(** [cleanExpired] removes exactly the entries whose time is past. *)
Theorem cleanExpired_exact now c : cache_ok c ->
  cache_ok (cleanExpired now c) /\
  forall i e, i < shard_count ->
    e ∈ contents (shard_at (cleanExpired now c) i) <->
    e ∈ contents (shard_at c i) /\ ~ (expires e < now)%Z.
Proof.
  intros Hc. destruct (clean_ok now c Hc) as (Hc' & _ & Hl). split; [done|].
  intros i e Hi. rewrite (Hl i Hi), list_elem_of_filter. tauto.
Qed.
End guarantees.

Definition record_ttls (msg : Msg) : list Z :=
  map (fun rr => Ttl (Header rr)) (Answer msg ++ Ns msg ++ Extra msg).

Lemma min_ttl_foldl z rrs :
  min_ttl z rrs = foldl Z.min z (map (fun rr => Ttl (Header rr)) rrs).
Proof.
  unfold min_ttl. revert z; induction rrs as [|rr rrs IH]; intros z; [done|]. simpl.
  rewrite IH. f_equal. case_bool_decide; lia.
Qed.

(** A message is kept for the least TTL of its records and 3600 s, OPT
    pseudo-records included; 0 counts as 300 s, and less than 60 s as 60 s.
    The 24-hour ceiling is never reached. *)
Theorem cache_ttl_spec msg :
  let m := foldl Z.min 3600%Z (record_ttls msg) in
  cache_ttl msg = (if bool_decide (m = 0) then 300 else Z.max 60 m)%Z /\
  (60 <= cache_ttl msg <= 3600)%Z.
Proof.
  assert (Hm : (foldl Z.min 3600 (record_ttls msg) <= 3600)%Z).
  { generalize (record_ttls msg) as l.
    cut (forall l z, (z <= 3600)%Z -> (foldl Z.min z l <= 3600)%Z); [intros Hc l; by apply Hc|].
    induction l as [|x l IH]; intros z Hz; simpl; [done|]. apply IH. lia. }
  cbn zeta. unfold cache_ttl. rewrite !min_ttl_foldl, <- !foldl_app, <- !map_app.
  fold (record_ttls msg).
  repeat case_bool_decide; lia.
Qed.

Lemma split_hyphen_pieces s p : p ∈ split_hyphen s -> has_hyphen p = false.
Proof.
  revert p; induction s as [|c s IH]; intros p Hp; simpl in Hp.
  - by apply list_elem_of_singleton in Hp as ->.
  - case_bool_decide as Hc.
    + apply elem_of_cons in Hp as [->|Hp]; [done|by apply IH].
    + destruct (split_hyphen s) as [|p0 ps].
      * apply list_elem_of_singleton in Hp as ->. simpl. by rewrite bool_decide_false.
      * apply elem_of_cons in Hp as [->|Hp].
        -- simpl. rewrite bool_decide_false by done. apply IH, elem_of_cons. by left.
        -- apply IH, elem_of_cons. by right.
Qed.

Lemma parse_key_no_hyphen k q : parse_key k = Some q -> has_hyphen (Q_Name q) = false.
Proof.
  unfold parse_key. destruct (split_hyphen k) as [|n [|a [|b [|]]]] eqn:E; try done.
  intros [= <-]. apply (split_hyphen_pieces k). rewrite E. apply elem_of_cons. by left.
Qed.

(** C38: [getAllDomains] lists a question with an unexpired entry exactly when
    its name has no hyphen. *)
Theorem getAllDomains_spec `{MapRange} clock c q e :
  cache_ok c -> wire_question q -> cached c (key_of q) = Some e ->
  (clock (key_of q) < expires e)%Z ->
  q ∈ getAllDomains clock c <-> has_hyphen (Q_Name q) = false.
Proof.
  intros Hc Hq He Ht. unfold getAllDomains. rewrite list_elem_of_flat_map. split.
  - intros (s & _ & Hin). apply list_elem_of_flat_map in Hin as ([k l] & _ & Hin).
    destruct (heap s !! l) as [e'|]; [|by apply not_elem_of_nil in Hin].
    case_bool_decide; [|by apply not_elem_of_nil in Hin].
    destruct (parse_key k) as [q'|] eqn:Ep; [|by apply not_elem_of_nil in Hin].
    apply list_elem_of_singleton in Hin as ->. by eapply parse_key_no_hyphen.
  - intros Hh. pose proof (getShard_lt (key_of q)) as Hi.
    pose proof (shard_at_lookup c _ Hc Hi) as Hsi. pose proof (ok_shard c Hc _ _ Hsi) as Hs.
    unfold cached in He. rewrite lookup_contents in He by done.
    destruct (lruMap (shard_at c (getShard (key_of q))) !! key_of q) as [l|] eqn:El; [|done].
    simpl in He. exists (shard_at c (getShard (key_of q))).
    split; [by eapply list_elem_of_lookup_2|]. apply list_elem_of_flat_map. exists (key_of q, l). split.
    + rewrite map_range_perm, elem_of_map_to_list. by rewrite (ok_items _ Hs).
    + rewrite He, bool_decide_true by done. rewrite parse_key_of, Hh by done.
      by apply list_elem_of_singleton.
Qed.

(** ** A cache at work *)
Module CacheExample.
#[export] Existing Instance refLib.
#[export] Existing Instance map_range_std.

Definition q : Question_ := mkQ "www.example." TypeA ClassINET.
Definition q_hyphen : Question_ := mkQ "a-b.example." TypeA ClassINET.
Definition answer (ttl : Z) : Msg :=
  mkMsg 9 true false false true true false false RcodeSuccess [q]
    [RR_A (mkA (mkHdr "www.example." TypeA ClassINET ttl) "192.0.2.1")] [] [].

Definition ops : list op :=
  [OpSet q (answer 120) 0; OpSetNegative q RcodeServerFailure (10 * second);
   OpSet q_hyphen (answer 7200) (20 * second); OpGet q 1 (30 * second);
   OpClean (100 * second)]%Z.
Definition cache : DNSCache := default (new_cache 0) (run 64 ops (new_cache 64)).

Example answers :
  map (fun t => option_map Id (fst (get q 77 (t * second) cache))) [0; 119; 120; 121]%Z =
    [Some 77; Some 77; None; None]%Z /\
  Size cache = 3 /\
  getAllDomains (fun _ => (30 * second)%Z) cache = [q].
Proof. split_and!; vm_compute; reflexivity. Qed.

Lemma cache_ok_cache : cache_ok cache /\ maxSize cache = 64%Z.
Proof.
  destruct (run_ok 64 ops 64) as (c & Hr & Hc & Hm & _); [lia|lia|].
  unfold cache. rewrite Hr. exact (conj Hc Hm).
Qed.

Lemma wire_q : wire_question q.
Proof. split; split; vm_compute; congruence. Qed.
Lemma wire_q_hyphen : wire_question q_hyphen.
Proof. split; split; vm_compute; congruence. Qed.

Lemma run_cache : run 64 ops (new_cache 64) = Some cache.
Proof.
  destruct (run_ok 64 ops 64) as (c & Hr & _); [lia|lia|]. unfold cache. rewrite Hr. reflexivity.
Qed.

Definition hit : Msg := set_Id 77 (answer 120).

Lemma cache_get_sound_witness :
  exists before msg t after, ops = before ++ OpSet q msg t :: after /\
    Forall (fun o => forall msg' t', o <> OpSet q msg' t') after /\
    hit = set_Id 77 msg /\ (60 * second < add_seconds t (cache_ttl msg))%Z.
Proof.
  apply (cache_get_sound 64 64 ops cache q 77 (60 * second) hit
    (snd (get q 77 (60 * second) cache))).
  - done.
  - done.
  - repeat constructor; first [apply wire_q | apply wire_q_hyphen | exact I].
  - apply wire_q.
  - apply run_cache.
  - rewrite (surjective_pairing (get q 77 (60 * second) cache)) at 1. f_equal.
Defined.

Lemma cache_get_after_set_witness :
  exists c', set 2 q (answer 0) 0 (new_cache 64) = Some c' /\
    fst (get q 5 (299 * second) c') = Some (set_Id 5 (answer 0)).
Proof.
  destruct (cache_get_after_set 2 (new_cache 64) q (answer 0) 0) as (c' & E & _ & Hg);
    [apply new_cache_ok|done|unfold enough_fuel; vm_compute; lia|].
  exists c'. split; [exact E|]. rewrite Hg. vm_compute. reflexivity.
Defined.

Lemma cache_capacity_witness :
  exists c, run 64 ops (new_cache 64) = Some c /\ cache_ok c /\ (Z.of_nat (Size c) <= 64)%Z.
Proof. apply (cache_capacity 64 64 ops); done. Defined.

Lemma small_cache_loops_witness :
  set 1000 q (answer 60) 0 (new_cache (configured_size 31)) = None /\
  setNegative 1000 q RcodeNameError 0 (new_cache (configured_size 31)) = None.
Proof. apply (small_cache_loops 1000); done. Defined.

Lemma negative_cache_is_write_only_witness :
  exists c', setNegative 2 q RcodeNameError 0 cache = Some c' /\
    (forall m, fst (get q 5 0 c') = Some m -> fst (get q 5 0 cache) = Some m).
Proof.
  destruct cache_ok_cache as [Hc Hm].
  assert (Hf : enough_fuel 2 cache) by (unfold enough_fuel, max_shard_size; rewrite Hm; done).
  destruct (setNegative_ok 2 q RcodeNameError 0 cache Hc) as (c' & E & _); [rewrite Hm; done|done|].
  exists c'. split; [exact E|]. intros m.
  apply (negative_cache_is_write_only 2 cache c' q q RcodeNameError 0 5 0 m);
    [exact Hc|rewrite Hm; done|exact Hf|apply wire_q|apply wire_q|exact E].
Defined.

Lemma shard_refines_lru_witness :
  exists st' s', ensureCapacity 0 2 (stats cache) new_shard = Some (st', s') /\
    shard_ok (push_entry (set_entry q (answer 60) 0) s') /\
    contents (push_entry (set_entry q (answer 60) 0) s') =
      lru_put 2 (set_entry q (answer 60) 0) [].
Proof.
  apply (shard_refines_lru 0 (key_of q) 5 0 (stats cache) new_shard 2
    (set_entry q (answer 60) 0)); [apply new_shard_ok|done|done].
Defined.

Lemma cleanExpired_exact_witness :
  cache_ok (cleanExpired (121 * second) cache) /\
  (set_entry q_hyphen (answer 7200) (20 * second) ∈
     contents (shard_at (cleanExpired (121 * second) cache) (getShard (key_of q_hyphen))) <->
   set_entry q_hyphen (answer 7200) (20 * second) ∈
     contents (shard_at cache (getShard (key_of q_hyphen))) /\
   ~ (3620 * second < 121 * second)%Z).
Proof.
  destruct (cleanExpired_exact (121 * second) cache) as [H1 H2]; [apply cache_ok_cache|].
  split; [exact H1|].
  apply (H2 _ (set_entry q_hyphen (answer 7200) (20 * second))). apply getShard_lt.
Defined.

Lemma getAllDomains_spec_witness :
  q_hyphen ∈ getAllDomains (fun _ => 0%Z) cache <-> has_hyphen (Q_Name q_hyphen) = false.
Proof.
  apply (getAllDomains_spec (fun _ => 0%Z) cache q_hyphen
    (set_entry q_hyphen (answer 7200) (20 * second)));
    [apply cache_ok_cache|apply wire_q_hyphen|vm_compute; reflexivity|vm_compute; reflexivity].
Defined.
End CacheExample.
