(* ===== verification/Functions.v ===== *)
(** * functions.go: helpers of the resolver

    [extractRecords], [extractRecordsOfType], [recordsOfTypeExist] and
    [namesEqual] are the same code as in dnssec/functions.go (DnssecFunctions). *)

From S2P Require Import Prelude GoErrors Dns DnssecFunctions.

Definition dnsRecordTypes : list (Z * string) := [
  (1, "A"); (2, "NS"); (5, "CNAME"); (6, "SOA"); (12, "PTR"); (15, "MX"); (16, "TXT");
  (17, "RP"); (18, "AFSDB"); (24, "SIG"); (25, "KEY"); (28, "AAAA"); (29, "LOC");
  (33, "SRV"); (35, "NAPTR"); (36, "KX"); (37, "CERT"); (39, "DNAME"); (41, "OPT");
  (43, "DS"); (44, "SSHFP"); (45, "IPSECKEY"); (46, "RRSIG"); (47, "NSEC");
  (48, "DNSKEY"); (49, "DHCID"); (50, "NSEC3"); (51, "NSEC3PARAM"); (52, "TLSA");
  (53, "SMIMEA"); (55, "HIP"); (57, "NINFO"); (59, "CDS"); (60, "CDNSKEY");
  (61, "OPENPGPKEY"); (62, "CSYNC"); (63, "ZONEMD"); (64, "SVCB"); (65, "HTTPS");
  (99, "SPF"); (100, "UINFO"); (101, "UID"); (102, "GID"); (103, "UNSPEC");
  (108, "EUI48"); (109, "EUI64"); (249, "TKEY"); (250, "TSIG"); (251, "IXFR");
  (252, "AXFR"); (255, "ANY"); (256, "URI"); (257, "CAA"); (32768, "TA"); (32769, "DLV")
]%Z%string.

Definition dnsRCodes : list (Z * string) := [
  (0, "NoError"); (1, "FormErr"); (2, "ServFail"); (3, "NXDomain"); (4, "NotImp");
  (5, "Refused"); (6, "YXDomain"); (7, "YXRRSet"); (8, "NXRRSet"); (9, "NotAuth");
  (10, "NotZone"); (16, "BADSIG"); (17, "BADKEY"); (18, "BADTIME"); (19, "BADMODE");
  (20, "BADNAME"); (21, "BADALG"); (22, "BADTRUNC"); (23, "BADCOOKIE")
]%Z%string.

Definition name_in (table : list (Z * string)) (k : Z) : string :=
  match find (fun e => bool_decide (fst e = k)) table with
  | Some (_, name) => name
  | None => "unknown"
  end.

Definition TypeToString (rrtype : Z) : string := name_in dnsRecordTypes rrtype.
Definition RcodeToString (rcode : Z) : string := name_in dnsRCodes rcode.

(** The first OPT record decides. *)
Definition isSetDO `{DnsLib} (msg : Msg) : bool :=
  match extractRecords OPT (Extra msg) with
  | opt :: _ => dns_OPT_Do opt
  | [] => false
  end.

Definition removeRecordsOfType (rr : list RR) (t : Z) : list RR :=
  if bool_decide (length rr = 0) || negb (recordsOfTypeExist rr t) then rr
  else filter (fun record => bool_decide (Rrtype (Header record) <> t) = true) rr.

Fixpoint recordsOfNameAndTypeExist (rr : list RR) (name : string) (t : Z) : bool :=
  match rr with
  | [] => false
  | record :: rest =>
      if bool_decide (Rrtype (Header record) = t) && bool_decide (Name (Header record) = name)
      then true
      else recordsOfNameAndTypeExist rest name t
  end.

(** * Theory *)

Lemma recordsOfTypeExist_false rr t :
  recordsOfTypeExist rr t = false <-> Forall (fun r => Rrtype (Header r) <> t) rr.
Proof.
  induction rr as [|r rr IH]; cbn; [done|]. rewrite Forall_cons. case_bool_decide; [|tauto].
  split; [done|tauto].
Qed.

Lemma removeRecordsOfType_spec rr t :
  removeRecordsOfType rr t = filter (fun record => Rrtype (Header record) <> t) rr.
Proof.
  assert (filter (fun record => bool_decide (Rrtype (Header record) <> t) = true) rr =
    filter (fun record => Rrtype (Header record) <> t) rr) as E.
  { apply list_filter_iff. intros r. apply bool_decide_eq_true. }
  unfold removeRecordsOfType. rewrite E. destruct (_ || _) eqn:Eb; [|done].
  apply orb_true_iff in Eb as [Hl|Hn].
  - bool_facts. by destruct rr.
  - apply negb_true_iff, recordsOfTypeExist_false in Hn. symmetry. clear E.
    induction Hn; [done|]. rewrite filter_cons_True by done. congruence.
Qed.
