(* ===== verification/Zones.v ===== *)
(** * zones.go: the zones whose servers are known

    The interface [zone] is a class: [expired] is its answer during one call of
    the store.  A nil map is None. *)

From S2P Require Import Prelude GoErrors Dns DnsRef Domain.

Class ZoneInterface (zone : Type) := {
  zone_name : zone -> string;
  zone_parent : zone -> string;
  zone_expired : zone -> bool
}.

Section zones.
Context `{L : DnsLib} {zone : Type} `{ZI : ZoneInterface zone}.

Record zones := mkZones { zones_map : option (gmap string zone) }.

Definition new_zones : zones := mkZones None.

(** The loop of [getZoneList]. *)
Fixpoint zone_loop (m : gmap string zone) (n : string) (indexes : list nat)
    (last : option zone) (result : list zone) : outcome (list zone) :=
  match indexes with
  | [] => Ret result
  | idx :: rest =>
      zname ← go_slice_from n (Z.of_nat idx);
      match m !! zname with
      | None => zone_loop m n rest last result
      | Some z =>
          if zone_expired z then zone_loop m n rest last result
          else if match last with
                  | Some l => negb (bool_decide (zone_parent z = zone_name l))
                  | None => false
                  end
          then Ret result
          else zone_loop m n rest (Some z) (result ++ [z])
      end
  end.

Definition getZoneList (n : string) (zs : zones) : outcome (list zone) :=
  let n := dns_CanonicalName n in
  let indexes := reverse (dns_Split n ++ [String.length n - 1]) in
  match zones_map zs with
  | None => Ret []
  | Some m => result ← zone_loop m n indexes None []; Ret (reverse result)
  end.

Definition zones_get (n : string) (zs : zones) : option zone :=
  match zones_map zs with
  | None => None
  | Some m =>
      match m !! dns_CanonicalName n with
      | Some z => if zone_expired z then None else Some z
      | None => None
      end
  end.

Definition zones_add (z : zone) (zs : zones) : zones :=
  mkZones (Some (<[dns_CanonicalName (zone_name z) := z]> (default ∅ (zones_map zs)))).

Definition zones_count (zs : zones) : nat :=
  match zones_map zs with Some m => size m | None => 0 end.
End zones.
Arguments zones zone : clear implicits.

(** * Theory *)

Section zones_facts.
Context `{Laws : DnsLaws} {zone : Type} `{ZI : ZoneInterface zone}.

(** Every zone is stored under its own, canonical name. *)
Definition zones_ok (zs : zones zone) : Prop :=
  forall k z, default ∅ (zones_map zs) !! k = Some z -> k = zone_name z /\ canonical k.

Lemma new_zones_ok : zones_ok new_zones.
Proof. intros k z H. cbn in H. by rewrite lookup_empty in H. Qed.

Lemma zones_add_ok z zs : canonical (zone_name z) -> zones_ok zs -> zones_ok (zones_add z zs).
Proof.
  intros Hc Hok k z'. cbn. rewrite Hc. intros [[<- <-]|[_ H]]%lookup_insert_Some; auto.
Qed.

(** What [get] says of a canonical name. *)
Definition live (zs : zones zone) (s : string) : option zone :=
  match default ∅ (zones_map zs) !! s with
  | Some z => if zone_expired z then None else Some z
  | None => None
  end.

Lemma zones_get_live n zs : zones_get n zs = live zs (dns_CanonicalName n).
Proof. unfold zones_get, live. destruct (zones_map zs) as [m|]; [done|]. cbn. by rewrite lookup_empty. Qed.

Lemma live_name zs s z : zones_ok zs -> live zs s = Some z ->
  zone_name z = s /\ canonical s /\ zone_expired z = false.
Proof.
  intros Hok. unfold live. destruct (_ !! s) as [z'|] eqn:E; [|done].
  destruct (zone_expired z') eqn:Ex; [done|]. intros [= ->]. by destruct (Hok s z E) as [-> ?].
Qed.

(** Each zone of [l] names the one before it as its parent; [last] comes before. *)
Fixpoint linked (last : option zone) (l : list zone) : Prop :=
  match l with
  | [] => True
  | z :: l => match last with Some y => zone_parent z = zone_name y | None => True end /\ linked (Some z) l
  end.

(** The longest linked prefix. *)
Fixpoint chain (last : option zone) (l : list zone) : list zone :=
  match l with
  | [] => []
  | z :: l =>
      if match last with Some y => negb (bool_decide (zone_parent z = zone_name y)) | None => false end
      then [] else z :: chain (Some z) l
  end.

Lemma chain_linked last l : linked last (chain last l).
Proof.
  revert last; induction l as [|z l IH]; intros last; [done|]. cbn.
  destruct last as [y|]; cbn; [case_bool_decide|]; cbn; auto.
Qed.

(** The prefix stops where the link is missing. *)
Lemma chain_stops last l : exists rest, l = chain last l ++ rest /\
  match rest, list.last (match last with Some y => y :: chain last l | None => chain last l end) with
  | z :: _, Some y => zone_parent z <> zone_name y
  | z :: _, None => False
  | [], _ => True
  end.
Proof.
  revert last; induction l as [|z l IH]; intros last; [by exists []|]. cbn [chain].
  destruct (match last with Some y => _ | None => _ end) eqn:E.
  - destruct last as [y|]; [|done]. exists (z :: l). split; [done|]. cbn.
    apply negb_true_iff in E. by bool_facts.
  - destruct (IH (Some z)) as (rest & Hl & Hr). exists rest. split; [by rewrite Hl at 1|].
    destruct rest as [|y rest]; [done|]. destruct last; [rewrite last_cons_cons|]; exact Hr.
Qed.

Lemma zone_loop_spec m n indexes last result :
  (forall i, i ∈ indexes -> i <= String.length n) ->
  zone_loop m n indexes last result =
    Ret (result ++ chain last (omap (live (mkZones (Some m))) (map (fun i => str_drop i n) indexes))).
Proof.
  revert last result; induction indexes as [|i indexes IH]; intros last result Hi.
  { cbn. by rewrite app_nil_r. }
  assert (forall i, i ∈ indexes -> i <= String.length n) as Hi' by set_solver.
  cbn [zone_loop map omap list_omap]. rewrite go_slice_from_ret by (apply Hi; set_solver).
  cbn [mbind outcome_bind]. unfold live at 1. cbn [zones_map from_option id].
  destruct (m !! str_drop i n) as [z|]; [|by apply IH].
  destruct (zone_expired z); [by apply IH|]. cbn [chain].
  destruct (match last with Some l => _ | None => false end); [by rewrite app_nil_r|].
  rewrite IH by done. by rewrite <- app_assoc.
Qed.

(** The zones known along a name, the root first. *)
Definition known (zs : zones zone) (n : string) : list zone :=
  omap (live zs) (descent (dns_CanonicalName n)).

Lemma getZoneList_chain n zs : getZoneList n zs = Ret (reverse (chain None (known zs n))).
Proof.
  unfold getZoneList, known. pose proof (newDomain_wf n) as Hd.
  destruct zs as [[m|]]; cbn [zones_map].
  - rewrite zone_loop_spec.
    + cbn [mbind outcome_bind app]. change (dns_CanonicalName n) with (d_name (newDomain n)).
      by rewrite (descent_indexes (newDomain n) Hd).
    + intros i [j Hj]%list_elem_of_lookup. exact (wf_offset (newDomain n) j i Hd Hj).
  - replace (omap _ _) with (@nil zone); [done|].
    induction (descent _) as [|s l IH]; [done|].
    cbn [omap list_omap]. unfold live at 1. cbn [zones_map from_option]. rewrite lookup_empty. done.
Qed.

Lemma chain_prefix last l : chain last l `prefix_of` l.
Proof. destruct (chain_stops last l) as (rest & E & _). by exists rest. Qed.

Lemma known_root zs n root : live zs "." = Some root -> exists l, known zs n = root :: l.
Proof.
  intros Hr. unfold known. destruct (descent_root (dns_CanonicalName n)) as [l ->];
    [apply canonical_idem|]. cbn. rewrite Hr. eauto.
Qed.

(** C16: [getZoneList] returns the known, unexpired zones on the way from the
    root to the name, deepest first, as far down as each names the one above
    it as its parent: the first zone left out breaks the chain. *)
Theorem getZoneList_spec n zs : zones_ok zs ->
  exists l rest, getZoneList n zs = Ret l /\
    known zs n = reverse l ++ rest /\ linked None (reverse l) /\
    match rest, l with
    | z :: _, y :: _ => zone_parent z <> zone_name y
    | z :: _, [] => False
    | [], _ => True
    end /\
    Forall (fun z => zone_expired z = false /\ zones_get (zone_name z) zs = Some z /\
      dns_IsSubDomain (zone_name z) (dns_CanonicalName n) = true) l.
Proof.
  intros Hok. rewrite getZoneList_chain.
  destruct (chain_stops None (known zs n)) as (rest & E & Hr).
  set (c := chain None (known zs n)) in *. exists (reverse c), rest.
  rewrite reverse_involutive. split_and!; [done|done|apply chain_linked| |].
  - destruct rest as [|z rest]; [done|].
    destruct c as [|y c' _] using rev_ind; [done|].
    rewrite reverse_snoc. by rewrite last_snoc in Hr.
  - apply Forall_reverse, Forall_forall. intros z Hz.
    assert (z ∈ known zs n) as (s & Hs & Hl)%list_elem_of_omap by (rewrite E; set_solver).
    destruct (live_name zs s z Hok Hl) as (Hn & Hc & Hx).
    split_and!; [done| |].
    + rewrite zones_get_live, Hn, Hc. done.
    + rewrite Hn. apply subdomain_ancestor; [done|apply canonical_idem|by apply elem_of_descent].
Qed.

(** While the root zone is known, a query for any name has a zone to start
    from, and winding the walk of the name to that zone succeeds. *)
Lemma known_zone_to_start n zs root : zones_ok zs -> zones_get "." zs = Some root ->
  exists z l d, getZoneList n zs = Ret (z :: l) /\ last (z :: l) = Some root /\
    windTo (zone_name z) (newDomain n) = Ret (d, None) /\ current d = Ret (zone_name z) /\
    domain_wf d /\ canonical (zone_name z).
Proof.
  intros Hok Hroot. set (c := dns_CanonicalName n).
  destruct (descent_root c) as [anc Hanc]; [apply canonical_idem|].
  assert (canonical ".") as Hdot.
  { apply (suffix_canonical c); [apply canonical_idem|]. apply elem_of_descent. rewrite Hanc. left. }
  rewrite zones_get_live, Hdot in Hroot. rewrite getZoneList_chain.
  destruct (known_root zs n root Hroot) as [l Hl]. rewrite Hl. cbn [chain].
  set (ch := chain (Some root) l). rewrite reverse_cons.
  destruct (reverse ch ++ [root]) as [|z zl] eqn:E; [by destruct (reverse ch)|].
  assert (z ∈ known zs n) as (s & Hs & Hz)%list_elem_of_omap.
  { rewrite Hl. assert (z ∈ reverse ch ++ [root]) as Hin by (rewrite E; left).
    destruct (chain_prefix (Some root) l) as [rest Hrest]. fold ch in Hrest. rewrite Hrest.
    rewrite elem_of_app, elem_of_reverse, list_elem_of_singleton in Hin.
    rewrite elem_of_cons, elem_of_app. tauto. }
  destruct (live_name zs s z Hok Hz) as (Hname & Hcs & _). subst s.
  apply list_elem_of_lookup in Hs as [j Hj].
  exists z, zl, (mkDomain c (labelIndexes (newDomain n)) j).
  refine (conj eq_refl (conj _ (conj _ (conj _ (conj (newDomain_wf n) Hcs))))).
  - rewrite <- E. apply last_snoc.
  - apply (windTo_reaches _ (newDomain n) j); [apply newDomain_wf|by rewrite Hcs|simpl; lia].
  - rewrite current_spec by apply newDomain_wf. cbn [currentIdx d_name]. unfold c. by rewrite Hj.
Qed.

(** [add] and [get] are those of a map on names up to case, but [get] hides an
    expired zone; [add] keeps every other zone. *)
Lemma zones_get_add n z zs :
  zones_get n (zones_add z zs) =
    (if bool_decide (dns_CanonicalName n = dns_CanonicalName (zone_name z))
     then if zone_expired z then None else Some z
     else zones_get n zs).
Proof.
  rewrite !zones_get_live. unfold live. cbn. case_bool_decide as E.
  - by rewrite E, lookup_insert_eq.
  - rewrite lookup_insert_ne by done. by destruct (zones_map zs).
Qed.
End zones_facts.

(** ** A store with the chain . / com. / example.com. and a stray zone below it *)

Module ZonesExample.
#[export] Existing Instance refLib.
#[export] Existing Instance refLaws.

Definition azone : Type := string * string * bool.
#[export] Instance azone_interface : ZoneInterface azone := {|
  zone_name z := fst (fst z); zone_parent z := snd (fst z); zone_expired z := snd z
|}.

Definition store : zones azone :=
  zones_add ("a.www.example.com.", "www.example.com.", false)%string
  (zones_add ("www.example.com.", "com.", false)%string
  (zones_add ("example.com.", "com.", false)%string
  (zones_add ("net.", ".", true)%string
  (zones_add ("com.", ".", false)%string
  (zones_add (".", "", false)%string new_zones))))).

(** www.example.com. claims the parent com. and breaks the chain. *)
Example list_stops : getZoneList "A.www.Example.com" store =
  Ret [("example.com.", "com.", false); ("com.", ".", false); (".", "", false)]%string.
Proof. vm_compute. reflexivity. Qed.

Example expired_hidden : zones_get "net." store = None /\ zones_count store = 6.
Proof. vm_compute. auto. Qed.

Lemma zone_store_ok : zones_ok store.
Proof. repeat (apply zones_add_ok; [reflexivity|]). apply new_zones_ok. Qed.

Lemma getZoneList_spec_witness : exists l rest, getZoneList "A.www.Example.com" store = Ret l /\
  known store "A.www.Example.com" = reverse l ++ rest /\ linked None (reverse l).
Proof.
  destruct (getZoneList_spec "A.www.Example.com" store) as (l & rest & H1 & H2 & H3 & _);
    [apply zone_store_ok|]. exists l, rest. auto.
Defined.

Lemma known_zone_to_start_witness : exists z l d,
  getZoneList "A.www.Example.com" store = Ret (z :: l) /\
  windTo (zone_name z) (newDomain "A.www.Example.com") = Ret (d, None) /\ currentIdx d = 2.
Proof.
  destruct (known_zone_to_start "A.www.Example.com" store (".", "", false)%string)
    as (z & l & d & H1 & _ & H2 & _); [apply zone_store_ok|vm_compute; reflexivity|].
  exists z, l, d. split; [exact H1|]. split; [exact H2|].
  vm_compute in H1. injection H1 as <- _. vm_compute in H2. injection H2 as <-. reflexivity.
Defined.
End ZonesExample.
