(* ===== verification/Response.v ===== *)
(** * response.go and the settings of config.go

    A [*Response] is an [option Response]: the methods accept a nil receiver. *)

From S2P Require Import Prelude GoErrors Dns DnssecConst.

Record Response := mkResponse {
  resp_Msg : option Msg;
  Err : option error;
  Duration : Z;
  Doe : DenialOfExistenceState;
  Auth : AuthenticationResult
}.

Definition HasError (r : option Response) : bool :=
  match r with Some r => bool_decide (is_Some (Err r)) | None => false end.

Definition IsEmpty (r : option Response) : bool :=
  match r with Some r => bool_decide (resp_Msg r = None) | None => true end.

Definition truncated (r : option Response) : bool :=
  match r with
  | Some r => match resp_Msg r with Some m => Truncated m | None => false end
  | None => false
  end.

Definition newResponseError (e : error) : Response := mkResponse None (Some e) 0 NotFound Unknown.

Definition set_Err (e : option error) (r : Response) : Response :=
  mkResponse (resp_Msg r) e (Duration r) (Doe r) (Auth r).

(** The package variables of config.go that change behaviour. *)
Class ResolverConfig := {
  MaxAllowedTTL : Z;
  MaxQueriesPerRequest : Z;
  DesireNumberOfNameserversPerZone : nat;
  LazyEnrichment : bool;
  SuppressBogusResponseSections : bool;
  RemoveAuthoritySectionForPositiveAnswers : bool;
  RemoveAdditionalSectionForPositiveAnswers : bool
}.

(** The values they start with. *)
Definition default_resolver_config : ResolverConfig := {|
  MaxAllowedTTL := 60 * 60 * 48;
  MaxQueriesPerRequest := 100;
  DesireNumberOfNameserversPerZone := 3;
  LazyEnrichment := false;
  SuppressBogusResponseSections := true;
  RemoveAuthoritySectionForPositiveAnswers := true;
  RemoveAdditionalSectionForPositiveAnswers := true
|}.

(** A response that carries an answer the caller may use. *)
Definition useful (r : option Response) : bool := negb (IsEmpty r) && negb (HasError r).

Lemma useful_some r : useful r = true ->
  exists resp m, r = Some resp /\ resp_Msg resp = Some m /\ Err resp = None.
Proof.
  unfold useful, IsEmpty, HasError. destruct r as [resp|]; [|done].
  destruct (resp_Msg resp) as [m|] eqn:E; [|done]. destruct (Err resp) eqn:E'; [done|].
  intros _. by exists resp, m.
Qed.
