(* ===== verification/Nameserver.v ===== *)
(** * nameserver.go: one server, asked over UDP and then TCP

    [client protocol m address] is what [ExchangeContext] of a client of that
    protocol returns.  [updateMetrics] runs in goroutines of its own on the
    [metrics] of the server, under their lock; nothing reads them, and the
    ratio of protocols, a float, is left out. *)

From S2P Require Import Prelude GoErrors Dns DnssecConst Response.

(** The fields the program reads. *)
Record nameserver := mkNameserver { hostname : string; addr : string }.

#[export] Instance nameserver_eq_dec : EqDecision nameserver.
Proof. solve_decision. Defined.

(** [net.JoinHostPort] *)
Definition net_JoinHostPort (host port : string) : string :=
  if existsb (fun c => bool_decide (c = ":"%char \/ c = "%"%char)) (String.list_ascii_of_string host)
  then "[" +:+ host +:+ "]:" +:+ port
  else host +:+ ":" +:+ port.

Definition dnsClient : Type := Msg -> string -> option Msg * Z * option error.

(** The loop over the protocols.  [m.Question[0]] is read for the log line. *)
Fixpoint try_protocols (factory : string -> dnsClient) (m : Msg) (addr : string)
    (protocols : list string) (r : Response) : outcome Response :=
  match protocols with
  | [] => Ret r
  | protocol :: rest =>
      let '(msg, duration, err) := factory protocol m addr in
      let r := mkResponse msg err duration (Doe r) (Auth r) in
      _ ← go_index (Question m) 0;
      if HasError (Some r) then try_protocols factory m addr rest r
      else match msg with
           | None => Panic NilDereference
           | Some reply =>
               if negb (Truncated reply) then Ret r
               else try_protocols factory m addr rest r
           end
  end.

Definition nameserver_exchange (zone_name : option string) (factory : string -> dnsClient)
    (nameserver : nameserver) (m : option Msg) : outcome Response :=
  let zoneName := default "unknown" zone_name in
  match m with
  | None => Ret (newResponseError (errorf_s ErrNilMessageSentToExchange (" in zone [" +:+ zoneName +:+ "]")))
  | Some m =>
      let addr := net_JoinHostPort (addr nameserver) "53" in
      try_protocols factory m addr ["udp"; "tcp"] (mkResponse None None 0 NotFound Unknown)
  end.

(** The metrics of a server. *)
Record metrics := mkMetrics {
  numberOfRequests : Z;
  totalResponseTime : Z;
  averageResponseTime : Z;
  numberOfTcpRequests : Z
}.

Definition no_metrics : metrics := mkMetrics 0 0 0 0.

(** Go's integer division truncates, and panics on a zero divisor. *)
Definition updateMetrics (protocol : string) (duration : Z) (s : metrics) : outcome metrics :=
  let n := uint32 (numberOfRequests s + 1) in
  let total := int64 (totalResponseTime s + duration) in
  if bool_decide (n = 0)%Z then Panic DivideByZero
  else
    let tcp := if bool_decide (protocol = "tcp"%string) then uint32 (numberOfTcpRequests s + 1)
               else numberOfTcpRequests s in
    Ret (mkMetrics n total (Z.quot total n) tcp).

(** * Theory *)

(** What [ExchangeContext] promises: a nil error comes with a message. *)
Definition client_law (factory : string -> dnsClient) : Prop :=
  forall protocol m a, let '(msg, _, err) := factory protocol m a in
    err = None -> is_Some msg.

(** The reply of one protocol, as a response. *)
Definition reply_of (factory : string -> dnsClient) (protocol : string) (m : Msg) (a : string) :
    Response :=
  let '(msg, duration, err) := factory protocol m a in
  mkResponse msg err duration NotFound Unknown.

(** A reply that ends the loop. *)
Definition complete (r : Response) : bool :=
  useful (Some r) && negb (truncated (Some r)).

Lemma try_protocols_spec factory m a protocol rest r :
  client_law factory -> Question m <> [] -> Doe r = NotFound -> Auth r = Unknown ->
  try_protocols factory m a (protocol :: rest) r =
    (if complete (reply_of factory protocol m a) then Ret (reply_of factory protocol m a)
     else try_protocols factory m a rest (reply_of factory protocol m a)).
Proof.
  intros Hl Hq Hd Ha. cbn [try_protocols]. unfold complete, useful, reply_of, truncated, IsEmpty, HasError.
  specialize (Hl protocol m a). destruct (factory protocol m a) as [[msg d] err].
  destruct (Question m) as [|q qs]; [done|]. cbn. rewrite Hd, Ha.
  destruct err as [e|]; cbn; [by rewrite andb_false_r|].
  destruct (Hl eq_refl) as [reply ->]. cbn. by destruct (Truncated reply).
Qed.

(** A reply is what one of the protocols gave, on the response passed in. *)
Lemma try_protocols_gives (Q : Response -> Prop) factory m a protocols r r' :
  (forall protocol d au, let '(msg, duration, err) := factory protocol m a in Q (mkResponse msg err duration d au)) ->
  Q r -> try_protocols factory m a protocols r = Ret r' -> Q r' /\ Auth r' = Auth r.
Proof.
  intros Hw. revert r; induction protocols as [|protocol rest IH]; intros r Hr; [by intros [= <-]|]. cbn [try_protocols].
  specialize (Hw protocol (Doe r) (Auth r)). destruct (factory protocol m a) as [[msg d] err].
  intros (q & _ & H)%bind_ret_inv. repeat case_match; try done; try (by apply IH in H); by simplify_eq.
Qed.

(** The wire carries no verdict. *)
Lemma nameserver_exchange_Auth zone_name factory ns m r :
  nameserver_exchange zone_name factory ns m = Ret r -> Auth r = Unknown.
Proof.
  unfold nameserver_exchange. destruct m; [|by intros [= <-]]. intros H.
  apply (try_protocols_gives (fun _ => True)) in H as [_ H]; [done| |done]. intros p d au. by destruct (factory p _ _) as [[? ?] ?].
Qed.

(** A response under the id [i], unless it has an error. *)
Definition ided (i : Z) (r : Response) : Prop := Err r = None -> forall m, resp_Msg r = Some m -> Id m = i.

(** [ExchangeContext] returns without an error only a reply with the id of the
    question. *)
Definition id_law (factory : string -> dnsClient) : Prop :=
  forall protocol m a msg d, factory protocol m a = (Some msg, d, None) -> Id msg = Id m.

Lemma nameserver_exchange_ided zone_name factory ns m r : id_law factory ->
  nameserver_exchange zone_name factory ns (Some m) = Ret r -> ided (Id m) r.
Proof.
  intros Hl H. apply (try_protocols_gives (ided (Id m))) in H as [H _]; [done| |done].
  intros p d au. pose proof (Hl p m (net_JoinHostPort (addr ns) "53")) as Hp.
  destruct (factory p m _) as [[msg d'] err]. unfold ided. cbn. intros -> msg' ->. by eapply Hp.
Qed.

(** The reply to a question, over UDP or else over TCP. *)
Definition best_reply (factory : string -> dnsClient) (ns : nameserver) (m : Msg) : Response :=
  let a := net_JoinHostPort (addr ns) "53" in
  let udp := reply_of factory "udp" m a in
  if complete udp then udp else reply_of factory "tcp" m a.

Lemma nameserver_exchange_reply zone_name factory ns m : client_law factory -> Question m <> [] ->
  nameserver_exchange zone_name factory ns (Some m) = Ret (best_reply factory ns m).
Proof.
  intros Hl Hq. unfold nameserver_exchange, best_reply. rewrite try_protocols_spec by done.
  destruct (complete _); [done|]. rewrite try_protocols_spec; [by destruct (complete _)|done|done| |];
    unfold reply_of; by destruct (factory "udp"%string m _) as [[? ?] ?].
Qed.

(** A server asked a question never panics.  A complete reply over UDP is
    the answer, and TCP is then not used; in every other case the reply over
    TCP is the answer, good or bad, so a truncated UDP reply is given up even
    when TCP fails. *)
Theorem nameserver_exchange_spec zone_name factory ns m :
  client_law factory -> Question m <> [] ->
  let a := net_JoinHostPort (addr ns) "53" in
  let udp := reply_of factory "udp" m a in
  let tcp := reply_of factory "tcp" m a in
  nameserver_exchange zone_name factory ns (Some m) = Ret (if complete udp then udp else tcp) /\
  (complete udp = true -> forall factory', client_law factory' ->
     factory' "udp"%string = factory "udp"%string ->
     nameserver_exchange zone_name factory' ns (Some m) =
     nameserver_exchange zone_name factory ns (Some m)).
Proof.
  intros Hl Hq. cbv zeta. split; [by rewrite nameserver_exchange_reply|].
  intros Hc f' Hf' E. rewrite !nameserver_exchange_reply by done.
  unfold best_reply, reply_of in *. rewrite E. by rewrite Hc.
Qed.

(** ** A server whose UDP replies are truncated and whose TCP port is closed *)

(** ** Metrics *)

(** The calls of a server's [updateMetrics], protocol and duration, in order. *)
Fixpoint measured (calls : list (string * Z)) (s : metrics) : outcome metrics :=
  match calls with
  | [] => Ret s
  | (protocol, d) :: rest => s ← updateMetrics protocol d s; measured rest s
  end.

Definition total_time (calls : list (string * Z)) : Z := foldr (fun c t => c.2 + t)%Z 0%Z calls.
Definition tcp_calls (calls : list (string * Z)) : Z :=
  Z.of_nat (length (filter (fun c => c.1 = "tcp"%string) calls)).

Lemma total_time_nonneg calls : Forall (fun c => 0 <= c.2)%Z calls -> (0 <= total_time calls)%Z.
Proof. unfold total_time. induction 1; cbn in *; lia. Qed.

Lemma measured_from calls n t k : Forall (fun c => 0 <= c.2)%Z calls -> (0 <= k <= n)%Z -> (0 <= t)%Z ->
  (n + Z.of_nat (length calls) < 2 ^ 32)%Z -> (t + total_time calls < 2 ^ 63)%Z ->
  let n' := (n + Z.of_nat (length calls))%Z in
  let t' := (t + total_time calls)%Z in
  measured calls (mkMetrics n t (Z.quot t n) k) = Ret (mkMetrics n' t' (Z.quot t' n') (k + tcp_calls calls)).
Proof.
  intros Hd. revert n t k; induction Hd as [|[p d] calls Hd Hds IH]; intros n t k Hk Ht Hn Hs.
  { cbn. unfold tcp_calls. cbn. by rewrite !Z.add_0_r. }
  pose proof (total_time_nonneg _ Hds). cbn [length total_time foldr snd] in Hn, Hs, Hd. fold (total_time calls) in Hs.
  cbn [measured]. unfold updateMetrics. cbn [numberOfRequests totalResponseTime numberOfTcpRequests].
  rewrite uint32_small, int64_small, bool_decide_false by lia. cbn [mbind outcome_bind].
  assert (tcp_calls ((p, d) :: calls) = ((if bool_decide (p = "tcp"%string) then 1 else 0) + tcp_calls calls)%Z) as Etcp.
  { unfold tcp_calls. case_bool_decide; [rewrite filter_cons_True by done|rewrite filter_cons_False by done]; cbn; lia. }
  rewrite IH by (try case_bool_decide; rewrite ?uint32_small by lia; lia).
  cbn [length total_time foldr snd]. fold (total_time calls). rewrite Etcp.
  replace (n + 1 + Z.of_nat (length calls))%Z with (n + Z.of_nat (S (length calls)))%Z by lia.
  replace (t + d + total_time calls)%Z with (t + (d + total_time calls))%Z by lia.
  do 2 f_equal. case_bool_decide; rewrite ?uint32_small by lia; lia.
Qed.

(** The metrics are exact while the counters have room: the number of
    calls, their total time, its mean and the calls over TCP.  The call after
    2^32 - 1 others wraps the counter to 0 and divides by it: the goroutine
    panics, and the program with it. *)
Theorem updateMetrics_spec calls protocol d s :
  Forall (fun c => 0 <= c.2)%Z calls -> (Z.of_nat (length calls) < 2 ^ 32)%Z -> (total_time calls < 2 ^ 63)%Z ->
  let n := Z.of_nat (length calls) in
  measured calls no_metrics = Ret (mkMetrics n (total_time calls) (Z.quot (total_time calls) n) (tcp_calls calls)) /\
  (numberOfRequests s = 2 ^ 32 - 1 -> updateMetrics protocol d s = Panic DivideByZero)%Z.
Proof.
  intros Hd Hn Hs. split.
  - change no_metrics with (mkMetrics 0 0 (Z.quot 0 0) 0). rewrite measured_from by (done || lia).
    by rewrite !Z.add_0_l.
  - intros E. unfold updateMetrics. rewrite E. done.
Qed.

Module NameserverExample.
Definition q : Msg := mkMsg 1 false false false false false false false 0 [mkQ "example." TypeA 1] [] [] [].

Definition factory (protocol : string) : dnsClient := fun m a =>
  if bool_decide (protocol = "udp"%string) then (Some (mkMsg (Id m) true false true false false false false 0 (Question m) [] [] []), 5%Z, None)
  else (None, 7%Z, Some (ENew "refused")).

Lemma factory_law : client_law factory.
Proof. intros p m a. unfold factory. by case_bool_decide; eauto. Qed.

Lemma nameserver_exchange_spec_witness :
  nameserver_exchange None factory (mkNameserver "ns." "::1") (Some q) =
    Ret (mkResponse None (Some (ENew "refused")) 7 NotFound Unknown) /\
  net_JoinHostPort "::1" "53" = "[::1]:53".
Proof.
  split; [|reflexivity].
  destruct (nameserver_exchange_spec None factory (mkNameserver "ns." "::1") q) as [-> _];
    [apply factory_law|done|]. vm_compute. reflexivity.
Defined.

Lemma updateMetrics_spec_witness :
  measured [("udp", 10%Z); ("tcp", 20%Z)]%string no_metrics = Ret (mkMetrics 2 30 15 1) /\
  updateMetrics "udp" 10 (mkMetrics 4294967295 1 0 0) = Panic DivideByZero.
Proof.
  destruct (updateMetrics_spec [("udp", 10%Z); ("tcp", 20%Z)]%string "udp" 10 (mkMetrics 4294967295 1 0 0))
    as [H1 H2]; [repeat constructor; cbn; lia|reflexivity|reflexivity|].
  split; [exact H1|apply H2; reflexivity].
Defined.
End NameserverExample.
