(* ===== verification/Pool.v ===== *)
(** * pool.go and pool_exchange.go: the nameservers of a zone

    Counters and slices are separate fields as in the struct: the counts are
    read without the lock.  [ipv6] is the answer of [IPv6Available]. *)

From S2P Require Import Prelude GoErrors Dns DnsRef DnssecConst DnssecFunctions Response Nameserver.

Inductive NameserverPoolStatus : Type :=
| PoolEmpty | PoolExpired | PoolHasHostnamesButNoIpAddresses | PrimedButNeedsEnhancing
| PoolPrimed.

Record nameserverPool := mkPool {
  hostsWithoutAddresses : list string;
  ipv4 : list nameserver;
  ipv4Next : Z;
  ipv4Count : Z;
  ipv6 : list nameserver;
  ipv6Next : Z;
  ipv6Count : Z;
  pool_expires : Z
}.

Definition hasIPv4 (p : nameserverPool) : bool := bool_decide (0 < ipv4Count p)%Z.
Definition hasIPv6 (p : nameserverPool) : bool := bool_decide (0 < ipv6Count p)%Z.

(** The slot a getter reads and the counter it leaves. *)
Definition next_slot (next count : Z) : Z := (next `mod` count)%Z.

Definition getIPv4 (p : nameserverPool) : option nameserver * nameserverPool :=
  if hasIPv4 p then
    let next := next_slot (ipv4Next p) (ipv4Count p) in
    let p := mkPool (hostsWithoutAddresses p) (ipv4 p) (uint32 (next + 1)) (ipv4Count p)
      (ipv6 p) (ipv6Next p) (ipv6Count p) (pool_expires p) in
    (ipv4 p !! Z.to_nat next, p)
  else (None, p).

Definition getIPv6 (p : nameserverPool) : option nameserver * nameserverPool :=
  if hasIPv6 p then
    let next := next_slot (ipv6Next p) (ipv6Count p) in
    let p := mkPool (hostsWithoutAddresses p) (ipv4 p) (ipv4Next p) (ipv4Count p)
      (ipv6 p) (uint32 (next + 1)) (ipv6Count p) (pool_expires p) in
    (ipv6 p !! Z.to_nat next, p)
  else (None, p).

(** [now] is [time.Now]. *)
Definition expired (now : Z) (p : nameserverPool) : bool :=
  bool_decide (0 < pool_expires p)%Z && bool_decide (pool_expires p < unix now)%Z.

Definition updateIPCount (p : nameserverPool) : nameserverPool :=
  mkPool (hostsWithoutAddresses p) (ipv4 p) (ipv4Next p) (uint32 (Z.of_nat (length (ipv4 p))))
    (ipv6 p) (ipv6Next p) (uint32 (Z.of_nat (length (ipv6 p)))) (pool_expires p).

Section pool.
Context `{L : DnsLib} `{RC : ResolverConfig}.

Definition status (ipv6_available : bool) (p : nameserverPool) : NameserverPoolStatus :=
  let ipv4Count := length (ipv4 p) in
  let ipv6Count := length (ipv6 p) in
  if bool_decide (ipv4Count = 0) && bool_decide (ipv6Count = 0)
     && bool_decide (length (hostsWithoutAddresses p) = 0)
  then PoolEmpty
  else
    let total := if ipv6_available then ipv4Count + ipv6Count else ipv4Count in
    if bool_decide (total = 0) then PoolHasHostnamesButNoIpAddresses
    else if bool_decide (total < DesireNumberOfNameserversPerZone)
            && bool_decide (0 < length (hostsWithoutAddresses p))
    then PrimedButNeedsEnhancing
    else PoolPrimed.

(** The loop of [findAddressesForHostname]. *)
Definition find_step (hostname : string) (acc : list A * list AAAA * Z) (rr : RR) :
    list A * list AAAA * Z :=
  let '(a, aaaa, ttl) := acc in
  if bool_decide (dns_CanonicalName (Name (Header rr)) <> hostname) then (a, aaaa, ttl)
  else match rr with
       | RR_A addr => (a ++ [addr], aaaa, Z.min (Ttl (Header rr)) ttl)
       | RR_AAAA addr => (a, aaaa ++ [addr], Z.min (Ttl (Header rr)) ttl)
       | _ => (a, aaaa, ttl)
       end.

Definition findAddressesForHostname (hostname : string) (records : list RR) :
    list A * list AAAA * Z :=
  foldl (find_step hostname) ([], [], MaxAllowedTTL) records.

Definition server_of_A (r : A) : nameserver := mkNameserver (Name (A_Hdr r)) (A_A r).
Definition server_of_AAAA (r : AAAA) : nameserver := mkNameserver (Name (AAAA_Hdr r)) (AAAA_AAAA r).

(** What the loops of [newNameserverPool] and [enrich] gather. *)
Record gathered := mkGathered {
  g_missing : list string; g_ipv4 : list nameserver; g_ipv6 : list nameserver; g_ttl : Z
}.

(** The body both loops share, for one hostname. *)
Definition gather_host (records : list RR) (g : gathered) (hostname : string) : gathered :=
  let '(a, aaaa, minTtlSeen) := findAddressesForHostname hostname records in
  if bool_decide (length a = 0) && bool_decide (length aaaa = 0) then
    mkGathered (g_missing g ++ [hostname]) (g_ipv4 g) (g_ipv6 g) (g_ttl g)
  else
    mkGathered (g_missing g) (g_ipv4 g ++ map server_of_A a) (g_ipv6 g ++ map server_of_AAAA aaaa)
      (Z.min minTtlSeen (g_ttl g)).

Definition newNameserverPool (nameservers : list NS) (extra : list RR) (now : Z) : nameserverPool :=
  let g := foldl (fun g rr =>
      let g := mkGathered (g_missing g) (g_ipv4 g) (g_ipv6 g) (Z.min (Ttl (NS_Hdr rr)) (g_ttl g)) in
      gather_host extra g (dns_CanonicalName (NS_Ns rr)))
    (mkGathered [] [] [] MaxAllowedTTL) nameservers in
  updateIPCount (mkPool (g_missing g) (g_ipv4 g) 0 0 (g_ipv6 g) 0 0
    (unix (add_seconds now (g_ttl g)))).

Definition enrich (records : list RR) (now : Z) (p : nameserverPool) : nameserverPool :=
  if bool_decide (length records = 0) then p
  else
    let g := foldl (gather_host records) (mkGathered [] (ipv4 p) (ipv6 p) MaxAllowedTTL)
      (hostsWithoutAddresses p) in
    let expires :=
      if bool_decide (0 < pool_expires p)%Z then unix (add_seconds now (g_ttl g))
      else pool_expires p in
    updateIPCount (mkPool (g_missing g) (g_ipv4 g) (ipv4Next p) (ipv4Count p) (g_ipv6 g)
      (ipv6Next p) (ipv6Count p) expires).

(** ** pool_exchange.go *)

(** [ask server n m] is the response of [server.exchange] to the [n]-th try. *)
Definition exchange (zone_name : option string) (ipv6_available : bool)
    (ask : nameserver -> nat -> Msg -> outcome Response) (m : Msg) (p : nameserverPool) :
    outcome (option Response * nameserverPool) :=
  let has4 := hasIPv4 p in
  let has6 := hasIPv6 p in
  if negb has4 && negb has6 then
    Ret (Some (newResponseError
      match zone_name with
      | Some z => errorf_s ErrNoPoolConfiguredForZone (" [" +:+ z +:+ "]")
      | None => ESentinel ErrNoPoolConfiguredForZone
      end), p)
  else
    let try (n : nat) (s : option nameserver) (r : option Response) : outcome (option Response) :=
      match s with Some s => r ← ask s n m; Ret (Some r) | None => Ret r end in
    let '(s, p) := if has6 && ipv6_available then getIPv6 p else getIPv4 p in
    response ← try 0 s None;
    '(response, p) ←
      (if IsEmpty response || HasError response || truncated response then
        let '(s, p) := if has4 then getIPv4 p else getIPv6 p in
        response ← try 1 s response; Ret (response, p)
      else Ret (response, p));
    if IsEmpty response || HasError response then
      q ← go_index (Question m) 0;
      let errMsg := "all nameservers tried returned an unsucessful response for qname [" +:+
        Q_Name q +:+ "]" +:+
        match zone_name with Some z => " in zone [" +:+ z +:+ "]" | None => "" end in
      let err := errorf_s ErrUnableToResolveAnswer (": " +:+ errMsg) in
      match response with
      | None => Panic NilDereference (* response.Err on a nil response *)
      | Some r =>
          Ret (Some (set_Err (Some match Err r with
                                   | Some e => errorf_ww e ": " err ""
                                   | None => err
                                   end) r), p)
      end
    else Ret (response, p).
End pool.

(** * Theory *)

Section pool_facts.
Context `{L : DnsLib} `{RC : ResolverConfig}.

(** The counters do not go past the slices. *)
Record pool_safe (p : nameserverPool) : Prop := {
  safe_count4 : (ipv4Count p <= Z.of_nat (length (ipv4 p)))%Z;
  safe_count6 : (ipv6Count p <= Z.of_nat (length (ipv6 p)))%Z
}.

(** The counters agree with the slices, which holds while their lengths fit. *)
Record pool_ok (p : nameserverPool) : Prop := {
  ok_count4 : ipv4Count p = Z.of_nat (length (ipv4 p));
  ok_count6 : ipv6Count p = Z.of_nat (length (ipv6 p));
  ok_small4 : (Z.of_nat (length (ipv4 p)) < 2 ^ 32)%Z;
  ok_small6 : (Z.of_nat (length (ipv6 p)) < 2 ^ 32)%Z
}.

Lemma pool_ok_safe p : pool_ok p -> pool_safe p.
Proof. intros [H4 H6 _ _]. split; lia. Qed.

Lemma uint32_le n : (uint32 (Z.of_nat n) <= Z.of_nat n)%Z.
Proof. unfold uint32. apply Z.mod_le; lia. Qed.

Lemma updateIPCount_safe p : pool_safe (updateIPCount p).
Proof. split; apply uint32_le. Qed.

Lemma updateIPCount_ok p :
  (Z.of_nat (length (ipv4 p)) < 2 ^ 32)%Z -> (Z.of_nat (length (ipv6 p)) < 2 ^ 32)%Z ->
  pool_ok (updateIPCount p).
Proof. intros H4 H6. split; cbn; try done; unfold uint32; rewrite Z.mod_small; lia. Qed.

Lemma next_slot_lookup {A} (l : list A) next count :
  (0 < count <= Z.of_nat (length l))%Z -> is_Some (l !! Z.to_nat (next_slot next count)).
Proof.
  intros Hc. apply lookup_lt_is_Some_2. unfold next_slot.
  pose proof (Z.mod_pos_bound next count). lia.
Qed.

Definition servers (p : nameserverPool) : list nameserver := ipv4 p ++ ipv6 p.

(** What a getter promises to [exchange]: a server of the pool, and none only
    when the counter is 0; the slices and counters stay. *)
Definition served (p : nameserverPool) (has : bool) (g : option nameserver * nameserverPool) : Prop :=
  ipv4 (snd g) = ipv4 p /\ ipv6 (snd g) = ipv6 p /\
  ipv4Count (snd g) = ipv4Count p /\ ipv6Count (snd g) = ipv6Count p /\
  pool_expires (snd g) = pool_expires p /\
  (if has then exists s, fst g = Some s /\ s ∈ servers p else fst g = None).

Lemma getIPv4_served p : pool_safe p -> served p (hasIPv4 p) (getIPv4 p).
Proof.
  intros [Hs _]. unfold getIPv4, served. destruct (hasIPv4 p) eqn:E; cbn; [|done].
  unfold hasIPv4 in E. bool_facts. split_and!; [done..|].
  destruct (next_slot_lookup (ipv4 p) (ipv4Next p) (ipv4Count p)) as [s Hl]; [done|].
  exists s. split; [done|]. apply elem_of_app. left. by eapply list_elem_of_lookup_2.
Qed.

Lemma getIPv6_served p : pool_safe p -> served p (hasIPv6 p) (getIPv6 p).
Proof.
  intros [_ Hs]. unfold getIPv6, served. destruct (hasIPv6 p) eqn:E; cbn; [|done].
  unfold hasIPv6 in E. bool_facts. split_and!; [done..|].
  destruct (next_slot_lookup (ipv6 p) (ipv6Next p) (ipv6Count p)) as [s Hl]; [done|].
  exists s. split; [done|]. apply elem_of_app. right. by eapply list_elem_of_lookup_2.
Qed.

Lemma served_safe p has g : pool_safe p -> served p has g -> pool_safe (snd g).
Proof. intros [? ?] (E4 & E6 & C4 & C6 & _). split; congruence. Qed.

Lemma served_servers p has g : served p has g -> servers (snd g) = servers p.
Proof. intros (E4 & E6 & _). unfold servers. congruence. Qed.

(** The second try always finds a server. *)
Lemma second_served p q : pool_safe p -> pool_safe q -> servers q = servers p ->
  ipv4Count q = ipv4Count p -> ipv6Count q = ipv6Count p -> hasIPv4 p || hasIPv6 p = true ->
  exists s q', (if hasIPv4 p then getIPv4 q else getIPv6 q) = (Some s, q') /\
    pool_safe q' /\ servers q' = servers p /\ pool_expires q' = pool_expires q /\ s ∈ servers p.
Proof.
  intros Hp Hq Es C4 C6 Hhas.
  assert (hasIPv4 q = hasIPv4 p /\ hasIPv6 q = hasIPv6 p) as [E4 E6]
    by (unfold hasIPv4, hasIPv6; by rewrite C4, C6).
  set (g := if hasIPv4 p then getIPv4 q else getIPv6 q).
  assert (served q true g) as Hg.
  { unfold g. destruct (hasIPv4 p) eqn:E; cbn in Hhas.
    - rewrite <- E4. by apply getIPv4_served.
    - rewrite <- Hhas, <- E6. by apply getIPv6_served. }
  pose proof Hg as (_ & _ & _ & _ & Ex & s & Hs & Hin). exists s, (snd g).
  split_and!; [|by eapply served_safe|by rewrite (served_servers _ _ _ Hg)|done|by rewrite <- Es].
  rewrite (surjective_pairing g). by rewrite Hs.
Qed.

(** [k] calls of [getIPv4] one after the other. *)
Fixpoint turns (k : nat) (p : nameserverPool) : list (option nameserver) :=
  match k with
  | O => []
  | S k' => let '(s, p) := getIPv4 p in s :: turns k' p
  end.

Lemma turns_spec k p : pool_ok p -> 0 < length (ipv4 p) ->
  turns k p = map (fun i => ipv4 p !! Z.to_nat
    ((ipv4Next p + Z.of_nat i) `mod` Z.of_nat (length (ipv4 p)))) (seq 0 k).
Proof.
  revert p; induction k as [|k IH]; intros p Hp Hl; [done|].
  assert (Hh : hasIPv4 p = true) by (unfold hasIPv4; rewrite (ok_count4 p Hp); apply bool_decide_true; lia).
  cbn [turns]. unfold getIPv4. rewrite Hh. rewrite IH; [|by destruct Hp|done].
  cbn [seq map ipv4 ipv4Next]. rewrite (ok_count4 p Hp). f_equal.
  - by rewrite Z.add_0_r.
  - rewrite <- seq_shift, map_map. apply map_ext. intros i. f_equal. f_equal.
    unfold next_slot, uint32. set (n := Z.of_nat (length (ipv4 p))) in *.
    pose proof (Z.mod_pos_bound (ipv4Next p) n ltac:(lia)). pose proof (ok_small4 p Hp).
    rewrite (Z.mod_small _ (2 ^ 32)) by lia.
    rewrite <- Z.add_assoc, Z.add_mod_idemp_l by lia. f_equal. lia.
Qed.

(** The calls to [getIPv4] take the servers in turn: the [k]-th call after
    now returns the server [k] places on, cyclically, so none is left out. *)
Theorem getIPv4_round_robin k p : pool_ok p -> 0 < length (ipv4 p) ->
  last (turns (S k) p) =
    Some (ipv4 p !! Z.to_nat ((ipv4Next p + Z.of_nat k) `mod` Z.of_nat (length (ipv4 p)))) /\
  Forall is_Some (turns (S k) p) /\
  forall s, s ∈ ipv4 p -> Some s ∈ turns (length (ipv4 p)) p.
Proof.
  intros Hp Hl. rewrite !turns_spec by done. split_and!.
  - replace (seq 0 (S k)) with (seq 0 k ++ [k]) by (by rewrite seq_S).
    rewrite map_app. apply last_snoc.
  - apply Forall_fmap, Forall_forall. intros i _. apply lookup_lt_is_Some_2. cbn.
    pose proof (Z.mod_pos_bound (ipv4Next p + Z.of_nat i) (Z.of_nat (length (ipv4 p)))). lia.
  - intros s [j Hj]%list_elem_of_lookup. pose proof (lookup_lt_Some _ _ _ Hj) as Hjl.
    apply list_elem_of_fmap. set (n := Z.of_nat (length (ipv4 p))).
    exists (Z.to_nat ((Z.of_nat j - ipv4Next p) `mod` n)).
    pose proof (Z.mod_pos_bound (Z.of_nat j - ipv4Next p) n ltac:(lia)).
    split; [|apply elem_of_seq; lia].
    rewrite Z2Nat.id by lia. rewrite Z.add_mod_idemp_r by lia.
    replace (ipv4Next p + (Z.of_nat j - ipv4Next p))%Z with (Z.of_nat j) by lia.
    rewrite Z.mod_small by lia. by rewrite Nat2Z.id.
Qed.

(** A response of one of the pool's servers to one of the two tries. *)
Definition answered (ask : nameserver -> nat -> Msg -> outcome Response) (m : Msg)
    (p : nameserverPool) (r : Response) : Prop :=
  exists s n, s ∈ servers p /\ n < 2 /\ ask s n m = Ret r.

(** What [exchange] does with the response of the last try. *)
Lemma wrapped_error zone r q err :
  err = errorf_s ErrUnableToResolveAnswer (": " +:+ ("all nameservers tried returned an unsucessful response for qname [" +:+
        Q_Name q +:+ "]" +:+ zone)) ->
  errors_Is (match Err r with Some e => errorf_ww e ": " err "" | None => err end)
    ErrUnableToResolveAnswer = true.
Proof.
  intros ->. destruct (Err r); rewrite ?errors_Is_errorf_ww, errors_Is_errorf_s; [|done].
  apply orb_true_r.
Qed.

(** The response of the last try, usable or with its error wrapped. *)
Definition concluded (r0 r : Response) : Prop :=
  resp_Msg r = resp_Msg r0 /\
  (useful (Some r0) = true /\ r = r0 \/
   useful (Some r0) = false /\ exists e, Err r = Some e /\ errors_Is e ErrUnableToResolveAnswer = true).

Lemma exchange_spec zone_name v6 ask m p : pool_safe p -> Question m <> [] ->
  (forall s n, s ∈ servers p -> exists r, ask s n m = Ret r) ->
  exists r p', exchange zone_name v6 ask m p = Ret (Some r, p') /\ pool_safe p' /\
    servers p' = servers p /\ pool_expires p' = pool_expires p /\
    ((hasIPv4 p || hasIPv6 p = false /\
      exists e, r = newResponseError e /\ errors_Is e ErrNoPoolConfiguredForZone = true) \/
     exists r0, answered ask m p r0 /\ concluded r0 r).
Proof.
  intros Hp Hq Hask. unfold exchange.
  destruct (negb (hasIPv4 p) && negb (hasIPv6 p)) eqn:Ehas.
  { eexists _, p. split_and!; [done..|]. left. split; [by destruct (hasIPv4 p), (hasIPv6 p)|].
    eexists. split; [done|]. destruct zone_name; [|done]. by rewrite errors_Is_errorf_s. }
  assert (hasIPv4 p || hasIPv6 p = true) as Hhas by (by destruct (hasIPv4 p), (hasIPv6 p)).
  set (first := if hasIPv6 p && v6 then getIPv6 p else getIPv4 p).
  assert (exists has, served p has first) as [has H1].
  { unfold first. destruct (hasIPv6 p && v6); eexists; [by apply getIPv6_served|by apply getIPv4_served]. }
  pose proof (served_safe _ _ _ Hp H1) as Hp1. pose proof (served_servers _ _ _ H1) as Es1.
  destruct first as [s1 p1]. destruct H1 as (_ & _ & C4 & C6 & Ex1 & Hin1). cbn [fst snd] in *.
  destruct (second_served p p1 Hp Hp1 Es1 C4 C6 Hhas) as (s2 & p2 & Es2 & Hp2 & Hs2 & Ex2 & Hin2).
  rewrite Es2. destruct (Hask s2 1 Hin2) as [r2 Er2]. rewrite Er2.
  assert (answered ask m p r2) as Hsecond by (exists s2, 1; auto).
  set (one := match s1 with Some s => _ | None => _ end).
  assert (one = Ret None \/ exists r1, one = Ret (Some r1) /\ answered ask m p r1) as Hone.
  { unfold one. destruct has; [destruct Hin1 as (s & -> & Hs)|subst s1; by left].
    destruct (Hask s 0 Hs) as [r1 Er1]. right. exists r1. rewrite Er1.
    split; [done|]. exists s, 0. auto with lia. }
  assert (exists o r q, one = Ret o /\ pool_safe q /\ servers q = servers p /\ pool_expires q = pool_expires p /\ answered ask m p r /\
    (if IsEmpty o || HasError o || truncated o then Ret (Some r2, p2) else Ret (o, p1)) = Ret (Some r, q))
    as (o & r & q & -> & Hok & Hsq & Hxq & Ha & Hlast).
  { destruct Hone as [->|(r1 & -> & Hfirst)]; [exists None, r2, p2; split_and!; try done; congruence|].
    destruct (IsEmpty (Some r1) || HasError (Some r1) || truncated (Some r1)) eqn:E.
    - exists (Some r1), r2, p2. rewrite E. split_and!; try done; congruence.
    - exists (Some r1), r1, p1. rewrite E. split_and!; try done; congruence. }
  cbn [mbind outcome_bind]. rewrite Hlast. cbn [mbind outcome_bind].
  destruct (Question m) as [|qu qs]; [done|].
  destruct (IsEmpty (Some r) || HasError (Some r)) eqn:Eb.
  - eexists _, _. cbn. split_and!; [done..|]. right. exists r. split; [done|]. split; [done|]. right.
    split; [unfold useful; by destruct (IsEmpty (Some r)), (HasError (Some r))|].
    eexists. split; [done|]. eapply wrapped_error. done.
  - eexists _, _. split_and!; [done..|]. right. exists r. split; [done|]. split; [done|]. left.
    split; [unfold useful|done]. by destruct (IsEmpty (Some r)), (HasError (Some r)).
Qed.

(** The response is one the servers gave, or has an error. *)
Lemma exchange_gives (Q : Response -> Prop) zone_name v6 ask m p r p' :
  (forall e, Q (newResponseError e)) -> (forall e r, Q r -> Q (set_Err (Some e) r)) ->
  (forall s n r, ask s n m = Ret r -> Q r) ->
  exchange zone_name v6 ask m p = Ret (Some r, p') -> Q r.
Proof.
  intros Hnew Herr Hask. unfold exchange. destruct (_ && _); [by intros [= <- _]|].
  destruct (if hasIPv6 p && v6 then _ else _) as [s1 p1].
  set (all := fun o : option Response => forall r, o = Some r -> Q r).
  assert (forall n s o x, match s with Some s => r ← ask s n m; Ret (Some r) | None => Ret o end = Ret x ->
    all o -> all x) as Htry.
  { intros n [s|] o x H Ho; [|by injection H as <-]. apply bind_ret_inv in H as (r0 & E & H).
    intros r1 ->. injection H as <-. by eapply Hask. }
  intros H. apply bind_ret_inv in H as (o1 & E1 & H). apply Htry in E1; [|done].
  apply bind_ret_inv in H as ([o2 p2] & E2 & H).
  assert (all o2) as H2.
  { destruct (IsEmpty o1 || HasError o1 || truncated o1); [|by injection E2 as <- _].
    destruct (if hasIPv4 p then _ else _) as [s2 p3].
    apply bind_ret_inv in E2 as (o & Eo & E2). injection E2 as <- _. by apply Htry in Eo. }
  destruct (IsEmpty o2 || HasError o2); [|injection H as -> _; by apply H2].
  apply bind_ret_inv in H as (q & _ & H). destruct o2 as [r2|]; [|done].
  injection H as <- _. by apply Herr, H2.
Qed.

(** C39: a question put to a pool whose servers return never panics and always
    comes back with a response; a usable one was given by a server of the pool
    in at most two tries, and any other carries an error that says that the
    answer could not be resolved or that there are no servers. *)
Theorem exchange_total zone_name v6 ask m p : pool_safe p -> Question m <> [] ->
  (forall s n, s ∈ servers p -> exists r, ask s n m = Ret r) ->
  exists r p', exchange zone_name v6 ask m p = Ret (Some r, p') /\ pool_safe p' /\
    (useful (Some r) = true -> answered ask m p r) /\
    (useful (Some r) = false -> exists e, Err r = Some e /\
      (errors_Is e ErrUnableToResolveAnswer = true \/ errors_Is e ErrNoPoolConfiguredForZone = true)).
Proof.
  intros Hp Hq Hask.
  destruct (exchange_spec zone_name v6 ask m p Hp Hq Hask) as (r & p' & E & Hp' & _ & _ & Hr).
  exists r, p'. split_and!; [done|done| |].
  - intros Hu. destruct Hr as [(_ & e & -> & _)|(r0 & Ha & _ & [[_ ->]|(_ & e & He & _)])]; [done..|].
    unfold useful, HasError in Hu. rewrite He in Hu. by rewrite andb_false_r in Hu.
  - intros Hu. destruct Hr as [(_ & e & -> & He)|(r0 & Ha & _ & [[Hu0 ->]|(_ & e & ? & ?)])]; [|congruence|];
      exists e; auto.
Qed.

(** ** The addresses of the nameservers *)

(** [rr] is an address record of [hostname]. *)
Definition addresses (hostname : string) (rr : RR) : bool :=
  bool_decide (dns_CanonicalName (Name (Header rr)) = hostname) &&
  match rr with RR_A _ | RR_AAAA _ => true | _ => false end.

Definition v4_of (records : list RR) (hostname : string) : list nameserver :=
  omap (fun rr => match rr with RR_A a => Some (server_of_A a) | _ => None end)
    (filter (fun rr => addresses hostname rr = true) records).

Definition v6_of (records : list RR) (hostname : string) : list nameserver :=
  omap (fun rr => match rr with RR_AAAA a => Some (server_of_AAAA a) | _ => None end)
    (filter (fun rr => addresses hostname rr = true) records).

Definition unresolved (records : list RR) (hostname : string) : bool :=
  negb (existsb (addresses hostname) records).

(** The step, by what the record is. *)
Lemma find_step_spec hostname a aaaa ttl rr :
  (addresses hostname rr = false /\ find_step hostname (a, aaaa, ttl) rr = (a, aaaa, ttl)) \/
  (addresses hostname rr = true /\ exists x, rr = RR_A x /\
     find_step hostname (a, aaaa, ttl) rr = (a ++ [x], aaaa, Z.min (Ttl (Header rr)) ttl)) \/
  (addresses hostname rr = true /\ exists x, rr = RR_AAAA x /\
     find_step hostname (a, aaaa, ttl) rr = (a, aaaa ++ [x], Z.min (Ttl (Header rr)) ttl)).
Proof.
  unfold find_step, addresses.
  destruct (decide (dns_CanonicalName (Name (Header rr)) = hostname)) as [E|E].
  - rewrite (bool_decide_false (_ <> _)), (bool_decide_true (_ = _)) by tauto.
    destruct rr; eauto 6.
  - rewrite (bool_decide_true (_ <> _)), (bool_decide_false (_ = _)) by tauto. auto.
Qed.

Lemma find_fold hostname records a aaaa ttl :
  exists a' aaaa' ttl', foldl (find_step hostname) (a, aaaa, ttl) records = (a ++ a', aaaa ++ aaaa', ttl') /\
    map server_of_A a' = v4_of records hostname /\ map server_of_AAAA aaaa' = v6_of records hostname /\
    (bool_decide (length a' = 0) && bool_decide (length aaaa' = 0) = unresolved records hostname) /\
    (forall z, (z <= ttl')%Z <-> (z <= ttl)%Z /\
      Forall (fun rr => addresses hostname rr = true -> (z <= Ttl (Header rr))%Z) records).
Proof.
  revert a aaaa ttl; induction records as [|rr records IH]; intros a aaaa ttl.
  { exists [], [], ttl. rewrite !app_nil_r. split_and!; try done. intros z. rewrite Forall_nil. tauto. }
  cbn [foldl]. unfold unresolved, v4_of, v6_of in *. rewrite !filter_cons. cbn [existsb].
  destruct (find_step_spec hostname a aaaa ttl rr) as [[Ea E]|[(Ea & x & -> & E)|(Ea & x & -> & E)]];
    rewrite E, Ea; [rewrite !decide_False by done|rewrite !decide_True by done..];
    [destruct (IH a aaaa ttl) as (a' & b' & t' & -> & <- & <- & Hu & Ht)
      |destruct (IH (a ++ [x]) aaaa (Z.min (Ttl (Header (RR_A x))) ttl)) as (a' & b' & t' & -> & Ha & Hb & Hu & Ht)
      |destruct (IH a (aaaa ++ [x]) (Z.min (Ttl (Header (RR_AAAA x))) ttl)) as (a' & b' & t' & -> & Ha & Hb & Hu & Ht)].
  - exists a', b', t'. split_and!; try done. intros z. rewrite Ht, Forall_cons. intuition congruence.
  - exists (x :: a'), b', t'. rewrite <- app_assoc. cbn. split_and!; try done.
    + by rewrite <- Ha.
    + intros z. rewrite Ht, Forall_cons, Z.min_glb_iff. tauto.
  - exists a', (x :: b'), t'. rewrite <- app_assoc. cbn. split_and!; try done.
    + by rewrite <- Hb.
    + by rewrite andb_false_r.
    + intros z. rewrite Ht, Forall_cons, Z.min_glb_iff. tauto.
Qed.

(** [z] is at most the TTL of every address record of the host. *)
Definition below_addresses (z : Z) (records : list RR) (hostname : string) : Prop :=
  Forall (fun rr => addresses hostname rr = true -> (z <= Ttl (Header rr))%Z) records.

Lemma unresolved_none records h : unresolved records h = true ->
  v4_of records h = [] /\ v6_of records h = [] /\ forall z, below_addresses z records h.
Proof.
  unfold unresolved, v4_of, v6_of, below_addresses. rewrite negb_true_iff.
  induction records as [|rr records IH]; [done|]. cbn [existsb]. intros [E H]%orb_false_iff.
  rewrite filter_cons_False by congruence. destruct (IH H) as (? & ? & ?).
  split_and!; try done. intros z. constructor; [congruence|done].
Qed.

(** One hostname. *)
Lemma gather_host_spec records g h :
  let g' := gather_host records g h in
  g_missing g' = g_missing g ++ (if unresolved records h then [h] else []) /\
  g_ipv4 g' = g_ipv4 g ++ v4_of records h /\ g_ipv6 g' = g_ipv6 g ++ v6_of records h /\
  ((g_ttl g <= MaxAllowedTTL)%Z -> (g_ttl g' <= MaxAllowedTTL)%Z /\ forall z,
    (z <= g_ttl g')%Z <-> (z <= g_ttl g)%Z /\ below_addresses z records h).
Proof.
  cbv zeta. unfold gather_host, findAddressesForHostname.
  destruct (find_fold h records [] [] MaxAllowedTTL) as (a & b & t & -> & Ha & Hb & Hu & Ht).
  rewrite !app_nil_l, Hu. destruct (unresolved records h) eqn:E; cbn.
  - destruct (unresolved_none records h E) as (-> & -> & Hz). rewrite !app_nil_r.
    split_and!; try done. intros Hg. split; [done|]. intros z. specialize (Hz z). tauto.
  - rewrite Ha, Hb, app_nil_r. split_and!; try done. intros Hg. split; [lia|].
    intros z. rewrite Z.min_glb_iff, Ht. unfold below_addresses.
    assert (z <= g_ttl g -> z <= MaxAllowedTTL)%Z by lia. tauto.
Qed.

Lemma gather_hosts_spec records hosts g :
  let g' := foldl (gather_host records) g hosts in
  g_missing g' = g_missing g ++ filter (fun h => unresolved records h = true) hosts /\
  g_ipv4 g' = g_ipv4 g ++ flat_map (v4_of records) hosts /\
  g_ipv6 g' = g_ipv6 g ++ flat_map (v6_of records) hosts /\
  ((g_ttl g <= MaxAllowedTTL)%Z -> (g_ttl g' <= MaxAllowedTTL)%Z /\ forall z,
    (z <= g_ttl g')%Z <-> (z <= g_ttl g)%Z /\ Forall (below_addresses z records) hosts).
Proof.
  cbv zeta. revert g; induction hosts as [|h hosts IH]; intros g.
  { cbn. rewrite !app_nil_r. split_and!; try done. intros Hg. split; [done|]. intros z. rewrite Forall_nil. tauto. }
  cbn [foldl flat_map]. destruct (gather_host_spec records g h) as (Em & E4 & E6 & Et).
  destruct (IH (gather_host records g h)) as (-> & -> & -> & Ht).
  rewrite Em, E4, E6, <- !app_assoc, filter_cons. split_and!; try done.
  - destruct (unresolved records h); [rewrite decide_True|rewrite decide_False]; done.
  - intros [Hg Hz]%Et. destruct (Ht Hg) as [Hg' Hz']. split; [done|].
    intros z. rewrite Hz', Hz, Forall_cons. tauto.
Qed.

Definition ns_hosts (nameservers : list NS) : list string :=
  map (fun rr => dns_CanonicalName (NS_Ns rr)) nameservers.

Lemma gather_nameservers extra nameservers g :
  let g' := foldl (fun g rr =>
      let g := mkGathered (g_missing g) (g_ipv4 g) (g_ipv6 g) (Z.min (Ttl (NS_Hdr rr)) (g_ttl g)) in
      gather_host extra g (dns_CanonicalName (NS_Ns rr))) g nameservers in
  g_missing g' = g_missing g ++ filter (fun h => unresolved extra h = true) (ns_hosts nameservers) /\
  g_ipv4 g' = g_ipv4 g ++ flat_map (v4_of extra) (ns_hosts nameservers) /\
  g_ipv6 g' = g_ipv6 g ++ flat_map (v6_of extra) (ns_hosts nameservers) /\
  ((g_ttl g <= MaxAllowedTTL)%Z -> (g_ttl g' <= MaxAllowedTTL)%Z /\ forall z,
    (z <= g_ttl g')%Z <-> (z <= g_ttl g)%Z /\
      Forall (fun rr => (z <= Ttl (NS_Hdr rr))%Z) nameservers /\
      Forall (below_addresses z extra) (ns_hosts nameservers)).
Proof.
  cbv zeta. revert g; induction nameservers as [|rr l IH]; intros g.
  { cbn. rewrite !app_nil_r. split_and!; try done. intros Hg. split; [done|]. intros z. rewrite !Forall_nil. tauto. }
  cbn [foldl ns_hosts map flat_map].
  match goal with |- context [gather_host extra ?g0 ?h] =>
    destruct (gather_host_spec extra g0 h) as (Em & E4 & E6 & Et);
    destruct (IH (gather_host extra g0 h)) as (-> & -> & -> & Ht) end.
  cbn [g_missing g_ipv4 g_ipv6 g_ttl] in *.
  rewrite Em, E4, E6, <- !app_assoc, filter_cons. split_and!; try done.
  - destruct (unresolved extra _); [rewrite decide_True|rewrite decide_False]; done.
  - intros Hg. destruct Et as [Hg1 Hz1]; [lia|]. destruct (Ht Hg1) as [Hg' Hz']. split; [done|].
    intros z. rewrite Hz', Hz1, !Forall_cons, Z.min_glb_iff. tauto.
Qed.

Lemma enrich_lists records now p :
  hostsWithoutAddresses (enrich records now p) =
    filter (fun h => unresolved records h = true) (hostsWithoutAddresses p) /\
  ipv4 (enrich records now p) = ipv4 p ++ flat_map (v4_of records) (hostsWithoutAddresses p) /\
  ipv6 (enrich records now p) = ipv6 p ++ flat_map (v6_of records) (hostsWithoutAddresses p).
Proof.
  destruct records as [|rr records].
  - change (enrich [] now p) with p. generalize (hostsWithoutAddresses p); intros hosts.
    assert (flat_map (v4_of []) hosts = [] /\ flat_map (v6_of []) hosts = [] /\
      filter (fun h => unresolved [] h = true) hosts = hosts) as (-> & -> & ->).
    { induction hosts as [|h hosts (E4 & E6 & IH)]; [done|]. cbn [flat_map]. rewrite E4, E6.
      rewrite filter_cons_True by done. split_and!; [done..|]. by f_equal. }
    by rewrite !app_nil_r.
  - unfold enrich. rewrite bool_decide_false by done.
    destruct (gather_hosts_spec (rr :: records) (hostsWithoutAddresses p)
      (mkGathered [] (ipv4 p) (ipv6 p) MaxAllowedTTL)) as (-> & -> & -> & _). done.
Qed.

Lemma enrich_ok records now p : pool_ok p ->
  (Z.of_nat (length (ipv4 (enrich records now p))) < 2 ^ 32)%Z ->
  (Z.of_nat (length (ipv6 (enrich records now p))) < 2 ^ 32)%Z ->
  pool_ok (enrich records now p).
Proof.
  intros Hp. unfold enrich. destruct (bool_decide (length records = 0)); [done|].
  intros H4 H6. by apply updateIPCount_ok.
Qed.

(** No nameserver of a zone is lost or invented: a new pool keeps, for
    each NS record in order, the addresses the other section has for its name,
    or the name when there is none; enriching a pool adds the addresses found
    for the waiting names, keeps every server it had, and leaves waiting
    exactly the names still without one.  Counters stay right. *)
Theorem pool_keeps_hostnames nameservers extra records now later :
  let p := newNameserverPool nameservers extra now in
  let q := enrich records later p in
  let hosts := ns_hosts nameservers in
  let waiting := filter (fun h => unresolved extra h = true) hosts in
  hostsWithoutAddresses p = waiting /\
  ipv4 p = flat_map (v4_of extra) hosts /\ ipv6 p = flat_map (v6_of extra) hosts /\
  hostsWithoutAddresses q = filter (fun h => unresolved records h = true) waiting /\
  ipv4 q = ipv4 p ++ flat_map (v4_of records) waiting /\
  ipv6 q = ipv6 p ++ flat_map (v6_of records) waiting /\
  ((Z.of_nat (length (ipv4 q)) < 2 ^ 32)%Z -> (Z.of_nat (length (ipv6 q)) < 2 ^ 32)%Z ->
   pool_ok p /\ pool_ok q).
Proof.
  cbv zeta. destruct (gather_nameservers extra nameservers (mkGathered [] [] [] MaxAllowedTTL))
    as (Em & E4 & E6 & _).
  set (p := newNameserverPool nameservers extra now).
  destruct (enrich_lists records later p) as (Qm & Q4 & Q6).
  assert (hostsWithoutAddresses p = filter (fun h => unresolved extra h = true) (ns_hosts nameservers))
    as Hm by done.
  rewrite <- Hm. split_and!; try done. intros Hl4 Hl6.
  assert (pool_ok p) as Hp.
  { rewrite Q4, Q6, !length_app in *. apply updateIPCount_ok; cbn in *; lia. }
  split; [done|by apply enrich_ok].
Qed.

(** A new pool expires when the least of [MaxAllowedTTL], the TTLs of the
    NS records and the TTLs of the addresses it took runs out.  Enriching
    forgets that: the new expiry takes account of the added addresses only, so
    with records that hold no address of a waiting name the pool gets
    [MaxAllowedTTL] from now, whatever its NS records said. *)
Theorem pool_expiry nameservers extra records now later :
  let p := newNameserverPool nameservers extra now in
  let q := enrich records later p in
  exists t t',
    pool_expires p = unix (add_seconds now t) /\
    (forall z, (z <= t)%Z <-> (z <= MaxAllowedTTL)%Z /\
       Forall (fun rr => (z <= Ttl (NS_Hdr rr))%Z) nameservers /\
       Forall (below_addresses z extra) (ns_hosts nameservers)) /\
    (records <> [] -> (0 < pool_expires p)%Z -> pool_expires q = unix (add_seconds later t')) /\
    (forall z, (z <= t')%Z <-> (z <= MaxAllowedTTL)%Z /\
       Forall (below_addresses z records) (hostsWithoutAddresses p)) /\
    (forallb (unresolved records) (hostsWithoutAddresses p) = true -> t' = MaxAllowedTTL).
Proof.
  cbv zeta. unfold newNameserverPool at 1.
  match goal with |- context [pool_expires (updateIPCount (mkPool (g_missing ?g) _ _ _ _ _ _ _))] =>
    exists (g_ttl g) end.
  set (p := newNameserverPool nameservers extra now).
  exists (g_ttl (foldl (gather_host records) (mkGathered [] (ipv4 p) (ipv6 p) MaxAllowedTTL)
    (hostsWithoutAddresses p))).
  pose proof (gather_nameservers extra nameservers (mkGathered [] [] [] MaxAllowedTTL)) as (_ & _ & _ & H1).
  pose proof (gather_hosts_spec records (hostsWithoutAddresses p)
    (mkGathered [] (ipv4 p) (ipv6 p) MaxAllowedTTL)) as (_ & _ & _ & H2).
  cbv zeta in H1, H2. cbn [g_ttl] in H1, H2.
  destruct H1 as [_ H1]; [lia|]. destruct H2 as [Hmax H2]; [lia|].
  split_and!.
  - done.
  - done.
  - intros Hr Hx. unfold enrich. rewrite bool_decide_false by (by destruct records).
    rewrite (bool_decide_true (0 < pool_expires p)%Z) by done. done.
  - done.
  - intros Hf. apply Z.le_antisymm.
    + done.
    + apply H2. split; [lia|]. rewrite forallb_forall in Hf. apply Forall_forall.
      intros h Hh%list_elem_of_In. apply unresolved_none. auto.
Qed.
End pool_facts.

(** ** A zone with three servers, one of them without an address *)

Module PoolExample.
#[export] Existing Instance refLib.
#[export] Existing Instance refLaws.
#[export] Existing Instance default_resolver_config.

Definition hdr (n : string) (t ttl : Z) : RR_Header := mkHdr n t 1 ttl.
Definition ns (h : string) : NS := mkNS (hdr "example." TypeNS 60) h.
Definition glue (h a : string) : RR := RR_A (mkA (hdr h TypeA 3600) a).

Definition pool : nameserverPool :=
  newNameserverPool [ns "A.example."; ns "b.example."; ns "c.example."]
    [glue "a.example." "192.0.2.1"; glue "C.example." "192.0.2.3"; glue "x." "192.0.2.9"] 0.

Example pool_is : pool = mkPool ["b.example."]
  [mkNameserver "a.example." "192.0.2.1"; mkNameserver "C.example." "192.0.2.3"] 0 2 [] 0 0 60.
Proof. vm_compute. reflexivity. Qed.

Example pool_status : status false pool = PrimedButNeedsEnhancing.
Proof. vm_compute. reflexivity. Qed.

Lemma pool_is_ok : pool_ok pool.
Proof. split; vm_compute; reflexivity. Qed.

(** The NS records live for 60 s, yet an unrelated record makes it two days. *)
Example enrich_outlives : pool_expires (enrich [glue "y." "192.0.2.8"] second pool) = 172801%Z.
Proof. vm_compute. reflexivity. Qed.

Lemma getIPv4_round_robin_witness :
  last (turns 3 pool) = Some (Some (mkNameserver "a.example." "192.0.2.1")) /\
  Some (mkNameserver "C.example." "192.0.2.3") ∈ turns 2 pool.
Proof.
  destruct (getIPv4_round_robin 2 pool) as (-> & _ & H); [apply pool_is_ok|vm_compute; lia|].
  split; [vm_compute; reflexivity|]. apply H. vm_compute. right. left.
Defined.

(** Servers that refuse the first try and answer the second. *)
Definition factory (n : nat) (protocol : string) : dnsClient := fun m _ =>
  match n with
  | O => (None, 5%Z, Some (ENew "refused"))
  | S _ => (Some m, 7%Z, None)
  end.

Definition ask (s : nameserver) (n : nat) (m : Msg) : outcome Response :=
  nameserver_exchange (Some "example."%string) (factory n) s (Some m).

Lemma exchange_total_witness : exists r p',
  exchange (Some "example."%string) false ask NameserverExample.q pool = Ret (Some r, p') /\
  useful (Some r) = true /\ answered ask NameserverExample.q pool r.
Proof.
  destruct (exchange_total (Some "example."%string) false ask NameserverExample.q pool)
    as (r & p' & E & _ & Hu & _); [apply pool_ok_safe, pool_is_ok|done| |].
  - intros s n _. destruct n; eexists; vm_compute; reflexivity.
  - exists r, p'. split; [exact E|].
    assert (useful (Some r) = true) as H by (vm_compute in E; injection E as <- <-; reflexivity).
    split; [exact H|]. apply Hu. exact H.
Defined.

Lemma pool_keeps_hostnames_witness :
  pool_ok (enrich [glue "b.example." "192.0.2.2"] second pool) /\
  length (ipv4 (enrich [glue "b.example." "192.0.2.2"] second pool)) = 3.
Proof.
  split; [|vm_compute; reflexivity].
  eapply (pool_keeps_hostnames [ns "A.example."; ns "b.example."; ns "c.example."]
    [glue "a.example." "192.0.2.1"; glue "C.example." "192.0.2.3"; glue "x." "192.0.2.9"]
    [glue "b.example." "192.0.2.2"] 0 second); vm_compute; reflexivity.
Defined.

Lemma pool_expiry_witness : exists t', t' = MaxAllowedTTL /\
  pool_expires (enrich [glue "y." "192.0.2.8"] second pool) = unix (add_seconds second t').
Proof.
  destruct (pool_expiry [ns "A.example."; ns "b.example."; ns "c.example."]
    [glue "a.example." "192.0.2.1"; glue "C.example." "192.0.2.3"; glue "x." "192.0.2.9"]
    [glue "y." "192.0.2.8"] 0 second) as (t & t' & _ & _ & H & _ & Ht).
  exists t'. split; [apply Ht; vm_compute; reflexivity|].
  apply H; [discriminate|vm_compute; reflexivity].
Defined.
End PoolExample.
