(* ===== verification/Zone.v ===== *)
(** * zone.go: a zone, its pool and its DNSKEY cache

    The pool is a pointer that clones share, so it is a handle of type [P] and
    its state is part of the world [W], which also holds the network.  The
    package variable [Cache] is an argument; the update of the cache that
    [exchange] leaves to a goroutine is returned with the response. *)

From S2P Require Import Prelude GoErrors Dns DnsRef DnssecConst DnssecFunctions Domain Response Nameserver Pool Functions Zones.

(** [expiringExchanger], for a zone's pool; the name of the zone travels in the
    context. *)
Class ExpiringExchanger (P W : Type) := {
  ex_exchange : string -> P -> Msg -> W -> outcome (option Response * W);
  ex_expired : P -> W -> bool
}.

(** [CacheInterface] of cache.go. *)
Record CacheInterface (W : Type) := mkCache {
  Cache_Get : string -> Question_ -> W -> option Msg * option error * W;
  Cache_Update : string -> Question_ -> Msg -> W -> option error * W
}.
Arguments Cache_Get {W}.
Arguments Cache_Update {W}.

(** The arguments of a call of [Cache.Update]. *)
Definition cache_update : Type := string * Question_ * Msg.

(** The functions of the DNS library that build questions. *)
Class MsgBuilder := {
  (** [new(dns.Msg).SetQuestion(name, t)] *)
  msg_SetQuestion : string -> Z -> Msg;
  (** [m.SetEdns0(udpsize, do)] *)
  msg_SetEdns0 : Z -> bool -> Msg -> Msg
}.

(** They put exactly the question asked. *)
Class MsgBuilderLaws (B : MsgBuilder) : Prop := {
  msg_question n t : Question (msg_SetQuestion n t) = [mkQ n t ClassINET];
  msg_edns0 s d m : Question (msg_SetEdns0 s d m) = Question m;
  msg_edns0_id s d m : Id (msg_SetEdns0 s d m) = Id m
}.

Section zone.
Context `{L : DnsLib} `{RC : ResolverConfig} `{B : MsgBuilder} {P W : Type} `{EX : ExpiringExchanger P W}.

Record zoneImpl := mkZone {
  zoneName : string;
  parentName : string;
  z_pool : option P;
  dnskeyRecords : list RR;
  dnskeyExpiry : option Z (* None is the zero time *)
}.

(** [z.pool.expired()]: a zone without a pool panics. *)
Definition zone_is_expired (z : zoneImpl) (w : W) : outcome bool :=
  match z_pool z with
  | None => Panic NilDereference
  | Some p => Ret (ex_expired p w)
  end.

Definition clone (name parent : string) (z : zoneImpl) : outcome zoneImpl :=
  if bool_decide (dns_CanonicalName name = dns_CanonicalName parent)
     || negb (dns_IsSubDomain parent name)
  then Panic (Explicit "invalid clone")
  else Ret (mkZone (dns_CanonicalName name) (dns_CanonicalName parent) (z_pool z) [] None).

(** The exchange after a miss of the cache. *)
Definition ask_pool (has_cache : bool) (z : zoneImpl) (m : Msg) (w : W) :
    outcome (option Response * option cache_update * W) :=
  match z_pool z with
  | None => Ret (Some (newResponseError (errorf_s ErrNoPoolConfiguredForZone (" [" +:+ zoneName z +:+ "]"))), None, w)
  | Some p =>
      '(response, w) ← ex_exchange (zoneName z) p m w;
      if has_cache && negb (IsEmpty response) && negb (HasError response) then
        q ← go_index (Question m) 0;
        let msg := match response with Some r => default new_Msg (resp_Msg r) | None => new_Msg end in
        Ret (response, Some (zoneName z, q, set_Extra (removeRecordsOfType (Extra msg) TypeOPT) msg), w)
      else Ret (response, None, w)
  end.

(** [has_trace] says that the context carries a trace, read on a cache hit. *)
Definition zone_exchange (has_trace : bool) (Cache : option (CacheInterface W)) (z : zoneImpl)
    (m : Msg) (w : W) : outcome (option Response * option cache_update * W) :=
  match Cache with
  | None => ask_pool false z m w
  | Some cache =>
      q ← go_index (Question m) 0;
      match Cache_Get cache (zoneName z) q w with
      | (Some msg, None, w) =>
          if has_trace
          then Ret (Some (mkResponse (Some msg) None 0 NotFound Unknown), None, w)
          else Panic NilDereference (* trace.ShortID() *)
      | (_, _, w) => ask_pool true z m w
      end
  end.

Definition soa (has_trace : bool) (Cache : option (CacheInterface W)) (z : zoneImpl)
    (name : string) (w : W) : outcome (option SOA * option error * option cache_update * W) :=
  let soaMsg := set_RecursionDesired false (msg_SetQuestion (dns_Fqdn name) TypeSOA) in
  '(response, u, w) ← zone_exchange has_trace Cache z soaMsg w;
  match response with
  | None => Ret (None, Some (ESentinel ErrEmptyResponse), u, w)
  | Some r =>
      match resp_Msg r with
      | None => Ret (None, Some (ESentinel ErrEmptyResponse), u, w)
      | Some msg =>
          if HasError response then Ret (None, Err r, u, w)
          else if negb (recordsOfTypeExist (Answer msg) TypeSOA) then Ret (None, None, u, w)
          else match extractRecords SOA (Answer msg) with
               | [s] => Ret (Some s, None, u, w)
               | soas => Ret (None, Some (ENew ("we expect only a single SOA for a given name / zone. we got "
                                                +:+ pretty (length soas))), u, w)
               end
      end
  end.

(** The least of [MaxAllowedTTL] and the records' TTLs. *)
Definition keys_ttl (records : list RR) : Z :=
  foldl (fun ttl rr => Z.min ttl (Ttl (Header rr))) MaxAllowedTTL records.

Definition dnskeys_question (z : zoneImpl) : Msg :=
  set_RecursionDesired false (msg_SetEdns0 4096 true (msg_SetQuestion (dns_Fqdn (zoneName z)) TypeDNSKEY)).

Definition keys_fresh (z : zoneImpl) (now : Z) : bool :=
  match dnskeyExpiry z with
  | Some e => negb (bool_decide (e < now)%Z)
  | None => false
  end.

(** [now] is the instant of the check, [later] the one after the exchange. *)
Definition dnskeys (has_trace : bool) (Cache : option (CacheInterface W)) (now later : Z)
    (z : zoneImpl) (w : W) :
    outcome (list RR * option error * zoneImpl * option cache_update * W) :=
  if keys_fresh z now then Ret (dnskeyRecords z, None, z, None, w)
  else
    '(response, u, w) ← zone_exchange has_trace Cache z (dnskeys_question z) w;
    match response with
    | Some (mkResponse _ (Some e) _ _ _) =>
        Ret ([], Some (errorf_ww (errorf_s ErrFailedToGetDNSKEYs (" for " +:+ zoneName z)) ": " e ""), z, u, w)
    | None | Some (mkResponse None None _ _ _) =>
        Ret ([], Some (errorf_s ErrFailedToGetDNSKEYs (" for " +:+ zoneName z +:+ ": reponse is empty")), z, u, w)
    | Some (mkResponse (Some msg) None _ _ _) =>
        if bool_decide (length (Answer msg) = 0) then
          Ret ([], None, mkZone (zoneName z) (parentName z) (z_pool z) (dnskeyRecords z)
            (Some (add_seconds later 60)), u, w)
        else
          Ret (Answer msg, None, mkZone (zoneName z) (parentName z) (z_pool z) (Answer msg)
            (Some (add_seconds later (keys_ttl (Answer msg)))), u, w)
    end.
End zone.
Arguments zoneImpl : clear implicits.

(** * Theory *)

Section dnskeys.
Context `{L : DnsLib} `{RC : ResolverConfig} `{B : MsgBuilder} {P W : Type} `{EX : ExpiringExchanger P W}.

Lemma keys_ttl_le l : (keys_ttl l <= MaxAllowedTTL)%Z /\ Forall (fun rr => keys_ttl l <= Ttl (Header rr))%Z l.
Proof.
  unfold keys_ttl. generalize MaxAllowedTTL as t. induction l as [|rr l IH]; intros t; cbn; [done|].
  destruct (IH (Z.min t (Ttl (Header rr)))) as [H1 H2]. split; [lia|]. constructor; [lia|done].
Qed.

(** How long the keys of an answer count as known. *)
Definition keys_known (msg : Msg) : Z :=
  if bool_decide (length (Answer msg) = 0) then 60%Z else keys_ttl (Answer msg).

(** C17: after an answer to its DNSKEY question a zone asks again only when
    the time of that answer is over: the least TTL, [MaxAllowedTTL] at most,
    or 60 seconds when there are no keys.  Until then every call returns the
    keys of the answer; but after an answer without keys it returns the keys
    from before, which the first call did not. *)
Theorem dnskeys_cache tr C now later z w u w1 msg dur doe au :
  keys_fresh z now = false ->
  zone_exchange tr C z (dnskeys_question z) w = Ret (Some (mkResponse (Some msg) None dur doe au), u, w1) ->
  exists z', dnskeys tr C now later z w = Ret (Answer msg, None, z', u, w1) /\
    (keys_known msg <= Z.max 60 MaxAllowedTTL)%Z /\
    forall now' later' w', if bool_decide (now' <= add_seconds later (keys_known msg))%Z
      then dnskeys tr C now' later' z' w' =
        Ret (if bool_decide (Answer msg = []) then dnskeyRecords z else Answer msg, None, z', None, w')
      else keys_fresh z' now' = false.
Proof.
  intros Hf He. unfold dnskeys, keys_known. rewrite Hf, He. cbn [mbind outcome_bind].
  pose proof (proj1 (keys_ttl_le (Answer msg))) as Ht.
  destruct (Answer msg) as [|rr rrs]; cbn [length].
  - rewrite (bool_decide_true (0 = 0)), (bool_decide_true ([] = [])) by done. eexists. split; [done|]. split; [lia|].
    intros now' later' w'. unfold keys_fresh. cbn [dnskeyExpiry].
    repeat case_bool_decide; cbn; done || lia.
  - rewrite (bool_decide_false (S _ = 0)), (bool_decide_false (_ :: _ = [])) by done. eexists. split; [done|].
    split; [lia|]. intros now' later' w'. unfold keys_fresh. cbn [dnskeyExpiry].
    repeat case_bool_decide; cbn; done || lia.
Qed.
End dnskeys.

Module ZoneExample.
#[export] Existing Instance refLib.
#[export] Existing Instance default_resolver_config.

#[export] Instance builder : MsgBuilder := {|
  msg_SetQuestion n t := mkMsg 0 false false false true false false false 0 [mkQ n t ClassINET] [] [] [];
  msg_SetEdns0 s do m := m
|}.

(** A pool whose zone has lost its keys. *)
#[export] Instance silent : ExpiringExchanger unit unit := {|
  ex_exchange zoneName p m w := Ret (Some (mkResponse (Some m) None 5 NotFound Unknown), w);
  ex_expired p w := false
|}.

Definition old_key : RR := RR_Other (mkOther (mkHdr "example." TypeDNSKEY ClassINET 100) "key").
Definition z : zoneImpl unit := mkZone "example." "." (Some tt) [old_key] (Some (10 * second)%Z).

Lemma dnskeys_cache_witness : exists z',
  dnskeys true None (20 * second) (20 * second) z tt = Ret ([], None, z', None, tt) /\
  dnskeys true None (30 * second) (30 * second) z' tt = Ret ([old_key], None, z', None, tt).
Proof.
  destruct (dnskeys_cache true None (20 * second) (20 * second) z tt None tt (dnskeys_question z) 5 NotFound Unknown)
    as (z' & E & _ & Hn); [reflexivity|reflexivity|].
  exists z'. split; [exact E|]. exact (Hn (30 * second)%Z (30 * second)%Z tt).
Defined.
End ZoneExample.
