(* ===== verification/Session.v ===== *)
(** * The monad of the recursion, and its program logic

    Code that threads state, may panic and calls itself is written in [M]: a
    state monad over [res], where [OutOfFuel] says that the recursion went
    deeper than the fuel allows.  [runs P m Q] is its Hoare triple: from a state
    of [P] the code does not run out of fuel, a result satisfies [Q], and a
    panic is one of those [allowed]. *)

From S2P Require Import Prelude GoErrors.

Inductive res (A : Type) : Type :=
| Fine (a : A)
| Crash (p : panic)
| OutOfFuel.
Arguments Fine {A} a.
Arguments Crash {A} p.
Arguments OutOfFuel {A}.

Definition M (S A : Type) : Type := S -> res (A * S).

Section monad.
Context {S : Type}.

#[global] Instance M_ret : MRet (M S) := fun A a s => Fine (a, s).
#[global] Instance M_bind : MBind (M S) := fun A B f m s =>
  match m s with
  | Fine (a, s') => f a s'
  | Crash p => Crash p
  | OutOfFuel => OutOfFuel
  end.

Definition out_of_fuel {A} : M S A := fun _ => OutOfFuel.
Definition crash {A} (p : panic) : M S A := fun _ => Crash p.
Definition lift {A} (o : outcome A) : M S A := fun s =>
  match o with Ret a => Fine (a, s) | Panic p => Crash p end.
Definition gets {A} (f : S -> A) : M S A := fun s => Fine (f s, s).
Definition modify (f : S -> S) : M S unit := fun s => Fine (tt, f s).

(** [for _, x := range xs { acc = f(acc, x) }] *)
Fixpoint for_each {A X} (f : A -> X -> M S A) (xs : list X) (acc : A) : M S A :=
  match xs with
  | [] => mret acc
  | x :: rest => acc ← f acc x; for_each f rest acc
  end.
End monad.

(** ** Triples *)

Section logic.
Context {S : Type} (allowed : panic -> Prop).

Definition runs {A} (P : S -> Prop) (m : M S A) (Q : A -> S -> Prop) : Prop :=
  forall s, P s ->
    match m s with
    | Fine (a, s') => Q a s'
    | Crash p => allowed p
    | OutOfFuel => False
    end.

Lemma runs_ret {A} (P : S -> Prop) (a : A) (Q : A -> S -> Prop) :
  (forall s, P s -> Q a s) -> runs P (mret a) Q.
Proof. intros H s Hs. by apply H. Qed.

Lemma runs_bind {A B} (P : S -> Prop) (m : M S A) (R : A -> S -> Prop) (f : A -> M S B) Q :
  runs P m R -> (forall a, runs (R a) (f a) Q) -> runs P (m ≫= f) Q.
Proof.
  intros Hm Hf s Hs. specialize (Hm s Hs). unfold mbind, M_bind.
  destruct (m s) as [[a s']|p|]; [by apply Hf|done|done].
Qed.

Lemma runs_weaken {A} (P P' : S -> Prop) (m : M S A) (Q Q' : A -> S -> Prop) :
  runs P' m Q' -> (forall s, P s -> P' s) -> (forall a s, Q' a s -> Q a s) -> runs P m Q.
Proof.
  intros Hm HP HQ s Hs. specialize (Hm s (HP s Hs)). destruct (m s) as [[a s']|p|]; auto.
Qed.

Lemma runs_from {A} (P' P : S -> Prop) (m : M S A) (Q : A -> S -> Prop) :
  (forall s, P s -> P' s) -> runs P' m Q -> runs P m Q.
Proof. intros HP Hm s Hs. apply Hm. auto. Qed.

Lemma runs_crash {A} (P : S -> Prop) (p : panic) (Q : A -> S -> Prop) :
  allowed p -> runs P (crash p) Q.
Proof. intros H s _. exact H. Qed.

Lemma runs_lift {A} (P : S -> Prop) (o : outcome A) (Q : A -> S -> Prop) :
  (forall p, o = Panic p -> allowed p) -> (forall a s, o = Ret a -> P s -> Q a s) ->
  runs P (lift o) Q.
Proof. intros Hp Ha s Hs. unfold lift. destruct o; auto. Qed.

Lemma runs_gets {A} (P : S -> Prop) (f : S -> A) (Q : A -> S -> Prop) :
  (forall s, P s -> Q (f s) s) -> runs P (gets f) Q.
Proof. intros H s Hs. by apply H. Qed.

Lemma runs_modify (P : S -> Prop) (f : S -> S) (Q : unit -> S -> Prop) :
  (forall s, P s -> Q tt (f s)) -> runs P (modify f) Q.
Proof. intros H s Hs. by apply H. Qed.

(** The invariant of a loop, by the number of elements left. *)
Lemma runs_for_each {A X} (I : nat -> A -> S -> Prop) (f : A -> X -> M S A) xs acc Q :
  (forall n acc x, x ∈ xs -> n < length xs -> runs (I (Datatypes.S n) acc) (f acc x) (I n)) ->
  (forall acc s, I 0 acc s -> Q acc s) ->
  runs (I (length xs) acc) (for_each f xs acc) Q.
Proof.
  revert acc; induction xs as [|x xs IH]; intros acc Hf HQ; [by apply runs_ret; intros s; apply HQ|].
  eapply runs_bind; [apply (Hf (length xs)); [left|simpl; lia]|]. intros acc'. apply IH; [|done].
  intros n b y Hy Hn. apply Hf; [by apply list_elem_of_further|simpl; lia].
Qed.

Lemma runs_pre {A} (P : S -> Prop) (m : M S A) Q (R : Prop) :
  (forall s, P s -> R) -> (R -> runs P m Q) -> runs P m Q.
Proof. intros H Hm s Hs. apply Hm; [by eapply H|done]. Qed.
End logic.

(** ** Results, whatever the state *)

Section results.
Context {S : Type}.

(** Every result of [m] satisfies [Q]. *)
Definition ensures {A} (m : M S A) (Q : A -> Prop) : Prop :=
  forall s a s', m s = Fine (a, s') -> Q a.

Lemma ensures_ret {A} (a : A) (Q : A -> Prop) : Q a -> ensures (mret a) Q.
Proof. by intros H s b s' [= <- _]. Qed.

Lemma ensures_bind {A B} (m : M S A) (R : A -> Prop) (f : A -> M S B) Q :
  ensures m R -> (forall a, R a -> ensures (f a) Q) -> ensures (m ≫= f) Q.
Proof.
  intros Hm Hf s b s'. unfold mbind, M_bind. destruct (m s) as [[a s1]|p|] eqn:E; [|done..].
  intros H. eapply Hf, H. by eapply Hm.
Qed.

Lemma ensures_any {A} (m : M S A) : ensures m (fun _ => True).
Proof. done. Qed.

(** A step whose result does not matter. *)
Lemma ensures_skip {A B} (m : M S A) (f : A -> M S B) Q :
  (forall a, ensures (f a) Q) -> ensures (m ≫= f) Q.
Proof. intros Hf. eapply ensures_bind; [apply ensures_any|]. auto. Qed.

Lemma ensures_weaken {A} (m : M S A) (Q Q' : A -> Prop) :
  ensures m Q' -> (forall a, Q' a -> Q a) -> ensures m Q.
Proof. intros H HQ s a s' E. by eapply HQ, H. Qed.

Lemma ensures_crash {A} p (Q : A -> Prop) : ensures (crash p) Q.
Proof. done. Qed.

Lemma ensures_lift {A} (o : outcome A) (Q : A -> Prop) :
  (forall a, o = Ret a -> Q a) -> ensures (lift o) Q.
Proof. intros H s a s'. unfold lift. destruct o; [|done]. intros [= <- _]. by apply H. Qed.

Lemma ensures_for_each {A X} (I : A -> Prop) (f : A -> X -> M S A) xs acc :
  I acc -> (forall acc x, I acc -> ensures (f acc x) I) -> ensures (for_each f xs acc) I.
Proof.
  intros Ha Hf. revert acc Ha; induction xs as [|x xs IH]; intros acc Ha; [by apply ensures_ret|].
  eapply ensures_bind; [by apply Hf|]. auto.
Qed.

(** What a run of [m] may return. *)
Definition result_of {A} (m : M S A) (a : A) : Prop := exists s s', m s = Fine (a, s').

Lemma ensures_result {A} (m : M S A) : ensures m (result_of m).
Proof. intros s a s' E. by exists s, s'. Qed.

(** A loop that collects a result for each element. *)
Lemma ensures_collect {A X} (f : X -> M S A) xs acc :
  ensures (for_each (fun acc x => a ← f x; mret (acc ++ [a])) xs acc)
    (fun l => exists l', l = acc ++ l' /\ Forall2 (fun x => result_of (f x)) xs l').
Proof.
  revert acc; induction xs as [|x xs IH]; intros acc; cbn.
  { apply ensures_ret. exists []. by rewrite app_nil_r. }
  eapply (ensures_bind _ (fun l => exists a, l = acc ++ [a] /\ result_of (f x) a)).
  { eapply ensures_bind; [apply ensures_result|]. intros a Ha. apply ensures_ret. by exists a. }
  intros l (a & -> & Ha). eapply ensures_weaken; [apply IH|]. intros l (l' & -> & Hl). exists (a :: l').
  split; [by rewrite <- app_assoc|by constructor].
Qed.
End results.

(** ** Results and an invariant *)

Section safety.
Context {S : Type} (I : S -> Prop).

(** From a state of [I], when [m] has a result it leaves a state of [I] and the
    result satisfies [Q]. *)
Definition safe {A} (m : M S A) (Q : A -> Prop) : Prop :=
  forall s a s', I s -> m s = Fine (a, s') -> I s' /\ Q a.

Lemma safe_ret {A} (a : A) (Q : A -> Prop) : Q a -> safe (mret a) Q.
Proof. by intros H s b s' Hs [= <- <-]. Qed.

Lemma safe_bind {A B} (m : M S A) R (f : A -> M S B) Q :
  safe m R -> (forall a, R a -> safe (f a) Q) -> safe (m ≫= f) Q.
Proof.
  intros Hm Hf s b s' Hs. unfold mbind, M_bind. destruct (m s) as [[a s1]|p|] eqn:E; [|done..].
  intros H. destruct (Hm _ _ _ Hs E) as [Hs1 Ha]. by eapply Hf.
Qed.

Abbreviation any := (fun _ => True).

Lemma safe_skip {A B} (m : M S A) (f : A -> M S B) Q :
  safe m any -> (forall a, safe (f a) Q) -> safe (m ≫= f) Q.
Proof. intros Hm Hf. eapply safe_bind; [exact Hm|]. auto. Qed.

Lemma safe_weaken {A} (m : M S A) (Q Q' : A -> Prop) : safe m Q' -> (forall a, Q' a -> Q a) -> safe m Q.
Proof. intros H HQ s a s' Hs E. destruct (H _ _ _ Hs E). auto. Qed.

Lemma safe_any {A} (m : M S A) Q : safe m Q -> safe m any.
Proof. intros H. by eapply safe_weaken. Qed.

Lemma safe_crash {A} p (Q : A -> Prop) : safe (crash p) Q.
Proof. done. Qed.

Lemma safe_fuel {A} (Q : A -> Prop) : safe out_of_fuel Q.
Proof. done. Qed.

Lemma safe_lift {A} (o : outcome A) (Q : A -> Prop) : (forall a, o = Ret a -> Q a) -> safe (lift o) Q.
Proof. intros H s a s' Hs. unfold lift. destruct o; [|done]. intros [= <- <-]. auto. Qed.

Lemma safe_gets {A} (f : S -> A) (Q : A -> Prop) : (forall s, I s -> Q (f s)) -> safe (gets f) Q.
Proof. intros H s a s' Hs [= <- <-]. auto. Qed.

Lemma safe_modify (f : S -> S) (Q : unit -> Prop) : (forall s, I s -> I (f s)) -> Q tt -> safe (modify f) Q.
Proof. intros H HQ s [] s' Hs [= <-]. auto. Qed.

Lemma safe_for_each {A X} (J : A -> Prop) (f : A -> X -> M S A) xs acc :
  J acc -> (forall acc x, J acc -> safe (f acc x) J) -> safe (for_each f xs acc) J.
Proof.
  intros Ha Hf. revert acc Ha; induction xs as [|x xs IH]; intros acc Ha; [by apply safe_ret|].
  eapply safe_bind; [by apply Hf|]. auto.
Qed.
End safety.

(** What holds of every result holds after a triple. *)
Lemma runs_ensures {S A} (allowed : panic -> Prop) (P : S -> Prop) (m : M S A) Q R :
  runs allowed P m Q -> ensures m R -> runs allowed P m (fun a s => Q a s /\ R a).
Proof.
  intros Hm HR s Hs. specialize (Hm s Hs). destruct (m s) as [[a s']|p|] eqn:E; [|done..].
  split; [done|by eapply HR].
Qed.

(** Unfolds an execution on concrete data. *)
Lemma bind_fine {S A B} (m : M S A) (f : A -> M S B) s a s' :
  m s = Fine (a, s') -> (m ≫= f) s = f a s'.
Proof. intros E. unfold mbind, M_bind. by rewrite E. Qed.
