(* ===== verification/ResolverState.v ===== *)
(** * resolver.go and ctx.go: what the functions of the recursion share

    The zones, the names of their pools and the rest of the outside world (the
    network, the clock, the pools' contents) are behind the class [ZoneWorld],
    as the interface [zone] is in the code.  Functions call one another
    through the table [resolverFunctions]. *)

From S2P Require Import Prelude GoErrors Dns DnssecConst Domain Cache Response Zones Pool Zone Session.

(** The keys of the context that change behaviour; the counter itself is in the
    session, [ctxSessionQueries] says that the context carries it. *)
Record Ctx := mkCtx {
  ctxStartTime : option Z;
  CtxTrace : bool;
  ctxSessionQueries : bool
}.

Definition Background : Ctx := mkCtx None false false.

(** The interface [zone], the pools behind the zones and the clock.  A zone is
    a pointer; its names never change.  [w_tick] lets time pass. *)
Class ZoneWorld (zone P W : Type) := {
  zn_name : zone -> string;
  zn_parent : zone -> string;
  zn_expired : zone -> W -> bool;
  zn_clone : string -> string -> zone -> W -> outcome (zone * W);
  zn_exchange : Ctx -> zone -> Msg -> W -> outcome (option Response * W);
  zn_soa : Ctx -> zone -> string -> W -> outcome (option SOA * option error * W);
  (** [&zoneImpl{zoneName, parentName, pool}] *)
  zn_new : string -> string -> P -> W -> zone * W;
  (** a fresh pool, and the contents of a pool *)
  pool_new : nameserverPool -> W -> P * W;
  pool_load : P -> W -> nameserverPool;
  pool_store : P -> nameserverPool -> W -> W;
  w_tick : W -> W;
  w_now : W -> Z;
  IPv6Available : W -> bool;
  zn_dnskeys : Ctx -> zone -> W -> outcome (list RR * option error * W);
  (** the 3 seconds of [enrichPool] are over *)
  enrich_timeout : W -> bool
}.

(** What the owner of an [authenticator] put into it, in order. *)
Inductive auth_event (zone : Type) : Type :=
| DelegationSignerLink (z : zone) (qname : string)
| ZoneResponse (z : zone) (msg : Msg).
Arguments DelegationSignerLink {zone} z qname.
Arguments ZoneResponse {zone} z msg.

(** An [*authenticator] that is not nil. *)
Record auth (zone : Type) := mkAuthLog { auth_question : Question_; auth_events : list (auth_event zone) }.
Arguments mkAuthLog {zone}.
Arguments auth_question {zone}.
Arguments auth_events {zone}.

Definition log_event {zone} (e : auth_event zone) (a : option (auth zone)) : option (auth zone) :=
  match a with
  | None => None
  | Some a => Some (mkAuthLog (auth_question a) (auth_events a ++ [e]))
  end.

(** [authenticator.result] with the two TTL functions of the chain it leaves. *)
Record verdict := mkVerdict {
  v_auth : AuthenticationResult;
  v_doe : DenialOfExistenceState;
  v_err : option error;
  v_ttlAnswer : Z -> option Z;
  v_ttlAuthority : Z -> option Z
}.

(** The validation service a resolver uses. *)
Class AuthService (zone W : Type) := auth_result : auth zone -> W -> outcome (verdict * W).

(** The order in which goroutines started over a list run and finish. *)
Class Scheduler := {
  schedule : forall {A : Type}, list A -> list A;
  schedule_perm : forall {A : Type} (l : list A), Permutation (schedule l) l
}.

(** Goroutines that outlive the call that started them. *)
Inductive goroutine (zone P : Type) : Type :=
| Go_dnskeys (ctx : Ctx) (z : zone)
| Go_enrichPool (ctx : Ctx) (name : string) (pool : P)
| Go_enrich_rest (ctx : Ctx) (pool : P) (done_read : bool) (rest : list (Z * string)).
Arguments Go_dnskeys {zone P} ctx z.
Arguments Go_enrichPool {zone P} ctx name pool.
Arguments Go_enrich_rest {zone P} ctx pool done_read rest.

(** One question of a client: its query counter, the resolver's zones, the
    server's cache (a pointer that may be nil), the world, and the goroutines
    started so far. *)
Record session (zone P W : Type) := mkSession {
  counter : Z;
  zone_store : zones zone;
  dcache : option DNSCache;
  world : W;
  goroutines : list (goroutine zone P)
}.
Arguments mkSession {zone P W}.
Arguments counter {zone P W}.
Arguments zone_store {zone P W}.
Arguments dcache {zone P W}.
Arguments world {zone P W}.
Arguments goroutines {zone P W}.

(** What the other goroutines do to the shared state (the zones, the cache, the
    world) while this one waits its turn: for a lock, for the network, or for
    the processor.  The functions of the recursion let them act before each of
    their own accesses.  A panic of any goroutine ends the program, so it is a
    panic here too. *)
Class Interleaving (zone P W : Type) := others : M (session zone P W) unit.

(** Nobody else. *)
Definition alone {zone P W} : Interleaving zone P W := mret tt.

Section operations.
Context {zone P W : Type} `{ZW : ZoneWorld zone P W} `{IL : Interleaving zone P W}.
Abbreviation St := (session zone P W).
Abbreviation RM := (M (session zone P W)).

Definition set_counter (c : Z) (s : St) : St :=
  mkSession c (zone_store s) (dcache s) (world s) (goroutines s).
Definition set_store (z : zones zone) (s : St) : St :=
  mkSession (counter s) z (dcache s) (world s) (goroutines s).
Definition set_dcache (c : option DNSCache) (s : St) : St :=
  mkSession (counter s) (zone_store s) c (world s) (goroutines s).
Definition set_world (w : W) (s : St) : St :=
  mkSession (counter s) (zone_store s) (dcache s) w (goroutines s).
Definition go (g : goroutine zone P) (s : St) : St :=
  mkSession (counter s) (zone_store s) (dcache s) (world s) (goroutines s ++ [g]).

(** [counter.Add(1)] *)
Definition counter_Add : RM Z := fun s =>
  let c := uint32 (counter s + 1) in Fine (c, set_counter c s).

(** [time.Now()]: each reading is a later instant. *)
Definition read_clock : RM Z := fun s =>
  let w := w_tick (world s) in Fine (w_now w, set_world w s).
Definition time_Now : RM Z := _ ← others; read_clock.

(** An effect on the world. *)
Definition act {A} (f : W -> outcome (A * W)) : RM A := fun s =>
  match f (world s) with
  | Ret (a, w) => Fine (a, set_world w s)
  | Panic p => Crash p
  end.
Definition on_world {A} (f : W -> outcome (A * W)) : RM A := _ ← others; act f.

Lemma ensures_on_world {A} (f : W -> outcome (A * W)) (Q : A -> Prop) :
  (forall w a w', f w = Ret (a, w') -> Q a) -> ensures (on_world f) Q.
Proof.
  intros H. apply ensures_skip. intros _ s a s'. unfold act. destruct (f _) as [[b w]|] eqn:E; [|done]. intros [= <- _]. by eapply H.
Qed.

(** The store asks a zone whether it has expired at the instant of the call. *)
Definition zones_at (w : W) : ZoneInterface zone := {|
  zone_name := zn_name; zone_parent := zn_parent; zone_expired z := zn_expired z w
|}.

Definition store_getZoneList `{DnsLib} (name : string) : RM (list zone) :=
  _ ← time_Now;
  o ← gets (fun s => @getZoneList _ _ (zones_at (world s)) name (zone_store s));
  lift o.

Definition store_get `{DnsLib} (name : string) : RM (option zone) :=
  _ ← time_Now;
  gets (fun s => @zones_get _ _ (zones_at (world s)) name (zone_store s)).

Definition store_add `{DnsLib} (z : zone) : RM unit :=
  _ ← others;
  modify (fun s => set_store (@zones_add _ _ (zones_at (world s)) z (zone_store s)) s).

(** ** The interfaces of the recursion *)

(** [exchanger] *)
Definition exchanger : Type := Ctx -> Msg -> RM (option Response).

(** The struct [resolverFunctions].  An argument that a function changes
    through a pointer is among its results. *)
Record resolverFunctions := mkFuncs {
  f_resolveLabel : Ctx -> domain -> option zone -> Msg -> option (auth zone) ->
    RM (option zone * option Response * domain * option (auth zone));
  f_checkForMissingZones : Ctx -> domain -> zone -> Msg -> option (auth zone) ->
    RM (zone * domain * option (auth zone));
  f_createZone : Ctx -> string -> string -> list NS -> list RR -> exchanger ->
    RM (option zone * option error);
  f_finaliseResponse : Ctx -> option (auth zone) -> Msg -> Response -> RM Response;
  f_processDelegation : Ctx -> zone -> Msg -> RM (option zone * option Response);
  f_cname : Ctx -> Msg -> Response -> exchanger -> RM (option error * Response);
  f_getExchanger : exchanger
}.
End operations.
Arguments exchanger : clear implicits.
Arguments resolverFunctions : clear implicits.

(** ** What the outside world promises *)

(** The count of a section is 16 bits wide on the wire. *)
Definition answer_limit : nat := Z.to_nat 65535.
#[global] Opaque answer_limit.

(** [world_ok] is the instance's invariant. *)
Class ZoneWorldLaws {L : DnsLib} {RC : ResolverConfig} {zone P W : Type} (ZW : ZoneWorld zone P W)
    (root : zone) (world_ok : W -> Prop) : Prop := {
  (** the root zone of [NewResolver]: its pool has no expiry *)
  zw_root_name : zn_name root = "."%string;
  zw_root_lives w : world_ok w -> zn_expired root w = false;
  zw_tick w : world_ok w -> world_ok (w_tick w);
  (** a question with a section to read, asked with a trace, returns *)
  zw_exchange ctx z m w : world_ok w -> CtxTrace ctx = true -> Question m <> [] ->
    exists r w', zn_exchange ctx z m w = Ret (r, w') /\ world_ok w' /\
      forall resp msg, r = Some resp -> resp_Msg resp = Some msg -> length (Answer msg) <= answer_limit;
  zw_soa ctx z n w : world_ok w -> CtxTrace ctx = true ->
    exists r w', zn_soa ctx z n w = Ret (r, w') /\ world_ok w';
  (** [clone] refuses a name that is not below, or makes a zone of that name *)
  zw_clone n p z w : world_ok w -> zn_clone n p z w = Panic (Explicit "invalid clone") /\
      (dns_CanonicalName n = dns_CanonicalName p \/ dns_IsSubDomain p n = false) \/
    exists z' w', zn_clone n p z w = Ret (z', w') /\ world_ok w' /\ zn_name z' = dns_CanonicalName n /\
      zn_parent z' = dns_CanonicalName p /\
      dns_CanonicalName n <> dns_CanonicalName p /\ dns_IsSubDomain p n = true;
  zw_new n p pool w : world_ok w -> world_ok (snd (zn_new n p pool w)) /\
    zn_name (fst (zn_new n p pool w)) = n /\ zn_parent (fst (zn_new n p pool w)) = p;
  zw_pool_new nss extra now w : world_ok w -> world_ok (snd (pool_new (newNameserverPool nss extra now) w));
  zw_pool_enrich p records now w : world_ok w ->
    world_ok (pool_store p (enrich records now (pool_load p w)) w)
}.
