(* ===== verification/World.v ===== *)
(** * The zones, pools and network behind the interfaces

    [ZoneWorld] for the code's own zones: a zone is a pointer with its names
    and the pointer of its pool; [net] holds what those pointers lead to.  The
    network and the clock are oracles: [wire k] is how the client of the [k]-th
    try behaves, [clock k] the [k]-th reading of the time. *)

From S2P Require Import Prelude GoErrors Dns DnsRef DnssecConst DnssecFunctions Domain Response Nameserver Pool Functions Zones Zone Session ResolverState.

Record zone_ref := mkZoneRef { zr_id : nat; zr_name : string; zr_parent : string; zr_pool : nat }.

(** The heap: pools and DNSKEY caches by pointer, with the readings of the
    clock and the tries made so far. *)
Record net := mkNet {
  ticks : nat;
  tries : nat;
  pools : nat -> nameserverPool;
  pool_count : nat;
  dnskey_cache : nat -> list RR * option Z;
  zone_count : nat
}.

Definition update {A} (i : nat) (x : A) (f : nat -> A) : nat -> A :=
  fun j => if bool_decide (j = i) then x else f j.

Definition set_pool (p : nat) (pool : nameserverPool) (w : net) : net :=
  mkNet (ticks w) (tries w) (update p pool (pools w)) (pool_count w) (dnskey_cache w) (zone_count w).

(** [new(nameserverPool)] *)
Definition empty_pool : nameserverPool := mkPool [] [] 0 0 [] 0 0 0.

Section world.
Context `{L : DnsLib} `{RC : ResolverConfig} `{B : MsgBuilder}.
Context (clock : nat -> Z) (wire : nat -> string -> dnsClient) (v6 : bool) (timeout : nat -> bool).
Context (Cache : option (CacheInterface net)).

(** [buildRootServerPool] on the records the zone parser returns. *)
Definition root_step (pool : nameserverPool) (rr : RR) : nameserverPool :=
  match rr with
  | RR_A a => mkPool (hostsWithoutAddresses pool)
      (ipv4 pool ++ [mkNameserver (dns_CanonicalName (Name (A_Hdr a))) (A_A a)]) (ipv4Next pool)
      (ipv4Count pool) (ipv6 pool) (ipv6Next pool) (ipv6Count pool) (pool_expires pool)
  | RR_AAAA a => mkPool (hostsWithoutAddresses pool) (ipv4 pool) (ipv4Next pool) (ipv4Count pool)
      (ipv6 pool ++ [mkNameserver (dns_CanonicalName (Name (AAAA_Hdr a))) (AAAA_AAAA a)])
      (ipv6Next pool) (ipv6Count pool) (pool_expires pool)
  | _ => pool
  end.

Definition buildRootServerPool (records : list RR) : nameserverPool :=
  updateIPCount (foldl root_step empty_pool records).

(** The root zone of the [k]-th [NewResolver], with its pool, and the zones
    the resolver starts with. *)
Definition nth_root (k : nat) : zone_ref := mkZoneRef k "." "" k.
Definition root_zone : zone_ref := nth_root 0.
Definition NewResolver_zones (k : nat) : zones zone_ref := mkZones (Some {["."%string := nth_root k]}).

(** The heap after two calls of [NewResolver], the server's and the prefetch
    manager's. *)
Definition new_net (root_records : list RR) : net :=
  let pool := buildRootServerPool root_records in
  mkNet 0 0 (update 0 pool (update 1 pool (fun _ => empty_pool))) 2 (fun _ => ([], None)) 2.

Definition tick (w : net) : net :=
  mkNet (S (ticks w)) (tries w) (pools w) (pool_count w) (dnskey_cache w) (zone_count w).

(** The struct behind a zone's pointer. *)
Definition load_zone (z : zone_ref) (w : net) : zoneImpl nat :=
  mkZone (zr_name z) (zr_parent z) (Some (zr_pool z)) (fst (dnskey_cache w (zr_id z)))
    (snd (dnskey_cache w (zr_id z))).

Definition store_keys (z : zone_ref) (zi : zoneImpl nat) (w : net) : net :=
  mkNet (ticks w) (tries w) (pools w) (pool_count w)
    (update (zr_id z) (dnskeyRecords zi, dnskeyExpiry zi) (dnskey_cache w)) (zone_count w).

(** A pool's exchange: its two tries use the next two clients. *)
#[export] Instance net_exchanger : ExpiringExchanger nat net := {
  ex_exchange zoneName p m w :=
    '(response, pool) ← exchange (Some zoneName) v6
      (fun s n m => nameserver_exchange (Some zoneName) (wire (tries w + n)) s (Some m)) m (pools w p);
    let w := set_pool p pool w in
    Ret (response, mkNet (ticks w) (tries w + 2) (pools w) (pool_count w) (dnskey_cache w) (zone_count w));
  ex_expired p w := expired (clock (ticks w)) (pools w p)
}.

Definition new_zone_ref (zi : zoneImpl nat) (pool : nat) (w : net) : zone_ref * net :=
  let z := mkZoneRef (zone_count w) (zoneName zi) (parentName zi) pool in
  (z, store_keys z zi (mkNet (ticks w) (tries w) (pools w) (pool_count w) (dnskey_cache w) (S (zone_count w)))).

#[export] Instance net_world : ZoneWorld zone_ref nat net := {
  zn_name := zr_name;
  zn_parent := zr_parent;
  zn_expired z w := expired (clock (ticks w)) (pools w (zr_pool z));
  zn_clone name parent z w :=
    zi ← clone name parent (load_zone z w);
    Ret (new_zone_ref zi (zr_pool z) w);
  zn_exchange ctx z m w :=
    '(response, _, w) ← zone_exchange (CtxTrace ctx) Cache (load_zone z w) m w;
    Ret (response, w);
  zn_soa ctx z name w :=
    '(s, err, _, w) ← soa (CtxTrace ctx) Cache (load_zone z w) name w;
    Ret (s, err, w);
  zn_dnskeys ctx z w :=
    let now := clock (ticks w) in
    let w := tick w in
    '(keys, err, zi, _, w) ← dnskeys (CtxTrace ctx) Cache now (clock (ticks w)) (load_zone z w) w;
    Ret (keys, err, store_keys z zi w);
  zn_new name parent pool w := new_zone_ref (mkZone name parent (Some pool) [] None) pool w;
  pool_new pool w :=
    (pool_count w, mkNet (ticks w) (tries w) (update (pool_count w) pool (pools w)) (S (pool_count w))
       (dnskey_cache w) (zone_count w));
  pool_load p w := pools w p;
  pool_store p pool w := set_pool p pool w;
  w_tick := tick;
  w_now w := clock (ticks w);
  IPv6Available _ := v6;
  enrich_timeout w := timeout (ticks w)
}.
End world.

(** * Theory *)

Section world_facts.
Context `{Laws : DnsLaws} `{RC : ResolverConfig} `{BL : MsgBuilderLaws}.
Context (clock : nat -> Z) (wire : nat -> string -> dnsClient) (v6 : bool) (timeout : nat -> bool).

(** The clients keep their promise, and a reply fits the wire format. *)
Definition wire_ok : Prop := forall k, client_law (wire k) /\
  forall protocol m a msg, fst (fst (wire k protocol m a)) = Some msg -> length (Answer msg) <= answer_limit.

(** Pools are safe and the roots' never expire. *)
Definition net_ok (w : net) : Prop :=
  (forall p, pool_safe (pools w p)) /\ (forall k, k < 2 -> pool_expires (pools w k) = 0%Z) /\ 2 <= pool_count w.

Lemma set_pool_ok p pool w : net_ok w -> pool_safe pool ->
  pool_expires pool = pool_expires (pools w p) -> net_ok (set_pool p pool w).
Proof.
  intros (Hs & Hr & Hc) Hp He. split_and!; cbn; [| |done].
  - intros q. unfold update. by case_bool_decide.
  - intros k Hk. unfold update. case_bool_decide; [subst; rewrite He|]; auto.
Qed.

Lemma root_step_expires records pool :
  pool_expires (foldl root_step pool records) = pool_expires pool.
Proof. revert pool; induction records as [|rr records IH]; intros pool; [done|]. cbn. rewrite IH. by destruct rr. Qed.

Lemma new_net_ok records : net_ok (new_net records).
Proof.
  split_and!; [| |cbn; lia].
  - intros p. cbn. unfold update. repeat case_bool_decide; [apply updateIPCount_safe..|]. split; done.
  - intros k Hk. cbn. unfold update. repeat case_bool_decide; [apply (root_step_expires records)..|]. lia.
Qed.

Lemma enrich_safe records now p : pool_safe p -> pool_safe (enrich records now p).
Proof. intros Hp. unfold enrich. case_bool_decide; [done|apply updateIPCount_safe]. Qed.

Lemma enrich_expires records now p : pool_expires p = 0%Z -> pool_expires (enrich records now p) = 0%Z.
Proof. intros E. unfold enrich. case_bool_decide; [done|]. cbn. by rewrite E. Qed.

Abbreviation net_exchange := (@ex_exchange nat net (net_exchanger clock wire v6)).
Abbreviation network := (net_world clock wire v6 timeout None).

Lemma best_reply_answers k ns m msg : wire_ok -> resp_Msg (best_reply (wire k) ns m) = Some msg ->
  length (Answer msg) <= answer_limit.
Proof.
  intros Hw E. destruct (Hw k) as [_ Hb]. unfold best_reply, reply_of in E.
  destruct (complete _).
  - specialize (Hb "udp"%string m (net_JoinHostPort (addr ns) "53") msg). destruct (wire k _ m _) as [[? ?] ?]. auto.
  - specialize (Hb "tcp"%string m (net_JoinHostPort (addr ns) "53") msg). destruct (wire k _ m _) as [[? ?] ?]. auto.
Qed.

Lemma net_exchange_ok zoneName p m w : wire_ok -> net_ok w -> Question m <> [] ->
  exists r w', net_exchange zoneName p m w = Ret (Some r, w') /\ net_ok w' /\
    forall msg, resp_Msg r = Some msg -> length (Answer msg) <= answer_limit.
Proof.
  intros Hw Hn Hq. unfold ex_exchange, net_exchanger.
  set (ask := fun s n m => nameserver_exchange (Some zoneName) (wire (tries w + n)) s (Some m)).
  assert (forall s n, ask s n m = Ret (best_reply (wire (tries w + n)) s m)) as Hask.
  { intros s n. apply nameserver_exchange_reply; [apply Hw|done]. }
  destruct (exchange_spec (Some zoneName) v6 ask m (pools w p)) as (r & p' & E & Hp' & _ & Hx & Hr);
    [apply Hn|done|eauto|].
  rewrite E. cbn [mbind outcome_bind]. eexists r, _. split; [done|]. split.
  { destruct (set_pool_ok p p' w) as (? & ? & ?); [done..|]. by split_and!. }
  intros msg Em. destruct Hr as [(_ & e & -> & _)|(r0 & (s & n & _ & _ & Ha) & Hm & _)]; [done|].
  rewrite Hask in Ha. injection Ha as <-. rewrite Hm in Em. by eapply best_reply_answers.
Qed.

Lemma net_zone_exchange_ok trace zi m w : wire_ok -> net_ok w -> Question m <> [] -> is_Some (z_pool zi) ->
  exists r w', @zone_exchange nat net (net_exchanger clock wire v6) trace None zi m w = Ret (Some r, None, w') /\
    net_ok w' /\ forall msg, resp_Msg r = Some msg -> length (Answer msg) <= answer_limit.
Proof.
  intros Hw Hn Hq [p Ep]. unfold zone_exchange, ask_pool. rewrite Ep.
  destruct (net_exchange_ok (zoneName zi) p m w Hw Hn Hq) as (r & w' & -> & Hw' & Hb).
  cbn [mbind outcome_bind andb]. eauto.
Qed.

(** A response of the network has no verdict. *)
Lemma network_gives (Q : Response -> Prop) m ctx z w r w' :
  (forall e, Q (newResponseError e)) -> (forall e r, Q r -> Q (set_Err (Some e) r)) ->
  (forall k zoneName s r, nameserver_exchange zoneName (wire k) s (Some m) = Ret r -> Q r) ->
  zn_exchange (ZoneWorld := network) ctx z m w = Ret (Some r, w') -> Q r.
Proof.
  intros Hnew Herr Hask. unfold zn_exchange, net_world. intros H. apply bind_ret_inv in H as ([[o u] w1] & E & H).
  injection H as -> _. unfold zone_exchange, ask_pool, load_zone in E. cbn [z_pool] in E.
  apply bind_ret_inv in E as ([o w2] & E & H). cbn [andb] in H. injection H as -> _ _.
  unfold ex_exchange, net_exchanger in E. apply bind_ret_inv in E as ([o p'] & E & H).
  injection H as -> _. eapply exchange_gives; [..|exact E]; [done..|]. intros s n r0. apply Hask.
Qed.

Lemma network_unjudged ctx z m w r w' : zn_exchange (ZoneWorld := network) ctx z m w = Ret (Some r, w') ->
  Auth r = Unknown.
Proof. apply (network_gives (fun r => Auth r = Unknown) m); [done..|]. intros k zn s r0. apply nameserver_exchange_Auth. Qed.

(** Its replies have the ids of the questions. *)
Lemma network_ided ctx z m w r w' : (forall k, id_law (wire k)) ->
  zn_exchange (ZoneWorld := network) ctx z m w = Ret (Some r, w') -> ided (Id m) r.
Proof.
  intros Hw. apply (network_gives (ided (Id m)) m); [done|by intros e r0 _|].
  intros k zn s r0. by apply nameserver_exchange_ided.
Qed.

(** The network keeps the promises of [ZoneWorldLaws]. *)
Lemma network_laws k : k < 2 -> wire_ok -> ZoneWorldLaws network (nth_root k) net_ok.
Proof.
  intros Hk Hw. split; unfold zn_exchange, zn_soa, net_world.
  - done.
  - intros w (_ & Hr & _). cbn. unfold expired. by rewrite Hr.
  - done.
  - intros ctx z m w Hn _ Hq.
    destruct (net_zone_exchange_ok (CtxTrace ctx) (load_zone z w) m w Hw Hn Hq) as (r & w' & -> & Hw' & Hb); [by eexists|].
    exists (Some r), w'. split_and!; [done..|]. intros resp msg [= ->]. apply Hb.
  - intros ctx z n w Hn _. unfold soa.
    edestruct (net_zone_exchange_ok (CtxTrace ctx) (load_zone z w)) as (r & w' & -> & Hw' & Hb); [done..| |by eexists|].
    { cbn. by rewrite msg_question. }
    cbn [mbind outcome_bind]. repeat case_match; cbn; eexists _, w'; by split.
  - intros n p z w Hn. cbn. unfold clone. destruct (_ || _) eqn:E; [left|right; bool_facts].
    { split; [done|]. apply orb_true_iff in E as [E|E]; bool_facts; tauto. }
    cbn. eexists _, _. split_and!; try done.
  - done.
  - intros nss extra now w (Hs & Hr & Hc). split_and!; cbn; [| |lia].
    + intros q. unfold update. case_bool_decide; [apply updateIPCount_safe|done].
    + intros j Hj. unfold update. case_bool_decide; [lia|auto].
  - intros p records now w (Hs & Hr & Hc). split_and!; cbn; [| |done].
    + intros q. unfold update. case_bool_decide; [apply enrich_safe|]; done.
    + intros j Hj. unfold update. case_bool_decide as E; [|auto]. apply enrich_expires. subst. auto.
Qed.
End world_facts.
