(* ===== verification/RootHints.v ===== *)
(** * root.go: the hints that a resolver starts from

    The text of the root zone file, as in the program.  Reading it is the DNS
    library's work: the reader is a parameter, and the executable one at the
    end reads what this text uses of the format (comments, and one record a
    line). *)

From S2P Require Import Prelude GoErrors Dns DnsRef DnssecConst Response Nameserver Pool Zones Zone Session ResolverState World.

Definition quote : string := String (Ascii.ascii_of_nat 34) EmptyString.
Definition newline : string := String (Ascii.ascii_of_nat 10) EmptyString.

Definition rootZone : string := String.concat newline [
  "";
  ";       This file holds the information on root name servers needed to ";
  ";       initialize cache of Internet domain name servers";
  ";       (e.g. reference this file in the " +:+ quote +:+ "cache  .  <file>" +:+ quote +:+ "";
  ";       configuration file of BIND domain name servers). ";
  "; ";
  ";       This file is made available by InterNIC ";
  ";       under anonymous FTP as";
  ";           file                /domain/named.cache ";
  ";           on server           FTP.INTERNIC.NET";
  ";       -OR-                    RS.INTERNIC.NET";
  ";";
  ";       last update:     August 14, 2024";
  ";       related version of root zone:     2024081401";
  "; ";
  "; FORMERLY NS.INTERNIC.NET ";
  ";";
  ".                        3600000      NS    A.ROOT-SERVERS.NET.";
  "A.ROOT-SERVERS.NET.      3600000      A     198.41.0.4";
  "A.ROOT-SERVERS.NET.      3600000      AAAA  2001:503:ba3e::2:30";
  "; ";
  "; FORMERLY NS1.ISI.EDU ";
  "; Why is this server always so slow?";
  ";.                        3600000      NS    B.ROOT-SERVERS.NET.";
  ";B.ROOT-SERVERS.NET.      3600000      A     170.247.170.2";
  ";B.ROOT-SERVERS.NET.      3600000      AAAA  2801:1b8:10::b";
  "; ";
  "; FORMERLY C.PSI.NET ";
  ";";
  ".                        3600000      NS    C.ROOT-SERVERS.NET.";
  "C.ROOT-SERVERS.NET.      3600000      A     192.33.4.12";
  "C.ROOT-SERVERS.NET.      3600000      AAAA  2001:500:2::c";
  "; ";
  "; FORMERLY TERP.UMD.EDU ";
  ";";
  ".                        3600000      NS    D.ROOT-SERVERS.NET.";
  "D.ROOT-SERVERS.NET.      3600000      A     199.7.91.13";
  "D.ROOT-SERVERS.NET.      3600000      AAAA  2001:500:2d::d";
  "; ";
  "; FORMERLY NS.NASA.GOV";
  ";";
  ".                        3600000      NS    E.ROOT-SERVERS.NET.";
  "E.ROOT-SERVERS.NET.      3600000      A     192.203.230.10";
  "E.ROOT-SERVERS.NET.      3600000      AAAA  2001:500:a8::e";
  "; ";
  "; FORMERLY NS.ISC.ORG";
  ";";
  ".                        3600000      NS    F.ROOT-SERVERS.NET.";
  "F.ROOT-SERVERS.NET.      3600000      A     192.5.5.241";
  "F.ROOT-SERVERS.NET.      3600000      AAAA  2001:500:2f::f";
  "; ";
  "; FORMERLY NS.NIC.DDN.MIL";
  ";";
  ".                        3600000      NS    G.ROOT-SERVERS.NET.";
  "G.ROOT-SERVERS.NET.      3600000      A     192.112.36.4";
  "G.ROOT-SERVERS.NET.      3600000      AAAA  2001:500:12::d0d";
  "; ";
  "; FORMERLY AOS.ARL.ARMY.MIL";
  ";";
  ".                        3600000      NS    H.ROOT-SERVERS.NET.";
  "H.ROOT-SERVERS.NET.      3600000      A     198.97.190.53";
  "H.ROOT-SERVERS.NET.      3600000      AAAA  2001:500:1::53";
  "; ";
  "; FORMERLY NIC.NORDU.NET";
  ";";
  ".                        3600000      NS    I.ROOT-SERVERS.NET.";
  "I.ROOT-SERVERS.NET.      3600000      A     192.36.148.17";
  "I.ROOT-SERVERS.NET.      3600000      AAAA  2001:7fe::53";
  "; ";
  "; OPERATED BY VERISIGN, INC.";
  ";";
  ".                        3600000      NS    J.ROOT-SERVERS.NET.";
  "J.ROOT-SERVERS.NET.      3600000      A     192.58.128.30";
  "J.ROOT-SERVERS.NET.      3600000      AAAA  2001:503:c27::2:30";
  "; ";
  "; OPERATED BY RIPE NCC";
  ";";
  ".                        3600000      NS    K.ROOT-SERVERS.NET.";
  "K.ROOT-SERVERS.NET.      3600000      A     193.0.14.129";
  "K.ROOT-SERVERS.NET.      3600000      AAAA  2001:7fd::1";
  "; ";
  "; OPERATED BY ICANN";
  ";";
  ".                        3600000      NS    L.ROOT-SERVERS.NET.";
  "L.ROOT-SERVERS.NET.      3600000      A     199.7.83.42";
  "L.ROOT-SERVERS.NET.      3600000      AAAA  2001:500:9f::42";
  "; ";
  "; OPERATED BY WIDE";
  ";";
  ".                        3600000      NS    M.ROOT-SERVERS.NET.";
  "M.ROOT-SERVERS.NET.      3600000      A     202.12.27.33";
  "M.ROOT-SERVERS.NET.      3600000      AAAA  2001:dc3::35";
  "; End of file";
  ""
].

(** The pool of a new resolver when the library reads the text as [reader]. *)
Definition root_pool_of `{DnsLib} (reader : string -> list RR) : nameserverPool :=
  buildRootServerPool (reader rootZone).

(** ** A reader for text of this form *)

Module RootExample.

(** The parts of a text between characters of a kind, the empty ones left out. *)
Fixpoint split_go (sep : ascii -> bool) (s acc : string) : list string :=
  let flush := if bool_decide (acc = EmptyString) then [] else [acc] in
  match s with
  | EmptyString => flush
  | String c s => if sep c then flush ++ split_go sep s EmptyString
                  else split_go sep s (acc +:+ String c EmptyString)
  end.
Definition split (sep : ascii -> bool) (s : string) : list string := split_go sep s EmptyString.

Definition is_newline (c : ascii) : bool := bool_decide (c = Ascii.ascii_of_nat 10).
Definition is_blank (c : ascii) : bool := bool_decide (c = " "%char).

Fixpoint before_comment (s : string) : string :=
  match s with
  | EmptyString => EmptyString
  | String c s => if bool_decide (c = ";"%char) then EmptyString else String c (before_comment s)
  end.

Definition decimal (s : string) : Z :=
  foldl (fun n c => (10 * n + (Z.of_nat (Ascii.nat_of_ascii c) - 48))%Z) 0%Z (String.list_ascii_of_string s).

Definition read_line (line : string) : option RR :=
  match split is_blank (before_comment line) with
  | [name; ttl; type; data] =>
      let hdr t := mkHdr name t ClassINET (decimal ttl) in
      if bool_decide (type = "A"%string) then Some (RR_A (mkA (hdr TypeA) data))
      else if bool_decide (type = "AAAA"%string) then Some (RR_AAAA (mkAAAA (hdr TypeAAAA) data))
      else if bool_decide (type = "NS"%string) then Some (RR_NS (mkNS (hdr TypeNS) data))
      else None
  | _ => None
  end.

Definition read_zone (text : string) : list RR := omap read_line (split is_newline text).

#[export] Existing Instance refLib.
#[export] Existing Instance default_resolver_config.

Definition root_pool : nameserverPool := root_pool_of read_zone.

(** The hints give a resolver a primed pool of twelve root servers with both
    addresses each, all different, that never expires; the thirteenth, B, is
    commented out in the text. *)
Theorem root_pool_primed :
  (ipv4Count root_pool, ipv6Count root_pool) = (12, 12)%Z /\
  status false root_pool = PoolPrimed /\ status true root_pool = PoolPrimed /\ pool_expires root_pool = 0%Z /\
  NoDup (map addr (ipv4 root_pool ++ ipv6 root_pool)) /\
  map hostname (ipv4 root_pool) = map hostname (ipv6 root_pool) /\
  "b.root-servers.net."%string ∉ map hostname (ipv4 root_pool).
Proof.
  split_and!; [vm_compute; reflexivity..| |vm_compute; reflexivity|];
    apply (bool_decide_unpack _); vm_compute; exact I.
Qed.
End RootExample.
