(* ===== verification/ZoneFactory.v ===== *)
(** * zone_factory.go: a zone from a delegation, and the enrichment of its pool *)

From S2P Require Import Prelude GoErrors Dns DnssecConst Domain Response Nameserver Pool Zone Session ResolverState.

(** What the [select] of [enrichPool] saw: the channel [done] with the
    questions the goroutine has left, or the timer. *)
Inductive enrichment : Type :=
| EnrichDone (rest : list (Z * string))
| EnrichTimeout (rest : list (Z * string)).

Section factory.
Context `{L : DnsLib} `{RC : ResolverConfig} `{B : MsgBuilder} {zone P W : Type} `{ZW : ZoneWorld zone P W} `{IL : Interleaving zone P W}.
Abbreviation RM := (M (session zone P W)).

(** One question of the goroutine; true when the pool was enriched. *)
Definition enrich_one (ctx : Ctx) (exchange : exchanger zone P W) (pool : P) (job : Z * string) : RM bool :=
  let '(t, domain) := job in
  response ← exchange ctx (msg_SetQuestion (dns_Fqdn domain) t);
  match (response : option Response) with
  | Some (mkResponse (Some msg) None _ _ _) =>
      if bool_decide (0 < length (Answer msg)) then
        now ← time_Now;
        _ ← modify (fun s : session zone P W => set_world (pool_store pool
               (enrich (Answer msg) now (pool_load pool (world s))) (world s)) s);
        mret true
      else mret false
  | _ => mret false
  end.

(** The goroutine up to the event its starter waits for. *)
Fixpoint enrich_until (ctx : Ctx) (exchange : exchanger zone P W) (pool : P)
    (jobs : list (Z * string)) : RM enrichment :=
  timeout ← gets (fun s : session zone P W => enrich_timeout (world s));
  if (timeout : bool) then mret (EnrichTimeout jobs)
  else match jobs with
       | [] => mret (EnrichTimeout [])
       | job :: rest =>
           found ← enrich_one ctx exchange pool job;
           if (found : bool) then mret (EnrichDone rest) else enrich_until ctx exchange pool rest
       end.

(** The rest of the goroutine.  When [done] was not read, the goroutine blocks
    for ever on its first success. *)
Fixpoint enrich_rest (ctx : Ctx) (exchange : exchanger zone P W) (pool : P) (done_read : bool)
    (jobs : list (Z * string)) : RM unit :=
  match jobs with
  | [] => mret tt
  | job :: rest =>
      found ← enrich_one ctx exchange pool job;
      if found && negb done_read then mret tt else enrich_rest ctx exchange pool done_read rest
  end.

(** The questions for the first hosts, by type. *)
Definition enrich_jobs (ipv6 : bool) (hosts : list string) : list (Z * string) :=
  let hosts := if bool_decide (DesireNumberOfNameserversPerZone < length hosts)
               then take DesireNumberOfNameserversPerZone hosts else hosts in
  let types := [TypeA] ++ (if ipv6 then [TypeAAAA] else []) in
  flat_map (fun t => map (fun domain => (t, domain)) hosts) types.

Definition pool_status (pool : P) : RM NameserverPoolStatus :=
  gets (fun s : session zone P W => status (IPv6Available (world s)) (pool_load pool (world s))).

Definition enrichPool (ctx : Ctx) (zoneName : string) (pool : P) (exchange : exchanger zone P W) :
    RM (option error) :=
  hosts ← gets (fun s : session zone P W => hostsWithoutAddresses (pool_load pool (world s)));
  if bool_decide (length hosts = 0) then
    mret (Some (errorf_s ErrFailedEnrichingPool (" [" +:+ zoneName +:+
      "]: the nameserver pool is empty so we have no hostnames to enrich")))
  else
    ipv6 ← gets (fun s : session zone P W => IPv6Available (world s));
    event ← enrich_until ctx exchange pool (enrich_jobs ipv6 hosts);
    match (event : enrichment) with
    | EnrichDone rest =>
        _ ← modify (go (Go_enrich_rest ctx pool true rest));
        st ← pool_status pool;
        match (st : NameserverPoolStatus) with
        | PoolPrimed | PrimedButNeedsEnhancing => mret None
        | _ => mret (Some (errorf_s ErrFailedEnrichingPool (" [" +:+ zoneName +:+
                 "]: the nameserver pool still not primed after enrichment")))
        end
    | EnrichTimeout rest =>
        _ ← modify (go (Go_enrich_rest ctx pool false rest));
        mret (Some (errorf_s ErrFailedEnrichingPool (" [" +:+ zoneName +:+ "]: enrichment timeout")))
    end.

Definition createZone (ctx : Ctx) (name parent : string) (nameservers : list NS) (extra : list RR)
    (exchange : exchanger zone P W) : RM (option zone * option error) :=
  let name := dns_CanonicalName name in
  let parent := dns_CanonicalName parent in
  if bool_decide (name = parent) || negb (dns_IsSubDomain parent name) then
    mret (None, Some (errorf_s ErrFailedCreatingZoneAndPool (": the new zone name [" +:+ name +:+
      "] must be a subdomain of the parent [" +:+ parent +:+ "]")))
  else
    now ← time_Now;
    pool ← on_world (fun w => Ret (pool_new (newNameserverPool nameservers extra now) w));
    let finish := z ← on_world (fun w => Ret (zn_new name parent pool w)); mret (Some z, None) in
    st ← pool_status pool;
    match (st : NameserverPoolStatus) with
    | PrimedButNeedsEnhancing =>
        if negb LazyEnrichment
        then _ ← modify (go (Go_enrichPool ctx name pool)); finish
        else finish
    | PoolPrimed => finish
    | PoolHasHostnamesButNoIpAddresses =>
        err ← enrichPool ctx name pool exchange;
        match (err : option error) with Some e => mret (None, Some e) | None => finish end
    | _ =>
        mret (None, Some (errorf_s ErrFailedCreatingZoneAndPool (" for [" +:+ name +:+
          "]: the nameserver pool is empty and we have no hostnames to enrich")))
    end.

(** A goroutine that was left running. *)
Definition run_goroutine (exchange : exchanger zone P W) (g : goroutine zone P) : RM unit :=
  match g with
  | Go_dnskeys ctx z => _ ← on_world (zn_dnskeys ctx z); mret tt
  | Go_enrichPool ctx name pool => _ ← enrichPool ctx name pool exchange; mret tt
  | Go_enrich_rest ctx pool done_read rest => enrich_rest ctx exchange pool done_read rest
  end.
End factory.
