(* ===== verification/Cname.v ===== *)
(** * cname.go: following the aliases of an answer

    One goroutine per CNAME record runs [follow]; they run and report in the
    order of [schedule], each from its first to its last step. *)

From S2P Require Import Prelude GoErrors Dns DnssecConst DnssecFunctions Cache Response Functions Zone Session ResolverState.

Section cname.
Context `{L : DnsLib} `{B : MsgBuilder} `{Sch : Scheduler} {zone P W : Type} `{ZW : ZoneWorld zone P W} `{IL : Interleaving zone P W}.
(** iterations allowed to the eviction loop of the cache *)
Context (cache_fuel : nat).
Abbreviation RM := (M (session zone P W)).

(** [cache.get] and [cache.set] on a pointer that may be nil. *)
Definition cache_get (q : Question_) (id : Z) : RM (option Msg) :=
  now ← time_Now;
  c ← gets dcache;
  match (c : option DNSCache) with
  | None => crash NilDereference
  | Some c =>
      let '(m, c) := get q id now c in
      _ ← modify (set_dcache (Some c));
      mret m
  end.

Definition cache_set (q : Question_) (msg : option Msg) : RM unit :=
  now ← time_Now;
  c ← gets dcache;
  match (c : option DNSCache), msg with
  | Some c, Some msg =>
      match set cache_fuel q msg now c with
      | Some c => modify (set_dcache (Some c))
      | None => out_of_fuel (* the loop of ensureCapacity does not end *)
      end
  | _, _ => crash NilDereference
  end.

(** What a goroutine sends, if anything. *)
Inductive followed : Type :=
| Skipped
| Sent (r : Response)
| Failed (e : error).

Definition follow (ctx : Ctx) (qmsg : Msg) (answer : list RR) (exchange : exchanger zone P W)
    (c : CNAME) : RM followed :=
  let target := dns_CanonicalName (Target c) in
  q ← lift (go_index (Question qmsg) 0);
  if recordsOfNameAndTypeExist answer target (Qtype q)
     || recordsOfNameAndTypeExist answer target TypeCNAME
  then mret Skipped
  else
    let cnameQMsg := msg_SetQuestion target (Qtype q) in
    cq ← lift (go_index (Question cnameQMsg) 0);
    cached ← cache_get cq (Id qmsg);
    cnameRMsg ← match (cached : option Msg) with
      | Some cachedMsg => mret (Some (mkResponse (Some cachedMsg) None 0 NotFound Unknown))
      | None =>
          let cnameQMsg := if isSetDO qmsg then msg_SetEdns0 4096 true cnameQMsg else cnameQMsg in
          r ← exchange ctx cnameQMsg;
          cq ← lift (go_index (Question cnameQMsg) 0);
          if negb (HasError r) then
            match r with
            | None => crash NilDereference (* cnameRMsg.Msg *)
            | Some resp => _ ← cache_set cq (resp_Msg resp); mret r
            end
          else mret r
      end;
    match (cnameRMsg : option Response) with
    | None => mret (Failed (ENew ("unable to follow cname [" +:+ Target c +:+ "]")))
    | Some r =>
        match Err r with
        | Some e => mret (Failed e)
        | None =>
            if IsEmpty (Some r)
            then mret (Failed (ENew ("unable to follow cname [" +:+ Target c +:+ "]")))
            else mret (Sent r)
        end
    end.

(** What one response adds to the answer. *)
Definition merge (r : Response) (cnameRMsg : Response) : Response :=
  match resp_Msg r, resp_Msg cnameRMsg with
  | Some m, Some cm =>
      let m := set_Answer (Answer m ++ Answer cm) m in
      let m := set_Ns (Ns m ++ Ns cm) m in
      let m := set_Extra (Extra m ++ Extra cm) m in
      let m := set_Authoritative (Authoritative m && Authoritative cm) m in
      let m := set_Rcode (Z.max (Rcode m) (Rcode cm)) m in
      mkResponse (Some m) (Err r) (Duration r) (Doe r) (Combine (Auth r) (Auth cnameRMsg))
  | _, _ => r
  end.

Definition sent (l : list followed) : list Response :=
  omap (fun f => match f with Sent r => Some r | _ => None end) l.
Definition failed (l : list followed) : list error :=
  omap (fun f => match f with Failed e => Some e | _ => None end) l.

(** [fmt.Sprintf("%v", errs)] *)
Definition errors_text (errs : list error) : string :=
  "[" +:+ String.concat " " (map Error errs) +:+ "]".

Definition cname (ctx : Ctx) (qmsg : Msg) (r : Response) (exchange : exchanger zone P W) :
    RM (option error * Response) :=
  match resp_Msg r with
  | None => crash NilDereference
  | Some m =>
      let cnames := extractRecords CNAME (Answer m) in
      results ← for_each (fun acc c => f ← follow ctx qmsg (Answer m) exchange c; mret (acc ++ [f]))
                  (schedule cnames) [];
      let cnameResponses := sent results in
      let allErrors := failed results in
      let r := foldl merge r cnameResponses in
      if bool_decide (length cnameResponses = 0) && bool_decide (0 < length allErrors)
      then mret (Some (ENew ("all cname resolutions failed: " +:+ errors_text allErrors)), r)
      else mret (None, r)
  end.
End cname.
