(* ===== verification/ResolverExchange.v ===== *)
(** * resolver_exchange.go: the walk from the known zones to the answer

    [exchange] and the functions it reaches through the table [F].  [qmsg] is
    the copy that [Exchange] makes. *)

From S2P Require Import Prelude GoErrors Dns DnssecConst DnssecFunctions Domain Response Functions Zones Session ResolverState.

Section resolver.
Context `{L : DnsLib} `{RC : ResolverConfig} {zone P W : Type} `{ZW : ZoneWorld zone P W} `{IL : Interleaving zone P W}.
Context `{AS : AuthService zone W}.
Abbreviation RM := (M (session zone P W)).
Context (F : resolverFunctions zone P W).

Definition response_error (e : error) : option Response := Some (newResponseError e).

(** [auth.addDelegationSignerLink] for the zones known above the name. *)
Fixpoint link_known (known : list zone) (a : option (auth zone)) : option (auth zone) :=
  match known with
  | child :: ((parent :: _) as rest) =>
      link_known rest (log_event (DelegationSignerLink parent (zn_name child)) a)
  | _ => a
  end.

(** The loop over the labels.  [d.next] moves on in every iteration. *)
Fixpoint exchange_loop (fuel : nat) (ctx : Ctx) (qmsg : Msg) (z : option zone) (d : domain)
    (a : option (auth zone)) : RM (option Response) :=
  match fuel with
  | O => out_of_fuel
  | S fuel' =>
      if negb (more d) then mret (response_error (ESentinel ErrUnableToResolveAnswer))
      else
        count ← counter_Add;
        if bool_decide (MaxQueriesPerRequest < count)%Z then
          mret (response_error (errorf_s ErrMaxQueriesPerRequestReached
            (". value is currently set to: " +:+ pretty MaxQueriesPerRequest)))
        else
          c ← lift (current d);
          known ← store_get c;
          match (if domain_last d then None else (known : option zone)) with
          | Some z => exchange_loop fuel' ctx qmsg (Some z) (next d) a
          | None =>
              '(z, response, d, a) ← f_resolveLabel F ctx d z qmsg a;
              match (response : option Response) with
              | Some r => mret (Some r)
              | None => exchange_loop fuel' ctx qmsg z (next d) a
              end
          end
  end.

Definition exchange (ctx : Ctx) (qmsg : Msg) : RM (option Response) :=
  start ← time_Now;
  let ctxStart := match ctxStartTime ctx with None => Some start | Some t => Some t end in
  _ ← modify (fun s => if ctxSessionQueries ctx then s else set_counter 0 s);
  let ctx := mkCtx ctxStart true true in
  q ← lift (go_index (Question qmsg) 0);
  let a := if isSetDO qmsg then Some (mkAuthLog q []) else None in
  knownZones ← store_getZoneList (Q_Name q);
  let a := link_known knownZones a in
  let d := newDomain (Q_Name q) in
  first ← lift (go_index knownZones 0);
  '(d, err) ← lift (windTo (zn_name first) d);
  match (err : option error) with
  | Some e => mret (response_error e)
  | None => exchange_loop (S (S (length (labelIndexes d)))) ctx qmsg (Some first) d a
  end.

Definition Exchange (ctx : Ctx) (qmsg : Msg) : RM (option Response) :=
  if negb (RecursionDesired qmsg) then mret (response_error (ESentinel ErrNotRecursionDesired))
  else
    response ← exchange ctx qmsg;
    match (response : option Response) with
    | Some (mkResponse (Some m) e dur doe au) =>
        mret (Some (mkResponse (Some (set_RecursionAvailable true m)) e dur doe au))
    | r => mret r
    end.

(** A referral: no answer, servers and no SOA. *)
Definition is_delegation (m : Msg) : bool :=
  bool_decide (length (Answer m) = 0) && recordsOfTypeExist (Ns m) TypeNS
  && negb (recordsOfTypeExist (Ns m) TypeSOA).

Definition resolveLabel (ctx : Ctx) (d : domain) (z : option zone) (qmsg : Msg)
    (a : option (auth zone)) :
    RM (option zone * option Response * domain * option (auth zone)) :=
  match z with
  | None => mret (None, response_error (errorf_s ErrInternalError ": zone cannot be nil"), d, a)
  | Some z =>
      _ ← modify (fun s => match a with Some _ => go (Go_dnskeys ctx z) s | None => s end);
      response ← on_world (zn_exchange ctx z qmsg);
      match (response : option Response) with
      | Some (mkResponse _ (Some _) _ _ _) => mret (None, response, d, a)
      | None | Some (mkResponse None None _ _ _) =>
          mret (None, response_error (errorf_s ErrEmptyResponse " - without an error. mysterious"), d, a)
      | Some (mkResponse (Some msg) None dur doe au) =>
          '(z, d, a) ← f_checkForMissingZones F ctx d z msg a;
          let a := log_event (ZoneResponse z msg) a in
          if is_delegation msg then
            '(z, response) ← f_processDelegation F ctx z msg;
            mret (z, response, d, a)
          else
            r ← f_finaliseResponse F ctx a qmsg (mkResponse (Some msg) None dur doe au);
            mret (None, Some r, d, a)
      end
  end.

(** The deepest owner below the zone. *)
Definition better_owner (z : zone) (nextRecordsOwner : string) (record : RR) : string :=
  let option := Name (Header record) in
  if bool_decide (nextRecordsOwner <> option) && dns_IsSubDomain (zn_name z) option
     && bool_decide (dns_CountLabel nextRecordsOwner < dns_CountLabel option)
  then option else nextRecordsOwner.

(** One name between the zone and the records. *)
Definition missing_zone (ctx : Ctx) (acc : zone * domain * option (auth zone)) (missingDomain : string) :
    RM (zone * domain * option (auth zone)) :=
  let '(z, d, a) := acc in
  '(soa, err) ← on_world (zn_soa ctx z missingDomain);
  match (err : option error), (soa : option SOA) with
  | None, Some _ =>
      newZone ← on_world (zn_clone missingDomain (zn_name z) z);
      _ ← store_add newZone;
      mret (newZone, next d, log_event (DelegationSignerLink z (zn_name newZone)) a)
  | _, _ => mret (z, next d, a)
  end.

Definition checkForMissingZones (ctx : Ctx) (d : domain) (z : zone) (rmsg : Msg)
    (a : option (auth zone)) : RM (zone * domain * option (auth zone)) :=
  let records := Ns rmsg ++ Answer rmsg in
  if bool_decide (length records = 0) then mret (z, d, a)
  else
    let nextRecordsOwner := foldl (better_owner z) "."%string records in
    if bool_decide (nextRecordsOwner = "."%string) then mret (z, d, a)
    else
      missingZoneNames ← lift (gap nextRecordsOwner d);
      for_each (missing_zone ctx) missingZoneNames (z, d, a).

Definition processDelegation (ctx : Ctx) (z : zone) (rmsg : Msg) : RM (option zone * option Response) :=
  match extractRecords NS (Ns rmsg) with
  | [] => mret (None, response_error (errorf_s ErrNextNameserversNotFound
            (" in the response from zone [" +:+ zn_name z +:+ "]")))
  | (ns :: _) as nameservers =>
      let nextZoneName := dns_CanonicalName (Name (NS_Hdr ns)) in
      if bool_decide (nextZoneName = zn_name z) || negb (dns_IsSubDomain (zn_name z) nextZoneName) then
        mret (None, response_error (errorf_s ErrNextNameserversNotFound
          (": unexpected zone [" +:+ nextZoneName +:+ "] after [" +:+ zn_name z +:+ "]")))
      else
        '(newZone, err) ← f_createZone F ctx nextZoneName (zn_name z) nameservers (Extra rmsg) (f_getExchanger F);
        match (err : option error), (newZone : option zone) with
        | Some e, _ => mret (None, response_error e)
        | None, Some newZone => _ ← store_add newZone; mret (Some newZone, None)
        | None, None => crash NilDereference (* z.name() in add *)
        end
  end.

(** ** finaliseResponse *)

Definition set_header_Ttl (t : Z) (h : RR_Header) : RR_Header :=
  mkHdr (Name h) (Rrtype h) (Class_ h) t.

(** [rr.Header().Ttl = t] *)
Definition set_Ttl (t : Z) (rr : RR) : RR :=
  let f := set_header_Ttl t in
  match rr with
  | RR_A (mkA h a) => RR_A (mkA (f h) a)
  | RR_AAAA (mkAAAA h a) => RR_AAAA (mkAAAA (f h) a)
  | RR_NS (mkNS h n) => RR_NS (mkNS (f h) n)
  | RR_CNAME (mkCNAME h t) => RR_CNAME (mkCNAME (f h) t)
  | RR_SOA (mkSOA h d) => RR_SOA (mkSOA (f h) d)
  | RR_DS (mkDS h a b c e) => RR_DS (mkDS (f h) a b c e)
  | RR_DNSKEY r => RR_DNSKEY (mkDNSKEY (f (DNSKEY_Hdr r)) (DNSKEY_Flags r) (Protocol r) (DNSKEY_Algorithm r) (PublicKey r))
  | RR_RRSIG r => RR_RRSIG (mkRRSIG (f (RRSIG_Hdr r)) (TypeCovered r) (RRSIG_Algorithm r) (Labels r) (OrigTtl r)
                    (Expiration r) (Inception r) (RRSIG_KeyTag r) (SignerName r) (Signature r))
  | RR_NSEC (mkNSEC h n b) => RR_NSEC (mkNSEC (f h) n b)
  | RR_NSEC3 (mkNSEC3 h a b c d e g) => RR_NSEC3 (mkNSEC3 (f h) a b c d e g)
  | RR_OPT (mkOPT h) => RR_OPT (mkOPT (f h))
  | RR_Other (mkOther h d) => RR_Other (mkOther (f h) d)
  end.

(** The TTL of a record of an authenticated RRset; the map [ttls] only saves
    repeated calls of [ttl]. *)
Definition limit_rr (ttl : Z -> option Z) (rr : RR) : RR :=
  match ttl (Rrtype (Header rr)) with
  | Some t => set_Ttl (Z.min t (Ttl (Header rr))) rr
  | None => rr
  end.

(** The effect of [auth.result] on the response. *)
Definition apply_verdict (v : verdict) (msg : Msg) (r : Response) : Response * Msg :=
  (mkResponse (resp_Msg r) (v_err v) (Duration r) (v_doe v) (v_auth v),
   if bool_decide (v_auth v = Secure)
   then set_Ns (map (limit_rr (v_ttlAuthority v)) (Ns msg))
          (set_Answer (map (limit_rr (v_ttlAnswer v)) (Answer msg)) msg)
   else msg).

(** The two trims and the removal of duplicates. *)
Definition first_OPT (extra : list RR) : list RR :=
  match extractRecords OPT extra with opt :: _ => [RR_OPT opt] | [] => [] end.

Definition positive (m : Msg) : bool :=
  bool_decide (0 < length (Answer m)) && negb (recordsOfTypeExist (Ns m) TypeSOA).

Definition trim (m : Msg) : Msg :=
  let m := if RemoveAuthoritySectionForPositiveAnswers && positive m then set_Ns [] m else m in
  let m := if RemoveAdditionalSectionForPositiveAnswers && positive m
           then set_Extra (first_OPT (Extra m)) m else m in
  let m := if bool_decide (0 < length (Answer m)) then set_Answer (dns_Dedup (Answer m)) m else m in
  let m := if bool_decide (0 < length (Ns m)) then set_Ns (dns_Dedup (Ns m)) m else m in
  if bool_decide (0 < length (Extra m)) then set_Extra (dns_Dedup (Extra m)) m else m.

(** The flags the client sees. *)
Definition protect (qmsg : Msg) (au : AuthenticationResult) (m : Msg) : Msg :=
  if negb (CheckingDisabled qmsg) then
    let m := set_AuthenticatedData (bool_decide (au = Secure)) m in
    if bool_decide (au = Bogus) then
      let m := set_Rcode RcodeServerFailure m in
      if SuppressBogusResponseSections then set_Extra [] (set_Ns [] (set_Answer [] m)) else m
    else m
  else m.

(** [time.Since(start)]; the longest duration when the context has no start. *)
Definition since (start : option Z) (now : Z) : Z :=
  match start with Some t => (now - t)%Z | None => (2 ^ 63 - 1)%Z end.

Definition rcode_error (m : Msg) (e : option error) : option error :=
  if bool_decide (Rcode m = RcodeSuccess \/ Rcode m = RcodeNameError) then e
  else Some (ENew ("unsuccessful response code " +:+ RcodeToString (Rcode m) +:+ " (" +:+ pretty (Rcode m) +:+ ")")).

(** What follows the CNAME step, on the response and its message. *)
Definition conclude (a : option (auth zone)) (qmsg : Msg) (r : Response) (m : Msg) : Response :=
  let err := rcode_error m (Err r) in
  let m := trim m in
  let m := match a with Some _ => protect qmsg (Auth r) m | None => m end in
  mkResponse (Some m) err (Duration r) (Doe r) (Auth r).

Definition finaliseResponse (ctx : Ctx) (a : option (auth zone)) (qmsg : Msg) (response : Response) :
    RM Response :=
  match resp_Msg response with
  | None => crash NilDereference
  | Some msg =>
      '(response, msg) ← match a with
        | Some a =>
            v ← on_world (auth_result a);
            mret (apply_verdict v msg response)
        | None => mret (response, msg)
        end;
      q ← lift (go_index (Question qmsg) 0);
      let response := mkResponse (Some msg) (Err response) (Duration response) (Doe response) (Auth response) in
      '(err, response) ←
        (if bool_decide (Qtype q <> TypeCNAME) && recordsOfTypeExist (Answer msg) TypeCNAME
         then f_cname F ctx qmsg response (f_getExchanger F)
         else mret (None, response));
      match (err : option error) with
      | Some e => mret (newResponseError e)
      | None =>
          match resp_Msg response with
          | None => crash NilDereference
          | Some msg =>
              now ← time_Now;
              let r := conclude a qmsg response msg in
              mret (mkResponse (resp_Msg r) (Err r) (since (ctxStartTime ctx) now) (Doe r) (Auth r))
          end
      end
  end.
End resolver.
