(* ===== verification/Resolver.v ===== *)
(** * resolver.go: the resolver, its query budget and its termination

    [resolver_exchange fuel] is [Resolver.exchange] with the functions that
    [NewResolver] puts in the table; [fuel] bounds how deep exchanges nest. *)

From S2P Require Import Prelude GoErrors Dns DnsRef DnssecConst DnssecFunctions Domain Cache Response Nameserver Pool Functions Zones Zone Session ResolverState ZoneFactory Cname ResolverExchange.

Section resolver.
Context `{L : DnsLib} `{RC : ResolverConfig} `{B : MsgBuilder} `{Sch : Scheduler}.
Context {zone P W : Type} `{ZW : ZoneWorld zone P W} `{IL : Interleaving zone P W} `{AS : AuthService zone W}.
Context (cache_fuel : nat).
Abbreviation RM := (M (session zone P W)).

(** The table of [NewResolver] for an exchanger, innermost functions first. *)
Definition leaf_funcs (ex : exchanger zone P W) : resolverFunctions zone P W := {|
  f_resolveLabel _ _ _ _ _ := out_of_fuel;
  f_checkForMissingZones := checkForMissingZones;
  f_createZone := createZone;
  f_finaliseResponse _ _ _ _ := out_of_fuel;
  f_processDelegation _ _ _ := out_of_fuel;
  f_cname := cname cache_fuel;
  f_getExchanger := ex
|}.

Definition inner_funcs (ex : exchanger zone P W) : resolverFunctions zone P W := {|
  f_resolveLabel _ _ _ _ _ := out_of_fuel;
  f_checkForMissingZones := checkForMissingZones;
  f_createZone := createZone;
  f_finaliseResponse := finaliseResponse (leaf_funcs ex);
  f_processDelegation := processDelegation (leaf_funcs ex);
  f_cname := cname cache_fuel;
  f_getExchanger := ex
|}.

Definition funcs (ex : exchanger zone P W) : resolverFunctions zone P W := {|
  f_resolveLabel := resolveLabel (inner_funcs ex);
  f_checkForMissingZones := checkForMissingZones;
  f_createZone := createZone;
  f_finaliseResponse := finaliseResponse (leaf_funcs ex);
  f_processDelegation := processDelegation (leaf_funcs ex);
  f_cname := cname cache_fuel;
  f_getExchanger := ex
|}.

Fixpoint resolver_exchange (fuel : nat) : exchanger zone P W :=
  match fuel with
  | O => fun _ _ => out_of_fuel
  | S fuel' => exchange (funcs (resolver_exchange fuel'))
  end.

(** [resolver.Exchange] *)
Definition resolver_Exchange (fuel : nat) (ctx : Ctx) (qmsg : Msg) : RM (option Response) :=
  match fuel with
  | O => out_of_fuel
  | S fuel' => Exchange (funcs (resolver_exchange fuel')) ctx qmsg
  end.
End resolver.

(** * Theory *)

Section tied.
Context `{L : DnsLib} `{RC : ResolverConfig} `{B : MsgBuilder} `{Sch : Scheduler}.
Context {zone P W : Type} `{ZW : ZoneWorld zone P W} `{IL : Interleaving zone P W} `{AS : AuthService zone W}.
Context (cache_fuel : nat).

(** The table is tied: each function calls the others through it. *)
Lemma funcs_tied (ex : exchanger zone P W) :
  let F := funcs cache_fuel ex in
  f_resolveLabel F = resolveLabel F /\ f_finaliseResponse F = finaliseResponse F /\
  f_processDelegation F = processDelegation F /\ f_checkForMissingZones F = checkForMissingZones.
Proof. by split_and!. Qed.
End tied.
