(* ===== verification/ReplySound.v ===== *)
(** * What the flags of a reply mean

    The AD flag of a reply to a question with DO and without CD, and what a
    Bogus verdict leaves of it, followed from [finaliseResponse] up through the
    whole recursion. *)

From S2P Require Import Prelude GoErrors Dns DnsRef DnssecConst DnssecFunctions Domain Cache Response Functions Zone Session ResolverState ZoneFactory Cname ResolverExchange Resolver.

Lemma Combine_secure a b : Combine a b = Secure <-> a = Secure /\ b = Secure.
Proof. split; [|by intros [-> ->]]. destruct a, b; vm_compute; intros H; try discriminate H; auto. Qed.

Section reply.
Context `{L : DnsLib} `{RC : ResolverConfig} `{B : MsgBuilder} `{Sch : Scheduler}.
Context {zone P W : Type} `{ZW : ZoneWorld zone P W} `{IL : Interleaving zone P W} `{AS : AuthService zone W}.
Context (cache_fuel : nat).

(** ** Aliases *)

(** The verdict of an answer with its aliases is Secure when the answer's and
    those of all the responses followed are. *)
Lemma merge_Auth r r' : is_Some (resp_Msg r) -> is_Some (resp_Msg r') ->
  Auth (merge r r') = Combine (Auth r) (Auth r').
Proof. unfold merge. intros [m ->] [m' ->]. done. Qed.

Lemma merge_is_msg r r' : is_Some (resp_Msg r) -> is_Some (resp_Msg (merge r r')).
Proof. unfold merge. intros [m E]. rewrite E. destruct (resp_Msg r'); cbn; eauto. Qed.

Lemma merge_all_secure rs r : is_Some (resp_Msg r) -> Forall (fun r => is_Some (resp_Msg r)) rs ->
  Auth (foldl merge r rs) = Secure <-> Auth r = Secure /\ Forall (fun r => Auth r = Secure) rs.
Proof.
  intros Hr Hrs. revert r Hr; induction Hrs as [|r' rs Hr' Hrs IH]; intros r Hr; cbn.
  { rewrite Forall_nil. tauto. }
  rewrite IH by (by apply merge_is_msg). rewrite merge_Auth, Combine_secure, Forall_cons by done. tauto.
Qed.

Definition sent_msg (f : followed) : Prop := forall r, f = Sent r -> is_Some (resp_Msg r).

Lemma follow_sent ctx qmsg answer ex c : ensures (follow cache_fuel ctx qmsg answer ex c) sent_msg.
Proof.
  unfold follow. apply ensures_skip. intros q.
  destruct (_ || _); [by apply ensures_ret|].
  apply ensures_skip. intros cq. apply ensures_skip. intros cached. apply ensures_skip. intros o.
  destruct o as [[[msg|] [e|] dur doe au]|]; apply ensures_ret; intros r [= <-]; cbn; eauto.
Qed.

Lemma elem_of_sent r l : r ∈ sent l <-> Sent r ∈ l.
Proof.
  unfold sent. rewrite list_elem_of_omap. split.
  - intros (f & Hf & E). destruct f; by simplify_eq.
  - intros H. by exists (Sent r).
Qed.

(** The responses followed are merged in turn; an error means there were none. *)
Lemma cname_results ctx qmsg r ex m : resp_Msg r = Some m ->
  ensures (cname cache_fuel ctx qmsg r ex) (fun x => exists results,
    Forall2 (fun c => result_of (follow cache_fuel ctx qmsg (Answer m) ex c)) (schedule (extractRecords CNAME (Answer m))) results /\
    snd x = foldl merge r (sent results) /\ (fst x <> None <-> sent results = [] /\ failed results <> [])).
Proof.
  intros Em. unfold cname. rewrite Em. eapply ensures_bind; [apply ensures_collect|]. intros l (results & -> & Hr).
  rewrite app_nil_l. assert (bool_decide (length (sent results) = 0) && bool_decide (0 < length (failed results)) = true <->
    sent results = [] /\ failed results <> []) as Hb.
  { rewrite andb_true_iff, !bool_decide_eq_true. destruct (sent results), (failed results); naive_solver lia. }
  destruct (_ && _); apply ensures_ret; exists results; split_and!; try done; naive_solver.
Qed.

Lemma results_sent ctx qmsg answer ex cs results :
  Forall2 (fun c => result_of (follow cache_fuel ctx qmsg answer ex c)) cs results ->
  Forall (fun x => is_Some (resp_Msg x)) (sent results).
Proof.
  intros Hr. apply Forall_forall. intros x Hx%elem_of_sent. apply list_elem_of_lookup in Hx as [i Hi].
  destruct (Forall2_lookup_r _ _ _ _ _ Hr Hi) as (c & _ & s & s' & E). by eapply follow_sent.
Qed.

Lemma cname_merges ctx qmsg r ex :
  ensures (cname cache_fuel ctx qmsg r ex) (fun x => exists rs, snd x = foldl merge r rs /\
    Forall (fun x => is_Some (resp_Msg x)) rs /\ (fst x <> None -> rs = [])).
Proof.
  destruct (resp_Msg r) as [m|] eqn:Em; [|unfold cname; by rewrite Em].
  eapply ensures_weaken; [by eapply cname_results|]. intros x (results & Hr & E & Hx). exists (sent results).
  split_and!; [done|by eapply results_sent|]. intros H. by apply Hx.
Qed.

(** The answer section and the response code of the responses merged. *)
Definition answers (x : Response) : list RR := match resp_Msg x with Some m => Answer m | None => [] end.
Definition rcodes (x : Response) : list Z := match resp_Msg x with Some m => [Rcode m] | None => [] end.

Lemma merge_all_msg rs r m : resp_Msg r = Some m -> Forall (fun r => is_Some (resp_Msg r)) rs ->
  exists m', resp_Msg (foldl merge r rs) = Some m' /\
    Answer m' = Answer m ++ mjoin (map answers rs) /\ Rcode m' = foldl Z.max (Rcode m) (mjoin (map rcodes rs)).
Proof.
  intros Em Hrs. revert r m Em; induction Hrs as [|r' rs [m' Em'] Hrs IH]; intros r m Em; cbn.
  { exists m. by rewrite app_nil_r. }
  assert (exists m1, resp_Msg (merge r r') = Some m1 /\ Answer m1 = Answer m ++ Answer m' /\ Rcode m1 = Z.max (Rcode m) (Rcode m'))
    as (m1 & E1 & Ea & Er) by (unfold merge; rewrite Em, Em'; by eexists).
  destruct (IH _ _ E1) as (m2 & E2 & Ea2 & Er2). exists m2. unfold answers at 1, rcodes at 1. rewrite Em'.
  split_and!; [done|by rewrite Ea2, Ea, <- app_assoc|by rewrite Er2, Er].
Qed.

(** C15: each alias of an answer is followed once, in some order.  The verdict of
    what comes out is Secure exactly when the answer's own was and that of
    every response found by following; their records come after the answer's,
    and the response code is the highest.  There is an error exactly when
    nothing was found and some alias failed. *)
Theorem cname_combines ctx qmsg r m ex s err r' s' : resp_Msg r = Some m ->
  cname cache_fuel ctx qmsg r ex s = Fine (err, r', s') ->
  exists results m', let rs := sent results in
    Forall2 (fun c => result_of (follow cache_fuel ctx qmsg (Answer m) ex c)) (schedule (extractRecords CNAME (Answer m))) results /\
    (Auth r' = Secure <-> Auth r = Secure /\ Forall (fun x => Auth x = Secure) rs) /\
    resp_Msg r' = Some m' /\ Answer m' = Answer m ++ mjoin (map answers rs) /\
    Rcode m' = foldl Z.max (Rcode m) (mjoin (map rcodes rs)) /\
    (err <> None <-> rs = [] /\ failed results <> []).
Proof.
  intros Em H. destruct (cname_results _ _ _ _ _ Em _ _ _ H) as (results & Hr & E & Hx). cbn in *. subst r'.
  pose proof (results_sent _ _ _ _ _ _ Hr) as Hs. destruct (merge_all_msg _ _ _ Em Hs) as (m' & E1 & E2 & E3).
  exists results, m'. split_and!; [done|by apply merge_all_secure|done..].
Qed.

(** ** What stands behind a Secure reply *)

(** A zone's servers gave [msg] in reply to [qmsg]. *)
Definition received (qmsg msg : Msg) : Prop :=
  exists ctx z w r w', zn_exchange ctx z qmsg w = Ret (Some r, w') /\ resp_Msg r = Some msg.

(** The responses in a question's log are replies to that question. *)
Definition logged (qmsg : Msg) (e : auth_event zone) : Prop :=
  match e with ZoneResponse _ msg => received qmsg msg | DelegationSignerLink _ _ => True end.

(** The question asked for the target of an alias. *)
Definition alias_question (qmsg : Msg) (q : Question_) (c : CNAME) : Msg :=
  let m := msg_SetQuestion (dns_CanonicalName (Target c)) (Qtype q) in
  if isSetDO qmsg then msg_SetEdns0 4096 true m else m.

(** The response of [finaliseResponse] before the aliases, under a verdict. *)
Definition judged (v : verdict) (msg : Msg) (r : Response) : Response :=
  let '(r, msg) := apply_verdict v msg r in mkResponse (Some msg) (Err r) (Duration r) (Doe r) (Auth r).
Definition judged_msg (v : verdict) (msg : Msg) (r : Response) : Msg := snd (apply_verdict v msg r).

(** All but the time it took. *)
Definition same_reply (x c : Response) : Prop :=
  resp_Msg x = resp_Msg c /\ Err x = Err c /\ Doe x = Doe c /\ Auth x = Auth c.

(** [x] is the reply to [qmsg] that [finaliseResponse] makes of the message
    [msg] of a zone, the last response in the log of the question, under a
    Secure verdict [v] on that log, merged with the replies for its aliases,
    each Secure and backed in the same way.  [J] says what a verdict rests on. *)
Inductive backed (J : auth zone -> verdict -> Prop) : Msg -> Response -> Prop :=
| backed_by qmsg q qs a es z msg r v (followed : list (CNAME * Response)) m x :
    Question qmsg = q :: qs -> auth_question a = q ->
    auth_events a = es ++ [ZoneResponse z msg] -> Forall (logged qmsg) (auth_events a) ->
    resp_Msg r = Some msg -> J a v -> v_auth v = Secure ->
    (forall c x', (c, x') ∈ followed ->
      c ∈ extractRecords CNAME (Answer (judged_msg v msg r)) /\ Auth x' = Secure) ->
    (forall c x', (c, x') ∈ followed -> backed J (alias_question qmsg q c) x') ->
    let merged := foldl merge (judged v msg r) (map snd followed) in
    resp_Msg merged = Some m -> same_reply x (conclude (Some a) qmsg merged m) ->
    backed J qmsg x.

Lemma backed_mono (J J' : auth zone -> verdict -> Prop) qmsg x :
  (forall a v, v_auth v = Secure -> J a v -> J' a v) -> backed J qmsg x -> backed J' qmsg x.
Proof.
  intros HJ. induction 1 as [qmsg q qs a es z msg r v followed m x Hq Ha He Hg Hr Hv Hs Hf _ IH merged Hm Hx].
  by eapply (backed_by J' qmsg q qs a es z msg r v followed m x); eauto.
Qed.

(** A zone's responses carry no verdict. *)
Definition unjudged : Prop :=
  forall ctx z m w r w', zn_exchange ctx z m w = Ret (Some r, w') -> Auth r = Unknown.

(** The service's verdicts. *)
Definition service_verdict (a : auth zone) (v : verdict) : Prop := exists w w', auth_result a w = Ret (v, w').

Definition secure_backed (qmsg : Msg) (r : option Response) : Prop :=
  unjudged -> forall x, r = Some x -> Auth x = Secure -> backed service_verdict qmsg x.

(** The log of a question: none without DO. *)
Definition log_of (qmsg : Msg) (a : option (auth zone)) : Prop :=
  match a with
  | None => isSetDO qmsg = false
  | Some a => (exists qs, Question qmsg = auth_question a :: qs) /\ Forall (logged qmsg) (auth_events a)
  end.

Lemma log_event_of qmsg e a : log_of qmsg a -> logged qmsg e -> log_of qmsg (log_event e a).
Proof.
  destruct a as [a|]; [|done]. intros [Hq Ha] He. split; [done|]. apply Forall_app. split; [done|]. by apply Forall_singleton.
Qed.

(** The responses followed with the aliases that led to them. *)
Definition sent_pairs (cs : list CNAME) (results : list followed) : list (CNAME * Response) :=
  omap (fun '(c, f) => match f with Sent r => Some (c, r) | _ => None end) (zip cs results).

Lemma sent_pairs_snd cs results : length cs = length results -> map snd (sent_pairs cs results) = sent results.
Proof.
  revert results; induction cs as [|c cs IH]; intros [|f results] Hl; try discriminate Hl; [done|].
  injection Hl as Hl. apply IH in Hl. destruct f; cbn; [exact Hl|by f_equal|exact Hl].
Qed.

Lemma elem_of_sent_pairs c r cs results : (c, r) ∈ sent_pairs cs results ->
  exists i, cs !! i = Some c /\ results !! i = Some (Sent r).
Proof.
  unfold sent_pairs. intros ([c' f] & Hin & E)%list_elem_of_omap. apply list_elem_of_lookup in Hin as [i Hi].
  apply lookup_zip_Some in Hi as [Hc Hf]. exists i. destruct f; by simplify_eq.
Qed.

Definition replies_backed (ex : exchanger zone P W) : Prop :=
  forall ctx qmsg, ensures (ex ctx qmsg) (secure_backed qmsg).

(** A Secure response to follow is not from the cache. *)
Lemma follow_backed ex ctx qmsg q qs answer c : replies_backed ex -> Question qmsg = q :: qs ->
  ensures (follow cache_fuel ctx qmsg answer ex c)
    (fun f => unjudged -> forall r, f = Sent r -> Auth r = Secure -> backed service_verdict (alias_question qmsg q c) r).
Proof.
  intros Hex Hq. unfold follow. eapply (ensures_bind _ (fun q' => q' = q)).
  { apply ensures_lift. rewrite Hq. by intros q' [= <-]. }
  intros q' ->. destruct (_ || _); [by apply ensures_ret|].
  apply ensures_skip. intros cq. apply ensures_skip. intros cached.
  eapply (ensures_bind _ (fun o => unjudged -> forall r, o = Some r -> Auth r = Secure -> backed service_verdict (alias_question qmsg q c) r)).
  - destruct cached as [m|]; [by apply ensures_ret; intros _ r [= <-]|].
    eapply ensures_bind; [apply Hex|]. intros o Ho. apply ensures_skip. intros cq'.
    destruct (negb (HasError o)); [|by apply ensures_ret]. destruct o as [r|]; [|done].
    apply ensures_skip. intros _. by apply ensures_ret.
  - intros o Ho. destruct o as [[[msg|] [e|] dur doe au]|]; apply ensures_ret; try done.
    intros Hu r [= <-]. by apply Ho.
Qed.

Lemma cname_backed ex ctx qmsg q qs r m : replies_backed ex -> Question qmsg = q :: qs -> resp_Msg r = Some m ->
  ensures (cname cache_fuel ctx qmsg r ex) (fun x => exists followed,
    snd x = foldl merge r (map snd followed) /\ Forall (fun x => is_Some (resp_Msg x)) (map snd followed) /\
    forall c x', (c, x') ∈ followed -> c ∈ extractRecords CNAME (Answer m) /\
      (unjudged -> Auth x' = Secure -> backed service_verdict (alias_question qmsg q c) x')).
Proof.
  intros Hex Hq Em. eapply ensures_weaken; [by eapply cname_results|]. intros x (results & Hr & E & _).
  exists (sent_pairs (schedule (extractRecords CNAME (Answer m))) results).
  rewrite sent_pairs_snd by (by eapply Forall2_length). split_and!; [done|by eapply results_sent|].
  intros c x' (i & Hc & Hi)%elem_of_sent_pairs. split.
  - rewrite <- (schedule_perm (extractRecords CNAME (Answer m))). by eapply list_elem_of_lookup_2.
  - intros Hu Hs. destruct (Forall2_lookup_lr _ _ _ _ _ _ Hr Hc Hi) as (s & s' & E').
    by eapply (follow_backed ex ctx qmsg q qs _ c Hex Hq _ _ _ E' Hu).
Qed.

(** ** finaliseResponse *)

(** What the flags of a reply without an error say. *)
Definition flags_sound (r : Response) : Prop :=
  forall m, resp_Msg r = Some m ->
    (AuthenticatedData m = true <-> Auth r = Secure) /\
    (Auth r = Bogus -> Rcode m = RcodeServerFailure /\
       (SuppressBogusResponseSections = true -> Answer m = [] /\ Ns m = [] /\ Extra m = [])).

Lemma protect_flags qmsg au m : CheckingDisabled qmsg = false ->
  (AuthenticatedData (protect qmsg au m) = true <-> au = Secure) /\
  (au = Bogus -> Rcode (protect qmsg au m) = RcodeServerFailure /\
    (SuppressBogusResponseSections = true ->
     Answer (protect qmsg au m) = [] /\ Ns (protect qmsg au m) = [] /\ Extra (protect qmsg au m) = [])).
Proof.
  intros Hcd. unfold protect. rewrite Hcd. cbn [negb].
  destruct au; cbn; (split; [|try done]); try (destruct SuppressBogusResponseSections; cbn);
    try done; intuition congruence.
Qed.

Lemma finaliseResponse_flags ctx a qmsg r ex : CheckingDisabled qmsg = false ->
  ensures (finaliseResponse (leaf_funcs cache_fuel ex) ctx (Some a) qmsg r) flags_sound.
Proof.
  intros Hcd. unfold finaliseResponse. destruct (resp_Msg r) as [msg|]; [|done].
  apply ensures_skip. intros [r0 msg0]. apply ensures_skip. intros q. apply ensures_skip. intros [[e|] r2].
  { apply ensures_ret. intros m. done. }
  destruct (resp_Msg r2) as [m2|]; [|done]. apply ensures_skip. intros now. apply ensures_ret.
  intros m [= <-]. by apply protect_flags.
Qed.

(** What the reply to a question is worth. *)
Lemma finaliseResponse_backed ctx a qmsg r ex z msg : replies_backed ex -> log_of qmsg a -> resp_Msg r = Some msg ->
  (unjudged -> Auth r = Unknown) ->
  (forall a', a = Some a' -> exists es, auth_events a' = es ++ [ZoneResponse z msg]) ->
  ensures (finaliseResponse (leaf_funcs cache_fuel ex) ctx a qmsg r) (fun x => secure_backed qmsg (Some x)).
Proof.
  intros Hex Ha Er Hu He. unfold finaliseResponse. rewrite Er.
  eapply (ensures_bind _ (fun x => match a with
    | Some a => exists v, service_verdict a v /\ x = apply_verdict v msg r
    | None => x = (r, msg) end)).
  { destruct a as [a|]; [|by apply ensures_ret].
    eapply (ensures_bind _ (service_verdict a)); [apply ensures_on_world; intros w v w' E; by exists w, w'|].
    intros v Hv. apply ensures_ret. by exists v. }
  intros [r0 msg0] Hx. eapply (ensures_bind _ (fun q => exists qs, Question qmsg = q :: qs)).
  { apply ensures_lift. intros q [qs Hq]%go_index_0. by exists qs. }
  intros q [qs Hq]. set (r1 := mkResponse (Some msg0) _ _ _ _).
  eapply (ensures_bind _ (fun x => exists followed,
    snd x = foldl merge r1 (map snd followed) /\ Forall (fun x => is_Some (resp_Msg x)) (map snd followed) /\
    forall c x', (c, x') ∈ followed -> c ∈ extractRecords CNAME (Answer msg0) /\
      (unjudged -> Auth x' = Secure -> backed service_verdict (alias_question qmsg q c) x'))).
  { destruct (_ && _); [by eapply cname_backed|]. apply ensures_ret. exists []. split_and!; [done..|].
    intros c x' []%not_elem_of_nil. }
  intros [err r2] (followed & E & Hmsg & Hf). cbn [snd] in E. subst r2.
  destruct err as [e|]; [by apply ensures_ret; intros _ x [= <-]|].
  destruct (resp_Msg (foldl merge r1 _)) as [m|] eqn:Em; [|done]. apply ensures_skip. intros now. apply ensures_ret.
  intros Hun x [= <-]. cbn [Auth]. intros Hs.
  apply merge_all_secure in Hs as [Hs1 Hs]; [|by eexists|done]. rewrite Forall_map in Hs.
  destruct a as [a|]; [|simplify_eq; cbn in Hs1; by rewrite Hu in Hs1].
  destruct Hx as (v & Hv & Ev). destruct (He a eq_refl) as [es Hes]. destruct Ha as [[qs' Hq'] Hg].
  rewrite Hq' in Hq. injection Hq as <- <-.
  assert (judged v msg r = r1 /\ judged_msg v msg r = msg0) as [Ej Ejm].
  { unfold judged, judged_msg. by rewrite <- Ev. }
  assert (v_auth v = Secure) as Hvs by (unfold apply_verdict in Ev; by injection Ev as -> _).
  eapply (backed_by service_verdict qmsg (auth_question a) qs' a es z msg r v followed m); try done; rewrite ?Ej, ?Ejm; try done.
  - intros c x' Hin. split; [exact (proj1 (Hf c x' Hin))|]. rewrite Forall_forall in Hs. apply (Hs (c, x') Hin).
  - intros c x' Hin. apply (proj2 (Hf c x' Hin) Hun). rewrite Forall_forall in Hs. apply (Hs (c, x') Hin).
Qed.

(** ** The recursion *)

(** A response that went through [finaliseResponse] to its end. *)
Definition finished (x : Response) : Prop := Err x = None \/ unjudged /\ Auth x <> Unknown.

Definition reply_sound (qmsg : Msg) (r : option Response) : Prop :=
  (CheckingDisabled qmsg = false -> isSetDO qmsg = true -> forall x, r = Some x -> finished x -> flags_sound x) /\
  secure_backed qmsg r.

Lemma response_error_sound qmsg e : reply_sound qmsg (response_error e).
Proof. split; [by intros _ _ x [= <-] [?|[_ ?]]|by intros _ x [= <-]]. Qed.

Lemma no_reply_sound qmsg : reply_sound qmsg None.
Proof. by split. Qed.

Lemma missing_zone_log qmsg ctx acc n : log_of qmsg (snd acc) ->
  ensures (missing_zone ctx acc n) (fun acc => log_of qmsg (snd acc)).
Proof.
  destruct acc as [[z d] a]. intros Ha. unfold missing_zone. apply ensures_skip. intros [soa err].
  destruct err, soa; try (by apply ensures_ret). apply ensures_skip. intros z'. apply ensures_skip. intros ?.
  apply ensures_ret. by apply log_event_of.
Qed.

Lemma checkForMissingZones_log qmsg ctx d z m a : log_of qmsg a ->
  ensures (checkForMissingZones ctx d z m a) (fun acc => log_of qmsg (snd acc)).
Proof.
  intros Ha. unfold checkForMissingZones. case_bool_decide; [by apply ensures_ret|].
  case_bool_decide; [by apply ensures_ret|]. apply ensures_skip. intros l.
  apply (ensures_for_each (fun acc => log_of qmsg (snd acc))); [done|]. intros. by apply missing_zone_log.
Qed.

Lemma processDelegation_sound qmsg ctx z m ex :
  ensures (processDelegation (leaf_funcs cache_fuel ex) ctx z m) (fun x => reply_sound qmsg (snd x)).
Proof.
  unfold processDelegation.
  destruct (extractRecords NS (Ns m)) as [|ns nss]; [apply ensures_ret, response_error_sound|].
  destruct (_ || _); [apply ensures_ret, response_error_sound|]. apply ensures_skip. intros [nz err].
  destruct err; [apply ensures_ret, response_error_sound|]. destruct nz; [|done].
  apply ensures_skip. intros ?. apply ensures_ret, no_reply_sound.
Qed.

Lemma resolveLabel_sound ctx d z qmsg a ex : replies_backed ex -> log_of qmsg a ->
  ensures (resolveLabel (inner_funcs cache_fuel ex) ctx d z qmsg a)
    (fun x => reply_sound qmsg (snd (fst (fst x))) /\ log_of qmsg (snd x)).
Proof.
  intros Hex Ha. unfold resolveLabel.
  destruct z as [z|]; [|apply ensures_ret; split; [apply response_error_sound|done]].
  apply ensures_skip. intros ?.
  eapply (ensures_bind _ (fun r => forall x, r = Some x -> (unjudged -> Auth x = Unknown) /\
    forall msg, resp_Msg x = Some msg -> received qmsg msg)).
  { apply ensures_on_world. intros w r w' E x ->. split; [intros Hu; by eapply Hu|]. intros msg Em.
    by exists ctx, z, w, x, w'. }
  intros r Hr. destruct r as [[[msg|] [e|] dur doe au]|];
    try (apply ensures_ret; split; [apply response_error_sound|done]);
    try (destruct (Hr _ eq_refl) as [Hu _]; apply ensures_ret; split; [|done]; split;
      [by intros _ _ x [= <-] [?|[H ?]]; [|by rewrite (Hu H) in *]
      |by intros H x [= <-]; cbn in Hu |- *; rewrite (Hu H)]).
  destruct (Hr _ eq_refl) as [Hu Hrec]. specialize (Hrec msg eq_refl).
  eapply ensures_bind; [by apply (checkForMissingZones_log qmsg)|]. intros [[z' d'] a'] Ha'. cbn [snd] in Ha'.
  pose proof (log_event_of qmsg (ZoneResponse z' msg) a' Ha' Hrec) as Hlog. destruct (is_delegation msg).
  - eapply ensures_bind; [apply (processDelegation_sound qmsg)|]. intros [z'' r'] ?. by apply ensures_ret.
  - cbn [f_finaliseResponse inner_funcs].
    eapply (ensures_bind _ (fun x => reply_sound qmsg (Some x))); [|by intros r' Hr'; apply ensures_ret].
    intros s x s' E. split.
    + intros Hcd Hdo x' [= <-] _. destruct a' as [a'|]; [|cbn in Ha'; congruence].
      by eapply (finaliseResponse_flags _ _ _ _ ex Hcd).
    + refine (finaliseResponse_backed _ _ _ (mkResponse (Some msg) None dur doe au) ex z' msg Hex Hlog eq_refl Hu _ _ _ _ E).
      intros a2 Ea. destruct a' as [a'|]; [|done]. injection Ea as <-. by exists (auth_events a').
Qed.

Lemma exchange_loop_sound fuel ctx qmsg z d a ex : replies_backed ex -> log_of qmsg a ->
  ensures (exchange_loop (funcs cache_fuel ex) fuel ctx qmsg z d a) (reply_sound qmsg).
Proof.
  intros Hex. revert z d a; induction fuel as [|fuel IH]; intros z d a Ha; [done|]. cbn [exchange_loop].
  destruct (negb (more d)); [apply ensures_ret, response_error_sound|]. apply ensures_skip. intros count.
  case_bool_decide; [apply ensures_ret, response_error_sound|].
  apply ensures_skip. intros c. apply ensures_skip. intros known.
  destruct (if domain_last d then None else known); [by apply IH|].
  eapply ensures_bind; [by apply resolveLabel_sound|]. intros [[[z' r] d'] a'] [Hr Ha'].
  destruct r; [by apply ensures_ret|by apply IH].
Qed.

Lemma link_known_log qmsg known a : log_of qmsg a -> log_of qmsg (link_known known a).
Proof.
  revert a; induction known as [|c [|p rest] IH]; intros a Ha; [done..|]. apply IH. by apply log_event_of.
Qed.

Lemma exchange_sound ctx qmsg ex : replies_backed ex -> ensures (exchange (funcs cache_fuel ex) ctx qmsg) (reply_sound qmsg).
Proof.
  intros Hex. unfold exchange. apply ensures_skip. intros start.
  apply ensures_skip. intros ?. eapply (ensures_bind _ (fun q => exists qs, Question qmsg = q :: qs)).
  { apply ensures_lift. intros q [qs Hq]%go_index_0. by exists qs. }
  intros q [qs Hq]. apply ensures_skip. intros known. apply ensures_skip. intros first.
  apply ensures_skip. intros [d err]. destruct err; [apply ensures_ret, response_error_sound|].
  apply exchange_loop_sound; [done|]. apply link_known_log. destruct (isSetDO qmsg) eqn:Hdo; cbn; [|done].
  split; [by exists qs|constructor].
Qed.

Lemma resolver_exchange_backed fuel : replies_backed (resolver_exchange cache_fuel fuel).
Proof.
  induction fuel as [|fuel IH]; intros ctx qmsg; [done|]. cbn [resolver_exchange].
  eapply ensures_weaken; [by apply exchange_sound|]. by intros r [_ ?].
Qed.

(** [Exchange] finishes a reply of [exchange]. *)
Definition offered (x r : Response) : Prop :=
  exists m, resp_Msg x = Some m /\ resp_Msg r = Some (set_RecursionAvailable true m) /\ Err r = Err x /\ Auth r = Auth x.

Lemma Exchange_sound fuel ctx qmsg :
  ensures (resolver_Exchange cache_fuel fuel ctx qmsg) (fun r => forall y, r = Some y -> is_Some (resp_Msg y) ->
    exists x, offered x y /\ reply_sound qmsg (Some x)).
Proof.
  destruct fuel as [|fuel]; [done|]. unfold resolver_Exchange, Exchange.
  destruct (negb _); [by apply ensures_ret; intros y [= <-] [??]|].
  eapply ensures_bind; [apply exchange_sound, resolver_exchange_backed|]. intros r0 Hr0.
  destruct r0 as [[[m0|] e dur doe au]|]; apply ensures_ret; intros y [= <-]; cbn; [|by intros [??]].
  intros _. exists (mkResponse (Some m0) e dur doe au). split; [by exists m0|exact Hr0].
Qed.

(** The flags and the evidence of the resolver's reply. *)
Lemma reply_flags fuel ctx qmsg s r s' m :
  unjudged -> CheckingDisabled qmsg = false -> isSetDO qmsg = true ->
  resolver_Exchange cache_fuel fuel ctx qmsg s = Fine (Some r, s') -> resp_Msg r = Some m ->
  (Err r = None \/ Auth r <> Unknown -> AuthenticatedData m = true ->
   exists x, offered x r /\ backed service_verdict qmsg x) /\
  (Auth r = Bogus -> Rcode m = RcodeServerFailure /\
     (SuppressBogusResponseSections = true -> Answer m = [] /\ Ns m = [] /\ Extra m = [])).
Proof.
  intros Hu Hcd Hdo H Hm.
  destruct (Exchange_sound fuel ctx qmsg _ _ _ H r eq_refl) as (x & Hx & Hf & Hb); [by eexists|].
  pose proof Hx as (m0 & Em0 & Em & Ee & Ea). rewrite Hm in Em. injection Em as ->.
  specialize (Hf Hcd Hdo x eq_refl).
  assert (Err r = None \/ Auth r <> Unknown -> flags_sound x) as Hfl.
  { intros Hr. apply Hf. unfold finished. rewrite <- Ee, <- Ea. tauto. }
  split.
  - intros Hr Had. exists x. split; [done|]. apply (Hb Hu x eq_refl). by apply (Hfl Hr m0 Em0).
  - intros Hbo. assert (Auth r <> Unknown) as Hr by (by rewrite Hbo).
    apply (Hfl (or_intror Hr) m0 Em0). by rewrite <- Ea.
Qed.

(** C7: for a question with DO and without CD, a reply with the AD flag that
    was finalised (it has no error, or it has a verdict, which no zone's
    response has) is one that the validation service stands behind (see
    [backed]): its records are those of a zone's response to that very
    question, which the service found Secure together with the rest of the
    log, and of the replies for its aliases, each Secure and backed in turn.
    A Bogus answer goes out as SERVFAIL, error or not, and without its sections
    when SuppressBogusResponseSections is set. *)
Theorem reply_flags_sound fuel ctx qmsg s r s' m :
  unjudged -> CheckingDisabled qmsg = false -> isSetDO qmsg = true ->
  resolver_Exchange cache_fuel fuel ctx qmsg s = Fine (Some r, s') -> resp_Msg r = Some m ->
  (Err r = None \/ Auth r <> Unknown -> AuthenticatedData m = true ->
   exists x, offered x r /\ backed service_verdict qmsg x) /\
  (Auth r = Bogus -> Rcode m = RcodeServerFailure /\
     (SuppressBogusResponseSections = true -> Answer m = [] /\ Ns m = [] /\ Extra m = [])).
Proof. exact (reply_flags fuel ctx qmsg s r s' m). Qed.
End reply.
