(* ===== verification/ReplyId.v ===== *)
(** * The id of a reply

    A client drops a reply whose id is not that of its query.  The id of the
    message that [Exchange] returns is followed here from the servers' replies
    through [finaliseResponse] and the merging of aliases. *)

From S2P Require Import Prelude GoErrors Dns DnsRef DnssecConst DnssecFunctions Domain Cache Response Functions Nameserver Zone Session ResolverState ZoneFactory Cname ResolverExchange Resolver ReplySound.

Lemma trim_Id `{DnsLib} `{ResolverConfig} m : Id (trim m) = Id m.
Proof. unfold trim. repeat case_match; done. Qed.

Lemma protect_Id `{ResolverConfig} qmsg au m : Id (protect qmsg au m) = Id m.
Proof. unfold protect. repeat case_match; done. Qed.

Lemma apply_verdict_Id v msg r : Id (snd (apply_verdict v msg r)) = Id msg.
Proof. unfold apply_verdict. cbn. by case_bool_decide. Qed.

Section reply_id.
Context `{L : DnsLib} `{RC : ResolverConfig} `{B : MsgBuilder} `{Sch : Scheduler}.
Context {zone P W : Type} `{ZW : ZoneWorld zone P W} `{IL : Interleaving zone P W} `{AS : AuthService zone W}.
Context (cache_fuel : nat).

(** The zones' replies have the ids of the questions. *)
Definition ids_kept : Prop :=
  forall ctx z m w r w', zn_exchange ctx z m w = Ret (Some r, w') -> ided (Id m) r.
Context (Hids : ids_kept).

(** The cache answers under the id it is asked with. *)
Lemma cache_get_Id q id : ensures (cache_get q id) (fun o => forall m, o = Some m -> Id m = id).
Proof.
  apply ensures_skip. intros now. apply ensures_skip. intros [c|]; [|done].
  destruct (get q id now c) as [o c'] eqn:E. apply ensures_skip. intros ?. apply ensures_ret. intros m ->.
  unfold get in E. destruct (shard_get _ id now _ _) as [o [st s]] eqn:Es. injection E as -> _.
  unfold shard_get in Es. repeat case_match; by simplify_eq.
Qed.

Abbreviation reply_ided i o := (forall r, o = Some r -> ided i r).

Lemma response_error_ided i e : reply_ided i (response_error e).
Proof. by intros r [= <-]. Qed.

(** Merging leaves the message its id. *)
Lemma merge_Id i r r' : (forall m, resp_Msg r = Some m -> Id m = i) ->
  forall m, resp_Msg (merge r r') = Some m -> Id m = i.
Proof.
  unfold merge. intros H m. destruct (resp_Msg r) as [m0|] eqn:E; [|by rewrite E].
  destruct (resp_Msg r'); [intros [= <-]; change (Id m0 = i); by apply H|]. rewrite E. intros [= <-]. by apply H.
Qed.

Lemma merge_all_Id i rs r : (forall m, resp_Msg r = Some m -> Id m = i) ->
  forall m, resp_Msg (foldl merge r rs) = Some m -> Id m = i.
Proof. revert r; induction rs as [|r' rs IH]; intros r H; [done|]. cbn. by apply IH, merge_Id. Qed.

Lemma finaliseResponse_ided i ctx a qmsg r ex : (forall m, resp_Msg r = Some m -> Id m = i) ->
  ensures (finaliseResponse (leaf_funcs cache_fuel ex) ctx a qmsg r) (ided i).
Proof.
  intros Hi. unfold finaliseResponse. destruct (resp_Msg r) as [msg|]; [|done].
  eapply (ensures_bind _ (fun x => Id (snd x) = i)).
  { destruct a as [a|]; [|apply ensures_ret, Hi; done]. apply ensures_skip. intros v. apply ensures_ret.
    rewrite apply_verdict_Id. by apply Hi. }
  intros [r0 msg0] Hm. cbn in Hm. apply ensures_skip. intros q. set (r1 := mkResponse (Some msg0) _ _ _ _).
  assert (forall m, resp_Msg r1 = Some m -> Id m = i) as Hr1 by (by intros m [= <-]).
  eapply (ensures_bind _ (fun x => forall m, resp_Msg (snd x) = Some m -> Id m = i)).
  { destruct (_ && _); [|by apply ensures_ret].
    eapply ensures_weaken; [apply cname_merges|]. intros [err r'] (rs & E & _). cbn in E |- *. subst r'.
    by apply merge_all_Id. }
  intros [err r2] H2. destruct err as [e|]; [by apply ensures_ret|].
  destruct (resp_Msg r2) as [m2|] eqn:E2; [|done]. apply ensures_skip. intros now. apply ensures_ret.
  intros _ m [= <-]. destruct a; rewrite ?protect_Id, trim_Id; by apply H2.
Qed.

Lemma resolveLabel_ided ctx d z qmsg a ex :
  ensures (resolveLabel (inner_funcs cache_fuel ex) ctx d z qmsg a) (fun x => reply_ided (Id qmsg) (snd (fst (fst x)))).
Proof.
  unfold resolveLabel. destruct z as [z|]; [|apply ensures_ret, response_error_ided].
  apply ensures_skip. intros ?. eapply (ensures_bind _ (fun o => reply_ided (Id qmsg) o)).
  { apply ensures_on_world. intros w o w' E r ->. by eapply Hids. }
  intros r Hr. destruct r as [[[msg|] [e|] dur doe au]|];
    try (apply ensures_ret; by intros x [= <-]); try apply ensures_ret, response_error_ided.
  apply ensures_skip. intros [[z' d'] a']. destruct (is_delegation msg).
  - eapply (ensures_bind _ (fun x => reply_ided (Id qmsg) (snd x))); [|intros [z'' r'] ?; by apply ensures_ret].
    unfold f_processDelegation, inner_funcs, processDelegation.
    destruct (extractRecords NS (Ns msg)) as [|ns nss]; [apply ensures_ret, response_error_ided|].
    destruct (_ || _); [apply ensures_ret, response_error_ided|]. apply ensures_skip. intros [nz err].
    destruct err; [apply ensures_ret, response_error_ided|]. destruct nz; [|done].
    apply ensures_skip. intros ?. by apply ensures_ret.
  - cbn [f_finaliseResponse inner_funcs]. eapply ensures_bind.
    { apply (finaliseResponse_ided (Id qmsg)). intros m [= <-]. by apply (Hr _ eq_refl). }
    intros r' Hf. apply ensures_ret. by intros x [= <-].
Qed.

Lemma exchange_loop_ided fuel ctx qmsg z d a ex :
  ensures (exchange_loop (funcs cache_fuel ex) fuel ctx qmsg z d a) (fun o => reply_ided (Id qmsg) o).
Proof.
  revert z d a; induction fuel as [|fuel IH]; intros z d a; [done|]. cbn [exchange_loop].
  destruct (negb (more d)); [apply ensures_ret, response_error_ided|]. apply ensures_skip. intros count.
  case_bool_decide; [apply ensures_ret, response_error_ided|].
  apply ensures_skip. intros c. apply ensures_skip. intros known.
  destruct (if domain_last d then None else known); [by apply IH|].
  eapply ensures_bind; [apply resolveLabel_ided|]. intros [[[z' r] d'] a'] Hr.
  destruct r; [by apply ensures_ret|by apply IH].
Qed.

Lemma Exchange_ided fuel ctx qmsg :
  ensures (resolver_Exchange cache_fuel fuel ctx qmsg) (fun o => reply_ided (Id qmsg) o).
Proof.
  destruct fuel as [|fuel]; [done|]. unfold resolver_Exchange, Exchange.
  destruct (negb _); [apply ensures_ret, response_error_ided|].
  eapply (ensures_bind _ (fun o => reply_ided (Id qmsg) o)).
  { unfold exchange. do 5 (apply ensures_skip; intros ?). apply ensures_skip. intros [d err].
    destruct err; [apply ensures_ret, response_error_ided|]. apply exchange_loop_ided. }
  intros o Ho. destruct o as [[[m|] e dur doe au]|]; apply ensures_ret; intros x [= <-]; try by apply Ho.
  intros He m' [= <-]. exact (Ho _ eq_refl He m eq_refl).
Qed.
End reply_id.
