(* ===== verification/Provenance.v ===== *)
(** * Where the records of a reply come from

    No record is made up: those of a reply, and those the cache keeps, are
    records that the servers sent, with the TTL they had or a lower one.  The
    source is a predicate [sent] on records: whatever every message of a zone
    satisfies, the resolver's replies do. *)

From S2P Require Import Prelude GoErrors Dns DnsRef DnssecConst DnssecFunctions Domain Cache Response Functions Nameserver Pool Zones Zone Session ResolverState World ZoneFactory Cname ResolverExchange Resolver ReplySound.

Definition records (m : Msg) : list RR := Answer m ++ Ns m ++ Extra m.

(** [Dedup] keeps records of the list, and the lowest TTL of equal ones. *)
Definition dedup_law (L : DnsLib) : Prop :=
  forall rrs rr, rr ∈ dns_Dedup rrs -> exists rr0 t, rr0 ∈ rrs /\ (t <= Ttl (Header rr0))%Z /\ rr = set_Ttl t rr0.

Lemma Ttl_set t rr : Ttl (Header (set_Ttl t rr)) = t.
Proof. by destruct rr as [[]|[]|[]|[]|[]|[]| | |[]|[]|[]|[]]. Qed.
Lemma set_Ttl_twice t t' rr : set_Ttl t (set_Ttl t' rr) = set_Ttl t rr.
Proof. by destruct rr as [[]|[]|[]|[]|[]|[]| | |[]|[]|[]|[]]. Qed.
Lemma set_Ttl_same rr : set_Ttl (Ttl (Header rr)) rr = rr.
Proof. by destruct rr as [[[]]|[[]]|[[]]|[[]]|[[]]|[[]]|[[]]|[[]]|[[]]|[[]]|[[]]|[[]]]. Qed.

Section provenance.
Context `{L : DnsLib} `{RC : ResolverConfig} `{B : MsgBuilder} `{Sch : Scheduler}.
Context {zone P W : Type} `{ZW : ZoneWorld zone P W} `{IL : Interleaving zone P W} `{AS : AuthService zone W}.
Context (Hdedup : dedup_law L) (cache_fuel : nat) (sent : RR -> Prop).

(** A record that was sent, with no higher TTL. *)
Definition genuine (rr : RR) : Prop :=
  exists rr0 t, sent rr0 /\ (t <= Ttl (Header rr0))%Z /\ rr = set_Ttl t rr0.
Definition genuine_msg (m : Msg) : Prop := Forall genuine (records m).
Definition genuine_reply (o : option Response) : Prop :=
  forall r m, o = Some r -> resp_Msg r = Some m -> genuine_msg m.

(** The zones send such records only. *)
Definition zones_send : Prop := forall ctx z m w r w' msg,
  zn_exchange ctx z m w = Ret (Some r, w') -> resp_Msg r = Some msg -> Forall sent (records msg).

Definition genuine_cache (c : DNSCache) : Prop :=
  cache_ok c /\ (32 <= maxSize c)%Z /\ enough_fuel cache_fuel c /\
  forall k e, cached c k = Some e -> genuine_msg (entry_msg e).
Definition stock (s : session zone P W) : Prop := forall c, dcache s = Some c -> genuine_cache c.

Context (Hzones : zones_send) (Hothers : safe stock others (fun _ => True)).
Abbreviation keeps_stock m Q := (safe stock m Q).
Abbreviation any := (fun _ => True).

(** ** Records *)

Lemma sent_genuine rr : sent rr -> genuine rr.
Proof. intros H. exists rr, (Ttl (Header rr)). by rewrite set_Ttl_same. Qed.

Lemma genuine_lower rr t : genuine rr -> (t <= Ttl (Header rr))%Z -> genuine (set_Ttl t rr).
Proof. intros (rr0 & t0 & H0 & Hle & ->). rewrite Ttl_set, set_Ttl_twice. intros Ht. exists rr0, t. split_and!; [done|lia|done]. Qed.

Lemma genuine_dedup rrs : Forall genuine rrs -> Forall genuine (dns_Dedup rrs).
Proof.
  rewrite !Forall_forall. intros H rr (rr0 & t & Hin & Ht & ->)%Hdedup. by apply genuine_lower; [apply H|].
Qed.

Lemma genuine_limit ttl rrs : Forall genuine rrs -> Forall genuine (map (limit_rr ttl) rrs).
Proof.
  intros H. apply Forall_map. eapply Forall_impl; [exact H|]. intros rr Hrr. cbn. unfold limit_rr.
  case_match; [|done]. apply genuine_lower; [done|lia].
Qed.

Lemma genuine_msg_inv m : genuine_msg m <-> Forall genuine (Answer m) /\ Forall genuine (Ns m) /\ Forall genuine (Extra m).
Proof. unfold genuine_msg, records. by rewrite !Forall_app. Qed.

Lemma genuine_apply v msg r : genuine_msg msg -> genuine_msg (snd (apply_verdict v msg r)).
Proof.
  unfold apply_verdict. cbn. case_bool_decide; [|done]. rewrite !genuine_msg_inv. intros (Ha & Hn & He).
  split_and!; [by apply genuine_limit..|done].
Qed.

Lemma first_OPT_in extra : Forall genuine extra -> Forall genuine (first_OPT extra).
Proof.
  unfold first_OPT. induction 1 as [|rr extra Hrr He IH]; [constructor|].
  destruct rr; cbn; try exact IH. by repeat constructor.
Qed.

Lemma genuine_step (b : bool) (f : Msg -> Msg) m : (genuine_msg m -> genuine_msg (f m)) ->
  genuine_msg m -> genuine_msg (if b then f m else m).
Proof. destruct b; auto. Qed.

Lemma genuine_trim m : genuine_msg m -> genuine_msg (trim m).
Proof.
  intros Hm. unfold trim.
  apply (genuine_step _ (fun m => set_Extra (dns_Dedup (Extra m)) m)).
  { rewrite !genuine_msg_inv. cbn. intuition auto using genuine_dedup. }
  apply (genuine_step _ (fun m => set_Ns (dns_Dedup (Ns m)) m)).
  { rewrite !genuine_msg_inv. cbn. intuition auto using genuine_dedup. }
  apply (genuine_step _ (fun m => set_Answer (dns_Dedup (Answer m)) m)).
  { rewrite !genuine_msg_inv. cbn. intuition auto using genuine_dedup. }
  apply (genuine_step _ (fun m => set_Extra (first_OPT (Extra m)) m)).
  { rewrite !genuine_msg_inv. cbn. intuition auto using first_OPT_in. }
  apply (genuine_step _ (set_Ns [])); [|done].
  rewrite !genuine_msg_inv. cbn. rewrite Forall_nil. tauto.
Qed.

Lemma genuine_protect qmsg au m : genuine_msg m -> genuine_msg (protect qmsg au m).
Proof. unfold protect. rewrite !genuine_msg_inv. intros Hm. repeat case_match; cbn; done. Qed.

Lemma genuine_merge r r' : (forall m, resp_Msg r = Some m -> genuine_msg m) ->
  (forall m, resp_Msg r' = Some m -> genuine_msg m) -> forall m, resp_Msg (merge r r') = Some m -> genuine_msg m.
Proof.
  unfold merge. intros H H' m. destruct (resp_Msg r) as [m0|] eqn:E; [|by rewrite E].
  destruct (resp_Msg r') as [m1|]; [|rewrite E; intros [= <-]; by apply H]. intros [= <-].
  specialize (H _ eq_refl). specialize (H' _ eq_refl). rewrite genuine_msg_inv in *. cbn. rewrite !Forall_app. tauto.
Qed.

Lemma genuine_merges rs r : (forall m, resp_Msg r = Some m -> genuine_msg m) ->
  Forall (fun r => forall m, resp_Msg r = Some m -> genuine_msg m) rs ->
  forall m, resp_Msg (foldl merge r rs) = Some m -> genuine_msg m.
Proof.
  intros Hr Hrs. revert r Hr; induction Hrs as [|r' rs Hr' _ IH]; intros r Hr; [done|]. cbn. apply IH. by apply genuine_merge.
Qed.

(** ** Steps that leave the cache alone *)

Lemma stock_frame s s' : stock s -> dcache s' = dcache s -> stock s'.
Proof. intros H E c. rewrite E. apply H. Qed.

Lemma time_Now_safe : keeps_stock time_Now any.
Proof. apply safe_skip; [exact Hothers|]. intros _ s a s' Hs [= <- <-]. split; [|done]. by eapply stock_frame. Qed.

Lemma on_world_safe {A} (f : W -> outcome (A * W)) Q : (forall w a w', f w = Ret (a, w') -> Q a) -> keeps_stock (on_world f) Q.
Proof.
  intros H. apply safe_skip; [exact Hothers|]. intros _ s a s' Hs. unfold act. destruct (f _) as [[b w]|] eqn:E; [|done]. intros [= <- <-].
  split; [by eapply stock_frame|by eapply H].
Qed.

Lemma modify_safe f : (forall s, dcache (f s) = dcache s) -> keeps_stock (modify f) any.
Proof. intros H. apply safe_modify; [|done]. intros s Hs. by eapply stock_frame. Qed.

Lemma gets_safe {A} (f : session zone P W -> A) : keeps_stock (gets f) any.
Proof. by apply safe_gets. Qed.

Lemma store_add_safe z : keeps_stock (store_add z) any.
Proof. apply safe_skip; [exact Hothers|]. intros _. by apply modify_safe. Qed.

Lemma lift_safe {A} (o : outcome A) : keeps_stock (lift o) any.
Proof. by apply safe_lift. Qed.

Lemma counter_safe : keeps_stock counter_Add any.
Proof. intros s a s' Hs [= <- <-]. by split. Qed.

Lemma store_get_safe n : keeps_stock (store_get n) any.
Proof. apply safe_skip; [apply time_Now_safe|]. intros ?. apply gets_safe. Qed.

Lemma store_getZoneList_safe n : keeps_stock (store_getZoneList n) any.
Proof. apply safe_skip; [apply time_Now_safe|]. intros ?. apply safe_skip; [apply gets_safe|]. intros o. apply lift_safe. Qed.

Lemma ret_safe {A} (a : A) : keeps_stock (mret a) any.
Proof. by apply safe_ret. Qed.

(** ** The cache *)

Lemma cache_get_safe q id : keeps_stock (cache_get q id) (fun o => forall m, o = Some m -> genuine_msg m).
Proof.
  apply safe_skip; [apply time_Now_safe|]. intros now s o s' Hs. unfold mbind, M_bind, gets.
  destruct (dcache s) as [c|] eqn:Ec; [|done]. destruct (get q id now c) as [m c'] eqn:Eg. intros [= <- <-].
  destruct (Hs c Ec) as (Hok & H32 & Hf & Hg). destruct (get_ok q id now c m c' Hok Eg) as (Hok' & Hm & Em & Hc').
  split.
  - intros c0 [= <-]. split_and!; [done|congruence|unfold enough_fuel, max_shard_size in *; by rewrite Hm|].
    intros k e. rewrite Hc'. case_bool_decide; [subst k|apply Hg].
    destruct (cached c (key_of q)) as [e0|] eqn:E0; [|done]. case_bool_decide; [|done]. intros [= <-]. by apply (Hg _ _ E0).
  - intros m0 ->. destruct (cached c (key_of q)) as [e0|] eqn:E0; [|done]. case_bool_decide; [|done].
    injection Em as ->. apply (Hg _ _ E0).
Qed.

Lemma cache_set_safe q msg : genuine_msg msg -> keeps_stock (cache_set cache_fuel q (Some msg)) any.
Proof.
  intros Hmsg. apply safe_skip; [apply time_Now_safe|]. intros now s u s' Hs. unfold mbind, M_bind, gets.
  destruct (dcache s) as [c|] eqn:Ec; [|done]. destruct (Hs c Ec) as (Hok & H32 & Hf & Hg).
  destruct (set_ok cache_fuel q msg now c Hok H32 Hf) as (c' & E & Hok' & Hm & Hnew & Hold). rewrite E. intros [= <- <-].
  split; [|done]. intros c0 [= <-]. split_and!; [done|congruence|unfold enough_fuel, max_shard_size in *; by rewrite Hm|].
  intros k e He. destruct (decide (k = key_of q)) as [->|Hne]; [|by eapply Hg, Hold].
  rewrite Hnew in He. by injection He as <-.
Qed.

(** ** The functions of the recursion *)

Definition genuine_exchanger (ex : exchanger zone P W) : Prop := forall ctx m, keeps_stock (ex ctx m) genuine_reply.

Lemma response_error_genuine e : genuine_reply (response_error e).
Proof. by intros r m [= <-]. Qed.

Section functions.
Context (ex : exchanger zone P W) (Hex : genuine_exchanger ex).

Lemma ex_any ctx m : keeps_stock (ex ctx m) any.
Proof. by eapply safe_any. Qed.

(** Goes through code that only moves the state on. *)
Ltac walk := repeat first
  [ apply ret_safe | apply time_Now_safe | apply gets_safe | apply lift_safe | apply store_add_safe | apply counter_safe
  | apply ex_any | by apply modify_safe | by apply on_world_safe | apply safe_crash
  | progress intros | apply safe_skip | case_match ].

Lemma enrich_one_safe ctx pool job : keeps_stock (enrich_one ctx ex pool job) any.
Proof. unfold enrich_one. walk. Qed.

Lemma enrich_until_safe ctx pool jobs : keeps_stock (enrich_until ctx ex pool jobs) any.
Proof.
  induction jobs as [|job jobs IH]; cbn; [walk|]. apply safe_skip; [walk|]. intros []; [walk|].
  apply safe_skip; [apply enrich_one_safe|]. intros []; [walk|done].
Qed.

Lemma enrichPool_safe ctx name pool : keeps_stock (enrichPool ctx name pool ex) any.
Proof.
  unfold enrichPool. apply safe_skip; [walk|]. intros hosts. case_bool_decide; [walk|].
  apply safe_skip; [walk|]. intros v6. apply safe_skip; [apply enrich_until_safe|]. intros [rest|rest]; walk.
Qed.

Lemma createZone_safe ctx name parent nss extra : keeps_stock (createZone ctx name parent nss extra ex) any.
Proof.
  unfold createZone. case_match; [walk|]. apply safe_skip; [walk|]. intros now. apply safe_skip; [walk|]. intros pool.
  apply safe_skip; [walk|]. intros []; try solve [walk].
  apply safe_skip; [apply enrichPool_safe|]. intros [e|]; walk.
Qed.

Definition genuine_follow (f : followed) : Prop := forall r m, f = Sent r -> resp_Msg r = Some m -> genuine_msg m.

Lemma follow_safe ctx qmsg answer c : keeps_stock (follow cache_fuel ctx qmsg answer ex c) genuine_follow.
Proof.
  unfold follow. apply safe_skip; [walk|]. intros q. destruct (_ || _); [by apply safe_ret|].
  apply safe_skip; [walk|]. intros cq. eapply safe_bind; [apply cache_get_safe|]. intros cached Hc.
  eapply (safe_bind _ _ genuine_reply).
  - destruct cached as [m|]; [apply safe_ret; intros r m' [= <-] [= <-]; by apply Hc|].
    eapply safe_bind; [apply Hex|]. intros r Hr. apply safe_skip; [walk|]. intros q1.
    destruct (negb (HasError r)); [|by apply safe_ret]. destruct r as [resp|]; [|done].
    destruct (resp_Msg resp) as [m|] eqn:Em.
    + apply safe_skip; [by eapply cache_set_safe, Hr|]. intros ?. by apply safe_ret.
    + apply safe_skip; [|intros ?; by apply safe_ret]. unfold cache_set. walk.
  - intros o Ho. destruct o as [[[msg|] [e|] dur doe au]|]; apply safe_ret; intros r m [= <-] [= <-]; by eapply Ho.
Qed.

Lemma cname_safe ctx qmsg r : (forall m, resp_Msg r = Some m -> genuine_msg m) ->
  keeps_stock (cname cache_fuel ctx qmsg r ex) (fun x => forall m, resp_Msg (snd x) = Some m -> genuine_msg m).
Proof.
  intros Hr. unfold cname. destruct (resp_Msg r) as [m|] eqn:Em; [|done].
  eapply (safe_bind _ _ (Forall genuine_follow)).
  - apply safe_for_each; [constructor|]. intros acc c Hacc. eapply safe_bind; [apply follow_safe|]. intros f Hf.
    apply safe_ret. apply Forall_app. by repeat constructor.
  - intros results Hres. assert (Forall (fun r => forall m, resp_Msg r = Some m -> genuine_msg m) (Cname.sent results)) as Hs.
    { apply Forall_forall. intros x Hx%elem_of_sent m'. rewrite Forall_forall in Hres. by eapply Hres. }
    rewrite <- Em in Hr. destruct (_ && _); apply safe_ret; apply genuine_merges; try done.
Qed.

Lemma missing_zone_safe ctx acc n : keeps_stock (missing_zone ctx acc n) any.
Proof. destruct acc as [[z d] a]. unfold missing_zone. apply safe_skip; [walk|]. intros [soa err]. walk. Qed.

Lemma checkForMissingZones_safe ctx d z m a : keeps_stock (checkForMissingZones ctx d z m a) any.
Proof.
  unfold checkForMissingZones. case_bool_decide; [walk|]. case_bool_decide; [walk|]. apply safe_skip; [walk|]. intros l.
  apply safe_for_each; [done|]. intros. apply missing_zone_safe.
Qed.

Lemma processDelegation_safe ctx z m :
  keeps_stock (processDelegation (leaf_funcs cache_fuel ex) ctx z m) (fun x => genuine_reply (snd x)).
Proof.
  unfold processDelegation. destruct (extractRecords NS (Ns m)) as [|ns nss]; [apply safe_ret, response_error_genuine|].
  destruct (_ || _); [apply safe_ret, response_error_genuine|]. cbn [f_createZone f_getExchanger leaf_funcs].
  apply safe_skip; [apply createZone_safe|]. intros [nz err]. destruct err; [apply safe_ret, response_error_genuine|].
  destruct nz; [|done]. apply safe_skip; [walk|]. intros ?. by apply safe_ret.
Qed.

Lemma finaliseResponse_safe ctx a qmsg r : (forall m, resp_Msg r = Some m -> genuine_msg m) ->
  keeps_stock (finaliseResponse (leaf_funcs cache_fuel ex) ctx a qmsg r) (fun r => genuine_reply (Some r)).
Proof.
  intros Hr. unfold finaliseResponse. destruct (resp_Msg r) as [msg|]; [|done].
  eapply (safe_bind _ _ (fun x => genuine_msg (snd x))).
  { destruct a as [a|]; [|by apply safe_ret, Hr]. apply safe_skip; [walk|]. intros v. apply safe_ret. by apply genuine_apply, Hr. }
  intros [r0 msg0] Hm. cbn in Hm. apply safe_skip; [walk|]. intros q. set (r1 := mkResponse (Some msg0) _ _ _ _).
  eapply (safe_bind _ _ (fun x => forall m, resp_Msg (snd x) = Some m -> genuine_msg m)).
  { assert (forall m, resp_Msg r1 = Some m -> genuine_msg m) as H1 by (by intros m [= <-]).
    destruct (_ && _); [by apply cname_safe|by apply safe_ret]. }
  intros [err r2] H2. destruct err as [e|]; [apply safe_ret; by intros x m [= <-]|].
  destruct (resp_Msg r2) as [m2|] eqn:E2; [|done]. apply safe_skip; [walk|]. intros now. apply safe_ret.
  intros x m [= <-]. cbn. intros [= <-]. specialize (H2 m2 E2).
  destruct a; [apply genuine_protect|]; by apply genuine_trim.
Qed.

Lemma resolveLabel_safe ctx d z qmsg a :
  keeps_stock (resolveLabel (inner_funcs cache_fuel ex) ctx d z qmsg a) (fun x => genuine_reply (snd (fst (fst x)))).
Proof.
  unfold resolveLabel. destruct z as [z|]; [|apply safe_ret, response_error_genuine].
  apply safe_skip; [apply modify_safe; intros s; by destruct a|]. intros ?. eapply (safe_bind _ _ genuine_reply).
  { apply on_world_safe. intros w o w' E r m -> Hm. eapply Forall_impl; [by eapply Hzones|]. apply sent_genuine. }
  intros o Ho. destruct o as [[[msg|] [e|] dur doe au]|]; try (by apply safe_ret); try apply safe_ret, response_error_genuine.
  apply safe_skip; [apply checkForMissingZones_safe|]. intros [[z' d'] a']. destruct (is_delegation msg).
  - eapply safe_bind; [apply processDelegation_safe|]. intros [z'' r'] Hr. by apply safe_ret.
  - eapply safe_bind; [apply finaliseResponse_safe|].
    + intros m [= <-]. by eapply Ho.
    + intros r' Hr. by apply safe_ret.
Qed.

Lemma exchange_loop_safe fuel ctx qmsg z d a :
  keeps_stock (exchange_loop (funcs cache_fuel ex) fuel ctx qmsg z d a) genuine_reply.
Proof.
  revert z d a; induction fuel as [|fuel IH]; intros z d a; [done|]. cbn [exchange_loop].
  destruct (negb (more d)); [apply safe_ret, response_error_genuine|]. apply safe_skip; [walk|]. intros count.
  case_bool_decide; [apply safe_ret, response_error_genuine|]. apply safe_skip; [walk|]. intros c.
  apply safe_skip; [apply store_get_safe|]. intros known.
  destruct (if domain_last d then None else known); [by apply IH|].
  eapply safe_bind; [apply resolveLabel_safe|]. intros [[[z' r] d'] a'] Hr. destruct r; [by apply safe_ret|by apply IH].
Qed.

Lemma exchange_safe ctx qmsg : keeps_stock (exchange (funcs cache_fuel ex) ctx qmsg) genuine_reply.
Proof.
  unfold exchange. apply safe_skip; [walk|]. intros start.
  apply safe_skip; [apply modify_safe; intros s; by destruct (ctxSessionQueries ctx)|]. intros ?.
  apply safe_skip; [walk|]. intros q. apply safe_skip; [apply store_getZoneList_safe|]. intros known.
  apply safe_skip; [walk|]. intros first. apply safe_skip; [walk|]. intros [d err].
  destruct err; [apply safe_ret, response_error_genuine|]. apply exchange_loop_safe.
Qed.

Lemma Exchange_safe ctx qmsg : keeps_stock (Exchange (funcs cache_fuel ex) ctx qmsg) genuine_reply.
Proof.
  unfold Exchange. destruct (negb _); [apply safe_ret, response_error_genuine|].
  eapply safe_bind; [apply exchange_safe|]. intros o Ho.
  destruct o as [[[m|] e dur doe au]|]; apply safe_ret; intros x m' [= <-]; [intros [= <-]; exact (Ho _ m eq_refl eq_refl)|by eapply Ho].
Qed.
End functions.

Lemma resolver_exchange_safe fuel : genuine_exchanger (resolver_exchange cache_fuel fuel).
Proof. induction fuel as [|fuel IH]; intros ctx m; [done|]. exact (exchange_safe _ IH ctx m). Qed.

Lemma resolver_Exchange_safe fuel ctx qmsg : keeps_stock (resolver_Exchange cache_fuel fuel ctx qmsg) genuine_reply.
Proof. destruct fuel as [|fuel]; [done|]. exact (Exchange_safe _ (resolver_exchange_safe fuel) ctx qmsg). Qed.

(** C8: no record is made up: whatever is true of all the records that the zones'
    servers send and of those in the cache, TTLs apart, is true of the records
    of a reply and of those in the cache after it; a TTL is only ever lowered.
    Followed through delegations, aliases, the cache, the validation's TTLs,
    the trims and the removal of duplicates, with any other goroutines that
    treat the cache so. *)
Theorem reply_records_genuine fuel ctx qmsg s r s' : stock s ->
  resolver_Exchange cache_fuel fuel ctx qmsg s = Fine (Some r, s') ->
  stock s' /\ forall m rr, resp_Msg r = Some m -> rr ∈ records m ->
    exists rr0 t, sent rr0 /\ (t <= Ttl (Header rr0))%Z /\ rr = set_Ttl t rr0.
Proof.
  intros Hs E. destruct (resolver_Exchange_safe fuel ctx qmsg _ _ _ Hs E) as [Hs' Hr]. split; [done|].
  intros m rr Hm Hin. specialize (Hr r m eq_refl Hm). unfold genuine_msg in Hr. rewrite Forall_forall in Hr. by apply Hr.
Qed.
End provenance.

(** On the network of World the source can be the wire itself: the records of
    some reply of some client. *)
Section network.
Context `{L : DnsLib} `{RC : ResolverConfig} `{B : MsgBuilder}.
Context (clock : nat -> Z) (wire : nat -> string -> dnsClient) (v6 : bool) (timeout : nat -> bool).

Definition on_the_wire (rr : RR) : Prop :=
  exists k protocol m a msg, fst (fst (wire k protocol m a)) = Some msg /\ rr ∈ records msg.

Lemma network_sends (sent : RR -> Prop) : (forall rr, on_the_wire rr -> sent rr) ->
  zones_send (ZW := net_world clock wire v6 timeout None) sent.
Proof.
  intros Hs ctx z m w r w' msg E. revert msg. set (Q := fun r => forall msg, resp_Msg r = Some msg -> Forall sent (records msg)).
  revert E. apply (network_gives clock wire v6 timeout Q m); [done..|].
  intros k zn ns r0 H. apply (try_protocols_gives Q) in H as [H _]; [done| |done].
  intros p d au. destruct (wire k p m _) as [[msg d0] e0] eqn:E. intros msg' [= ->]. apply Forall_forall. intros rr Hrr.
  apply Hs. exists k, p, m, (net_JoinHostPort (addr ns) "53"), msg'. by rewrite E.
Qed.
End network.
