(* ===== verification/AuthChain.v ===== *)
(** * The authentication chain as the resolver's validation service

    What [authenticator.result] computes from the responses a question brought:
    each is an input of the chain, with the keys of its zone.  Auth shows that
    the order in which the goroutines deliver them does not matter; here they
    come in the order of the events. *)

From S2P Require Import Prelude GoErrors Dns DnsRef DnssecConst Signatures Verify Authenticator Auth Cache Response Functions Zone Session ResolverState ZoneFactory Cname ResolverExchange Resolver ReplySound.

Section chain.
Context `{L : DnsLib} `{R : MapRange} `{Cfg : DnssecConfig} `{B : MsgBuilder}.
Context {zone P W : Type} `{ZW : ZoneWorld zone P W} `{IL : Interleaving zone P W}.
Context (clocks : Verify.Zone -> Msg -> Clocks).

(** The context of an authenticator carries the session. *)
Definition auth_ctx : Ctx := mkCtx None true true.

Definition ds_question (qname : string) : Msg :=
  set_RecursionDesired false (msg_SetEdns0 4096 true (msg_SetQuestion (dns_Fqdn qname) TypeDS)).

(** [authZoneWrapper] *)
Definition wrap_zone (z : zone) (w : W) : outcome (Verify.Zone * W) :=
  '(keys, err, w) ← zn_dnskeys auth_ctx z w;
  Ret (Verify.mkZone (zn_name z) (keys, err), w).

(** The input an event leads to; a lookup that fails leads to none. *)
Definition input_of (e : auth_event zone) (w : W) : outcome (option input * W) :=
  '(zm, w) ← match e with
    | DelegationSignerLink z qname =>
        '(response, w) ← zn_exchange auth_ctx z (ds_question qname) w;
        match response with
        | Some (mkResponse (Some msg) None _ _ _) => Ret (Some (z, msg), w)
        | _ => Ret (None, w)
        end
    | ZoneResponse z msg => Ret (Some (z, msg), w)
    end;
  match zm with
  | None => Ret (None, w)
  | Some (z, msg) => '(zone, w) ← wrap_zone z w; Ret (Some (mkInput zone msg), w)
  end.

Fixpoint inputs_of (es : list (auth_event zone)) (w : W) : outcome (list input * W) :=
  match es with
  | [] => Ret ([], w)
  | e :: rest =>
      '(i, w) ← input_of e w;
      '(others, w) ← inputs_of rest w;
      Ret (match i with Some i => i :: others | None => others end, w)
  end.

(** The worker of [start]. *)
Fixpoint feed (inputs : list input) (a : Authenticator) (errs : list error) :
    outcome (Authenticator * list error) :=
  match inputs with
  | [] => Ret (a, errs)
  | i :: rest =>
      '(a, err) ← AddResponse (in_zone i) (in_msg i) a;
      feed rest a (match err with Some e => errs ++ [e] | None => errs end)
  end.

Definition chain_verdict (q : Question_) (inputs : list input) : outcome verdict :=
  '(a, errs) ← feed inputs (NewAuth clocks q) [];
  '(j, a) ← Auth.result (mkAuth a errs [] true 0 true Closed_ [] [] None);
  let '(au, doe, err) := j in
  Ret (mkVerdict au doe err (ResultTTLAnswer a) (ResultTTLAuthority a)).

#[export] Instance chain_service : AuthService zone W := fun a w =>
  '(inputs, w) ← inputs_of (auth_events a) w;
  v ← chain_verdict (auth_question a) inputs;
  Ret (v, w).
End chain.

(** * Theory *)

Section chain_facts.
Context `{Laws : DnsLaws} `{R : MapRange} `{Cfg : DnssecConfig} `{B : MsgBuilder} `{RC : ResolverConfig} `{Sch : Scheduler}.
Context {zone P W : Type} `{ZW : ZoneWorld zone P W} `{IL : Interleaving zone P W}.
Context (clocks : Verify.Zone -> Msg -> Clocks).

Lemma feed_add_all inputs a errs a' errs' : feed inputs a errs = Ret (a', errs') -> add_all inputs a = Ret a'.
Proof.
  revert a errs; induction inputs as [|i inputs IH]; intros a errs; cbn; [by intros [= <- _]|].
  destruct (AddResponse _ _ a) as [[a1 err]|p]; [|done]. cbn. apply IH.
Qed.

Lemma feed_errs inputs a errs a' errs' : feed inputs a errs = Ret (a', errs') -> exists more, errs' = errs ++ more.
Proof.
  revert a errs; induction inputs as [|i inputs IH]; intros a errs; cbn; [intros [= _ <-]; exists []; by rewrite app_nil_r|].
  destruct (AddResponse _ _ a) as [[a1 err]|p]; [|done]. cbn. intros [more ->]%IH. destruct err as [e|]; [|by exists more].
  exists (e :: more). by rewrite <- app_assoc.
Qed.

(** When no response is rejected all are in the buffer. *)
Lemma feed_accepts inputs a a' : feed inputs a [] = Ret (a', []) -> coherent a ->
  buffered (inputBuffer a') ≡ₚ inputs ++ buffered (inputBuffer a).
Proof.
  revert a; induction inputs as [|i inputs IH]; intros a H Hc; cbn in H; [by injection H as <-|].
  destruct (AddResponse _ _ a) as [[a1 err]|p] eqn:E; [|done]. cbn in H. destruct err as [e|].
  { by apply feed_errs in H as [more H]. }
  pose proof (AddResponse_coherent _ _ _ _ E Hc) as [Hc1 _].
  rewrite (IH _ H Hc1), (AddResponse_accepts _ _ _ E Hc). cbn. by rewrite Permutation_middle.
Qed.

(** A zone's response in the log is an input, with the keys of the zone. *)
Lemma inputs_of_response es w inputs w' z msg : inputs_of es w = Ret (inputs, w') -> ZoneResponse z msg ∈ es ->
  exists vz, Verify.zone_Name vz = zn_name z /\ mkInput vz msg ∈ inputs.
Proof.
  revert w inputs; induction es as [|e es IH]; intros w inputs H Hin; cbn in H; [by apply not_elem_of_nil in Hin|].
  apply bind_ret_inv in H as ([o w1] & Eo & H). apply bind_ret_inv in H as ([others w2] & Er & H).
  injection H as <- <-. apply elem_of_cons in Hin as [<-|Hin].
  - cbn in Eo. apply bind_ret_inv in Eo as ([vz w3] & Ew & Eo). injection Eo as <- <-.
    unfold wrap_zone in Ew. apply bind_ret_inv in Ew as ([[keys err] w4] & _ & Ew). injection Ew as <- <-.
    eexists. split; [|left]. done.
  - destruct (IH _ _ Er Hin) as (vz & Hz & Hvz). exists vz. split; [done|]. destruct o; [by right|done].
Qed.

(** What a Secure verdict on a log rests on: the inputs of the log, of which
    the authenticator rejected some, and the links it made of the others. One
    rejection is an error; several go unnoticed. *)
Definition chained (a : auth zone) (v : verdict) : Prop :=
  exists w inputs w' final rejected rs,
    inputs_of (auth_events a) w = Ret (inputs, w') /\
    (forall z msg, ZoneResponse z msg ∈ auth_events a ->
      exists vz, Verify.zone_Name vz = zn_name z /\ mkInput vz msg ∈ inputs) /\
    feed inputs (NewAuth clocks (auth_question a)) [] = Ret (final, rejected) /\
    secure_links (auth_question a) inputs rs /\
    (rejected = [] -> map link_input rs ≡ₚ inputs) /\ length rejected <> 1.

Lemma service_chained a v : v_auth v = Secure ->
  service_verdict (AS := chain_service clocks) a v -> chained a v.
Proof.
  intros Hv (w & w' & E). unfold auth_result, chain_service in E.
  apply bind_ret_inv in E as ([inputs w1] & Ei & E). apply bind_ret_inv in E as (v' & Ev & E). injection E as -> _.
  unfold chain_verdict in Ev. apply bind_ret_inv in Ev as ([final rejected] & Hf & Ev).
  apply bind_ret_inv in Ev as ([[[au doe] err] a'] & Hr & Ev). injection Ev as <-. cbn in Hv. subst au.
  pose proof (feed_add_all _ _ _ _ _ Hf) as Hadd. unfold Auth.result in Hr. cbn in Hr.
  assert (length rejected <> 1 /\ Authenticator.Result final = Ret ((Secure, doe, err), a')) as [Hn Hres]
    by (destruct rejected as [|e [|]]; done).
  destruct (secure_has_chain clocks _ inputs final a' doe err Hadd Hres) as [Hl Hb].
  exists w, inputs, w1, final, rejected, (results a'). split_and!; try done.
  - intros z msg. by eapply inputs_of_response.
  - intros ->. rewrite Hb, (feed_accepts _ _ _ Hf (NewAuth_coherent _ _)).
    assert (buffered (inputBuffer (NewAuth clocks (auth_question a))) = []) as ->; [|by rewrite app_nil_r].
    cbn. by induction (dns_CountLabel _ + 1).
Qed.

(** C1: end to end: when a reply of the resolver to a question with DO and
    without CD has the AD flag and was finalised, its records are those of a
    zone's response (see [backed]) that is in a chain of links: results from
    the trust anchors down, each Secure under the DS records of the one before,
    the last holding or denying the answer (see [secure_links]); and the same
    is true of each of the replies for its aliases.  The chain is made of the
    responses in the question's log, and of all of them, the reply's own
    included, when the authenticator rejected none. *)
Theorem AD_has_trust_chain cache_fuel fuel ctx qmsg (s : session zone P W) r s' m :
  unjudged -> CheckingDisabled qmsg = false -> isSetDO qmsg = true ->
  resolver_Exchange (AS := chain_service clocks) cache_fuel fuel ctx qmsg s = Fine (Some r, s') ->
  Err r = None \/ Auth r <> Unknown -> resp_Msg r = Some m -> AuthenticatedData m = true ->
  exists x, offered x r /\ backed chained qmsg x.
Proof.
  intros Hu Hcd Hdo H He Hm Had.
  destruct (reply_flags (AS := chain_service clocks) cache_fuel fuel ctx qmsg s r s' m Hu Hcd Hdo H Hm) as [Hb _].
  destruct (Hb He Had) as (x & Hx & Hbx). exists x. split; [done|].
  eapply backed_mono; [|exact Hbx]. apply service_chained.
Qed.

(** [AddResponse] keeps the question. *)
Lemma AddResponse_question i a a' err : AddResponse (in_zone i) (in_msg i) a = Ret (a', err) -> coherent a ->
  coherent a' /\ question a' = question a.
Proof. intros H Hc. by destruct (AddResponse_coherent _ _ _ _ H Hc) as (? & _ & ? & _). Qed.

Lemma feed_unasked inputs a errs i : i ∈ inputs -> Question (in_msg i) = [] -> coherent a ->
  dns_IsSubDomain (Verify.zone_Name (in_zone i)) (Q_Name (question a)) = true -> exists p, feed inputs a errs = Panic p.
Proof.
  intros Hin Hq. revert a errs; induction inputs as [|j inputs IH]; intros a errs Hc Hs; [by apply not_elem_of_nil in Hin|].
  cbn. destruct (AddResponse (in_zone j) (in_msg j) a) as [[a1 err]|p] eqn:E; [|by exists p]. cbn.
  destruct (AddResponse_question _ _ _ _ E Hc) as [Hc1 Hq1]. apply elem_of_cons in Hin as [->|Hin].
  - unfold AddResponse in E. rewrite Hs, Hq in E. done.
  - apply IH; [done..|]. by rewrite Hq1.
Qed.

(** C10: a server can stop the program with a response that has no question:
    the library accepts it, [AddResponse] indexes the section, and nothing
    recovers from the panic of the authenticator's goroutine.  Whatever else is
    in the log of a question with DO, once such a response of a zone at or above
    the name is in it, the authenticator panics and no reply to the question is
    finished. *)
Theorem missing_question_panics a z msg :
  ZoneResponse z msg ∈ auth_events a -> Question msg = [] ->
  dns_IsSubDomain (zn_name z) (Q_Name (auth_question a)) = true ->
  (forall w, exists p, chain_service clocks a w = Panic p) /\
  forall (F : resolverFunctions zone P W) ctx qmsg r,
    ensures (finaliseResponse (AS := chain_service clocks) F ctx (Some a) qmsg r) (fun _ => False).
Proof.
  intros Hin Hq Hs. assert (forall w, exists p, chain_service clocks a w = Panic p) as Hp.
  { intros w. unfold chain_service. destruct (inputs_of (auth_events a) w) as [[inputs w1]|p] eqn:E; [|by exists p]. cbn.
    destruct (inputs_of_response _ _ _ _ _ _ E Hin) as (vz & Hz & Hvz).
    unfold chain_verdict. edestruct (feed_unasked inputs (NewAuth clocks (auth_question a)) [] (mkInput vz msg)) as [p ->];
      [done|done|apply NewAuth_coherent|by cbn; rewrite Hz|]. by exists p. }
  split; [done|]. intros F ctx qmsg r. unfold finaliseResponse. destruct (resp_Msg r) as [m|]; [|done].
  eapply (ensures_bind _ (fun _ => False)); [|done]. eapply (ensures_bind _ (fun _ => False)); [|done].
  apply ensures_on_world. intros w v w' E. destruct (Hp w) as [p E']. unfold auth_result in E. by rewrite E' in E.
Qed.
End chain_facts.
