(* ===== verification/Budget.v ===== *)
(** * The query budget: every question ends

    [counter] rises by one per iteration of the loop of [exchange], and the
    loop gives up above [MaxQueriesPerRequest].  Below that bound an iteration
    asks at most [answer_limit] further questions; above it a question adds
    one and ends.  [potential] is what the counter can still become. *)

From S2P Require Import Prelude GoErrors Dns DnsRef DnssecConst DnssecFunctions Domain Cache Response Nameserver Pool Functions Zones Zone Session ResolverState ZoneFactory Cname ResolverExchange Resolver.

Section budget.
Context `{Laws : DnsLaws} `{RC : ResolverConfig} `{BL : MsgBuilderLaws} `{Sch : Scheduler}.
Context {zone P W : Type} `{ZW : ZoneWorld zone P W} `{IL : Interleaving zone P W} `{AS : AuthService zone W}.
Context (root : zone) (world_ok : W -> Prop) (WL : ZoneWorldLaws ZW root world_ok) (cache_fuel : nat).
Context (auth_ok : forall a w v w', world_ok w -> auth_result a w = Ret (v, w') -> world_ok w').
Abbreviation RM := (M (session zone P W)).

(** The settings: the bound fits the counter with room for the questions that
    are refused. *)
Definition fanout : Z := Z.of_nat answer_limit.
Context (Hmax : (0 <= MaxQueriesPerRequest)%Z)
  (Hdesire : (2 * Z.of_nat DesireNumberOfNameserversPerZone <= fanout)%Z).

(** The panics that are left: [clone]'s, and those of the validation. *)
Definition allowed (p : panic) : Prop :=
  p = Explicit "invalid clone" \/ exists a w, world_ok w /\ auth_result a w = Panic p.

Definition potential (c : Z) : Z :=
  (c + (MaxQueriesPerRequest - Z.min c MaxQueriesPerRequest) * (1 + fanout))%Z.

(** A zone is strictly below the zone that made it known. *)
Definition below (z : zone) : Prop :=
  canonical (zn_parent z) /\ zn_name z <> zn_parent z /\ dns_IsSubDomain (zn_parent z) (zn_name z) = true.

(** The store holds zones under their canonical names, the root among them and
    every other below its parent; the cache is one whose eviction ends. *)
Record session_ok (s : session zone P W) : Prop := {
  ok_store : forall k z, default ∅ (zones_map (zone_store s)) !! k = Some z ->
    k = zn_name z /\ canonical k;
  ok_below : forall k z, default ∅ (zones_map (zone_store s)) !! k = Some z -> k <> "."%string -> below z;
  ok_root : default ∅ (zones_map (zone_store s)) !! "."%string = Some root;
  ok_world : world_ok (world s);
  ok_cache : exists c, dcache s = Some c /\ cache_ok c /\ (32 <= maxSize c)%Z /\ enough_fuel cache_fuel c
}.

(** The other goroutines keep the shared state well formed, as the code itself
    does, have counters of their own, and end the program with the panics that
    the code may end with. *)
Definition admissible (peers : RM unit) : Prop := forall c,
  runs allowed (fun s => session_ok s /\ counter s = c) peers (fun _ s => session_ok s /\ counter s = c).
Lemma alone_admissible : admissible alone.
Proof. intros c. by apply runs_ret. Qed.

Context (Hothers : admissible others).

Definition within (lo b : Z) (s : session zone P W) : Prop :=
  session_ok s /\ (0 <= lo <= counter s)%Z /\ (potential (counter s) <= b)%Z.

Abbreviation keeps lo b b' m := (runs allowed (within lo b) m (fun _ => within lo b')).

Lemma within_weaken lo b b' s : (b <= b')%Z -> within lo b s -> within lo b' s.
Proof. intros Hb (Hs & Hl & Hp). split_and!; [done|lia..]. Qed.

(** Steps that touch neither the counter nor the stores. *)
Lemma within_frame lo b s s' : within lo b s ->
  counter s' = counter s -> zone_store s' = zone_store s -> dcache s' = dcache s ->
  world_ok (world s') -> within lo b s'.
Proof.
  intros ([H1 Hb H2 _ H3] & Hl & Hp) Ec Ez Ed Hw. unfold within. rewrite Ec. split_and!; [|lia..].
  split; rewrite ?Ez, ?Ed; done.
Qed.

Lemma within_world lo b s : within lo b s -> world_ok (world s).
Proof. intros [Hs _]. apply Hs. Qed.

Lemma within_others lo b : keeps lo b b others.
Proof.
  intros s (Hs & Hl & Hp). specialize (Hothers (counter s) s (conj Hs eq_refl)).
  destruct (others s) as [[[] s']|p|]; [|done..]. destruct Hothers as [Hs' Ec]. unfold within. by rewrite Ec.
Qed.

Lemma time_Now_runs lo b : keeps lo b b time_Now.
Proof.
  eapply runs_bind; [apply within_others|]. intros _ s Hs. eapply within_frame; [done..|]. by eapply zw_tick, within_world.
Qed.

Lemma on_world_runs {A} (f : W -> outcome (A * W)) (Q : A -> Prop) lo b :
  (forall w p, world_ok w -> f w = Panic p -> allowed p) ->
  (forall w a w', world_ok w -> f w = Ret (a, w') -> world_ok w' /\ Q a) ->
  runs allowed (within lo b) (on_world f) (fun a s => within lo b s /\ Q a).
Proof.
  intros Hp Ha. eapply runs_bind; [apply within_others|]. intros _ s Hs. pose proof (within_world _ _ _ Hs) as Hw.
  unfold act. destruct (f (world s)) as [[a w]|p] eqn:E; [|by eapply Hp].
  destruct (Ha _ _ _ Hw E). split; [by eapply within_frame|done].
Qed.

Lemma go_runs lo b g : keeps lo b b (modify (go g)).
Proof. intros s Hs. eapply within_frame; [done..|]. cbn. by eapply within_world. Qed.

(** ** The stores *)

Definition named (z : zone) : Prop := canonical (zn_name z).

Lemma canonical_root n : canonical n -> canonical ".".
Proof.
  intros Hc. destruct (descent_root n Hc) as [l Hl]. apply (suffix_canonical n); [done|].
  apply elem_of_descent. rewrite Hl. apply list_elem_of_here.
Qed.

Lemma dot_canonical : canonical ".".
Proof. apply (canonical_root (dns_CanonicalName "")), canonical_idem. Qed.

Lemma store_get_runs lo b n :
  runs allowed (within lo b) (store_get n)
    (fun r s => within lo b s /\ forall z, r = Some z -> named z).
Proof.
  eapply runs_bind; [apply time_Now_runs|]. intros ?. apply runs_gets. intros s Hs.
  split; [done|]. intros z Hz. rewrite zones_get_live in Hz.
  destruct (live_name (ZI := zones_at (world s)) _ _ z (ok_store s (proj1 Hs)) Hz) as (Hn & Hc & _).
  unfold named. cbn in Hn. by rewrite Hn.
Qed.

Lemma store_getZoneList_runs lo b n :
  runs allowed (within lo b) (store_getZoneList n)
    (fun l s => within lo b s /\ exists z rest d, l = z :: rest /\ named z /\
      windTo (zn_name z) (newDomain n) = Ret (d, None) /\ domain_wf d).
Proof.
  eapply runs_bind; [apply time_Now_runs|]. intros ?.
  eapply runs_bind; [apply (runs_gets _ _ _ (fun o s => within lo b s /\
    o = @getZoneList _ _ (zones_at (world s)) n (zone_store s))); auto|].
  intros o s [Hs ->]. destruct Hs as (Hs & Hc). pose proof Hs as [Hst _ Hroot Hwok _].
  destruct (known_zone_to_start (ZI := zones_at (world s)) n (zone_store s) root Hst)
    as (z & l & d & E & _ & Hw & _ & Hd & Hz).
  { rewrite zones_get_live. unfold live. rewrite dot_canonical, Hroot. cbn.
    by rewrite (zw_root_lives (world_ok := world_ok)). }
  unfold lift. rewrite E. split; [by split|]. eauto 10.
Qed.

Lemma child_not_root p n : canonical p -> canonical n -> n <> p -> dns_IsSubDomain p n = true -> n <> "."%string.
Proof.
  intros Hp Hn Hne Hs ->. apply subdomain_ancestor in Hs; [|done..]. apply elem_of_descent in Hs.
  apply list_elem_of_lookup in Hs as [j Hj]. destruct (descent_root "." Hn) as [l El].
  assert (dns_CountLabel "." = 0) as H0 by (apply (descent_count "." 0 "." Hn); by rewrite El).
  pose proof (descent_length ".") as Hl. rewrite H0 in Hl. pose proof (lookup_lt_Some _ _ _ Hj) as Hj0.
  rewrite Hl in Hj0. assert (j = 0) as -> by lia. rewrite El in Hj. by simplify_eq/=.
Qed.

Lemma store_add_runs lo b z : named z -> below z -> keeps lo b b (store_add z).
Proof.
  intros Hz (Hpc & Hne & Hsub). assert (zn_name z <> "."%string) as Hr by (by eapply child_not_root).
  eapply runs_bind; [apply within_others|]. intros []. apply runs_modify. intros s ([Hst Hbe Hroot Hw Hca] & Hl & Hp).
  refine (conj _ (conj Hl Hp)). split; cbn; [| | |done|done].
  - intros k z'. rewrite Hz. intros [[<- <-]|[_ H]]%lookup_insert_Some; [done|by apply Hst].
  - intros k z'. rewrite Hz. intros [[<- <-]|[_ H]]%lookup_insert_Some Hk; [done|by eapply Hbe].
  - rewrite Hz, lookup_insert_ne by done. done.
Qed.

(** ** What the functions of an iteration cost *)

(** A response with a message or an error. *)
Definition total_response (r : option Response) : Prop :=
  exists x, r = Some x /\ (is_Some (Err x) \/ is_Some (resp_Msg x)).

Definition in_session (ctx : Ctx) : Prop := CtxTrace ctx = true /\ ctxSessionQueries ctx = true.

(** An exchanger that raises the potential by one at most, from a counter of
    [lo] on. *)
Definition bounded_exchanger (lo : Z) (ex : exchanger zone P W) : Prop :=
  forall ctx m lo' b, (lo <= lo')%Z -> (b + 1 < 2 ^ 32)%Z -> in_session ctx -> Question m <> [] ->
    runs allowed (within lo' b) (ex ctx m) (fun r s => within lo' (b + 1) s /\ total_response r).

Lemma SetQuestion_nonempty n t : Question (msg_SetQuestion n t) <> [].
Proof. by rewrite msg_question. Qed.

Lemma pool_enrich_runs lo b pool records now : keeps lo b b
  (modify (fun s : session zone P W => set_world (pool_store pool
     (enrich records now (pool_load pool (world s))) (world s)) s)).
Proof. intros s Hs. eapply within_frame; [done..|]. cbn. by eapply zw_pool_enrich, within_world. Qed.

Lemma keeps_ret {A} lo b b' (x : A) : (b <= b')%Z -> keeps lo b b' (mret x).
Proof. intros Hb. apply runs_ret. intros s. by apply within_weaken. Qed.

Section costs.
Context (lo : Z) (ex : exchanger zone P W) (Hex : bounded_exchanger lo ex) (ctx : Ctx) (Hctx : in_session ctx).

Lemma enrich_one_runs lo' b pool job : (lo <= lo')%Z -> (b + 1 < 2 ^ 32)%Z ->
  keeps lo' b (b + 1) (enrich_one ctx ex pool job).
Proof.
  intros Hl Hb. destruct job as [t d]. eapply runs_bind.
  { apply Hex; [done..|]. apply SetQuestion_nonempty. }
  intros r. eapply runs_weaken with (P' := within lo' (b + 1)) (Q' := fun _ => within lo' (b + 1));
    [|by intros s [? _]|done].
  destruct r as [[[msg|] [e|] dur doe au]|]; try (apply keeps_ret; lia).
  case_bool_decide; [|apply keeps_ret; lia].
  eapply runs_bind; [apply time_Now_runs|]. intros now.
  eapply runs_bind; [apply pool_enrich_runs|]. intros []. apply keeps_ret. lia.
Qed.

Lemma enrich_until_runs lo' b pool jobs : (lo <= lo')%Z ->
  (b + Z.of_nat (length jobs) < 2 ^ 32)%Z ->
  keeps lo' b (b + Z.of_nat (length jobs)) (enrich_until ctx ex pool jobs).
Proof.
  intros Hl. revert b; induction jobs as [|job jobs IH]; intros b Hb;
    (eapply runs_bind; [apply (runs_gets _ _ _ (fun _ => within lo' b)); auto|]);
    intros [|]; try (apply keeps_ret; simpl; lia).
  eapply runs_bind; [apply enrich_one_runs; [done|simpl in Hb; lia]|].
  intros [|]; [apply keeps_ret; simpl; lia|].
  replace (b + Z.of_nat (length (job :: jobs)))%Z with (b + 1 + Z.of_nat (length jobs))%Z by (simpl; lia).
  apply IH. simpl in Hb. lia.
Qed.

Lemma enrich_jobs_length ipv6 hosts :
  length (enrich_jobs ipv6 hosts) <= 2 * DesireNumberOfNameserversPerZone.
Proof.
  unfold enrich_jobs. set (h := if bool_decide _ then _ else _).
  assert (length h <= DesireNumberOfNameserversPerZone).
  { unfold h. case_bool_decide; [rewrite length_take|]; lia. }
  destruct ipv6; cbn; rewrite ?length_app, ?length_map; simpl; lia.
Qed.

Lemma enrichPool_runs lo' b name pool : (lo <= lo')%Z -> (b + fanout < 2 ^ 32)%Z ->
  keeps lo' b (b + fanout) (enrichPool ctx name pool ex).
Proof.
  intros Hl Hb. assert (0 <= fanout)%Z by (unfold fanout; lia).
  eapply runs_bind; [apply (runs_gets _ _ _ (fun _ => within lo' b)); auto|]. intros hosts.
  case_bool_decide; [apply keeps_ret; lia|].
  eapply runs_bind; [apply (runs_gets _ _ _ (fun _ => within lo' b)); auto|]. intros v6.
  pose proof (enrich_jobs_length v6 hosts).
  eapply runs_bind.
  { eapply runs_weaken; [apply (enrich_until_runs lo' b pool (enrich_jobs v6 hosts)); [done|lia]
      |done|intros a s; apply (within_weaken lo' _ (b + fanout)); lia]. }
  intros [rest|rest]; (eapply runs_bind; [apply go_runs|]); intros [].
  - eapply runs_bind; [apply (runs_gets _ _ _ (fun _ => within lo' (b + fanout))); auto|].
    intros []; apply keeps_ret; lia.
  - apply keeps_ret; lia.
Qed.

Lemma createZone_runs lo' b name parent nss extra : (lo <= lo')%Z -> (b + fanout < 2 ^ 32)%Z ->
  runs allowed (within lo' b) (createZone ctx name parent nss extra ex)
    (fun r s => within lo' (b + fanout) s /\
      (is_Some (snd r) \/ exists z, r = (Some z, None) /\ zn_name z = dns_CanonicalName name /\ zn_parent z = dns_CanonicalName parent /\
        dns_CanonicalName name <> dns_CanonicalName parent /\
        dns_IsSubDomain (dns_CanonicalName parent) (dns_CanonicalName name) = true)).
Proof.
  intros Hl Hb. assert (0 <= fanout)%Z by (unfold fanout; lia). unfold createZone.
  destruct (bool_decide _ || _) eqn:Eg.
  { apply runs_ret. intros s Hs. split; [by eapply within_weaken, Hs; lia|]. left. eauto. }
  bool_facts. eapply runs_bind; [apply time_Now_runs|]. intros now.
  eapply runs_bind.
  { apply (on_world_runs _ (fun _ => True)); [done|]. intros w pool w' Hw [= E]. split; [|done].
    pose proof (zw_pool_new (ZW := ZW) nss extra now w Hw) as Hn. by rewrite E in Hn. }
  intros pool.
  match goal with |- context [match _ with PoolEmpty => _ | _ => _ end] => idtac | _ => idtac end.
  set (finish := z ← on_world _; mret (Some z, None)).
  assert (forall b', runs allowed (within lo' b') finish (fun r s => within lo' b' s /\
      exists z, r = (Some z, None) /\ zn_name z = dns_CanonicalName name /\ zn_parent z = dns_CanonicalName parent /\
        dns_CanonicalName name <> dns_CanonicalName parent /\
        dns_IsSubDomain (dns_CanonicalName parent) (dns_CanonicalName name) = true)) as Hfin.
  { intros b'. eapply runs_bind.
    - apply (on_world_runs _ (fun z => zn_name z = dns_CanonicalName name /\ zn_parent z = dns_CanonicalName parent)); [done|].
      intros w z w' Hw [= E].
      pose proof (zw_new (ZW := ZW) (dns_CanonicalName name) (dns_CanonicalName parent) pool w Hw) as E'.
      by rewrite E in E'.
    - intros z. apply runs_ret. intros s [Hs [Hz Hzp]]. split; [done|]. by exists z. }
  assert (forall b', (b' <= b + fanout)%Z -> runs allowed (within lo' b') finish (fun r s =>
      within lo' (b + fanout) s /\ (is_Some (snd r) \/ exists z, r = (Some z, None) /\ zn_name z = dns_CanonicalName name /\ zn_parent z = dns_CanonicalName parent /\
        dns_CanonicalName name <> dns_CanonicalName parent /\
        dns_IsSubDomain (dns_CanonicalName parent) (dns_CanonicalName name) = true))) as Hfin'.
  { intros b' Hb'. eapply runs_weaken; [apply (Hfin b')|done|].
    intros r s [Hs Hr]. split; [by eapply within_weaken, Hs|by right]. }
  clearbody finish.
  eapply runs_bind.
  { apply (runs_gets _ _ _ (fun _ => within lo' b)). by intros s [? _]. }
  intros [].
  - apply runs_ret. intros s Hs. split; [by eapply within_weaken, Hs; lia|]. left. eauto.
  - apply runs_ret. intros s Hs. split; [by eapply within_weaken, Hs; lia|]. left. eauto.
  - eapply runs_bind; [apply enrichPool_runs; done|]. intros [e|]; [|apply Hfin'; lia].
    apply runs_ret. intros s Hs. split; [done|]. left. eauto.
  - destruct (negb LazyEnrichment); [|apply Hfin'; lia].
    eapply runs_bind; [apply go_runs|]. intros []. apply Hfin'. lia.
  - apply Hfin'. lia.
Qed.

(** ** Aliases *)

Lemma get_keeps_ok q id now c : cache_ok c ->
  cache_ok (snd (get q id now c)) /\ maxSize (snd (get q id now c)) = maxSize c.
Proof.
  intros Hc. destruct (get q id now c) as [m c'] eqn:E.
  by destruct (get_ok q id now c m c' Hc E) as (? & ? & _).
Qed.

Lemma set_dcache_within lo' b s c c' : within lo' b s -> dcache s = Some c ->
  cache_ok c' -> maxSize c' = maxSize c -> within lo' b (set_dcache (Some c') s).
Proof.
  intros ([Hst Hbe Hr Hw Hca] & Hl & Hp) Ed Hc' Hm. split; [|done]. split; [done..|].
  destruct Hca as (c0 & Ec0 & _ & H32 & Hf). rewrite Ed in Ec0. simplify_eq.
  exists c'. split_and!; [done|done|congruence|]. unfold enough_fuel, max_shard_size in *. by rewrite Hm.
Qed.

Lemma cache_get_runs lo' b q id : keeps lo' b b (cache_get q id).
Proof.
  eapply runs_bind; [apply time_Now_runs|]. intros now.
  eapply runs_bind; [apply (runs_gets _ _ _ (fun o s => within lo' b s /\ o = dcache s)); auto|].
  intros o s [Hs ->]. pose proof Hs as ([_ _ _ _ (c & Ec & Hc & _)] & _). rewrite Ec.
  destruct (get_keeps_ok q id now c Hc) as [Hok Hm].
  destruct (get q id now c) as [m c']. cbn in *. by eapply set_dcache_within.
Qed.

Lemma cache_set_runs lo' b q msg : keeps lo' b b (cache_set cache_fuel q (Some msg)).
Proof.
  eapply runs_bind; [apply time_Now_runs|]. intros now.
  eapply runs_bind; [apply (runs_gets _ _ _ (fun o s => within lo' b s /\ o = dcache s)); auto|].
  intros o s [Hs ->]. pose proof Hs as ([_ _ _ _ (c & Ec & Hc & H32 & Hf)] & _). rewrite Ec.
  destruct (set_ok cache_fuel q msg now c Hc H32 Hf) as (c' & -> & Hok & Hm & _).
  by eapply set_dcache_within.
Qed.

Lemma follow_runs lo' b qmsg answer c : (lo <= lo')%Z -> (b + 1 < 2 ^ 32)%Z -> Question qmsg <> [] ->
  runs allowed (within lo' b) (follow cache_fuel ctx qmsg answer ex c)
    (fun f s => within lo' (b + 1) s /\ forall r, f = Sent r -> is_Some (resp_Msg r)).
Proof.
  intros Hl Hb Hq. unfold follow. destruct (Question qmsg) as [|q qs] eqn:Eq; [done|].
  eapply (runs_bind _ _ _ (fun q' s => within lo' b s)); [by apply runs_lift|]. intros q'.
  destruct (_ || _).
  { apply runs_ret. intros s Hs. split; [by eapply within_weaken, Hs; lia|done]. }
  rewrite msg_question. eapply (runs_bind _ _ _ (fun q' s => within lo' b s)); [by apply runs_lift|]. intros cq.
  eapply runs_bind; [apply cache_get_runs|]. intros cached.
  set (last := fun r : option Response => match r with None => _ | Some r => _ end).
  assert (forall o b', (b' <= b + 1)%Z -> runs allowed (within lo' b') (last o)
    (fun f s => within lo' (b + 1) s /\ forall r, f = Sent r -> is_Some (resp_Msg r))) as Hlast.
  { intros o b' Hb'. unfold last. destruct o as [[[msg|] [e|] dur doe au]|]; apply runs_ret; intros s Hs;
      (split; [by eapply within_weaken, Hs|]); intros r' [= <-]; cbn; eauto. }
  clearbody last.
  eapply (runs_bind _ _ _ (fun o => within lo' (b + 1))); [|intros o; apply Hlast; lia].
  destruct cached as [m|]; [apply keeps_ret; lia|].
  set (cm := if isSetDO qmsg then _ else _).
  assert (Question cm <> []) as Hcm.
  { unfold cm. destruct (isSetDO qmsg); rewrite ?msg_edns0; apply SetQuestion_nonempty. }
  eapply runs_bind; [by apply Hex|]. intros r.
  destruct (Question cm) as [|q0 qs0]; [done|].
  eapply (runs_bind _ _ _ (fun q' s => within lo' (b + 1) s /\ total_response r)); [by apply runs_lift|].
  intros q1. apply (runs_pre _ _ _ _ (total_response r)); [by intros s [_ ?]|]. intros (x & -> & Hx).
  apply (runs_weaken allowed (fun s => within lo' (b + 1) s /\ total_response (Some x)) (within lo' (b + 1)) _ _
    (fun _ => within lo' (b + 1))); [|by intros s [? _]|done].
  destruct (HasError (Some x)) eqn:Ee; cbn [negb]; [apply keeps_ret; lia|].
  unfold HasError in Ee. bool_facts. destruct Hx as [?|[msg Hm]]; [done|]. rewrite Hm.
  eapply runs_bind; [apply cache_set_runs|]. intros []. apply keeps_ret. lia.
Qed.

Lemma merge_msg r r' : is_Some (resp_Msg r) -> is_Some (resp_Msg (merge r r')).
Proof. unfold merge. intros [m E]. rewrite E. destruct (resp_Msg r'); cbn; eauto. Qed.

Lemma cname_runs lo' b qmsg r msg : (lo <= lo')%Z -> (b + fanout < 2 ^ 32)%Z ->
  Question qmsg <> [] -> resp_Msg r = Some msg -> length (Answer msg) <= answer_limit ->
  runs allowed (within lo' b) (cname cache_fuel ctx qmsg r ex)
    (fun x s => within lo' (b + fanout) s /\ is_Some (resp_Msg (snd x))).
Proof.
  intros Hl Hb Hq Em Hlen. unfold cname. rewrite Em.
  set (cnames := schedule (extractRecords CNAME (Answer msg))).
  assert (length cnames <= answer_limit) as Hc.
  { unfold cnames. rewrite (Permutation_length (schedule_perm _)).
    etrans; [apply extractRecords_length|done]. }
  assert (fanout = Z.of_nat answer_limit) as Hf by done.
  eapply runs_bind.
  - assert (b <= b + fanout - Z.of_nat (length cnames))%Z as Hstart by (clear Hdesire Hmax; lia).
    eapply (runs_weaken allowed _ (within lo' (b + fanout - Z.of_nat (length cnames))) _ _
      (fun _ => within lo' (b + fanout))); [|intros s Hs; exact (within_weaken _ _ _ _ Hstart Hs)|intros r0 s Hs; exact Hs].
    apply (runs_for_each allowed (fun n _ => within lo' (b + fanout - Z.of_nat n))).
    + intros n acc c _ Hn. eapply runs_bind; [apply follow_runs; [done|lia|done]|].
      intros f. apply runs_ret. intros s [Hs _]. eapply within_weaken, Hs. lia.
    + intros acc s. apply within_weaken. lia.
  - intros results.
    assert (forall l r, is_Some (resp_Msg r) -> is_Some (resp_Msg (foldl merge r l))) as Hm.
    { intros l. induction l; cbn; [done|]. intros r0 H0. apply IHl, merge_msg, H0. }
    destruct (_ && _); apply runs_ret; intros s Hs; (split; [done|]); apply Hm; rewrite Em; eauto.
Qed.

(** ** Zones between the known one and the answer *)

(** [d'] is further along the same walk. *)
Definition along (d d' : domain) : Prop :=
  d_name d' = d_name d /\ labelIndexes d' = labelIndexes d /\ currentIdx d <= currentIdx d'.

Lemma along_refl d : along d d.
Proof. done. Qed.
Lemma along_next d d' : along d d' -> along d (next d').
Proof. intros (? & ? & ?). split_and!; cbn; [done..|lia]. Qed.

Lemma missing_zone_runs lo' b d0 acc n : named (fst (fst acc)) -> along d0 (snd (fst acc)) -> canonical n ->
  runs allowed (within lo' b) (missing_zone ctx acc n)
    (fun acc s => within lo' b s /\ named (fst (fst acc)) /\ along d0 (snd (fst acc))).
Proof.
  destruct acc as [[z d] a]. cbn. intros Hz Hd Hn.
  eapply runs_bind.
  { apply (on_world_runs _ (fun _ => True)).
    - intros w p Hw E. destruct (zw_soa (root := root) ctx z n w Hw (proj1 Hctx)) as (? & ? & E' & _). congruence.
    - intros w r w' Hw E. destruct (zw_soa (root := root) ctx z n w Hw (proj1 Hctx)) as (? & ? & E' & ?).
      rewrite E' in E. by simplify_eq. }
  intros [soa err]. apply (runs_from _ (within lo' b)); [by intros s [? _]|].
  assert (runs allowed (within lo' b) (mret (z, next d, a)) (fun (acc : zone * domain * option (auth zone)) s =>
    within lo' b s /\ named (fst (fst acc)) /\ along d0 (snd (fst acc)))) as Hsame.
  { apply runs_ret. intros s Hs. split_and!; [done..|]. by apply along_next. }
  destruct err as [e|]; [done|]. destruct soa as [soa|]; [|done]. clear Hsame.
  eapply runs_bind.
  { apply (on_world_runs _ (fun z' => named z' /\ below z')).
    - intros w p Hw E. destruct (zw_clone (root := root) n (zn_name z) z w Hw) as [[E' _]|(? & ? & E' & _)]; [|congruence].
      rewrite E' in E. left. by simplify_eq.
    - intros w z' w' Hw E.
      destruct (zw_clone (root := root) n (zn_name z) z w Hw) as [[E' _]|(? & ? & E' & ? & En & Ep & Hne & Hs)]; [congruence|].
      rewrite E' in E. simplify_eq. split; [done|]. unfold named, below. rewrite En, Ep.
      rewrite Hn, Hz in Hne |- *. by split_and!. }
  intros z'. apply (runs_pre _ _ _ _ (named z' /\ below z')); [by intros s [_ ?]|]. intros [Hz' Hr].
  apply (runs_from _ (within lo' b)); [by intros s [? _]|].
  eapply runs_bind; [by apply store_add_runs|]. intros []. apply runs_ret. intros s Hs.
  split_and!; [done..|]. by apply along_next.
Qed.

Lemma checkForMissingZones_runs lo' b d z rmsg a : named z -> domain_wf d ->
  runs allowed (within lo' b) (checkForMissingZones ctx d z rmsg a)
    (fun acc s => within lo' b s /\ named (fst (fst acc)) /\ along d (snd (fst acc))).
Proof.
  intros Hz Hd. unfold checkForMissingZones.
  assert (runs allowed (within lo' b) (mret (z, d, a)) (fun (acc : zone * domain * option (auth zone)) s =>
    within lo' b s /\ named (fst (fst acc)) /\ along d (snd (fst acc)))) as Hsame by (by apply runs_ret).
  case_bool_decide; [done|]. case_bool_decide; [done|].
  destruct (gap_total (foldl (better_owner z) "." (Ns rmsg ++ Answer rmsg))%string d Hd) as [n ->].
  set (names := take n _).
  assert (forall x, x ∈ names -> canonical x) as Hnames.
  { intros x Hx. apply (suffix_canonical (d_name d)); [apply Hd|]. apply elem_of_descent.
    rewrite <- (take_drop (currentIdx d) (descent _)). apply elem_of_app. right.
    rewrite <- (take_drop n (drop _ _)). apply elem_of_app. by left. }
  eapply (runs_bind _ _ _ (fun l s => within lo' b s /\ l = names)); [by apply runs_lift; intros; simplify_eq|].
  intros l. apply (runs_pre _ _ _ _ (l = names)); [by intros s [_ ?]|]. intros ->.
  set (I := fun (acc : zone * domain * option (auth zone)) s =>
    within lo' b s /\ named (fst (fst acc)) /\ along d (snd (fst acc))).
  apply (runs_from _ (I (z, d, a))); [by intros s [? _]|].
  apply (runs_for_each allowed (fun _ => I)); [|done].
  intros _ acc x Hx _. apply (runs_pre _ _ _ _ (named (fst (fst acc)) /\ along d (snd (fst acc)))); [by intros s [_ ?]|].
  intros [? ?]. apply (runs_from _ (within lo' b)); [by intros s [? _]|].
  apply missing_zone_runs; auto.
Qed.

(** ** One label *)

Lemma processDelegation_runs lo' b z rmsg : (lo <= lo')%Z -> (b + fanout < 2 ^ 32)%Z -> named z ->
  runs allowed (within lo' b) (processDelegation (leaf_funcs cache_fuel ex) ctx z rmsg)
    (fun r s => within lo' (b + fanout) s /\
      (total_response (snd r) \/ exists z', r = (Some z', None) /\ named z')).
Proof.
  intros Hl Hb Hz. assert (0 <= fanout)%Z by (unfold fanout; lia). unfold processDelegation.
  assert (forall e, total_response (response_error e)) as Herr.
  { intros e. eexists. split; [done|]. left. cbn. eauto. }
  destruct (extractRecords NS (Ns rmsg)) as [|ns nss].
  { apply runs_ret. intros s Hs. split; [by eapply within_weaken, Hs; lia|]. left. apply Herr. }
  destruct (bool_decide _ || _) eqn:Eg.
  { apply runs_ret. intros s Hs. split; [by eapply within_weaken, Hs; lia|]. left. apply Herr. }
  bool_facts. cbn [f_createZone f_getExchanger leaf_funcs].
  eapply runs_bind; [by apply createZone_runs|]. intros [newZone err].
  eapply runs_pre; [intros s [_ Hr]; exact Hr|]. cbn. intros Hr.
  apply (runs_from _ (within lo' (b + fanout))); [by intros s [? _]|].
  destruct err as [e|].
  { apply runs_ret. intros s Hs. split; [done|]. left. apply Herr. }
  destruct Hr as [[? ?]|(z' & E & Hn & Hp & Hne & Hs)]; [done|]. simplify_eq.
  set (c := dns_CanonicalName (Name (NS_Hdr ns))) in *.
  assert (canonical c) as Hc by apply canonical_idem. rewrite Hc, Hz in *.
  assert (named z') as Hz' by (unfold named; by rewrite Hn).
  eapply runs_bind; [apply store_add_runs; [done|]|].
  - unfold below. rewrite Hn, Hp. by split_and!.
  - intros []. apply runs_ret. intros s Hs'. split; [done|]. right. by exists z'.
Qed.

Lemma apply_verdict_answers v msg r : length (Answer (snd (apply_verdict v msg r))) = length (Answer msg).
Proof. unfold apply_verdict. cbn. case_bool_decide; cbn; [by rewrite length_map|done]. Qed.

Lemma finaliseResponse_runs lo' b a qmsg r msg : (lo <= lo')%Z -> (b + fanout < 2 ^ 32)%Z ->
  Question qmsg <> [] -> resp_Msg r = Some msg -> length (Answer msg) <= answer_limit ->
  runs allowed (within lo' b) (finaliseResponse (leaf_funcs cache_fuel ex) ctx a qmsg r)
    (fun r s => within lo' (b + fanout) s /\ total_response (Some r)).
Proof.
  intros Hl Hb Hq Em Hlen. assert (0 <= fanout)%Z by (unfold fanout; lia).
  unfold finaliseResponse. rewrite Em.
  eapply (runs_bind _ _ _ (fun x s => within lo' b s /\ length (Answer (snd x)) <= answer_limit)).
  { destruct a as [a|]; [|by apply runs_ret].
    eapply runs_bind.
    { apply (on_world_runs _ (fun _ => True)); [intros w p Hw E; right; eauto|].
      intros w v w' Hw E. split; [by eapply auth_ok|done]. }
    intros v. apply runs_ret.
    intros s [Hs _]. split; [done|]. by rewrite apply_verdict_answers. }
  clear r msg Em Hlen. intros [r msg]. apply (runs_pre _ _ _ _ (length (Answer msg) <= answer_limit)); [by intros s [_ ?]|].
  intros Hlen. apply (runs_from _ (within lo' b)); [by intros s [? _]|].
  destruct (Question qmsg) as [|q qs] eqn:Eq; [done|].
  eapply (runs_bind _ _ _ (fun q' => within lo' b)); [by apply runs_lift|]. intros q'.
  set (r' := mkResponse (Some msg) _ _ _ _).
  eapply (runs_bind _ _ _ (fun x s => within lo' (b + fanout) s /\ is_Some (resp_Msg (snd x)))).
  { destruct (_ && _); [by eapply cname_runs; [done|done|rewrite Eq| |]|].
    apply runs_ret. intros s Hs. split; [by eapply within_weaken, Hs; lia|]. cbn. eauto. }
  intros [err r'']. apply (runs_pre _ _ _ _ (is_Some (resp_Msg r''))); [by intros s [_ ?]|]. intros [m Em].
  apply (runs_from _ (within lo' (b + fanout))); [by intros s [? _]|]. rewrite Em.
  destruct err as [e|].
  { apply runs_ret. intros s Hs. split; [done|]. eexists. split; [done|]. left. cbn. eauto. }
  eapply runs_bind; [apply time_Now_runs|]. intros now. apply runs_ret. intros s Hs. split; [done|].
  eexists. split; [done|]. right. cbn. eauto.
Qed.

(** The outcome of a label: a response, or the next zone further along. *)
Definition label_done (d : domain) (x : option zone * option Response * domain * option (auth zone)) : Prop :=
  let '(z, r, d', _) := x in
  total_response r \/ (r = None /\ along d d' /\ exists z', z = Some z' /\ named z').

Lemma resolveLabel_runs lo' b d z qmsg a : (lo <= lo')%Z -> (b + fanout < 2 ^ 32)%Z ->
  Question qmsg <> [] -> named z -> domain_wf d ->
  runs allowed (within lo' b) (resolveLabel (inner_funcs cache_fuel ex) ctx d (Some z) qmsg a)
    (fun x s => within lo' (b + fanout) s /\ label_done d x).
Proof.
  intros Hl Hb Hq Hz Hd. assert (0 <= fanout)%Z by (unfold fanout; lia). unfold resolveLabel.
  eapply (runs_bind _ _ _ (fun _ => within lo' b)).
  { destruct a; apply runs_modify; [|done]. intros s Hs. eapply within_frame; [done..|]; exact (within_world _ _ _ Hs). }
  intros []. eapply runs_bind.
  { apply (on_world_runs _ (fun r => forall resp msg, r = Some resp -> resp_Msg resp = Some msg ->
      length (Answer msg) <= answer_limit)).
    - intros w p Hw E. destruct (zw_exchange (root := root) ctx z qmsg w Hw (proj1 Hctx) Hq) as (? & ? & E' & _). congruence.
    - intros w r w' Hw E.
      destruct (zw_exchange (root := root) ctx z qmsg w Hw (proj1 Hctx) Hq) as (? & ? & E' & ? & Hr).
      rewrite E' in E. by simplify_eq. }
  intros r. eapply runs_pre; [intros s [_ Hr]; exact Hr|]. intros Hr.
  apply (runs_from _ (within lo' b)); [by intros s [? _]|].
  assert (forall r', total_response r' -> runs allowed (within lo' b) (mret (None, r', d, a))
    (fun x s => within lo' (b + fanout) s /\ label_done d x)) as Hret.
  { intros r' Hr'. apply runs_ret. intros s Hs. split; [by eapply within_weaken, Hs; lia|]. by left. }
  destruct r as [[[msg|] [e|] dur doe au]|]; try (apply Hret; eexists; split; [done|]; left; cbn; by eauto).
  specialize (Hr _ _ eq_refl eq_refl). cbn [f_checkForMissingZones f_processDelegation f_finaliseResponse inner_funcs].
  eapply runs_bind; [by apply checkForMissingZones_runs|]. intros [[z' d'] a'].
  eapply runs_pre; [intros s [_ Hx]; exact Hx|]. cbn [fst snd]. intros [Hz' Hd'].
  apply (runs_from _ (within lo' b)); [by intros s [? _]|].
  destruct (is_delegation msg).
  - eapply runs_bind; [by apply processDelegation_runs|]. intros [z'' r'].
    apply runs_ret. intros s [Hs [Ht|(z3 & E & Hz3)]]; (split; [done|]); [by left|].
    simplify_eq. right. eauto.
  - eapply runs_bind; [by apply (finaliseResponse_runs lo' b _ qmsg _ msg)|].
    intros r'. apply runs_ret.
    intros s [Hs Ht]. split; [done|]. by left.
Qed.
End costs.

(** ** The loop *)

Lemma counter_Add_runs lo b : (b + 1 < 2 ^ 32)%Z ->
  runs allowed (within lo b) counter_Add (fun c s =>
    ((MaxQueriesPerRequest < c)%Z /\ within lo (b + 1) s) \/
    ((lo < MaxQueriesPerRequest)%Z /\ ~ (MaxQueriesPerRequest < c)%Z /\ within (lo + 1) (b - fanout) s)).
Proof.
  intros Hb s (Hs & Hl & Hp). unfold counter_Add. set (c := counter s) in *.
  assert (0 <= fanout)%Z by (unfold fanout; lia).
  assert (c <= b)%Z by (unfold potential in Hp; nia).
  assert (uint32 (c + 1) = c + 1)%Z as E by (unfold uint32; apply Z.mod_small; lia).
  rewrite E. assert (session_ok (set_counter (c + 1) s)) as Hs' by (destruct Hs; by split).
  destruct (decide (MaxQueriesPerRequest < c + 1)%Z); [left|right].
  - split; [done|]. split; [done|]. cbn. unfold potential in *. split; [lia|nia].
  - split; [lia|]. split; [done|]. split; [done|]. cbn. unfold potential in *. split; [lia|nia].
Qed.

Lemma exchange_loop_runs fuel lo b ex ctx qmsg z d a :
  ((lo < MaxQueriesPerRequest)%Z -> bounded_exchanger (lo + 1) ex) -> in_session ctx ->
  (b + 1 < 2 ^ 32)%Z -> Question qmsg <> [] -> named z -> domain_wf d -> 0 < fuel -> S (length (labelIndexes d)) < fuel + currentIdx d ->
  runs allowed (within lo b) (exchange_loop (funcs cache_fuel ex) fuel ctx qmsg (Some z) d a)
    (fun r s => within lo (b + 1) s /\ total_response r).
Proof.
  intros Hex Hctx Hb Hq Hz Hd H0 Hf. apply (runs_pre _ _ _ _ (0 <= lo)%Z); [by intros s (_ & [? _] & _)|].
  intros Hlo. revert z d a Hz Hd H0 Hf; induction fuel as [|fuel IH]; intros z d a Hz Hd H0 Hf; [lia|].
  cbn [exchange_loop]. assert (0 <= fanout)%Z by (unfold fanout; lia).
  assert (forall b' e, (b' <= b + 1)%Z -> runs allowed (within lo b') (mret (response_error e))
    (fun r s => within lo (b + 1) s /\ total_response r)) as Hret.
  { intros b' e Hb'. apply runs_ret. intros s Hs. split; [by eapply within_weaken, Hs|].
    eexists. split; [done|]. left. cbn. eauto. }
  destruct (more d) eqn:Em; cbn [negb]; [|apply Hret; lia]. unfold more in Em. bool_facts.
  eapply runs_bind; [by apply counter_Add_runs|]. intros count.
  case_bool_decide as Hc.
  { apply (runs_from _ (within lo (b + 1))); [|apply Hret; lia]. intros s [[_ ?]|(_ & ? & _)]; done. }
  eapply (runs_pre _ _ _ _ (lo < MaxQueriesPerRequest)%Z); [by intros s [[? _]|(? & _ & _)]|]. intros Hlt.
  specialize (Hex Hlt).
  apply (runs_from _ (within (lo + 1) (b - fanout))); [by intros s [[? _]|(_ & _ & ?)]|].
  rewrite current_spec by done. eapply (runs_bind _ _ _ (fun c => within (lo + 1) (b - fanout))); [by apply runs_lift|].
  intros c. eapply runs_bind; [apply store_get_runs|]. intros known.
  eapply runs_pre; [intros s [_ Hk]; exact Hk|]. intros Hk.
  apply (runs_from _ (within (lo + 1) (b - fanout))); [by intros s [? _]|].
  assert (forall b' z' d' a', (b' <= b)%Z -> named z' -> along d d' ->
    runs allowed (within (lo + 1) b') (exchange_loop (funcs cache_fuel ex) fuel ctx qmsg (Some z') (next d') a')
    (fun r s => within lo (b + 1) s /\ total_response r)) as Hnext.
  { intros b' z' d' a' Hb' Hz' (En & El & Hi). apply (runs_from _ (within lo b)).
    - intros s (Hs & Hl & Hp). split_and!; [done|lia..].
    - apply IH; [done| |lia|cbn; rewrite El; lia]. unfold domain_wf in *. cbn. by rewrite En, El. }
  destruct (if domain_last d then None else known) as [z'|] eqn:Ek.
  { apply Hnext; [lia| |apply along_refl]. destruct (domain_last d); [done|]. by apply Hk. }
  cbn [f_resolveLabel funcs]. eapply runs_bind.
  { apply (resolveLabel_runs (lo + 1) ex Hex ctx Hctx (lo + 1) (b - fanout)); [lia|lia|done..]. }
  intros [[[z' r] d'] a']. eapply runs_pre; [intros s [_ Hr]; exact Hr|]. intros Hr.
  apply (runs_from _ (within (lo + 1) b)).
  { intros s [Hs _]. by replace b with (b - fanout + fanout)%Z by lia. }
  destruct Hr as [(x & -> & Hx)|(-> & Hd' & z'' & -> & Hz'')]; [|apply Hnext; [lia|done..]].
  apply runs_ret. intros s (Hs & Hl & Hp). split; [split_and!; [done|lia..]|]. by exists x.
Qed.

(** ** The recursion *)

(** A question may start: it is part of a session, or starts its counter. *)
Definition ready (ctx : Ctx) (lo b : Z) (s : session zone P W) : Prop :=
  session_ok s /\ if ctxSessionQueries ctx then within lo b s else lo = 0%Z /\ (potential 0 <= b)%Z.

Lemma ready_now ctx lo b : runs allowed (ready ctx lo b) time_Now (fun _ => ready ctx lo b).
Proof.
  intros s [Hs Hc]. unfold ready in *. destruct (ctxSessionQueries ctx).
  - pose proof (time_Now_runs lo b s Hc) as H. destruct (time_Now s) as [[a s']|p|]; [|done..]. split; [apply H|done].
  - pose proof (Hothers _ s (conj Hs eq_refl)) as H. unfold time_Now, mbind, M_bind.
    destruct (others s) as [[[] s']|p|]; [|done..]. destruct H as [[] _]. split; [|done]. split; [done..| |done]. by eapply zw_tick.
Qed.

Lemma exchange_runs lo b ex ctx qmsg :
  ((lo < MaxQueriesPerRequest)%Z -> bounded_exchanger (lo + 1) ex) ->
  (b + 1 < 2 ^ 32)%Z -> Question qmsg <> [] ->
  runs allowed (ready ctx lo b) (exchange (funcs cache_fuel ex) ctx qmsg)
    (fun r s => within lo (b + 1) s /\ total_response r).
Proof.
  intros Hex Hb Hq. unfold exchange. eapply runs_bind; [apply ready_now|]. intros start.
  eapply (runs_bind _ _ _ (fun _ => within lo b)).
  { apply runs_modify. intros s [Hs Hc]. destruct (ctxSessionQueries ctx); [done|]. destruct Hc as [-> Hp].
    split; [by destruct Hs; split|]. cbn. split; [lia|done]. }
  intros []. destruct (Question qmsg) as [|q qs] eqn:Eq; [done|].
  eapply (runs_bind _ _ _ (fun q' => within lo b)); [by apply runs_lift|]. intros q'.
  eapply runs_bind; [apply store_getZoneList_runs|]. intros known.
  eapply runs_pre; [intros s [_ Hk]; exact Hk|]. intros (z & rest & d & -> & Hz & Hw & Hd).
  apply (runs_from _ (within lo b)); [by intros s [? _]|].
  eapply (runs_bind _ _ _ (fun z' s => within lo b s /\ z' = z)); [apply runs_lift; [discriminate|by intros ? ? [= <-] ?]|].
  intros z'. apply (runs_pre _ _ _ _ (z' = z)); [by intros s [_ ?]|]. intros ->.
  apply (runs_from _ (within lo b)); [by intros s [? _]|]. rewrite Hw.
  eapply (runs_bind _ _ _ (fun x s => within lo b s /\ x = (d, None))); [apply runs_lift; [discriminate|by intros ? ? [= <-] ?]|].
  intros x. apply (runs_pre _ _ _ _ (x = (d, None))); [by intros s [_ ?]|]. intros ->.
  apply (runs_from _ (within lo b)); [by intros s [? _]|].
  apply exchange_loop_runs; [done|done|done|by rewrite Eq|done|done|lia|lia].
Qed.

(** Fuel for the questions that the counter still allows. *)
Lemma resolver_exchange_bounded fuel lo : (0 <= lo)%Z ->
  (MaxQueriesPerRequest - lo < Z.of_nat fuel)%Z -> 0 < fuel ->
  bounded_exchanger lo (resolver_exchange cache_fuel fuel).
Proof.
  revert lo; induction fuel as [|fuel IH]; intros lo H0 Hf Hp ctx m lo' b Hl Hb Hctx Hq; [lia|].
  apply (runs_from _ (ready ctx lo' b)).
  { intros s Hs. split; [apply Hs|]. by destruct Hctx as [_ ->]. }
  apply exchange_runs; [|done..]. intros Hlt. apply IH; lia.
Qed.

Lemma resolver_Exchange_total (fuel : nat) qmsg s :
  (MaxQueriesPerRequest * (1 + fanout) + 1 < 2 ^ 32)%Z -> Question qmsg <> [] -> session_ok s ->
  (MaxQueriesPerRequest + 1 < Z.of_nat fuel)%Z ->
  (exists p, resolver_Exchange cache_fuel fuel Background qmsg s = Crash p /\ allowed p) \/
  exists r s', resolver_Exchange cache_fuel fuel Background qmsg s = Fine (r, s') /\ total_response r /\
    if RecursionDesired qmsg then session_ok s' /\ (0 <= counter s' <= MaxQueriesPerRequest * (1 + fanout) + 1)%Z
    else s' = s.
Proof.
  intros Hb Hq Hs Hf. destruct fuel as [|fuel]; [lia|]. unfold resolver_Exchange, Exchange.
  destruct (RecursionDesired qmsg); cbn [negb].
  2:{ right. eexists _, s. split; [done|]. split; [|done]. eexists. split; [done|]. left. cbn. eauto. }
  set (b := (MaxQueriesPerRequest * (1 + fanout))%Z).
  assert (potential 0 = b) as Hpot by (unfold potential, b; rewrite Z.min_l by lia; lia).
  assert (runs allowed session_ok (exchange (funcs cache_fuel (resolver_exchange cache_fuel fuel)) Background qmsg)
    (fun r s => within 0 (b + 1) s /\ total_response r)) as H.
  { apply (runs_from _ (ready Background 0 b)); [intros s0 Hs0; split; [done|cbn; lia]|].
    apply exchange_runs; [|done..]. intros Hlt. apply resolver_exchange_bounded; lia. }
  specialize (H s Hs). unfold mbind, M_bind.
  destruct (exchange _ _ _ s) as [[r s']|p|]; [|left; by exists p|done].
  destruct H as [[Hs' Hc] (x & -> & Hx)]. right.
  assert (session_ok s' /\ (0 <= counter s' <= b + 1)%Z) as Hend.
  { split; [done|]. unfold potential in Hc. assert (0 <= fanout)%Z by (unfold fanout; lia). nia. }
  destruct x as [[m|] e dur doe au]; (eexists _, _; split; [done|]); (split; [|done]); eexists; (split; [done|]);
    cbn in *; [right|left]; eauto. destruct Hx as [?|[? ?]]; done.
Qed.

(** As a triple, for a client that keeps a session. *)
Definition session_kept (s : session zone P W) : Prop := session_ok s /\ (0 <= counter s)%Z.

Lemma resolver_Exchange_runs (fuel : nat) qmsg :
  (MaxQueriesPerRequest * (1 + fanout) + 1 < 2 ^ 32)%Z -> Question qmsg <> [] ->
  (MaxQueriesPerRequest + 1 < Z.of_nat fuel)%Z ->
  runs allowed session_kept (resolver_Exchange cache_fuel fuel Background qmsg)
    (fun r s => session_kept s /\ total_response r).
Proof.
  intros Hb Hq Hf s [Hs Hc].
  destruct (resolver_Exchange_total fuel qmsg s Hb Hq Hs Hf) as [(p & -> & Hp)|(r & s' & -> & Hr & H)]; [done|].
  split; [|done]. destruct (RecursionDesired qmsg); [|by subst s']. destruct H. split; [done|lia].
Qed.

(** A step that costs nothing keeps the session. *)
Lemma keeps_session {A} (m : RM A) : (forall b, keeps 0 b b m) -> runs allowed session_kept m (fun _ => session_kept).
Proof.
  intros Hm s [Hs Hc]. specialize (Hm (potential (counter s)) s). destruct (m s) as [[a s']|p|].
  - destruct Hm as (Hs' & Hc' & _); [by split_and!|]. split; [done|lia].
  - apply Hm. by split_and!.
  - apply Hm. by split_and!.
Qed.

(** C2: with room in the counter, every question to the resolver ends: from
    any state of its zones and cache, whatever the servers reply and however
    aliases and delegations nest, fuel above the query limit is enough.  The
    reply carries a message or an error, the state stays well formed, and the
    counter never passes its potential, so it does not wrap.  The only panics
    left are [clone]'s and those of the validation. *)
Theorem resolver_terminates fuel qmsg s :
  (MaxQueriesPerRequest * (1 + fanout) + 1 < 2 ^ 32)%Z -> Question qmsg <> [] -> session_ok s ->
  (MaxQueriesPerRequest + 1 < Z.of_nat fuel)%Z ->
  (exists p, resolver_Exchange cache_fuel fuel Background qmsg s = Crash p /\ allowed p) \/
  exists r s', resolver_Exchange cache_fuel fuel Background qmsg s = Fine (r, s') /\
    total_response r /\
    (RecursionDesired qmsg = true -> session_ok s' /\
      (counter s' <= MaxQueriesPerRequest * (1 + fanout) + 1)%Z).
Proof.
  intros Hb Hq Hs Hf.
  destruct (resolver_Exchange_total fuel qmsg s Hb Hq Hs Hf) as [?|(r & s' & E & Hr & H)]; [by left|right].
  exists r, s'. split_and!; [done..|]. intros Hrd. rewrite Hrd in H. destruct H. split; [done|lia].
Qed.

(** C11: the zones a resolver knows stay nested: whatever referrals the servers
    send for a question, every zone in the store afterwards is under its own
    canonical name and, the root apart, strictly below the zone that its
    record names as parent. *)
Theorem stored_zones_nested (fuel : nat) qmsg s r s' :
  (MaxQueriesPerRequest * (1 + fanout) + 1 < 2 ^ 32)%Z -> Question qmsg <> [] -> session_ok s ->
  (MaxQueriesPerRequest + 1 < Z.of_nat fuel)%Z ->
  resolver_Exchange cache_fuel fuel Background qmsg s = Fine (r, s') ->
  forall k z, default ∅ (zones_map (zone_store s')) !! k = Some z ->
    k = zn_name z /\ canonical k /\
    (k = "."%string \/ zn_name z <> zn_parent z /\ dns_IsSubDomain (zn_parent z) (zn_name z) = true).
Proof.
  intros Hb Hq Hs Hf E k z Hk.
  destruct (resolver_Exchange_total fuel qmsg s Hb Hq Hs Hf) as [(p & E' & _)|(r0 & s0 & E' & _ & H)]; [congruence|].
  rewrite E in E'. injection E' as <- <-.
  assert (session_ok s') as Hs' by (destruct (RecursionDesired qmsg); [apply H|by subst]).
  destruct (ok_store _ Hs' _ _ Hk) as [Hn Hc]. split_and!; [done..|].
  destruct (decide (k = "."%string)) as [?|Hr]; [by left|right]. by destruct (ok_below _ Hs' _ _ Hk Hr) as (_ & ? & ?).
Qed.
End budget.

(** ** A zone in the wrong place *)

Section misplaced.
Context `{L : DnsLib} `{RC : ResolverConfig} {zone P W : Type} `{ZW : ZoneWorld zone P W} `{IL : Interleaving zone P W}.
Context (root : zone) (world_ok : W -> Prop) (WL : ZoneWorldLaws ZW root world_ok).

Definition strictly_below (parent n : string) : Prop :=
  dns_CanonicalName n <> dns_CanonicalName parent /\ dns_IsSubDomain parent n = true.

(** C9: [checkForMissingZones] believes the zone's server about the names in
    between.  When the server gives an SOA record for the first of them, the
    function clones the zone for that name; the clone panics when the name is
    not strictly below the zone, as nothing has checked, and otherwise the
    function goes on from the new zone. *)
Theorem misplaced_zone_crashes ctx d z msg a n rest (s s1 s2 : session zone P W) soa w :
  let owner := foldl (better_owner z) "."%string (Ns msg ++ Answer msg) in
  owner <> "."%string -> gap owner d = Ret (n :: rest) ->
  others s = Fine (tt, s1) -> zn_soa ctx z n (world s1) = Ret (Some soa, None, w) ->
  others (set_world w s1) = Fine (tt, s2) -> world_ok (world s2) ->
  (~ strictly_below (zn_name z) n -> checkForMissingZones ctx d z msg a s = Crash (Explicit "invalid clone")) /\
  (strictly_below (zn_name z) n -> exists z' w', zn_name z' = dns_CanonicalName n /\
     zn_parent z' = dns_CanonicalName (zn_name z) /\
     checkForMissingZones ctx d z msg a s =
       (_ ← store_add z';
        for_each (missing_zone ctx) rest
          (z', next d, log_event (DelegationSignerLink z (zn_name z')) a)) (set_world w' s2)).
Proof.
  intros owner Ho Hg E1 Es E2 Hw. unfold checkForMissingZones. rewrite bool_decide_false; cycle 1.
  { intros H0%length_zero_iff_nil. by apply Ho; unfold owner; rewrite H0. }
  fold owner. rewrite bool_decide_false, Hg by done. cbn [for_each].
  assert (missing_zone ctx (z, d, a) n s = (
      newZone ← act (zn_clone n (zn_name z) z); _ ← store_add newZone;
      mret (newZone, next d, log_event (DelegationSignerLink z (zn_name newZone)) a)) s2) as Hm.
  { unfold missing_zone, on_world, mbind, M_bind. rewrite E1. unfold act at 1. rewrite Es. by rewrite E2. }
  unfold mbind, M_bind in Hm |- *. cbn [lift for_each]. unfold mbind, M_bind. rewrite Hm. unfold act, strictly_below.
  destruct (zw_clone n (zn_name z) z (world s2) Hw) as [[-> Hn]|(z' & w' & -> & _ & Hz & Hp & Hb)].
  - split; [done|]. intros [? ?]. destruct Hn; congruence.
  - split; [by intros []|]. intros _. exists z', w'. split_and!; [done..|].
    destruct (store_add z' _) as [[[] s3]| |]; done.
Qed.
End misplaced.
