(* ===== verification/Interleave.v ===== *)
(** * Questions interleaved over the same zones and cache

    The theorems of Budget hold for every [Interleaving] that keeps the shared
    state well formed and panics only as the code does; nothing is said of it
    on other states, so they also show that the code lets the other goroutines
    act on well-formed states only.
    Here the other goroutines are the code itself: questions of other workers,
    prefetches, the server's writes to the cache and its clean-up, each run at
    an access of the one observed and itself interleaved, to any depth. *)

From S2P Require Import Prelude GoErrors Dns DnsRef DnssecConst Domain Cache Response Functions Zones Zone Session ResolverState ZoneFactory Cname ResolverExchange Resolver Budget.

(** What another goroutine does: the question of a worker; that of a prefetch,
    on the zones of the prefetch manager; a write to the cache; the clean-up. *)
Inductive activity (zone : Type) : Type :=
| Asks (qmsg : Msg)
| AsksWith (zs : zones zone) (qmsg : Msg)
| Caches (q : Question_) (msg : Msg)
| Cleans.
Arguments Asks {zone} qmsg.
Arguments AsksWith {zone} zs qmsg.
Arguments Caches {zone} q msg.
Arguments Cleans {zone}.

Section interleave.
Context `{L : DnsLib} `{R : MapRange} `{RC : ResolverConfig} `{B : MsgBuilder} `{Sch : Scheduler}.
Context {zone P W : Type} `{ZW : ZoneWorld zone P W} `{AS : AuthService zone W}.
Context (cache_fuel fuel : nat).
Abbreviation St := (session zone P W).

(** A run with a counter of its own.  Its panic ends the program, the observed
    goroutine with it. *)
Definition alongside {A} (m : M St A) : M St unit :=
  c ← gets counter;
  _ ← modify (set_counter 0);
  _ ← m;
  modify (set_counter c).

(** The same with other zones in place of the session's. *)
Definition with_store {A} (zs : zones zone) (m : M St A) : M St unit :=
  own ← gets zone_store;
  _ ← modify (set_store zs);
  _ ← m;
  modify (set_store own).

(** One tick of [cacheCleaner]. *)
Definition clean_up `{IL : Interleaving zone P W} : M St unit :=
  now ← time_Now;
  modify (fun s => set_dcache (cleanExpired now <$> dcache s) s).

Definition perform `{IL : Interleaving zone P W} (a : activity zone) : M St unit :=
  match a with
  | Asks qmsg => alongside (resolver_Exchange cache_fuel fuel Background qmsg)
  | AsksWith zs qmsg => with_store zs (alongside (resolver_Exchange cache_fuel fuel Background qmsg))
  | Caches q msg => alongside (cache_set cache_fuel q (Some msg))
  | Cleans => alongside clean_up
  end.

(** [plan] says who runs at an access; it sees the state, and so the time. *)
Fixpoint interleaved (plan : nat -> St -> list (activity zone)) (depth : nat) : Interleaving zone P W :=
  match depth with
  | O => alone
  | S depth =>
      now ← gets (plan depth);
      for_each (fun _ a => perform (IL := interleaved plan depth) a) now tt
  end.
End interleave.

(** * Theory *)

Section interleave_facts.
Context `{Laws : DnsLaws} `{R : MapRange} `{RC : ResolverConfig} `{BL : MsgBuilderLaws} `{Sch : Scheduler}.
Context {zone P W : Type} `{ZW : ZoneWorld zone P W} `{AS : AuthService zone W}.
Context (root pm_root : zone) (world_ok : W -> Prop) (WL : ZoneWorldLaws ZW root world_ok)
  (WL' : ZoneWorldLaws ZW pm_root world_ok) (cache_fuel fuel : nat).
Context (auth_ok : forall a w v w', world_ok w -> auth_result a w = Ret (v, w') -> world_ok w').
Context (Hmax : (0 <= MaxQueriesPerRequest)%Z)
  (Hdesire : (2 * Z.of_nat DesireNumberOfNameserversPerZone <= fanout)%Z)
  (Hbound : (MaxQueriesPerRequest * (1 + fanout) + 1 < 2 ^ 32)%Z)
  (Hfuel : (MaxQueriesPerRequest + 1 < Z.of_nat fuel)%Z).
Abbreviation St := (session zone P W).
Abbreviation ok r := (session_ok (zone := zone) (P := P) (W := W) r world_ok cache_fuel).
Abbreviation fair r := (admissible (zone := zone) (P := P) (W := W) r world_ok cache_fuel).

(** The zones of a store that a resolver of [pm_root] may start from. *)
Definition stocked (zs : zones zone) : Prop := forall r s, ok r s -> ok pm_root (set_store zs s).

Definition proper_activity (a : activity zone) : Prop :=
  match a with
  | Asks qmsg => Question qmsg <> []
  | AsksWith zs qmsg => Question qmsg <> [] /\ stocked zs
  | _ => True
  end.

Lemma set_counter_ok r c (s : St) : ok r s -> ok r (set_counter c s).
Proof. by intros []; split. Qed.

Lemma store_back_ok r r' (s s' : St) : ok r s -> ok r' s' -> ok r (set_store (zone_store s) s').
Proof. intros [H1 H2 H3 _ _] [_ _ _ H4 H5]. by split. Qed.

(** A run that keeps the session is fair to the others. *)
Lemma alongside_fair {A} r (m : M St A) :
  runs (allowed world_ok) (session_kept r world_ok cache_fuel) m (fun _ => session_kept r world_ok cache_fuel) ->
  fair r (alongside m).
Proof.
  intros Hm c. unfold alongside.
  eapply (runs_bind _ _ _ (fun c' s => ok r s /\ c' = c)); [apply runs_gets; by intros s [? ?]|]. intros c'.
  eapply (runs_pre _ _ _ _ (c' = c)); [by intros s [_ ?]|]. intros ->.
  eapply (runs_bind _ _ _ (fun _ => session_kept r world_ok cache_fuel)).
  { apply runs_modify. intros s [Hs _]. split; [by apply set_counter_ok|done]. }
  intros []. eapply runs_bind; [exact Hm|]. intros a. apply runs_modify. intros s [Hs _].
  split; [by apply set_counter_ok|done].
Qed.

Lemma with_store_fair {A} r zs (m : M St A) : (forall s, ok r s -> ok pm_root (set_store zs s)) ->
  (forall c, runs (allowed world_ok) (fun s => ok pm_root s /\ counter s = c) m (fun _ s => ok pm_root s /\ counter s = c)) ->
  fair r (with_store zs m).
Proof.
  intros Hz Hm c s [Hs Hc]. unfold with_store, mbind, M_bind, gets, modify.
  specialize (Hm c (set_store zs s) (conj (Hz s Hs) Hc)). destruct (m _) as [[a s']|p|]; [|done..].
  destruct Hm as [Hs' Hc']. split; [by eapply store_back_ok|done].
Qed.

Section fair.
Context {IL : Interleaving zone P W}.

Lemma question_fair r qmsg : ZoneWorldLaws ZW r world_ok -> fair r others -> Question qmsg <> [] ->
  fair r (alongside (resolver_Exchange cache_fuel fuel Background qmsg)).
Proof.
  intros Hr Ho Hq. apply alongside_fair. eapply runs_weaken; [by eapply resolver_Exchange_runs|done|by intros ? ? []].
Qed.

Lemma clean_up_runs r b : ZoneWorldLaws ZW r world_ok -> fair r others ->
  runs (allowed world_ok) (within r world_ok cache_fuel 0 b) clean_up (fun _ => within r world_ok cache_fuel 0 b).
Proof.
  intros Hr Ho. eapply runs_bind; [by eapply time_Now_runs|]. intros now. apply runs_modify. intros t Ht.
  pose proof Ht as ([_ _ _ _ (c & Ec & Hc & _)] & _). rewrite Ec. destruct (clean_ok now c Hc) as (Hok & Hm & _).
  by eapply set_dcache_within.
Qed.

Lemma perform_fair r a : ZoneWorldLaws ZW r world_ok -> fair r others -> fair pm_root others ->
  proper_activity a -> fair r (perform cache_fuel fuel a).
Proof.
  intros Hr Ho Hp Ha. destruct a as [qmsg|zs qmsg|q msg|]; cbn in *.
  - by apply question_fair.
  - destruct Ha as [Hq Hz]. apply with_store_fair; [intros s; by apply Hz|]. by apply question_fair.
  - apply alongside_fair, keeps_session. intros b. by eapply cache_set_runs.
  - apply alongside_fair, keeps_session. intros b. by apply clean_up_runs.
Qed.
End fair.

Lemma fair_for_each r (f : activity zone -> M St unit) l : (forall a, a ∈ l -> fair r (f a)) ->
  fair r (for_each (fun _ a => f a) l tt).
Proof.
  intros Hf c. apply (runs_for_each _ (fun _ _ s => ok r s /\ counter s = c)); [|done].
  intros _ [] a Ha _. by apply Hf.
Qed.

Context (plan : nat -> St -> list (activity zone)) (Hplan : forall depth s, Forall proper_activity (plan depth s)).

Lemma interleaved_fair r depth : ZoneWorldLaws ZW r world_ok -> fair r (interleaved cache_fuel fuel plan depth).
Proof.
  revert r; induction depth as [|depth IH]; intros r Hr; [apply alone_admissible|]. intros c. cbn.
  eapply (runs_bind _ _ _ (fun now s => (ok r s /\ counter s = c) /\ Forall proper_activity now)).
  { apply runs_gets. auto. }
  intros now. apply (runs_pre _ _ _ _ (Forall proper_activity now)); [by intros s [_ ?]|]. intros Hnow.
  apply (runs_from _ (fun s => ok r s /\ counter s = c)); [by intros s [? _]|].
  apply (fair_for_each r (fun a => perform (IL := interleaved cache_fuel fuel plan depth) cache_fuel fuel a)).
  intros a Ha. apply perform_fair; [done|by apply IH|by apply IH|]. rewrite Forall_forall in Hnow. by apply Hnow.
Qed.

(** C3: questions interleaved with one another end: when at every access to the
    shared zones, cache and world any number of questions of other workers,
    prefetches and cache operations run, and at theirs others again, a question
    still ends, unless the program panics, this goroutine or another, in clone
    or in the validation.  Its reply has a message or an error, and the shared
    state is well formed again; the counter of a question that was run (one
    that asks for recursion) is within the same budget. *)
Theorem interleaved_questions_end depth qmsg s : Question qmsg <> [] -> ok root s ->
  let IL := interleaved cache_fuel fuel plan depth in
  (exists p, resolver_Exchange (IL := IL) cache_fuel fuel Background qmsg s = Crash p /\ allowed world_ok p) \/
  exists r s', resolver_Exchange (IL := IL) cache_fuel fuel Background qmsg s = Fine (r, s') /\
    total_response r /\ ok root s' /\
    if RecursionDesired qmsg then (0 <= counter s' <= MaxQueriesPerRequest * (1 + fanout) + 1)%Z else s' = s.
Proof.
  intros Hq Hs IL. destruct (resolver_Exchange_total (IL := IL) root world_ok WL cache_fuel auth_ok
    Hmax Hdesire (interleaved_fair root depth WL) fuel qmsg s Hbound Hq Hs Hfuel) as [?|(r & s' & E & Hr & H)]; [by left|right].
  exists r, s'. split_and!; [done..| |]; destruct (RecursionDesired qmsg); try apply H; by subst s'.
Qed.
End interleave_facts.
