(* ===== verification/Server.v ===== *)
(** * server.go: queries, prefetch and the DNSSEC hook

    The workers take the queries from a queue and answer them in any order;
    what one does to the zones and the cache between two accesses of another
    is the [Interleaving] of the session.  The cache's own operations are in
    Cache. *)

From S2P Require Import Prelude GoErrors Dns DnsRef DnssecConst Signatures Verify Authenticator Domain Cache Response Nameserver Functions Zones Zone Session ResolverState ZoneFactory Cname ResolverExchange Resolver Budget Interleave ReplyId.

(** What only the server calls of the library. *)
Class ServerLib := {
  (** [new(dns.Msg).SetReply(r)] *)
  msg_SetReply : Msg -> Msg;
  (** [r.IsEdns0()] *)
  msg_IsEdns0 : Msg -> option OPT
}.

(** A reply has the id of its query. *)
Class ServerLaws (SL : ServerLib) : Prop := {
  msg_reply_id r : Id (msg_SetReply r) = Id r
}.

(** [dns.ResponseWriter]: who is to be answered. *)
Definition ResponseWriter : Type := nat.

Record prefetchManager (zone : Type) := mkPrefetch {
  pm_zones : zones zone;
  popular : gmap string Z;
  threshold : Z
}.
Arguments mkPrefetch {zone}.
Arguments pm_zones {zone}.
Arguments popular {zone}.
Arguments threshold {zone}.

(** The server.  [workers] and [capacity] are the number of its goroutines and
    the size of its channel; [working] are the queries that a worker has taken
    and not answered yet.  [resolver] has the zones of its resolver, the cache that all
    share and the world; [prefetching] lists the goroutines [prefetchRecord]
    that have not run yet, [written] the messages sent. *)
Record Server (zone P W : Type) := mkServer {
  workers : nat;
  capacity : nat;
  resolver : session zone P W;
  queries : list (ResponseWriter * Msg);
  working : list (ResponseWriter * Msg);
  prefetch : prefetchManager zone;
  dnssecValidator : option Authenticator;
  prefetching : list Question_;
  written : list (ResponseWriter * Msg)
}.
Arguments mkServer {zone P W}.
Arguments workers {zone P W}.
Arguments capacity {zone P W}.
Arguments resolver {zone P W}.
Arguments queries {zone P W}.
Arguments working {zone P W}.
Arguments prefetch {zone P W}.
Arguments dnssecValidator {zone P W}.
Arguments prefetching {zone P W}.
Arguments written {zone P W}.

Section server.
Context `{L : DnsLib} `{R : MapRange} `{Cfg : DnssecConfig} `{RC : ResolverConfig} `{B : MsgBuilder}.
Context `{Sch : Scheduler} `{SL : ServerLib}.
Context {zone P W : Type} `{ZW : ZoneWorld zone P W} `{IL : Interleaving zone P W} `{AS : AuthService zone W}.
(** iterations allowed to the cache's eviction loop, nesting of exchanges *)
Context (cache_fuel fuel : nat).
Abbreviation S_ := (Server zone P W).
Abbreviation SM := (M (Server zone P W)).

Definition set_resolver (r : session zone P W) (s : S_) : S_ := mkServer (workers s) (capacity s)
  r (queries s) (working s) (prefetch s) (dnssecValidator s) (prefetching s) (written s).
Definition set_queries (q : list (ResponseWriter * Msg)) (s : S_) : S_ := mkServer (workers s) (capacity s)
  (resolver s) q (working s) (prefetch s) (dnssecValidator s) (prefetching s) (written s).
Definition set_working (q : list (ResponseWriter * Msg)) (s : S_) : S_ := mkServer (workers s) (capacity s)
  (resolver s) (queries s) q (prefetch s) (dnssecValidator s) (prefetching s) (written s).
Definition set_prefetch (p : prefetchManager zone) (s : S_) : S_ := mkServer (workers s) (capacity s)
  (resolver s) (queries s) (working s) p (dnssecValidator s) (prefetching s) (written s).
Definition set_dnssecValidator (a : option Authenticator) (s : S_) : S_ := mkServer (workers s) (capacity s)
  (resolver s) (queries s) (working s) (prefetch s) a (prefetching s) (written s).
Definition set_prefetching (l : list Question_) (s : S_) : S_ := mkServer (workers s) (capacity s)
  (resolver s) (queries s) (working s) (prefetch s) (dnssecValidator s) l (written s).
Definition set_written (l : list (ResponseWriter * Msg)) (s : S_) : S_ := mkServer (workers s) (capacity s)
  (resolver s) (queries s) (working s) (prefetch s) (dnssecValidator s) (prefetching s) l.
Definition set_popular (p : gmap string Z) (pm : prefetchManager zone) : prefetchManager zone :=
  mkPrefetch (pm_zones pm) p (threshold pm).

(** ** The constructors *)

(** [zs] are the zones [NewResolver] starts the server's resolver with, [pm]
    those of the prefetch manager's. *)
Definition newPrefetchManager (pm : zones zone) : prefetchManager zone := mkPrefetch pm ∅ 3.

Definition NewServer (zs pm : zones zone) (w : W) : S_ :=
  mkServer 10 100 (mkSession 0 zs (Some (new_cache 10000)) w []) [] [] (newPrefetchManager pm) None [] [].

(** [config] has the fields [CacheSize] and [EnableDNSSEC]. *)
Definition NewServerWithConfig (clocks : Zone -> Msg -> Clocks) (CacheSize : Z) (EnableDNSSEC : bool)
    (zs pm : zones zone) (w : W) : S_ :=
  mkServer 50 1000 (mkSession 0 zs (Some (new_cache (configured_size CacheSize))) w []) [] [] (newPrefetchManager pm)
    (if EnableDNSSEC then Some (NewAuth clocks (mkQ "" 0 0)) else None) [] [].

(** ** Calls of the resolver and the cache *)

Definition on_resolver {A} (m : M (session zone P W) A) : SM A := fun s =>
  match m (resolver s) with
  | Fine (a, r) => Fine (a, set_resolver r s)
  | Crash p => Crash p
  | OutOfFuel => OutOfFuel
  end.

(** With the zones of the prefetch manager in place of the server's. *)
Definition on_prefetch {A} (m : M (session zone P W) A) : SM A := fun s =>
  let zs := zone_store (resolver s) in
  match m (set_store (pm_zones (prefetch s)) (resolver s)) with
  | Fine (a, r) =>
      Fine (a, set_prefetch (mkPrefetch (zone_store r) (popular (prefetch s)) (threshold (prefetch s)))
                 (set_resolver (set_store zs r) s))
  | Crash p => Crash p
  | OutOfFuel => OutOfFuel
  end.

Definition cache_setNegative (q : Question_) (rcode : Z) : M (session zone P W) unit :=
  now ← time_Now;
  c ← gets dcache;
  match (c : option DNSCache) with
  | None => crash NilDereference
  | Some c =>
      match setNegative cache_fuel q rcode now c with
      | Some c => modify (set_dcache (Some c))
      | None => out_of_fuel
      end
  end.

(** ** Prefetch *)

Definition recordAccess (q : Question_) : SM unit := modify (fun s =>
  let key := key_of q in
  let pm := prefetch s in
  let count := (default 0 (popular pm !! key) + 1)%Z in
  if bool_decide (threshold pm <= count)%Z
  then set_prefetching (prefetching s ++ [q]) (set_prefetch (set_popular (<[ key := 0%Z ]> (popular pm)) pm) s)
  else set_prefetch (set_popular (<[ key := count ]> (popular pm)) pm) s).

Definition prefetchRecord (q : Question_) : SM unit :=
  cached ← on_prefetch (cache_get q 0);
  match (cached : option Msg) with
  | Some _ => mret tt
  | None =>
      let msg := msg_SetEdns0 4096 true (msg_SetQuestion (Q_Name q) (Qtype q)) in
      resp ← on_prefetch (resolver_Exchange cache_fuel fuel Background msg);
      match (resp : option Response) with
      | Some (mkResponse _ (Some _) _ _ _) => mret tt
      | Some (mkResponse msg None _ _ _) => on_prefetch (cache_set cache_fuel q msg)
      | None => crash NilDereference
      end
  end.

(** One tick of the loop of [prefetchAllDomains]; [scan now] gives the
    instants at which the pass examines the entries. *)
Definition prefetchAllDomains (scan : Z -> string -> Z) : SM unit :=
  now ← on_resolver time_Now;
  modify (fun s =>
    let allDomains := match dcache (resolver s) with Some c => getAllDomains (scan now) c | None => [] end in
    set_prefetching (prefetching s ++ allDomains) (set_prefetch (set_popular ∅ (prefetch s)) s)).

(** One tick of the loop of [cacheCleaner]. *)
Definition cacheCleaner : SM unit := on_resolver clean_up.

(** ** The DNSSEC hook *)

(** [basicZone]: the root, without keys. *)
Definition basicZone (name : string) : Zone := Verify.mkZone name ([], None).

Definition validateDNSSEC (msg : Msg) : SM (string * option error) :=
  v ← gets dnssecValidator;
  match (v : option Authenticator) with
  | None => mret ("Insecure"%string, None)
  | Some a =>
      '(a, err) ← lift (AddResponse (basicZone ".") msg a);
      _ ← modify (set_dnssecValidator (Some a));
      match (err : option error) with
      | Some e => mret ("Bogus"%string, Some e)
      | None =>
          '(j, a) ← lift (Result a);
          _ ← modify (set_dnssecValidator (Some a));
          let '(result, _, _) := j in
          mret (if bool_decide (result = Unknown) then "Insecure"%string
                else AuthenticationResult_String result, None)
      end
  end.

(** ** Queries *)

Definition WriteMsg (w : ResponseWriter) (m : Msg) : SM unit := modify (fun s => set_written (written s ++ [(w, m)]) s).

(** The DO flag of a query, by its OPT record. *)
Definition wants_dnssec (r : Msg) : bool :=
  match msg_IsEdns0 r with Some opt => dns_OPT_Do opt | None => false end.

(** The message a query is answered with when it is not the resolver's. *)
Definition reply_to (r : Msg) : Msg :=
  let m := set_Authoritative false (msg_SetReply r) in
  match msg_IsEdns0 r with Some opt => msg_SetEdns0 4096 (dns_OPT_Do opt) m | None => m end.

(** The end of [processQuery], on a response without an error. *)
Definition cache_and_write (w : ResponseWriter) (q : Question_) (msg : Msg) : SM unit :=
  _ ← on_resolver (cache_set cache_fuel q (Some msg));
  WriteMsg w msg.

(** [processQuery] after a miss of the cache. *)
Definition resolveQuery (w : ResponseWriter) (r : Msg) (q : Question_) : SM unit :=
  let m := reply_to r in
  _ ← recordAccess q;
  resp ← on_resolver (resolver_Exchange cache_fuel fuel Background r);
  match (resp : option Response) with
  | Some (mkResponse _ (Some e) _ _ _) =>
      let rcode := if bool_decide (Error e = "NXDOMAIN"%string) then RcodeNameError else RcodeServerFailure in
      _ ← on_resolver (cache_setNegative q rcode);
      WriteMsg w (set_Rcode rcode m)
  | Some (mkResponse (Some msg) None _ _ _) =>
      if wants_dnssec r then
        v ← gets dnssecValidator;
        match (v : option Authenticator) with
        | Some _ =>
            '(authResult, err) ← validateDNSSEC msg;
            if bool_decide (is_Some (err : option error)) || bool_decide (authResult <> "Secure"%string)
            then WriteMsg w (set_Rcode RcodeServerFailure m)
            else cache_and_write w q (set_AuthenticatedData true msg)
        | None => cache_and_write w q (set_AuthenticatedData false msg)
        end
      else cache_and_write w q msg
  | _ => crash NilDereference (* the resolver always has an error or a message *)
  end.

Definition processQuery (w : ResponseWriter) (r : Msg) : SM unit :=
  q ← lift (go_index (Question r) 0);
  cached ← on_resolver (cache_get q (Id r));
  match (cached : option Msg) with
  | Some cached => WriteMsg w (if wants_dnssec r then set_AuthenticatedData true cached else cached)
  | None => resolveQuery w r q
  end.

(** [s.queries <- query] blocks while the channel is full. *)
Definition handleDNS (w : ResponseWriter) (r : Msg) (s : S_) : option S_ :=
  if bool_decide (length (queries s) < capacity s) then Some (set_queries (queries s ++ [(w, r)]) s) else None.

(** The loop of [worker]: a worker that is free takes the next query, waiting
    while there is none; the [i]-th busy worker answers the one it has. *)
Definition take_query (s : S_) : option S_ :=
  match queries s with
  | x :: rest =>
      if bool_decide (length (working s) < workers s)
      then Some (set_working (working s ++ [x]) (set_queries rest s)) else None
  | [] => None
  end.

Definition worker (i : nat) : SM unit := fun s =>
  match working s !! i with
  | Some (w, r) => processQuery w r (set_working (delete i (working s)) s)
  | None => Fine (tt, s)
  end.
End server.

(** * Theory *)

(** ** The prefetch counters *)

Section prefetch_facts.
Context `{L : DnsLib} {zone P W : Type}.
Abbreviation S_ := (Server zone P W).

Definition count_of (s : S_) (q : Question_) : Z := default 0%Z (popular (prefetch s) !! key_of q).
Definition times (q : Question_) (l : list Question_) : Z := Z.of_nat (length (filter (fun q' => q' = q) l)).

Definition access (s : S_) (q : Question_) : S_ :=
  match recordAccess q s with Fine (_, s') => s' | _ => s end.
Definition accessed (l : list Question_) (s : S_) : S_ := foldl access s l.

Lemma recordAccess_spec q s : exists s', recordAccess q s = Fine (tt, s') /\
  threshold (prefetch s') = threshold (prefetch s) /\
  forall q', wire_question q -> wire_question q' ->
    (count_of s' q' + threshold (prefetch s) * times q' (prefetching s') =
     count_of s q' + threshold (prefetch s) * times q' (prefetching s) + (if bool_decide (q' = q) then 1 else 0))%Z \/
    (threshold (prefetch s) <= count_of s q)%Z.
Proof.
  unfold recordAccess, modify. eexists. split; [done|].
  set (c := (default 0 _ + 1)%Z). split; [by case_bool_decide|]. intros q' Hq Hq'.
  destruct (decide (threshold (prefetch s) <= count_of s q)%Z) as [?|Hlt]; [by right|left].
  assert (c = (count_of s q + 1)%Z) as Hc by done.
  unfold times. destruct (decide (q' = q)) as [->|Hne].
  - rewrite (bool_decide_true (q = q)) by done. case_bool_decide; unfold count_of; cbn; rewrite lookup_insert_eq; cbn.
    + rewrite filter_app, filter_cons_True, length_app by done. cbn. unfold count_of in *. lia.
    + lia.
  - rewrite (bool_decide_false (q' = q)) by done.
    assert (key_of q <> key_of q') as Hk by (intros ?; by destruct Hne; apply key_of_inj).
    case_bool_decide; unfold count_of; cbn; rewrite lookup_insert_ne by done.
    + rewrite filter_app, filter_cons_False, filter_nil, app_nil_r by congruence. lia.
    + lia.
Qed.

Definition counters_in_range (s : S_) : Prop :=
  (0 < threshold (prefetch s))%Z /\ forall k c, popular (prefetch s) !! k = Some c -> (0 <= c < threshold (prefetch s))%Z.

Lemma count_in_range s q : counters_in_range s -> (0 <= count_of s q < threshold (prefetch s))%Z.
Proof.
  intros [Ht Hr]. unfold count_of. destruct (_ !! key_of q) as [c|] eqn:E; cbn; [by eapply Hr|lia].
Qed.

Lemma recordAccess_in_range q s s' : counters_in_range s -> recordAccess q s = Fine (tt, s') -> counters_in_range s'.
Proof.
  intros Hs [= <-]. pose proof (count_in_range s q Hs) as Hc. destruct Hs as [Ht Hr]. unfold count_of in Hc.
  case_bool_decide; split; cbn; try done; intros k c [[<- <-]|[_ H']]%lookup_insert_Some; try lia; eauto.
Qed.

Lemma recordAccess_frame q (s : S_) : exists pm l, recordAccess q s = Fine (tt, set_prefetching l (set_prefetch pm s)) /\
  pm_zones pm = pm_zones (prefetch s).
Proof. unfold recordAccess, modify. case_bool_decide; [by eexists _, _|by eexists _, (prefetching s)]. Qed.

(** C12: The prefetch manager starts one prefetch per [threshold] accesses of a
    question, whatever other questions come between: from a fresh manager,
    after any sequence of accesses, it has started as many as the quotient and
    its counter is the remainder. *)
Theorem prefetch_every_third l s q : counters_in_range s -> popular (prefetch s) = ∅ -> prefetching s = [] ->
  Forall wire_question l -> wire_question q ->
  times q (prefetching (accessed l s)) = (times q l / threshold (prefetch s))%Z /\
  count_of (accessed l s) q = (times q l mod threshold (prefetch s))%Z.
Proof.
  intros Hs Hp Hf Hl Hq.
  assert (counters_in_range (accessed l s) /\ threshold (prefetch (accessed l s)) = threshold (prefetch s) /\
    (count_of (accessed l s) q + threshold (prefetch s) * times q (prefetching (accessed l s)) = times q l)%Z)
    as (Hr & Ht & Hc).
  { induction l as [|q0 l IH] using rev_ind.
    - cbn. split; [done|]. unfold count_of, times. rewrite Hp, Hf, lookup_empty. cbn. split; [done|lia].
    - apply Forall_app in Hl as [Hl [Hq0 _]%Forall_cons]. destruct (IH Hl) as (Hr & Ht & Hc).
      assert (accessed (l ++ [q0]) s = access (accessed l s) q0) as -> by (unfold accessed; by rewrite foldl_app).
      unfold access. destruct (recordAccess_spec q0 (accessed l s)) as (s' & E & Ht' & Hx). rewrite E.
      split; [by eapply recordAccess_in_range|]. split; [congruence|].
      destruct (Hx q Hq0 Hq) as [Hx'|Hx']; [|pose proof (count_in_range _ q0 Hr); lia].
      rewrite Ht in Hx'. rewrite Hx', Hc. unfold times. rewrite filter_app, length_app.
      case_bool_decide; [subst q0; rewrite filter_cons_True by done|rewrite filter_cons_False by congruence];
        rewrite filter_nil; cbn; lia. }
  pose proof (count_in_range _ q Hr) as Hb. rewrite Ht in Hb.
  rewrite <- Hc. split; [apply Z.div_unique with (count_of (accessed l s) q)|
    apply Z.mod_unique with (times q (prefetching (accessed l s)))]; lia.
Qed.
End prefetch_facts.

(** ** The DNSSEC hook *)

Section hook.
Context `{L : DnsLib} `{R : MapRange} `{Cfg : DnssecConfig} {zone P W : Type}.

(** The validator of a server: what it is fed has no keys, so nothing it holds
    is Secure. *)
Definition keyless (i : option input) : Prop := forall x, i = Some x -> GetDNSKEYRecords (in_zone x) = ([], None).
Record refuses (a : Authenticator) : Prop := {
  ref_verify : exists clocks, a_verify a = verify_method (fun z msg => concrete_verifier (clocks z msg));
  ref_inputs : Forall keyless (inputBuffer a);
  ref_results : Forall (fun r => r_state r <> Secure) (results a)
}.

Lemma NewAuth_refuses clocks q : refuses (NewAuth clocks q).
Proof. split; [by eexists| |constructor]. apply Forall_replicate. by intros x. Qed.

Lemma verify_keyless clocks z msg ds : GetDNSKEYRecords z = ([], None) ->
  exists e r, verify (concrete_verifier clocks) z msg ds = Ret (Insecure, e, r).
Proof. intros E. unfold verify. case_bool_decide; [by eauto|]. rewrite E. cbn. eauto. Qed.

Lemma processResponse_refuses z msg a : refuses a -> GetDNSKEYRecords z = ([], None) ->
  exists a' err, processResponse z msg a = Ret (a', err) /\ refuses a'.
Proof.
  intros Ha Hz. unfold processResponse. destruct (previous_ds a z); [|by eauto].
  destruct (signer_error a msg l); [by eauto|]. destruct Ha as [[clocks Hv] Hi Hr].
  rewrite Hv. unfold verify_method. destruct (verify_keyless (clocks z msg) z msg l Hz) as (e & r & ->). cbn.
  eexists _, _. split; [done|]. split; [by exists clocks|done|]. cbn. apply Forall_app. split; [done|].
  by constructor.
Qed.

Lemma incr_refuses a : refuses a -> refuses (incr_inputBufferIdx a).
Proof. by intros [? ? ?]; split. Qed.

Lemma add_loop_refuses rest a : refuses a -> Forall keyless rest ->
  exists a' err, add_loop rest a = Ret (a', err) /\ refuses a'.
Proof.
  intros Ha Hr. revert a Ha; induction Hr as [|i rest Hi Hr IH]; intros a Ha; cbn; [by eauto|].
  destruct i as [i|]; [|by eauto].
  destruct (processResponse_refuses (in_zone i) (in_msg i) a Ha) as (a' & err & -> & Ha'); [by apply Hi|].
  cbn. destruct err; [by eauto|]. by apply IH, incr_refuses.
Qed.

Lemma result_loop_refuses rest a : refuses a -> Forall keyless rest ->
  exists a' err, result_loop rest a = Ret (a', err) /\ refuses a'.
Proof.
  intros Ha Hr. revert a Ha; induction Hr as [|i rest Hi Hr IH]; intros a Ha; cbn; [by eauto|].
  destruct i as [i|]; [|by apply IH, incr_refuses].
  destruct (processResponse_refuses (in_zone i) (in_msg i) a Ha) as (a' & err & -> & Ha'); [by apply Hi|].
  cbn. destruct err; [by eauto|]. by apply IH, incr_refuses.
Qed.

Lemma AddResponse_refuses name msg a a' err : refuses a ->
  AddResponse (basicZone name) msg a = Ret (a', err) -> refuses a'.
Proof.
  intros Ha. unfold AddResponse. destruct (negb _); [by intros [= <- _]|].
  intros H. apply bind_ret_inv in H as (q & _ & H). destruct (negb _); [by injection H as <- _|].
  apply bind_ret_inv in H as (v & _ & H). destruct v; [by injection H as <- _|].
  set (a1 := set_inputBuffer _ a) in H. assert (refuses a1) as Ha1.
  { destruct Ha as [Hv Hi Hr]. split; [done| |done]. apply Forall_insert; [done|]. by intros x [= <-]. }
  destruct (add_loop_refuses (drop (inputBufferIdx a1) (inputBuffer a1)) a1 Ha1) as (a2 & e & E & Ha2).
  { apply Forall_drop, Ha1. }
  rewrite E in H. by injection H as <- _.
Qed.

Lemma judge_refuses q rs : Forall (fun r => r_state r <> Secure) rs ->
  exists j, judge q rs = Ret j /\ fst (fst j) <> Secure.
Proof.
  intros Hrs. unfold judge. destruct rs as [|r rs]; [by eexists|].
  destruct (last (r :: rs)) as [l|] eqn:El; [|by eexists].
  destruct (first_bogus (r :: rs)); [by eexists|]. apply Forall_cons in Hrs as [Hr _]. cbn [insecure_step].
  rewrite bool_decide_false by done. cbn. eexists. by split.
Qed.

Lemma Result_refuses a : refuses a -> exists j a', Result a = Ret (j, a') /\ refuses a' /\ fst (fst j) <> Secure.
Proof.
  intros Ha. unfold Result.
  destruct (result_loop_refuses (drop (inputBufferIdx a) (inputBuffer a)) a Ha) as (a' & err & -> & Ha').
  { apply Forall_drop, Ha. }
  cbn. destruct err; [eexists _, _; by split_and!|].
  destruct (judge_refuses (question a') (results a') (ref_results _ Ha')) as (j & -> & Hj). cbn.
  eexists _, _. by split_and!.
Qed.

Lemma validateDNSSEC_refuses msg (s : Server zone P W) a x s' : dnssecValidator s = Some a -> refuses a ->
  validateDNSSEC msg s = Fine (x, s') ->
  fst x <> "Secure"%string /\
  exists a', refuses a' /\ s' = set_dnssecValidator (Some a') s.
Proof.
  intros Es Ha. unfold validateDNSSEC, mbind, M_bind, gets, lift, modify. rewrite Es.
  destruct (AddResponse (basicZone ".") msg a) as [[a1 err]|p] eqn:E; [|done].
  pose proof (AddResponse_refuses _ _ _ _ _ Ha E) as Ha1. destruct err as [e|].
  { intros [= <- <-]. split; [done|]. by exists a1. }
  destruct (Result_refuses a1 Ha1) as (((j & d) & e) & a2 & -> & Ha2 & Hj). cbn in Hj. intros [= <- <-].
  split; [|by exists a2]. cbn. case_bool_decide; [done|]. by destruct j.
Qed.
End hook.

(** ** The server at work *)

Section service.
Context `{Laws : DnsLaws} `{R : MapRange} `{Cfg : DnssecConfig} `{RC : ResolverConfig} `{BL : MsgBuilderLaws}.
Context `{Sch : Scheduler} `{SLaws : ServerLaws} {zone P W : Type} `{ZW : ZoneWorld zone P W} `{IL : Interleaving zone P W} `{AS : AuthService zone W}.
Context (root pm_root : zone) (world_ok : W -> Prop) (WL : ZoneWorldLaws ZW root world_ok)
  (WL' : ZoneWorldLaws ZW pm_root world_ok) (cache_fuel fuel : nat).
Context (auth_ok : forall a w v w', world_ok w -> auth_result a w = Ret (v, w') -> world_ok w').
Context (Hids : ids_kept).
Context (Hothers : admissible root world_ok cache_fuel others) (Hothers' : admissible pm_root world_ok cache_fuel others).
Context (Hmax : (0 <= MaxQueriesPerRequest)%Z)
  (Hdesire : (2 * Z.of_nat DesireNumberOfNameserversPerZone <= fanout)%Z)
  (Hbound : (MaxQueriesPerRequest * (1 + fanout) + 1 < 2 ^ 32)%Z)
  (Hfuel : (MaxQueriesPerRequest + 1 < Z.of_nat fuel)%Z).
Abbreviation S_ := (Server zone P W).
Abbreviation SM := (M (Server zone P W)).

Record server_ok (s : S_) : Prop := {
  srv_session : session_kept root world_ok cache_fuel (resolver s);
  srv_prefetch : session_kept pm_root world_ok cache_fuel (set_store (pm_zones (prefetch s)) (resolver s));
  srv_counters : counters_in_range s;
  srv_validator a : dnssecValidator s = Some a -> refuses a;
  srv_queries : Forall (fun x => Question (snd x) <> []) (queries s ++ working s);
  srv_capacity : length (queries s) <= capacity s;
  srv_workers : length (working s) <= workers s
}.

(** The panics that are left: the resolver's, and the validator's on a reply
    without a question. *)
Definition server_allowed (p : panic) : Prop :=
  allowed world_ok p \/ exists msg a, refuses a /\ AddResponse (basicZone ".") msg a = Panic p.

(** What a step of a worker leaves alone. *)
Definition pending (s : S_) : list (ResponseWriter * Msg) * list (ResponseWriter * Msg) * (nat * nat) :=
  (queries s, working s, (workers s, capacity s)).

(** A consistent server that has written [wr] and has [qs] to answer. *)
Definition having (wr : list (ResponseWriter * Msg)) qs (v : bool) (s : S_) : Prop :=
  server_ok s /\ written s = wr /\ pending s = qs /\ bool_decide (is_Some (dnssecValidator s)) = v.

Abbreviation steady m := (forall wr qs v, runs server_allowed (having wr qs v) m (fun _ => having wr qs v)).

Lemma on_resolver_runs {A} (m : M (session zone P W) A) (Q : A -> Prop) wr qs v :
  runs (allowed world_ok) (session_kept root world_ok cache_fuel) m
    (fun a r => session_kept root world_ok cache_fuel r /\ Q a) ->
  runs server_allowed (having wr qs v) (on_resolver m) (fun a s => having wr qs v s /\ Q a).
Proof.
  intros Hm s ([Hs Hp Hc Hv Hq] & Hwr & Hqs & Ev). unfold on_resolver. specialize (Hm _ Hs).
  destruct (m (resolver s)) as [[a r]|p|]; [|by left|done]. destruct Hm as [Hr Ha].
  split; [|done]. split; [|done]. split; [done| |done..]. cbn.
  destruct Hp as [[Hp1 Hp2 Hp3 _ _] _], Hr as [[_ _ _ Hr3 Hr4] Hr5]. split; [by split|done].
Qed.

Lemma on_prefetch_runs {A} (m : M (session zone P W) A) (Q : A -> Prop) wr qs v :
  runs (allowed world_ok) (session_kept pm_root world_ok cache_fuel) m
    (fun a r => session_kept pm_root world_ok cache_fuel r /\ Q a) ->
  runs server_allowed (having wr qs v) (on_prefetch m) (fun a s => having wr qs v s /\ Q a).
Proof.
  intros Hm s ([Hs Hp Hc Hv Hq] & Hwr & Hqs & Ev). unfold on_prefetch. specialize (Hm _ Hp).
  destruct (m (set_store _ (resolver s))) as [[a r]|p|]; [|by left|done]. destruct Hm as [Hr Ha].
  split; [|done]. split; [|done]. destruct Hs as [[Hs1 Hs2 Hs3 _ _] _], Hr as [[Hr1 Hr2 Hr3 Hr4 Hr6] Hr5].
  split; [split; [by split|done]|split; [by split|done]|done..].
Qed.

(** A step of the session that costs nothing, on either side. *)
Lemma on_resolver_steady {A} (m : M (session zone P W) A) :
  (forall b, runs (allowed world_ok) (within root world_ok cache_fuel 0 b) m
     (fun _ => within root world_ok cache_fuel 0 b)) -> steady (on_resolver m).
Proof.
  intros Hm wr qs v. eapply runs_weaken; [apply (on_resolver_runs m (fun _ => True))|done|by intros ? ? []].
  eapply runs_weaken; [by apply keeps_session|done|done].
Qed.

Lemma on_prefetch_steady {A} (m : M (session zone P W) A) :
  (forall b, runs (allowed world_ok) (within pm_root world_ok cache_fuel 0 b) m
     (fun _ => within pm_root world_ok cache_fuel 0 b)) -> steady (on_prefetch m).
Proof.
  intros Hm wr qs v. eapply runs_weaken; [apply (on_prefetch_runs m (fun _ => True))|done|by intros ? ? []].
  eapply runs_weaken; [by apply keeps_session|done|done].
Qed.

Lemma cache_setNegative_runs b q rcode :
  runs (allowed world_ok) (within root world_ok cache_fuel 0 b) (cache_setNegative cache_fuel q rcode)
    (fun _ => within root world_ok cache_fuel 0 b).
Proof.
  eapply runs_bind; [by eapply time_Now_runs|]. intros now.
  eapply runs_bind; [apply (runs_gets _ _ _ (fun o s => within root world_ok cache_fuel 0 b s /\ o = dcache s)); auto|].
  intros o s [Hs ->]. pose proof Hs as ([_ _ _ _ (c & Ec & Hc & H32 & Hf)] & _). rewrite Ec.
  destruct (setNegative_ok cache_fuel q rcode now c Hc H32 Hf) as (c' & -> & Hok & Hm & _).
  by eapply set_dcache_within.
Qed.

Lemma recordAccess_steady q : steady (recordAccess q).
Proof.
  intros wr qs v s (Hs & Hw & Hq & Hv).
  destruct (recordAccess_frame q s) as (pm & l & E & Hz). rewrite E.
  apply recordAccess_in_range in E; [|apply Hs]. destruct Hs as [H1 H2 H3 H4 H5].
  split; [|done]. split; [done| |done..]. cbn. by rewrite Hz.
Qed.

Lemma WriteMsg_runs w m wr qs v :
  runs server_allowed (having wr qs v) (WriteMsg w m) (fun _ => having (wr ++ [(w, m)]) qs v).
Proof. intros s ([] & Hw & Hq & Hv). cbn. split; [by split|]. by rewrite Hw. Qed.

Lemma cache_and_write_runs w q m wr qs v :
  runs server_allowed (having wr qs v) (cache_and_write cache_fuel w q m) (fun _ => having (wr ++ [(w, m)]) qs v).
Proof.
  eapply runs_bind; [apply on_resolver_steady; intros b; by eapply cache_set_runs|]. intros ?. apply WriteMsg_runs.
Qed.

Lemma validateDNSSEC_runs m wr qs v : v = true ->
  runs server_allowed (having wr qs v) (validateDNSSEC m)
    (fun x s => having wr qs v s /\ fst x <> "Secure"%string).
Proof.
  intros -> s (Hs & Hw & Hq & Hv). destruct (dnssecValidator s) as [a|] eqn:Ea; [|done].
  pose proof (srv_validator _ Hs a Ea) as Ha.
  assert (match validateDNSSEC m s with Crash p => server_allowed p | OutOfFuel => False | _ => True end) as Ht.
  { unfold validateDNSSEC, mbind, M_bind, gets, lift, modify. rewrite Ea.
    destruct (AddResponse (basicZone ".") m a) as [[a1 err]|p] eqn:E; [|right; by exists m, a].
    destruct err; [done|].
    destruct (Result_refuses a1) as (((j & d) & e) & a2 & -> & _); [by eapply AddResponse_refuses|done]. }
  destruct (validateDNSSEC m s) as [[x s']|p|] eqn:E; [|done..].
  destruct (validateDNSSEC_refuses m s a x s' Ea Ha E) as (Hx & a' & Ha' & ->). split; [|done].
  destruct Hs. split; [split; try done; by intros ? [= <-]|done].
Qed.

Lemma reply_to_Id r : Id (reply_to r) = Id r.
Proof.
  unfold reply_to. rewrite <- (msg_reply_id r). destruct (msg_IsEdns0 r); [by rewrite msg_edns0_id|done].
Qed.

(** What a query that the cache cannot answer is answered with. *)
Lemma resolveQuery_runs w r q wr qs v : Question r <> [] ->
  runs server_allowed (having wr qs v) (resolveQuery cache_fuel fuel w r q)
    (fun _ s => exists m, having (wr ++ [(w, m)]) qs v s /\ Id m = Id r /\
       (v = true -> wants_dnssec r = true -> Rcode m = RcodeServerFailure \/ Rcode m = RcodeNameError)).
Proof.
  intros Hq. unfold resolveQuery. eapply runs_bind; [apply recordAccess_steady|]. intros ?.
  eapply runs_bind.
  { apply (on_resolver_runs _ (fun o => total_response o /\ forall x, o = Some x -> ided (Id r) x)).
    eapply runs_weaken; [eapply runs_ensures; [by eapply (resolver_Exchange_runs root)|by apply (Exchange_ided _ Hids)]|done|].
    by intros o s [[? ?] ?]. }
  intros resp. eapply (runs_pre _ _ _ _ (total_response resp /\ forall x, resp = Some x -> ided (Id r) x)); [by intros s []|].
  intros [(x & -> & Hx) Hid]. specialize (Hid x eq_refl). pose proof (reply_to_Id r) as Hm.
  eapply (runs_from _ (having wr qs v)); [by intros s []|]. destruct x as [[m|] [e|] dur doe au].
  1, 3: (eapply runs_bind; [apply on_resolver_steady; intros b; apply cache_setNegative_runs|]; intros ?;
    eapply runs_weaken; [apply WriteMsg_runs|done|]; intros ? s Hs; eexists; split; [exact Hs|]; split; [done|];
    intros _ _; case_bool_decide; [by right|by left]).
  2: by destruct Hx as [[? ?]|[? ?]].
  specialize (Hid eq_refl m eq_refl).
  destruct (wants_dnssec r); [|eapply runs_weaken; [apply cache_and_write_runs|done|]; intros ? s Hs; eexists; split; [exact Hs|done]].
  eapply (runs_bind _ _ _ (fun o s => having wr qs v s /\ bool_decide (is_Some o) = v)).
  { apply runs_gets. intros s Hs. split; [done|apply Hs]. }
  intros o. eapply (runs_pre _ _ _ _ (bool_decide (is_Some o) = v)); [by intros s []|]. intros Ho.
  eapply (runs_from _ (having wr qs v)); [by intros s []|]. destruct o as [va|].
  - eapply runs_bind; [apply validateDNSSEC_runs; by rewrite <- Ho|]. intros [res err].
    eapply (runs_pre _ _ _ _ (res <> "Secure"%string)); [by intros s []|]. intros Hr.
    eapply (runs_from _ (having wr qs v)); [by intros s []|].
    rewrite (bool_decide_true (res <> _)) by done. rewrite orb_true_r.
    eapply runs_weaken; [apply WriteMsg_runs|done|]. intros ? s Hs. eexists. split; [exact Hs|]. split; [done|by left].
  - eapply runs_weaken; [apply cache_and_write_runs|done|]. intros ? s Hs. eexists. split; [exact Hs|]. split; [done|].
    intros ->. rewrite bool_decide_false in Ho; [done|]. by intros [? ?].
Qed.

Lemma processQuery_runs w r wr qs v : Question r <> [] ->
  runs server_allowed (having wr qs v) (processQuery cache_fuel fuel w r)
    (fun _ s => exists m, having (wr ++ [(w, m)]) qs v s /\ Id m = Id r).
Proof.
  intros Hq. unfold processQuery. eapply (runs_bind _ _ _ (fun _ => having wr qs v)).
  { apply runs_lift; [|auto]. by destruct (Question r). }
  intros q. eapply runs_bind.
  { apply (on_resolver_runs _ (fun o => forall m, o = Some m -> Id m = Id r)).
    eapply runs_ensures; [apply keeps_session; intros b; by eapply cache_get_runs|apply cache_get_Id]. }
  intros o. eapply (runs_pre _ _ _ _ (forall m, o = Some m -> Id m = Id r)); [by intros s []|]. intros Hm.
  eapply (runs_from _ (having wr qs v)); [by intros s []|]. destruct o as [m|].
  - specialize (Hm m eq_refl). eapply runs_weaken; [apply WriteMsg_runs|done|]. intros ? s Hs. eexists.
    split; [exact Hs|by destruct (wants_dnssec r)].
  - eapply runs_weaken; [by apply resolveQuery_runs|done|]. intros ? s (m & Hs & Hid & _). by eexists.
Qed.

Lemma processQuery_lookup w r q qs s o s1 : Question r = q :: qs ->
  on_resolver (cache_get q (Id r)) s = Fine (o, s1) ->
  processQuery cache_fuel fuel w r s =
    match o with
    | Some cached => WriteMsg w (if wants_dnssec r then set_AuthenticatedData true cached else cached)
    | None => resolveQuery cache_fuel fuel w r q
    end s1.
Proof.
  intros Hq Hc. unfold processQuery. rewrite Hq. rewrite (bind_fine _ _ s q s) by done.
  by rewrite (bind_fine _ _ s o s1).
Qed.

(** A busy worker sends its answer. *)
Lemma worker_runs i w r (s : S_) : server_ok s -> working s !! i = Some (w, r) ->
  match worker cache_fuel fuel i s with
  | Fine (_, s') => server_ok s' /\ (exists m, written s' = written s ++ [(w, m)] /\ Id m = Id r) /\
      pending s' = (queries s, delete i (working s), (workers s, capacity s))
  | Crash p => server_allowed p
  | OutOfFuel => False
  end.
Proof.
  intros Hs Ei. unfold worker. rewrite Ei. set (s1 := set_working (delete i (working s)) s).
  destruct Hs as [H1 H2 H3 H4 [H5 H5']%Forall_app H6 H7].
  assert (Question r <> []) as Hr by (by eapply (Forall_lookup_1 _ _ _ _ H5' Ei)).
  assert (server_ok s1) as Hs1.
  { split; [done..| | |]; cbn; [|done|rewrite length_delete by done; lia].
    apply Forall_app. split; [done|by apply Forall_delete]. }
  pose proof (processQuery_runs w r (written s) (pending s1) (bool_decide (is_Some (dnssecValidator s))) Hr s1) as H.
  destruct (processQuery _ _ w r s1) as [[u s']|p|]; [|by apply H..].
  destruct H as (m & (Hs' & Hw & Hp & _) & Hm); [done|]. split_and!; eauto.
Qed.

(** C5: every query that has a question is answered, with one message under
    its own id: the worker that has it ends, whatever the servers on the
    network reply and whatever the other goroutines do meanwhile, or the
    program panics in [clone] or in the validation; and the server stays
    consistent. *)
Theorem worker_answers s i w r : server_ok s -> working s !! i = Some (w, r) ->
  (exists p, worker cache_fuel fuel i s = Crash p /\ server_allowed p) \/
  exists s' m, worker cache_fuel fuel i s = Fine (tt, s') /\ server_ok s' /\
    written s' = written s ++ [(w, m)] /\ Id m = Id r /\
    working s' = delete i (working s) /\ queries s' = queries s.
Proof.
  intros Hs Ei. pose proof (worker_runs i w r s Hs Ei) as H.
  destruct (worker _ _ i s) as [[[] s']|p|]; [right|left; by exists p|done].
  destruct H as (? & (m & ? & ?) & [= ? ? _ _]). by exists s', m.
Qed.

(** C13: with [EnableDNSSEC] a query that asks for DNSSEC is never answered
    with data from the network: unless the cache has the answer, the reply is
    an error.  The validator works on the root zone without keys, so nothing
    it sees is Secure. *)
Theorem dnssec_option_refuses s w r q qs s1 s' : server_ok s -> is_Some (dnssecValidator s) ->
  wants_dnssec r = true -> Question r = q :: qs ->
  on_resolver (cache_get q (Id r)) s = Fine (None, s1) ->
  processQuery cache_fuel fuel w r s = Fine (tt, s') ->
  exists m, written s' = written s ++ [(w, m)] /\ (Rcode m = RcodeServerFailure \/ Rcode m = RcodeNameError).
Proof.
  intros Hs Hv Hw Hq Hmiss H. rewrite (processQuery_lookup _ _ _ _ _ _ _ Hq Hmiss) in H.
  assert (having (written s) (pending s) true s) as Hh.
  { split_and!; [done..|]. by rewrite bool_decide_true. }
  assert (having (written s) (pending s) true s1) as Hh1.
  { pose proof (on_resolver_steady (cache_get q (Id r)) (fun b => ltac:(eapply cache_get_runs; done)) _ _ _ _ Hh) as Hx.
    by rewrite Hmiss in Hx. }
  pose proof (resolveQuery_runs w r q _ _ _ ltac:(by rewrite Hq) _ Hh1) as Hx. rewrite H in Hx.
  destruct Hx as (m & (_ & Hwr & _) & _ & Hm). exists m. split; [done|]. by apply Hm.
Qed.

(** ** The cache's answers *)

Lemma lookup_live root0 (t u : session zone P W) q id c e : admissible root0 world_ok cache_fuel others ->
  session_kept root0 world_ok cache_fuel t -> others t = Fine (tt, u) ->
  dcache u = Some c -> cached c (key_of q) = Some e -> (w_now (w_tick (world u)) < expires e)%Z ->
  exists c', cache_get q id t =
    Fine (Some (set_Id id (entry_msg e)), set_dcache (Some c') (set_world (w_tick (world u)) u)).
Proof.
  intros Ho [Ht0 _] Eu Ed He Ht. pose proof (Ho _ t (conj Ht0 eq_refl)) as H. rewrite Eu in H.
  destruct H as [[_ _ _ _ (c0 & Ec & Hc & _)] _]. rewrite Ed in Ec. injection Ec as <-. unfold cache_get, time_Now.
  rewrite (bind_fine _ _ t (w_now (w_tick (world u))) (set_world (w_tick (world u)) u)) by (by rewrite (bind_fine _ _ _ _ _ Eu)).
  rewrite (bind_fine _ _ _ (Some c) (set_world (w_tick (world u)) u)) by (unfold gets; cbn; by rewrite Ed).
  destruct (get q id _ c) as [m c'] eqn:Eg. exists c'.
  destruct (get_ok q id _ c m c' Hc Eg) as (_ & _ & -> & _). rewrite He, bool_decide_true by done. done.
Qed.

(** C14: an entry that is alive when the worker reaches the cache (in [t], after
    what other goroutines do first) answers at once, under the request's id:
    the network is not asked and nothing is counted.  To a query with DO it
    goes out with the AD flag set, whatever the entry's own flag and whether or
    not there is a validator. *)
Theorem cached_reply s t w r q qs c e : server_ok s -> Question r = q :: qs ->
  others (resolver s) = Fine (tt, t) ->
  dcache t = Some c -> cached c (key_of q) = Some e -> (w_now (w_tick (world t)) < expires e)%Z ->
  let m := set_Id (Id r) (entry_msg e) in
  exists s', processQuery cache_fuel fuel w r s = Fine (tt, s') /\
    written s' = written s ++ [(w, if wants_dnssec r then set_AuthenticatedData true m else m)] /\
    world (resolver s') = w_tick (world t) /\ prefetch s' = prefetch s /\ prefetching s' = prefetching s.
Proof.
  intros Hs Hq Et Hc He Ht. destruct (lookup_live _ _ t q (Id r) c e Hothers (srv_session _ Hs) Et Hc He Ht) as (c' & Hg).
  erewrite processQuery_lookup; [|done|unfold on_resolver; by rewrite Hg].
  eexists. split; [done|]. done.
Qed.

(** A prefetch of a question whose entry is alive does nothing but read
    the clock: so do those that the periodic pass starts, which lists live
    entries, when they run before the entries expire. *)
Theorem prefetch_of_live_idle s t q c e : server_ok s ->
  others (set_store (pm_zones (prefetch s)) (resolver s)) = Fine (tt, t) ->
  dcache t = Some c -> cached c (key_of q) = Some e -> (w_now (w_tick (world t)) < expires e)%Z ->
  exists s', prefetchRecord cache_fuel fuel q s = Fine (tt, s') /\
    world (resolver s') = w_tick (world t) /\
    zone_store (resolver s') = zone_store (resolver s) /\
    pm_zones (prefetch s') = zone_store t /\ written s' = written s.
Proof.
  intros Hs Et Hc He Ht.
  destruct (lookup_live _ _ t q 0 c e Hothers' (srv_prefetch _ Hs) Et Hc He Ht) as (c' & Hg).
  unfold prefetchRecord. erewrite bind_fine; [|unfold on_prefetch; by rewrite Hg].
  eexists. split; [done|]. done.
Qed.

(** ** Runs of the server *)

Lemma prefetchRecord_steady q : steady (prefetchRecord cache_fuel fuel q).
Proof.
  intros wr qs v. unfold prefetchRecord.
  eapply runs_bind; [apply on_prefetch_steady; intros b; by eapply cache_get_runs|]. intros [m|]; [by apply runs_ret|].
  eapply runs_bind.
  { apply (on_prefetch_runs _ total_response). eapply resolver_Exchange_runs; try done. by rewrite msg_edns0, msg_question. }
  intros resp. eapply (runs_pre _ _ _ _ (total_response resp)); [by intros s []|]. intros (x & -> & Hx).
  eapply (runs_from _ (having wr qs v)); [by intros s []|].
  destruct x as [[m|] [e|] dur doe au]; [by apply runs_ret|..|by destruct Hx as [[? ?]|[? ?]]]; [|by apply runs_ret].
  apply on_prefetch_steady. intros b. by eapply cache_set_runs.
Qed.

Lemma set_prefetching_steady l : steady (modify (set_prefetching l)).
Proof. intros wr qs v s ([] & ?). by split. Qed.

Lemma prefetchAllDomains_steady scan : steady (prefetchAllDomains scan).
Proof.
  intros wr qs v. eapply runs_bind; [apply on_resolver_steady; intros b; by eapply time_Now_runs|]. intros now.
  apply runs_modify. intros s ([H1 H2 [Ht _] H4 H5] & ?). split; [|done]. split; [done|done| |done..].
  split; [done|]. by intros k x.
Qed.

Lemma cacheCleaner_steady : steady cacheCleaner.
Proof. intros wr qs v. apply on_resolver_steady. intros b. by eapply clean_up_runs. Qed.

Inductive event : Type :=
| Query (w : ResponseWriter) (r : Msg)
| Take
| Work (i : nat)
| Prefetch (q : Question_)
| PrefetchTick (scan : Z -> string -> Z)
| CleanTick.

(** The steps of the goroutines. *)
Inductive server_step : event -> S_ -> S_ -> Prop :=
| step_query w r s s' : Question r <> [] -> handleDNS w r s = Some s' -> server_step (Query w r) s s'
| step_take s s' : take_query s = Some s' -> server_step Take s s'
| step_work i s s' : i < length (working s) -> worker cache_fuel fuel i s = Fine (tt, s') -> server_step (Work i) s s'
| step_prefetch q l l' s s' : prefetching s = l ++ q :: l' ->
    prefetchRecord cache_fuel fuel q (set_prefetching (l ++ l') s) = Fine (tt, s') ->
    server_step (Prefetch q) s s'
| step_prefetch_tick scan s s' : prefetchAllDomains scan s = Fine (tt, s') -> server_step (PrefetchTick scan) s s'
| step_clean_tick s s' : cacheCleaner s = Fine (tt, s') -> server_step CleanTick s s'.

Inductive server_steps : list event -> S_ -> S_ -> Prop :=
| steps_nil s : server_steps [] s s
| steps_cons e es s1 s2 s3 : server_step e s1 s2 -> server_steps es s2 s3 -> server_steps (e :: es) s1 s3.

(** Who asks, with the id of the query; those still in the queue, and all with
    the answered first. *)
Definition client (x : ResponseWriter * Msg) : ResponseWriter * Z := (fst x, Id (snd x)).
Definition queued (s : S_) : list (ResponseWriter * Z) := map client (queries s).
Definition clients (s : S_) : list (ResponseWriter * Z) := map client (written s) ++ map client (working s) ++ queued s.
Definition asked (es : list event) : list (ResponseWriter * Z) :=
  omap (fun e => match e with Query w r => Some (client (w, r)) | _ => None end) es.

(** What a step does for the clients. *)
Definition serves (e : event) (s s' : S_) : Prop :=
  server_ok s' /\ clients s' ≡ₚ clients s ++ asked [e] /\
  (exists taken, queued s ++ asked [e] = taken ++ queued s') /\
  workers s' = workers s /\ capacity s' = capacity s.

Lemma serves_steady e (m : SM unit) s s' : asked [e] = [] -> steady m -> server_ok s -> m s = Fine (tt, s') -> serves e s s'.
Proof.
  intros He Hm Hs E. assert (having (written s) (pending s) (bool_decide (is_Some (dnssecValidator s))) s) as Hh by done.
  specialize (Hm _ _ _ _ Hh). rewrite E in Hm. destruct Hm as (Hs' & Hw & [= Eq Ew En Ec] & _).
  unfold serves, clients, queued. rewrite He, Hw, Eq, Ew, !app_nil_r. split_and!; [done..|by exists []|done|done].
Qed.

Lemma step_serves e s s' : server_ok s -> server_step e s s' -> serves e s s'.
Proof.
  intros Hs Hst. destruct Hst as [w r s s' Hr H|s s' H|i s s' Hi H|q l l' s s' Hp H|scan s s' H|s s' H].
  - unfold handleDNS in H. case_bool_decide; [|done]. injection H as <-. destruct Hs as [H1 H2 H3 H4 H5 H6 H7].
    split_and!; [|unfold clients, queued; cbn; by rewrite map_app, !app_assoc|exists []; unfold queued; cbn; by rewrite map_app|done|done].
    split; [done..| | |done]; cbn; [|rewrite length_app; cbn; lia].
    apply Forall_app in H5 as [H5 H5']. apply Forall_app. split; [|done]. apply Forall_app. split; [done|by constructor].
  - unfold take_query in H. destruct (queries s) as [|x rest] eqn:Eq; [done|]. case_bool_decide; [|done].
    injection H as <-. destruct Hs as [H1 H2 H3 H4 H5 H6 H7]. rewrite Eq in H5, H6. cbn in H5, H6.
    unfold serves, clients, queued. rewrite Eq. cbn. split_and!; [|by rewrite map_app, app_nil_r, <- app_assoc|by exists [client x]; rewrite app_nil_r|done|done].
    split; [done..| | |]; cbn; [|lia|rewrite length_app; cbn; lia].
    apply Forall_cons in H5 as [Hx [H5 H5']%Forall_app]. apply Forall_app. split; [done|]. apply Forall_app. split; [done|by constructor].
  - destruct (lookup_lt_is_Some_2 _ _ Hi) as [[w r] Ei]. pose proof (worker_runs i w r s Hs Ei) as Hx. rewrite H in Hx.
    destruct Hx as (Hs' & (m & Hw & Hm) & [= Hq Hd Hn Hc]). unfold serves, clients, queued. rewrite Hw, Hd, Hq, !map_app, !app_nil_r.
    split_and!; [done| |by exists []|done|done]. rewrite <- app_assoc. apply Permutation_app_head. cbn. rewrite app_comm_cons.
    apply Permutation_app_tail. rewrite (Permutation_map client (delete_Permutation _ _ _ Ei)). cbn.
    unfold client at 1 3. cbn. by rewrite Hm.
  - apply (serves_steady _ (prefetchRecord cache_fuel fuel q) (set_prefetching (l ++ l') s)); [done|apply prefetchRecord_steady| |done].
    by destruct Hs.
  - by eapply serves_steady; [|apply (prefetchAllDomains_steady scan)|..].
  - by eapply serves_steady; [|apply cacheCleaner_steady|..].
Qed.

(** C4: along any run, whatever the order of the workers, the prefetches and
    the periodic passes, the server stays consistent (zones, cache, counters,
    validator), its queue, its workers and its cache within their bounds; no
    client is lost, answered twice or answered under another query's id: those
    answered, those being served and those in the queue are, with their ids,
    exactly those who asked; and the queue is taken in the order of the
    questions. *)
Theorem server_invariant es s s' : server_ok s -> server_steps es s s' ->
  server_ok s' /\ clients s' ≡ₚ clients s ++ asked es /\
  (exists taken, queued s ++ asked es = taken ++ queued s') /\
  length (queries s') <= capacity s /\ length (working s') <= workers s /\
  exists c, dcache (resolver s') = Some c /\ (Z.of_nat (Size c) <= maxSize c)%Z.
Proof.
  intros Hs Hr. assert (server_ok s' /\ clients s' ≡ₚ clients s ++ asked es /\
    (exists taken, queued s ++ asked es = taken ++ queued s') /\ workers s' = workers s /\ capacity s' = capacity s)
    as (Hs' & Hc & Ht & En & Ecap).
  { induction Hr as [s|e es s1 s2 s3 Hst Hr IH].
    { rewrite !app_nil_r. split_and!; [done..|by exists []|done|done]. }
    destruct (step_serves _ _ _ Hs Hst) as (Hs2 & Hc2 & [t2 Ht2] & En2 & Ec2).
    destruct (IH Hs2) as (Hs3 & Hc & [t Ht] & En & Ecap).
    assert (asked (e :: es) = asked [e] ++ asked es) as -> by (by destruct e).
    split_and!; [done| | |congruence|congruence].
    - by rewrite Hc, Hc2, <- app_assoc.
    - exists (t2 ++ t). by rewrite app_assoc, Ht2, <- !app_assoc, Ht. }
  split_and!; [done..|rewrite <- Ecap; apply Hs'|rewrite <- En; apply Hs'|]. destruct (srv_session _ Hs') as [[_ _ _ _ (c & Ec & Hc' & H32 & _)] _].
  exists c. split; [done|]. apply Size_le; [done|lia].
Qed.

(** ** Fair runs

    A run that goes on for ever: the state after each number of steps, and the
    step taken there. *)
Definition endless (states : nat -> S_) (steps : nat -> event) : Prop :=
  forall n, server_step (steps n) (states n) (states (S n)).

(** Weak fairness for the free workers: again and again one takes a query, or
    there is none to take or nobody free to take it. *)
Definition takes_fairly (states : nat -> S_) (steps : nat -> event) : Prop :=
  forall n, exists m, n <= m /\ (steps m = Take \/ take_query (states m) = None).

(** The worker that has a query comes to the end of its code. *)
Definition works_fairly (states : nat -> S_) (steps : nat -> event) : Prop :=
  forall n x, x ∈ working (states n) ->
    exists m i, n <= m /\ steps m = Work i /\ working (states m) !! i = Some x.

Section fair_run.
Context (states : nat -> S_) (steps : nat -> event) (Hrun : endless states steps).
Context (Htakes : takes_fairly states steps) (Hworks : works_fairly states steps).
Context (Hstart : server_ok (states 0)) (Hworkers : 0 < workers (states 0)).

Lemma fair_run_ok n : server_ok (states n) /\ workers (states n) = workers (states 0).
Proof.
  induction n as [|n [Hs Hw]]; [done|]. destruct (step_serves _ _ _ Hs (Hrun n)) as (? & _ & _ & ? & _). by split; [|congruence].
Qed.

(** What a step does to the queue and to the busy workers. *)
Lemma step_queue e s s' : server_ok s -> server_step e s s' ->
  match e with
  | Query w r => queries s' = queries s ++ [(w, r)] /\ working s' = working s
  | Take => exists x, queries s = x :: queries s' /\ working s' = working s ++ [x]
  | Work i => queries s' = queries s /\ working s' = delete i (working s) /\ i < length (working s)
  | _ => queries s' = queries s /\ working s' = working s
  end.
Proof.
  intros Hs Hst. assert (forall m : SM unit, steady m -> forall s0 s1, server_ok s0 -> m s0 = Fine (tt, s1) ->
    queries s1 = queries s0 /\ working s1 = working s0) as Hsteady.
  { intros m Hm s0 s1 Hs0 E. specialize (Hm _ _ _ s0 (conj Hs0 (conj eq_refl (conj eq_refl eq_refl)))). rewrite E in Hm.
    by destruct Hm as (_ & _ & [= ? ? _ _] & _). }
  destruct Hst as [w r s s' _ H|s s' H|i s s' Hi H|q l l' s s' _ H|scan s s' H|s s' H].
  - unfold handleDNS in H. case_bool_decide; [|done]. by injection H as <-.
  - unfold take_query in H. destruct (queries s) as [|x rest]; [done|]. case_bool_decide; [|done]. injection H as <-. by exists x.
  - destruct (lookup_lt_is_Some_2 _ _ Hi) as [[w r] Ei]. pose proof (worker_runs i w r s Hs Ei) as Hx. rewrite H in Hx.
    by destruct Hx as (_ & _ & [= Hq Hd _ _]).
  - eapply (Hsteady _ (prefetchRecord_steady q) (set_prefetching (l ++ l') s)); [by destruct Hs|done].
  - by eapply (Hsteady _ (prefetchAllDomains_steady scan)).
  - by eapply (Hsteady _ cacheCleaner_steady).
Qed.

Definition taken_by (n : nat) (x : ResponseWriter * Msg) : Prop := exists m, n <= m /\ x ∈ working (states m).

(** A query keeps its place or moves up, until it is taken. *)
Lemma place_kept n m pre x post : n <= m -> queries (states n) = pre ++ x :: post ->
  taken_by n x \/ exists pre' post', queries (states m) = pre' ++ x :: post' /\ length pre' <= length pre.
Proof.
  intros Hle E. induction Hle as [|m Hle [?|(pre' & post' & E' & Hl)]]; [right; by exists pre, post|by left|].
  pose proof (step_queue _ _ _ (proj1 (fair_run_ok m)) (Hrun m)) as Hst. destruct (steps m) as [w r| |i|q|scan|].
  2:{ destruct Hst as (y & Ey & Ew). rewrite E' in Ey. destruct pre' as [|y' pre']; injection Ey as <- Eq.
      - left. exists (S m). split; [lia|]. rewrite Ew. set_solver.
      - right. exists pre', post'. split; [done|]. cbn in Hl. lia. }
  all: right; destruct Hst as [Eq _]; rewrite Eq, E'; first [by exists pre', post'|eexists pre', _; by rewrite <- app_assoc].
Qed.

(** A free worker stays free until a query is taken. *)
Lemma free_until n k : length (working (states n)) < workers (states 0) ->
  (exists m, n <= m /\ steps m = Take) \/ length (working (states (k + n))) < workers (states 0).
Proof.
  intros Hf. induction k as [|k [?|IH]]; [by right|by left|]. cbn.
  pose proof (step_queue _ _ _ (proj1 (fair_run_ok (k + n))) (Hrun (k + n))) as Hst.
  destruct (steps (k + n)) as [w r| |i|q|scan|] eqn:Es; [..|destruct Hst as [_ ->]; by right].
  2:{ left. exists (k + n). split; [lia|done]. }
  all: right; try (by destruct Hst as [_ ->]). destruct Hst as (_ & -> & Hi). rewrite length_delete by (by apply lookup_lt_is_Some). lia.
Qed.

(** With a worker free, the next query is taken. *)
Lemma free_takes n x : x ∈ queries (states n) -> length (working (states n)) < workers (states 0) ->
  taken_by n x \/ exists m, n <= m /\ steps m = Take.
Proof.
  intros Hx Hf. destruct (Htakes n) as (m & Hm & [Ht|Ht]); [right; by exists m|].
  replace m with ((m - n) + n) in Ht by lia. destruct (free_until n (m - n) Hf) as [?|Hf']; [by right|].
  apply list_elem_of_split in Hx as (pre & post & E).
  destruct (place_kept n ((m - n) + n) pre x post ltac:(lia) E) as [?|(pre' & post' & E' & _)]; [by left|].
  exfalso. unfold take_query in Ht. rewrite E', (proj2 (fair_run_ok _)) in Ht.
  destruct pre'; cbn in Ht; by rewrite bool_decide_true in Ht.
Qed.

Lemma some_take n x : x ∈ queries (states n) -> taken_by n x \/ exists m, n <= m /\ steps m = Take.
Proof.
  intros Hx. destruct (decide (length (working (states n)) < workers (states 0))) as [Hf|Hf]; [by apply free_takes|].
  destruct (working (states n)) as [|y l] eqn:Ey; [cbn in Hf; lia|].
  destruct (Hworks n y ltac:(rewrite Ey; left)) as (m & i & Hm & Hi & _).
  apply list_elem_of_split in Hx as (pre & post & E).
  destruct (place_kept n (S m) pre x post ltac:(lia) E) as [?|(pre' & post' & E' & _)]; [by left|].
  pose proof (step_queue _ _ _ (proj1 (fair_run_ok m)) (Hrun m)) as Hst. rewrite Hi in Hst. destruct Hst as (_ & Ew & Hlt).
  destruct (free_takes (S m) x) as [(m' & ? & ?)|(m' & ? & ?)].
  - rewrite E'. set_solver.
  - destruct (fair_run_ok m) as [Hok En]. pose proof (srv_workers _ Hok). rewrite Ew, length_delete by (by apply lookup_lt_is_Some). lia.
  - left. exists m'. split; [lia|done].
  - right. exists m'. split; [lia|done].
Qed.

Lemma query_taken k : forall n pre x post, length pre = k -> queries (states n) = pre ++ x :: post -> taken_by n x.
Proof.
  induction k as [k IH] using lt_wf_ind. intros n pre x post Hk E.
  destruct (some_take n x ltac:(rewrite E; set_solver)) as [?|(m & Hm & Ht)]; [done|].
  destruct (place_kept n m pre x post Hm E) as [?|(pre' & post' & E' & Hl)]; [done|].
  pose proof (step_queue _ _ _ (proj1 (fair_run_ok m)) (Hrun m)) as Hst. rewrite Ht in Hst. destruct Hst as (y & Ey & Ew).
  rewrite E' in Ey. destruct pre' as [|y' pre']; injection Ey as <- Eq.
  - exists (S m). split; [lia|]. rewrite Ew. set_solver.
  - cbn in Hl. destruct (IH (length pre') ltac:(lia) (S m) pre' x post' eq_refl (eq_sym Eq)) as (m' & ? & ?).
    exists m'. split; [lia|done].
Qed.
End fair_run.

(** C6: no client waits for ever.  In every endless run that is fair to the
    workers, whatever else happens in it (new queries, prefetches, periodic
    passes, other workers in any order), each query in the queue comes to a
    step in which the worker that has it writes one reply, to its client and
    under its id. *)
Theorem no_client_waits_for_ever states steps n w r :
  endless states steps -> takes_fairly states steps -> works_fairly states steps ->
  server_ok (states 0) -> 0 < workers (states 0) -> (w, r) ∈ queries (states n) ->
  exists m i reply, n <= m /\ steps m = Work i /\ working (states m) !! i = Some (w, r) /\
    written (states (S m)) = written (states m) ++ [(w, reply)] /\ Id reply = Id r.
Proof.
  intros Hrun Ht Hw Hs Hn Hq. apply list_elem_of_split in Hq as (pre & post & E).
  destruct (query_taken states steps Hrun Ht Hw Hs Hn (length pre) n pre (w, r) post eq_refl E) as (m & Hm & Hx).
  destruct (Hw m (w, r) Hx) as (m' & i & Hm' & Hi & Ei).
  pose proof (Hrun m') as Hst. rewrite Hi in Hst.
  pose proof (worker_runs i w r _ (proj1 (fair_run_ok states steps Hrun Hs m')) Ei) as Hx'.
  inversion Hst as [| |? ? ? _ Hwk| | |]; subst. rewrite Hwk in Hx'. destruct Hx' as (_ & (reply & Hwr & Hid) & _).
  exists m', i, reply. split_and!; [lia|done..].
Qed.
End service.
