(* ===== verification/ResolverExample.v ===== *)
(** * Executions of the resolver on small networks *)

From S2P Require Import Prelude GoErrors Dns DnsRef DnssecConst Signatures Verify Authenticator Domain Cache Response Nameserver Pool Zones Zone Session ResolverState World ZoneFactory Cname ResolverExchange Resolver ReplySound ReplyId Provenance AuthChain Budget Interleave.

Module ResolverExample.
#[export] Existing Instance refLib.
#[export] Existing Instance refLaws.
#[export] Existing Instance map_range_std.
#[export] Existing Instance default_resolver_config.

#[export] Instance refBuilder : MsgBuilder := {|
  msg_SetQuestion n t := mkMsg 0 false false false true false false false 0 [mkQ n t ClassINET] [] [] [];
  msg_SetEdns0 s do m := set_Extra (Extra m ++ [RR_OPT (mkOPT (mkHdr "." TypeOPT s (if do then 2 ^ 15 else 0)%Z))]) m
|}.

Lemma refBuilderLaws : MsgBuilderLaws refBuilder.
Proof. by split. Qed.

#[export] Instance in_order : Scheduler.
Proof. refine {| schedule A l := l |}. done. Defined.

(** One question at a time. *)
#[export] Instance nobody : Interleaving zone_ref nat net := alone.

(** A validator that vouches for nothing. *)
#[export] Instance no_validation : AuthService zone_ref net :=
  fun _ w => Ret (mkVerdict Insecure NotFound None (fun _ => None) (fun _ => None), w).

Definition hdr (n : string) (t : Z) : RR_Header := mkHdr n t 1 300.
Definition a_rr (n a : string) : RR := RR_A (mkA (hdr n TypeA) a).
Definition ns_rr (n h : string) : RR := RR_NS (mkNS (hdr n TypeNS) h).
Definition soa_rr (n : string) : RR := RR_SOA (mkSOA (hdr n TypeSOA) "").
Definition cname_rr (n t : string) : RR := RR_CNAME (mkCNAME (hdr n TypeCNAME) t).

(** A server's reply: the sections for the question it is asked. *)
Definition reply (sections : list RR * list RR * list RR) (m : Msg) : option Msg * Z * option error :=
  let '(an, ns, ex) := sections in
  (Some (mkMsg (Id m) true true false (RecursionDesired m) false false false 0 (Question m) an ns ex), 5%Z, None).

Definition question_of (m : Msg) : string * Z :=
  match Question m with q :: _ => (Q_Name q, Qtype q) | [] => (""%string, 0%Z) end.

Definition query (n : string) (t : Z) : Msg :=
  mkMsg 7 false false false true false false false 0 [mkQ n t ClassINET] [] [] [].

Definition root_hints : list RR := [a_rr "a.root-servers.net." "192.0.2.1"].

Definition clock (k : nat) : Z := (Z.of_nat k * second)%Z.

Definition start : session zone_ref nat net :=
  mkSession 0 (NewResolver_zones 0) (Some (new_cache 10000)) (new_net root_hints) [].

(** ** A name behind one delegation *)

Definition honest (k : nat) (protocol : string) : dnsClient := fun m a =>
  if bool_decide (a = "192.0.2.1:53"%string)
  then reply ([], [ns_rr "example." "ns.example."], [a_rr "ns.example." "192.0.2.2"]) m
  else match question_of m with
       | (n, 1%Z) => reply (if bool_decide (n = "alias.example."%string) then [cname_rr n "www.example."]
                            else [a_rr n "198.51.100.7"], [], []) m
       | _ => reply ([], [soa_rr "example."], []) m
       end.

#[local] Existing Instance net_world.

Definition resolve (wire : nat -> string -> dnsClient) (fuel : nat) (m : Msg) :
    M (session zone_ref nat net) (option Response) :=
  resolver_Exchange (ZW := net_world clock wire false (fun _ => false) None) 400 fuel Background m.

Definition answer_of {A} (r : res (option Response * A)) : option (list RR * option error) :=
  match r with
  | Fine (Some r, _) => Some (match resp_Msg r with Some m => Answer m | None => [] end, Err r)
  | _ => None
  end.

Example resolves : answer_of (resolve honest 102 (query "www.example." TypeA) start) =
  Some ([a_rr "www.example." "198.51.100.7"], None).
Proof. vm_compute. reflexivity. Qed.

Example follows_alias : answer_of (resolve honest 102 (query "alias.example." TypeA) start) =
  Some ([cname_rr "alias.example." "www.example."; a_rr "www.example." "198.51.100.7"], None).
Proof. vm_compute. reflexivity. Qed.
(** ** Two names that are aliases of each other *)

Definition looping (k : nat) (protocol : string) : dnsClient := fun m a =>
  if bool_decide (a = "192.0.2.1:53"%string)
  then reply ([], [ns_rr "example." "ns.example."], [a_rr "ns.example." "192.0.2.2"]) m
  else match question_of m with
       | (n, 1%Z) => reply ([cname_rr n (if bool_decide (n = "a.example."%string)
                                         then "b.example." else "a.example.")], [], []) m
       | _ => reply ([], [soa_rr "example."], []) m
       end.

Definition tight_config : ResolverConfig := {|
  MaxAllowedTTL := 172800; MaxQueriesPerRequest := 8; DesireNumberOfNameserversPerZone := 3;
  LazyEnrichment := false; SuppressBogusResponseSections := true;
  RemoveAuthoritySectionForPositiveAnswers := true;
  RemoveAdditionalSectionForPositiveAnswers := true
|}.

(** Every level of the loop waits for the next, and the budget ends them all. *)
Example alias_loop_ends :
  match resolver_Exchange (RC := tight_config) (ZW := @net_world refLib tight_config refBuilder clock looping false (fun _ => false) None)
          400 10 Background (query "a.example." TypeA) start with
  | Fine (Some r, s) => (bool_decide (is_Some (Err r)), counter s)
  | _ => (false, 0%Z)
  end = (true, 9%Z).
Proof. vm_compute. reflexivity. Qed.

(** ** A server that claims authenticity *)

Definition boasting (k : nat) (protocol : string) : dnsClient := fun m a =>
  let '(r, d, e) := honest k protocol m a in (option_map (set_AuthenticatedData true) r, d, e).

Definition reply_AD (r : res (option Response * session zone_ref nat net)) : option bool :=
  match r with Fine (Some r, _) => option_map AuthenticatedData (resp_Msg r) | _ => None end.

(** Without DO, or with CD, the flag of the last server reaches the client. *)
Example upstream_AD_passes :
  reply_AD (resolve boasting 102 (query "www.example." TypeA) start) = Some true /\
  reply_AD (resolve boasting 102 (msg_SetEdns0 4096 true (query "www.example." TypeA)) start) = Some false.
Proof. split; vm_compute; reflexivity. Qed.

(** ** A referral that skips labels *)

(** The server of evil. refers three labels down, with a deeper record to
    mislead; the server there claims an SOA for a name above its zone. *)
Definition hostile (k : nat) (protocol : string) : dnsClient := fun m a =>
  if bool_decide (a = "192.0.2.1:53"%string)
  then reply ([], [ns_rr "evil." "ns.evil."], [a_rr "ns.evil." "192.0.2.66"]) m
  else if bool_decide (a = "192.0.2.66:53"%string)
  then reply ([], [RR_Other (mkOther (hdr "5.4.3.2.1.evil." 16) "x"); ns_rr "x.a.b.evil." "ns.evil."],
         [a_rr "ns.evil." "192.0.2.67"]) m
  else match question_of m with
       | (n, 6%Z) => reply ([soa_rr n], [], []) m
       | _ => reply ([], [ns_rr "w.x.a.b.evil." "ns.evil."], [a_rr "ns.evil." "192.0.2.67"]) m
       end.

(** A hostile server can stop the program.  Its referral skips labels, the
    next response lists an owner between, and [clone] is asked for a zone above
    its own parent: it panics, and no caller recovers. *)
Theorem crafted_referral_crashes :
  resolve hostile 102 (query "y.w.x.a.b.evil." TypeA) start = Crash (Explicit "invalid clone").
Proof. vm_compute. reflexivity. Qed.

Lemma reply_fits sections m : length (fst (fst sections)) <= 2 ->
  client_law (fun _ m _ => reply sections m) /\
  forall msg, fst (fst (reply sections m)) = Some msg -> length (Answer msg) <= answer_limit.
Proof.
  destruct sections as [[an ns] ex]. cbn. intros Hl. split; [intros p m' a _; cbn; eauto|].
  intros msg [= <-]. cbn. etrans; [exact Hl|]. Transparent answer_limit. unfold answer_limit. lia.
Qed.

(** A server that has an SOA record for every name, and the walk for
    y.w.x.a.b.evil. two labels down, with a zone already five down. *)
Definition owns_all (k : nat) (protocol : string) : dnsClient := fun m a =>
  reply ([soa_rr (fst (question_of m))], [], []) m.
Definition deep_zone : zone_ref := mkZoneRef 5 "x.a.b.evil." "evil." 0.
Definition two_down : domain := next (next (newDomain "y.w.x.a.b.evil.")).
Definition deeper : Msg := set_Ns [ns_rr "w.x.a.b.evil." "ns.evil."] (query "y.w.x.a.b.evil." TypeA).

Definition traced : Ctx := mkCtx None true false.
Definition checked : res (zone_ref * domain * option (auth zone_ref) * session zone_ref nat net) :=
  checkForMissingZones (ZW := net_world clock owns_all false (fun _ => false) None) traced two_down deep_zone deeper None start.

Lemma owns_all_ok : wire_ok owns_all.
Proof. intros k. split; intros p m a; [cbn; eauto|]. apply (reply_fits ([soa_rr (fst (question_of m))], [], [])). cbn. lia. Qed.

Lemma owns_all_laws : ZoneWorldLaws (net_world clock owns_all false (fun _ => false) None) root_zone net_ok.
Proof. apply (network_laws (BL := refBuilderLaws) clock owns_all false (fun _ => false) 0); [lia|apply owns_all_ok]. Qed.

Lemma misplaced_zone_crashes_witness : checked = Crash (Explicit "invalid clone").
Proof.
  destruct (zn_soa (ZoneWorld := net_world clock owns_all false (fun _ => false) None) traced deep_zone "b.evil."
    (world start)) as [[[[soa|] [e|]] w]|p] eqn:E; [vm_compute in E; discriminate E| |vm_compute in E; discriminate E..].
  assert (net_ok w) as Hw.
  { destruct (@zw_soa _ _ _ _ _ _ _ _ owns_all_laws traced deep_zone "b.evil." (world start)) as (r & w' & E' & Hw');
      [apply new_net_ok|reflexivity|].
    assert (Some (r, w') = Some (Some soa, None, w)) as H by (f_equal; enough (Ret (r, w') = Ret (Some soa, None, w)) as [= -> ->];
      [reflexivity|rewrite <- E', <- E; reflexivity]).
    injection H as _ <-. exact Hw'. }
  destruct (misplaced_zone_crashes (ZW := net_world clock owns_all false (fun _ => false) None) root_zone net_ok owns_all_laws
    traced two_down deep_zone deeper None "b.evil." ["a.b.evil."; "x.a.b.evil."] start start (set_world w start) soa w) as [Hc _];
    [vm_compute; discriminate|vm_compute; reflexivity|reflexivity|exact E|reflexivity|exact Hw|].
  apply Hc. intros [_ Hs]. vm_compute in Hs. discriminate Hs.
Defined.

(** ** The laws hold here *)

Lemma start_ok : session_ok (ZW := net_world clock honest false (fun _ => false) None) root_zone net_ok 400 start.
Proof.
  assert (forall k z, ({["."%string := root_zone]} : gmap string zone_ref) !! k = Some z ->
    k = zr_name z /\ canonical k) as Hs.
  { intros k z [<- <-]%lookup_singleton_Some. split; reflexivity. }
  split; [exact Hs| |reflexivity| |].
  { intros k z Hz Hk. assert (({["."%string := root_zone]} : gmap string zone_ref) !! k = Some z) as E by exact Hz.
    apply lookup_singleton_Some in E as [E _]. by destruct Hk. }
  { apply new_net_ok. }
  exists (new_cache 10000). split_and!; [reflexivity|apply new_cache_ok|done|unfold enough_fuel; vm_compute; lia].
Qed.

Lemma honest_ok : wire_ok honest.
Proof.
  intros k. split; intros p m a; unfold honest.
  - destruct (bool_decide _); [cbn; eauto|]. destruct (question_of m) as [n [|[| |]|]]; cbn; eauto.
  - intros msg. destruct (bool_decide _).
    { apply reply_fits. cbn. lia. }
    destruct (question_of m) as [n [|[| |]|]]; apply reply_fits; cbn; try (destruct (bool_decide _)); cbn; lia.
Qed.

Lemma resolver_terminates_witness : exists r s',
  resolve honest 102 (query "alias.example." TypeA) start = Fine (r, s') /\ total_response r /\
  (counter s' <= 100 * (1 + fanout) + 1)%Z.
Proof.
  destruct (resolver_terminates (BL := refBuilderLaws) (ZW := net_world clock honest false (fun _ => false) None)
    root_zone net_ok (network_laws (BL := refBuilderLaws) clock honest false (fun _ => false) 0 ltac:(lia) honest_ok) 400) with
    (fuel := 102) (qmsg := query "alias.example." TypeA) (s := start) as [(p & E & _)|(r & s' & E & Hr & Hc)].
  - intros a w v w' Hw [= _ <-]. exact Hw.
  - vm_compute. discriminate.
  - vm_compute. discriminate.
  - apply alone_admissible.
  - vm_compute. reflexivity.
  - discriminate.
  - apply start_ok.
  - vm_compute. reflexivity.
  - vm_compute in E. discriminate E.
  - exists r, s'. split; [exact E|]. split; [exact Hr|]. apply Hc. reflexivity.
Defined.

(** The zone the referral made known. *)
Lemma stored_zones_nested_witness : exists r s' z,
  resolve honest 102 (query "www.example." TypeA) start = Fine (r, s') /\
  default ∅ (zones_map (zone_store s')) !! "example."%string = Some z /\
  zr_name z <> zr_parent z /\ dns_IsSubDomain (zr_parent z) (zr_name z) = true.
Proof.
  destruct (resolve honest 102 (query "www.example." TypeA) start) as [[r s']| |] eqn:E;
    [|vm_compute in E; discriminate E..].
  destruct (default ∅ (zones_map (zone_store s')) !! "example."%string) as [z|] eqn:Ez.
  - exists r, s', z. split; [reflexivity|]. split; [exact Ez|].
    destruct (stored_zones_nested (BL := refBuilderLaws) (ZW := net_world clock honest false (fun _ => false) None)
      root_zone net_ok (network_laws (BL := refBuilderLaws) clock honest false (fun _ => false) 0 ltac:(lia) honest_ok) 400)
      with (fuel := 102) (qmsg := query "www.example." TypeA) (s := start) (r := r) (s' := s')
      (k := "example."%string) (z := z) as (_ & _ & [Hd|Hd]); [|vm_compute; discriminate|vm_compute; discriminate|
      apply alone_admissible|vm_compute; reflexivity|discriminate|apply start_ok|vm_compute; reflexivity|exact E|exact Ez|discriminate Hd|exact Hd].
    intros a w v w' Hw [= _ <-]. exact Hw.
  - vm_compute in E. injection E as _ <-. vm_compute in Ez. discriminate Ez.
Defined.

(** ** The records of the replies *)

Lemma ref_dedup : dedup_law refLib.
Proof.
  intros rrs rr Hin. exists rr, (Ttl (Header rr)). rewrite set_Ttl_same. split_and!; [|done..].
  revert Hin. cbn. induction rrs as [|x rrs IH]; cbn; [done|]. rewrite !elem_of_cons, list_elem_of_filter. tauto.
Qed.

Lemma start_stock sent : stock 400 sent start.
Proof.
  intros c [= <-]. split_and!; [apply new_cache_ok|done|unfold enough_fuel; vm_compute; lia|]. intros k e H.
  unfold cached, shard_at in H. destruct (shards (new_cache 10000) !! getShard k) as [sh|] eqn:E; [|done].
  by apply lookup_replicate in E as [-> _].
Qed.

Lemma nobody_stock sent : safe (stock 400 sent) (others (Interleaving := nobody)) (fun _ => True).
Proof. by apply safe_ret. Qed.

(** The record that answers came from a server of this network. *)
Lemma reply_records_genuine_witness : exists r s' m,
  resolve honest 102 (query "alias.example." TypeA) start = Fine (Some r, s') /\ resp_Msg r = Some m /\
  a_rr "www.example." "198.51.100.7" ∈ records m /\
  genuine (on_the_wire honest) (a_rr "www.example." "198.51.100.7").
Proof.
  destruct (resolve honest 102 (query "alias.example." TypeA) start) as [[[r|] s']| |] eqn:E;
    [|vm_compute in E; discriminate E..].
  destruct (reply_records_genuine (ZW := net_world clock honest false (fun _ => false) None) (IL := nobody) ref_dedup 400 (on_the_wire honest)
    (network_sends clock honest false (fun _ => false) (on_the_wire honest) (fun rr H => H)) (nobody_stock _) 102 Background
    (query "alias.example." TypeA) start r s' (start_stock _) E) as [_ H].
  destruct (resp_Msg r) as [m|] eqn:Em; [|vm_compute in E; injection E as <- _; discriminate Em].
  assert (a_rr "www.example." "198.51.100.7" ∈ records m) as Hin.
  { vm_compute in E. injection E as <- _. cbn in Em. injection Em as <-. right. left. }
  exists r, s', m. split; [reflexivity|]. split; [exact Em|]. split; [exact Hin|]. apply (H m); [reflexivity|exact Hin].
Defined.

(** ** Two questions at once *)

(** While one worker resolves www.example., another asks for the alias, twice:
    before the first question knows the zone example., and after. *)
Definition meanwhile (depth : nat) (s : session zone_ref nat net) : list (activity zone_ref) :=
  if bool_decide (ticks (world s) = 1 \/ ticks (world s) = 30) then [Asks (query "alias.example." TypeA)] else [].

Definition resolve_meanwhile (m : Msg) : M (session zone_ref nat net) (option Response) :=
  resolver_Exchange (ZW := net_world clock honest false (fun _ => false) None)
    (IL := interleaved (ZW := net_world clock honest false (fun _ => false) None) 400 102 meanwhile 1) 400 102 Background m.

Lemma interleaved_questions_end_witness : exists r s',
  resolve_meanwhile (query "www.example." TypeA) start = Fine (r, s') /\ total_response r /\
  (counter s' <= 100 * (1 + fanout) + 1)%Z.
Proof.
  destruct (interleaved_questions_end (BL := refBuilderLaws) (ZW := net_world clock honest false (fun _ => false) None)
    root_zone (nth_root 1) net_ok (network_laws (BL := refBuilderLaws) clock honest false (fun _ => false) 0 ltac:(lia) honest_ok)
    (network_laws (BL := refBuilderLaws) clock honest false (fun _ => false) 1 ltac:(lia) honest_ok) 400 102) with
    (plan := meanwhile) (depth := 1) (qmsg := query "www.example." TypeA) (s := start) as [(p & E & _)|(r & s' & E & Hr & Hc)].
  - intros a w v w' Hw [= _ <-]. exact Hw.
  - vm_compute. discriminate.
  - vm_compute. discriminate.
  - vm_compute. reflexivity.
  - vm_compute. reflexivity.
  - intros depth s. unfold meanwhile. destruct (bool_decide _); repeat (constructor; [discriminate|]); constructor.
  - discriminate.
  - apply start_ok.
  - vm_compute in E. discriminate E.
  - exists r, s'. split; [exact E|]. split; [exact Hr|]. exact (proj2 (proj2 Hc)).
Defined.

Definition tries_of {A} (r : res (A * session zone_ref nat net)) : nat :=
  match r with Fine (_, s) => tries (world s) | _ => 0 end.

(** The first question gets the same answer; the tries are those of both. *)
Example meanwhile_answers :
  (answer_of (resolve_meanwhile (query "www.example." TypeA) start),
   tries_of (resolve_meanwhile (query "www.example." TypeA) start),
   tries_of (resolve honest 102 (query "www.example." TypeA) start)) =
  (answer_of (resolve honest 102 (query "www.example." TypeA) start), 8, 4).
Proof. vm_compute. reflexivity. Qed.

(** An alias and its target, validated apart. *)
Definition alias_answer : Response :=
  mkResponse (Some (set_Answer [cname_rr "alias.example." "www.example."] (query "alias.example." TypeA)))
    None 5 NotFound Secure.

Definition target_exchange (au : AuthenticationResult) : exchanger zone_ref nat net := fun _ m =>
  mret (Some (mkResponse (Some (set_Answer [a_rr "www.example." "198.51.100.7"] m)) None 5 NotFound au)).

Definition followed_alias (au : AuthenticationResult) :=
  cname (ZW := net_world clock honest false (fun _ => false) None) 400 Background
    (query "alias.example." TypeA) alias_answer (target_exchange au) start.

Example alias_secure :
  match followed_alias Secure, followed_alias Insecure with
  | Fine (_, r, _), Fine (_, r', _) => (Auth r, Auth r')
  | _, _ => (Unknown, Unknown)
  end = (Secure, Insecure).
Proof. vm_compute. reflexivity. Qed.

Lemma cname_combines_witness : exists err r' s' results,
  followed_alias Insecure = Fine (err, r', s') /\ length results = 1 /\
  (Auth r' = Secure <-> Auth alias_answer = Secure /\ Forall (fun x => Auth x = Secure) (sent results)).
Proof.
  destruct (followed_alias Insecure) as [[[err r'] s']| |] eqn:E; [|vm_compute in E; discriminate E..].
  destruct (cname_combines (ZW := net_world clock honest false (fun _ => false) None) 400 Background
    (query "alias.example." TypeA) alias_answer _ (target_exchange Insecure) start err r' s' eq_refl E)
    as (results & m' & Hr & Hs & _).
  exists err, r', s', results. split; [reflexivity|]. split; [|exact Hs].
  symmetry. exact (Forall2_length _ _ _ Hr).
Defined.
End ResolverExample.

(** ** A signed name: the root delegates example. to its key *)

Module SignedExample.
#[export] Existing Instance refLib.
#[export] Existing Instance refLaws.
#[export] Existing Instance map_range_std.
#[export] Existing Instance default_resolver_config.
#[export] Existing Instance ResolverExample.refBuilder.
#[export] Existing Instance ResolverExample.in_order.
#[export] Existing Instance ResolverExample.nobody.
#[export] Existing Instance ChainExample.cfg.

Definition reply (sections : list RR * list RR * list RR) (m : Msg) : option Msg * Z * option error :=
  ResolverExample.reply sections m.

Definition signed (answer : list RR) (k : nat) (protocol : string) : dnsClient := fun m a =>
  match ResolverExample.question_of m with
  | (n, 48%Z) =>
      reply (if bool_decide (n = "."%string) then fst (GetDNSKEYRecords ChainExample.root_zone)
             else CskExample.honest_keys, [], []) m
  | (n, 1%Z) =>
      if bool_decide (a = "192.0.2.1:53"%string)
      then reply ([], Ns ChainExample.referral, [ResolverExample.a_rr "ns.example." "192.0.2.2"]) m
      else reply (answer, [], []) m
  | _ => reply ([], [], []) m
  end.

#[export] Instance service : AuthService zone_ref net :=
  chain_service (ZW := net_world ResolverExample.clock (signed CskExample.honest_answer) false (fun _ => false) None)
    (fun _ _ => CskExample.clocks).

(** www.example. A with DO. *)
Definition question : Msg :=
  msg_SetEdns0 4096 true (ResolverExample.query "www.example." TypeA).

Definition resolve (answer : list RR) : res (option Response * session zone_ref nat net) :=
  resolver_Exchange (ZW := net_world ResolverExample.clock (signed answer) false (fun _ => false) None)
    400 102 Background question ResolverExample.start.

Definition view (r : res (option Response * session zone_ref nat net)) :
    option (AuthenticationResult * bool * Z * nat) :=
  match r with
  | Fine (Some r, _) =>
      match resp_Msg r with
      | Some m => Some (Auth r, AuthenticatedData m, Rcode m, length (Answer m))
      | None => None
      end
  | _ => None
  end.

Example signed_reply : view (resolve CskExample.honest_answer) = Some (Secure, true, RcodeSuccess, 2).
Proof. vm_compute. reflexivity. Qed.

(** The record replaced, its signature kept. *)
Definition forged_answer : list RR :=
  [CskExample.a "www.example." "203.0.113.66";
   RR_RRSIG (CskExample.rrsig CskExample.evil "www.example." TypeA 2)].

Example forged_reply : view (resolve forged_answer) = Some (Bogus, false, RcodeServerFailure, 0).
Proof. vm_compute. reflexivity. Qed.

(** The message without its question section. *)
Definition unasked (m : Msg) : Msg :=
  mkMsg (Id m) (Response_ m) (Authoritative m) (Truncated m) (RecursionDesired m) (RecursionAvailable m)
    (AuthenticatedData m) (CheckingDisabled m) (Rcode m) [] (Answer m) (Ns m) (Extra m).

(** A server that leaves the question out of its replies; its answers are not
    even signed. *)
Definition mute (k : nat) (protocol : string) : dnsClient := fun m a =>
  let '(r, d, e) := signed [CskExample.a "www.example." "203.0.113.66"] k protocol m a in
  (if bool_decide (a = "192.0.2.1:53"%string) then r else option_map unasked r, d, e).

(** A server can stop the program with a reply that has no question: the
    library accepts it, [AddResponse] indexes it, and nothing recovers from the
    panic of the authenticator's goroutine.  It takes one zone under the
    server's control and a question with DO. *)
Theorem missing_question_crashes :
  (forall k, client_law (mute k) /\ id_law (mute k)) /\
  let ZW := net_world ResolverExample.clock mute false (fun _ => false) None in
  resolver_Exchange (ZW := ZW) (AS := chain_service (ZW := ZW) (fun _ _ => CskExample.clocks))
    400 102 Background question ResolverExample.start = Crash IndexOutOfRange.
Proof.
  split; [|vm_compute; reflexivity]. intros k. split; intros p m a; unfold mute, signed;
    destruct (ResolverExample.question_of m) as [n t]; unfold reply, ResolverExample.reply;
    repeat case_match; simplify_eq; cbn; try eauto; try (by intros msg d [= <- _]).
Qed.

Definition received_reply (answer : list RR) (r : Response) (m : Msg) : Prop :=
  exists s', resolve answer = Fine (Some r, s') /\ resp_Msg r = Some m.

Lemma AD_has_trust_chain_witness : exists r m x,
  received_reply CskExample.honest_answer r m /\ AuthenticatedData m = true /\ offered x r /\
  backed (ZW := net_world ResolverExample.clock (signed CskExample.honest_answer) false (fun _ => false) None)
    (chained (ZW := net_world ResolverExample.clock (signed CskExample.honest_answer) false (fun _ => false) None)
      (fun _ _ => CskExample.clocks)) question x.
Proof.
  destruct (resolve CskExample.honest_answer) as [[[r|] s']| |] eqn:E;
    [|vm_compute in E; discriminate E..].
  destruct (resp_Msg r) as [m|] eqn:Em.
  - assert (Err r = None /\ AuthenticatedData m = true) as [He Ha].
    { vm_compute in E. injection E as <- _. cbn in Em. injection Em as <-. split; reflexivity. }
    destruct (AD_has_trust_chain
      (ZW := net_world ResolverExample.clock (signed CskExample.honest_answer) false (fun _ => false) None)
      (fun _ _ => CskExample.clocks) 400 102 Background question
      ResolverExample.start r s' m) as (x & Hx & Hb);
      [intros ctx z q w x w'; apply network_unjudged|reflexivity..|exact E|left; exact He|exact Em|exact Ha|].
    exists r, m, x. split; [exists s'; split; [exact E|exact Em]|]. split; [exact Ha|]. split; [exact Hx|exact Hb].
  - vm_compute in E. injection E as <- _. discriminate Em.
Defined.

Lemma reply_flags_sound_witness :
  (exists r m x, received_reply CskExample.honest_answer r m /\ offered x r /\
    backed (ZW := net_world ResolverExample.clock (signed CskExample.honest_answer) false (fun _ => false) None)
      (service_verdict (AS := service)) question x) /\
  exists r m, received_reply forged_answer r m /\ Rcode m = RcodeServerFailure /\ Answer m = [].
Proof.
  split.
  - destruct (resolve CskExample.honest_answer) as [[[r|] s']| |] eqn:E; [|vm_compute in E; discriminate E..].
    destruct (resp_Msg r) as [m|] eqn:Em.
    + assert (Err r = None /\ AuthenticatedData m = true) as [He Ha].
      { vm_compute in E. injection E as <- _. cbn in Em. injection Em as <-. split; reflexivity. }
      destruct (reply_flags_sound
        (ZW := net_world ResolverExample.clock (signed CskExample.honest_answer) false (fun _ => false) None)
        (AS := service) 400 102 Background question ResolverExample.start r s' m) as [Hx _];
        [intros ctx z q w x w'; apply network_unjudged|reflexivity..|exact E|exact Em|].
      destruct (Hx (or_introl He) Ha) as (x & Ho & Hb). exists r, m, x.
      split; [exists s'; split; [exact E|exact Em]|]. split; [exact Ho|exact Hb].
    + vm_compute in E. injection E as <- _. discriminate Em.
  - destruct (resolve forged_answer) as [[[r|] s']| |] eqn:E; [|vm_compute in E; discriminate E..].
    destruct (resp_Msg r) as [m|] eqn:Em.
    + exists r, m. assert (Auth r = Bogus) as Hb.
      { vm_compute in E. injection E as <- _. reflexivity. }
      destruct (reply_flags_sound
        (ZW := net_world ResolverExample.clock (signed forged_answer) false (fun _ => false) None)
        (AS := service) 400 102 Background question ResolverExample.start r s' m)
        as [_ Hx]; [intros ctx z q w x w'; apply network_unjudged|reflexivity..|exact E|exact Em|].
      destruct (Hx Hb) as [Hr Hs]. destruct (Hs eq_refl) as [Ha _].
      split; [exists s'; split; [exact E|exact Em]|]. split; assumption.
    + vm_compute in E. injection E as <- _. discriminate Em.
Defined.

(** The log of www.example. with a response of [mute]. *)
Definition mute_log : auth zone_ref :=
  mkAuthLog CskExample.question [ZoneResponse root_zone (unasked (CskExample.response []))].

Lemma missing_question_panics_witness :
  let ZW := net_world ResolverExample.clock mute false (fun _ => false) None in
  exists p, chain_service (ZW := ZW) (fun _ _ => CskExample.clocks) mute_log (world ResolverExample.start) = Panic p.
Proof.
  apply (missing_question_panics (ZW := net_world ResolverExample.clock mute false (fun _ => false) None)
    (fun _ _ => CskExample.clocks) mute_log root_zone (unasked (CskExample.response [])));
    [left|reflexivity|vm_compute; reflexivity].
Defined.
End SignedExample.
