(* ===== verification/ServerExample.v ===== *)
(** * Executions of the server on the networks of ResolverExample *)

From S2P Require Import Prelude GoErrors Dns DnsRef DnssecConst DnssecFunctions Signatures Verify Authenticator Domain Cache Response Nameserver Pool Zones Zone Session ResolverState World ZoneFactory Cname ResolverExchange Resolver ReplySound ReplyId AuthChain Budget Interleave Server ResolverExample.

Module ServerExample.
Import ResolverExample.
#[export] Existing Instance refLib.
#[export] Existing Instance refLaws.
#[export] Existing Instance map_range_std.
#[export] Existing Instance default_resolver_config.
#[export] Existing Instance refBuilder.
#[export] Existing Instance in_order.
#[export] Existing Instance nobody.
#[export] Existing Instance no_validation.
#[export] Existing Instance ChainExample.cfg.

#[export] Instance refServerLib : ServerLib := {|
  msg_SetReply r := dns_SetRcode r RcodeSuccess;
  msg_IsEdns0 r := last (extractRecords OPT (Extra r))
|}.

#[export] Instance world : ZoneWorld zone_ref nat net := net_world clock honest false (fun _ => false) None.

Definition server : Type := Server zone_ref nat net.
Definition query_step (w : ResponseWriter) (r : Msg) : M server unit := processQuery 400 102 w r.

Definition fresh : server := NewServer (NewResolver_zones 0) (NewResolver_zones 1) (new_net root_hints).
Definition checking : server :=
  NewServerWithConfig (fun _ _ => CskExample.clocks) 10000 true (NewResolver_zones 0) (NewResolver_zones 1)
    (new_net root_hints).

Definition q : Question_ := mkQ "www.example." TypeA ClassINET.
Definition plain : Msg := query "www.example." TypeA.
Definition with_DO : Msg := msg_SetEdns0 4096 true plain.

Definition replies (r : res (unit * server)) : list (ResponseWriter * bool * Z * list RR) :=
  match r with
  | Fine (_, s) => map (fun x => (fst x, AuthenticatedData (snd x), Rcode (snd x), Answer (snd x))) (written s)
  | _ => []
  end.

(** Two clients ask, with DO, for the same unsigned name. *)
Definition asked_twice : res (unit * server) :=
  (_ ← query_step 1 with_DO; query_step 2 with_DO) fresh.

(** The server as [NewServer] makes it marks unvalidated data as
    authenticated: of two clients that ask with DO for the same unsigned name,
    the first is told AD=0 and the second, from the cache, AD=1, for the same
    records. *)
Theorem second_reply_is_authenticated : replies asked_twice =
  [(1, false, RcodeSuccess, [a_rr "www.example." "198.51.100.7"]);
   (2, true, RcodeSuccess, [a_rr "www.example." "198.51.100.7"])].
Proof. vm_compute. reflexivity. Qed.

Example option_refuses : replies (query_step 1 with_DO checking) = [(1, false, RcodeServerFailure, [])].
Proof. vm_compute. reflexivity. Qed.

(** A prefetch asks in class IN whatever the class of the question it was
    started for, and its answer is kept under that question. *)
Definition chaos : Question_ := mkQ "www.example." TypeA 3.
Definition chaos_query : Msg :=
  mkMsg 7 false false false true false false false 0 [chaos] [] [] [].

Example prefetch_changes_class :
  replies ((_ ← prefetchRecord 400 102 chaos; query_step 1 chaos_query) fresh) =
  [(1, false, RcodeSuccess, [a_rr "www.example." "198.51.100.7"])] /\
  Class_ (Header (a_rr "www.example." "198.51.100.7")) <> Qclass chaos.
Proof. split; [vm_compute; reflexivity|discriminate]. Qed.

(** ** The laws hold here *)

Lemma zones_ok k : k < 2 -> session_kept (nth_root k) net_ok 400
  (set_store (NewResolver_zones k) (resolver fresh)).
Proof.
  intros Hk.
  assert (forall j z, ({["."%string := nth_root k]} : gmap string zone_ref) !! j = Some z ->
    j = zr_name z /\ canonical j) as Hs.
  { intros j z [<- <-]%lookup_singleton_Some. split; reflexivity. }
  split; [|done]. split; [exact Hs| |apply lookup_singleton_eq|apply new_net_ok|].
  { intros j z Hz Hj. assert (({["."%string := nth_root k]} : gmap string zone_ref) !! j = Some z) as E by exact Hz.
    apply lookup_singleton_Some in E as [E _]. by destruct Hj. }
  exists (new_cache 10000). split_and!; [reflexivity|apply new_cache_ok|done|unfold enough_fuel; vm_compute; lia].
Qed.

Lemma fresh_ok : server_ok (nth_root 0) (nth_root 1) net_ok 400 fresh.
Proof. split; [apply (zones_ok 0)|apply (zones_ok 1)|split|..]; cbn; try lia; try done. Qed.

Lemma checking_ok : server_ok (nth_root 0) (nth_root 1) net_ok 400 checking.
Proof.
  split; [apply (zones_ok 0)|apply (zones_ok 1)|split|..]; cbn; try lia; try done.
  intros a [= <-]. apply NewAuth_refuses.
Qed.

Lemma laws k : k < 2 -> ZoneWorldLaws world (nth_root k) net_ok.
Proof. intros Hk. apply (network_laws (BL := refBuilderLaws)); [done|apply honest_ok]. Qed.

Lemma laws_0 : ZoneWorldLaws world (nth_root 0) net_ok.
Proof. apply laws. lia. Qed.
Lemma laws_1 : ZoneWorldLaws world (nth_root 1) net_ok.
Proof. apply laws. lia. Qed.

Lemma service_ok (a : auth zone_ref) (w : net) v w' : net_ok w -> auth_result a w = Ret (v, w') -> net_ok w'.
Proof. intros Hw [= _ <-]. exact Hw. Qed.

#[export] Instance refServerLaws : ServerLaws refServerLib.
Proof. by split. Qed.

Lemma ids : ids_kept (ZW := world).
Proof.
  intros ctx z m w r w'. apply network_ided. intros k p m' a msg d. unfold honest.
  destruct (bool_decide _); [by intros [= <- _]|]. destruct (question_of m') as [n [|[| |]|]]; by intros [= <- _].
Qed.

Lemma alone_0 : admissible (ZW := world) (nth_root 0) net_ok 400 others.
Proof. apply alone_admissible. Qed.
Lemma alone_1 : admissible (ZW := world) (nth_root 1) net_ok 400 others.
Proof. apply alone_admissible. Qed.

(** ** Witnesses *)

Lemma prefetch_every_third_witness :
  let s := accessed [q; q; q; q] fresh in times q (prefetching s) = 1%Z /\ count_of s q = 1%Z.
Proof.
  apply (prefetch_every_third [q; q; q; q] fresh q).
  - apply fresh_ok.
  - reflexivity.
  - reflexivity.
  - repeat constructor; vm_compute; congruence.
  - repeat constructor; vm_compute; congruence.
Defined.

(** The server once it has answered a first client. *)
Definition after : server := match query_step 1 with_DO fresh with Fine (_, s) => s | _ => fresh end.
Definition after_cache : DNSCache := default (new_cache 0) (dcache (resolver after)).
Definition entry : cacheEntry :=
  default (mkEntry with_DO 0 [] "" false 0) (cached after_cache (key_of q)).

Lemma bounds : (2 * Z.of_nat DesireNumberOfNameserversPerZone <= fanout)%Z /\
  (MaxQueriesPerRequest * (1 + fanout) + 1 < 2 ^ 32)%Z.
Proof. split; vm_compute; done. Qed.

Lemma after_ok : server_ok (nth_root 0) (nth_root 1) net_ok 400 after.
Proof.
  assert (Question with_DO <> []) as Hq by done.
  pose proof (processQuery_runs (BL := refBuilderLaws) (nth_root 0) (nth_root 1) net_ok laws_0
    400 102 service_ok ids alone_0 ltac:(done) (proj1 bounds) (proj2 bounds) ltac:(done) 1 with_DO [] (pending fresh) false Hq fresh) as H.
  unfold after, query_step. destruct (processQuery 400 102 1 with_DO fresh) as [[[] s]|p|]; [|apply fresh_ok..].
  destruct H as (m & Hs & _); [|exact (proj1 Hs)]. split; [apply fresh_ok|split_and!; reflexivity].
Qed.

Definition is_fine {X} (r : res X) : bool := match r with Fine _ => true | _ => false end.
Definition is_miss {X Y} (r : res (option X * Y)) : bool := match r with Fine (None, _) => true | _ => false end.

Lemma fine_result {X} (r : res X) : is_fine r = true -> exists x, r = Fine x.
Proof. destruct r; [by eexists|done..]. Qed.

(** Two clients, the first with a worker. *)
Definition busy : server := set_working [(1, plain)] (set_queries [(2, with_DO)] fresh).

Lemma busy_ok : server_ok (nth_root 0) (nth_root 1) net_ok 400 busy.
Proof.
  destruct fresh_ok as [H1 H2 H3 H4 H5 H6 H7]. split; try assumption; [|cbn; lia..].
  repeat (constructor; [discriminate|]). constructor.
Qed.

Lemma worker_answers_witness : exists s' m,
  worker 400 102 0 busy = Fine (tt, s') /\ written s' = [(1, m)] /\ Id m = 7%Z /\ queries s' = [(2, with_DO)].
Proof.
  destruct (worker_answers (BL := refBuilderLaws) (nth_root 0) (nth_root 1) net_ok laws_0
    400 102 service_ok ids alone_0 ltac:(discriminate) (proj1 bounds) (proj2 bounds) ltac:(reflexivity)
    busy 0 1 plain busy_ok eq_refl) as [(p & E & _)|(s' & m & E & _ & Hw & Hid & _ & Hq)].
  - assert (is_fine (worker 400 102 0 busy) = true) as Hf by (vm_compute; reflexivity).
    rewrite E in Hf. discriminate Hf.
  - exists s', m. split; [exact E|]. split; [exact Hw|]. split; [exact Hid|exact Hq].
Defined.

(** An endless run: the second query is taken, both are answered, and then only
    the cache is cleaned. *)
Definition schedule_of (n : nat) : event :=
  match n with 0 => Take | 1 | 2 => Work 0 | _ => CleanTick end.

Definition exec (e : event) (s : server) : server :=
  match e with
  | Take => default s (take_query s)
  | Work i => match worker 400 102 i s with Fine (_, s') => s' | _ => s end
  | _ => match cacheCleaner s with Fine (_, s') => s' | _ => s end
  end.

Fixpoint run (n : nat) : server := match n with O => busy | S n => exec (schedule_of n) (run n) end.

(** A tick of the cleaner always ends, and leaves the queries alone. *)
Lemma clean_fine s : exists s', cacheCleaner s = Fine (tt, s') /\ queries s' = queries s /\ working s' = working s.
Proof. by eexists. Qed.

(** The first three steps. *)
Lemma run_start :
  take_query (run 0) = Some (run 1) /\ (exists x, worker 400 102 0 (run 1) = Fine x) /\ (exists x, worker 400 102 0 (run 2) = Fine x) /\
  working (run 1) = [(1, plain); (2, with_DO)] /\ working (run 2) = [(2, with_DO)] /\
  working (run 3) = [] /\ queries (run 3) = [].
Proof.
  split; [reflexivity|]. split; [apply fine_result; vm_compute; reflexivity|]. split; [apply fine_result; vm_compute; reflexivity|].
  split_and!; vm_compute; reflexivity.
Qed.

Lemma run_idle n : working (run (3 + n)) = [] /\ queries (run (3 + n)) = [].
Proof.
  destruct run_start as (_ & _ & _ & _ & _ & Hw & Hq). induction n as [|n [IHw IHq]]; [exact (conj Hw Hq)|].
  change (run (3 + S n)) with (exec CleanTick (run (3 + n))). unfold exec.
  destruct (clean_fine (run (3 + n))) as (s' & -> & -> & ->). exact (conj IHw IHq).
Qed.

Lemma run_tick n : server_step 400 102 CleanTick (run (3 + n)) (run (S (3 + n))).
Proof.
  destruct (clean_fine (run (3 + n))) as (s' & E & _). assert (run (S (3 + n)) = s') as ->; [|exact (step_clean_tick _ _ _ _ E)].
  change (exec CleanTick (run (3 + n)) = s'). unfold exec. rewrite E. reflexivity.
Qed.

Lemma run_endless : endless 400 102 run schedule_of.
Proof.
  destruct run_start as (Ht & [[[] s1] E1] & [[[] s2] E2] & W1 & W2 & _).
  intros [|[|[|n]]].
  - exact (step_take _ _ _ _ Ht).
  - change (run 2) with (exec (Work 0) (run 1)). unfold exec. rewrite E1. apply step_work; [rewrite W1; cbn; lia|exact E1].
  - change (run 3) with (exec (Work 0) (run 2)). unfold exec. rewrite E2. apply step_work; [rewrite W2; cbn; lia|exact E2].
  - exact (run_tick n).
Qed.

Lemma run_takes : takes_fairly run schedule_of.
Proof.
  intros n. exists (3 + n). split; [lia|]. right. unfold take_query. by rewrite (proj2 (run_idle n)).
Qed.

Lemma run_works : works_fairly run schedule_of.
Proof.
  destruct run_start as (_ & _ & _ & W1 & W2 & _). intros [|[|[|n]]] x Hx.
  - exists 1, 0. apply list_elem_of_singleton in Hx as ->. split; [lia|]. split; [reflexivity|]. rewrite W1. reflexivity.
  - rewrite W1 in Hx. apply elem_of_cons in Hx as [->|Hx]; [|apply list_elem_of_singleton in Hx as ->].
    + exists 1, 0. split; [lia|]. split; [reflexivity|]. rewrite W1. reflexivity.
    + exists 2, 0. split; [lia|]. split; [reflexivity|]. rewrite W2. reflexivity.
  - exists 2, 0. rewrite W2 in Hx. apply list_elem_of_singleton in Hx as ->. split; [lia|]. split; [reflexivity|]. rewrite W2. reflexivity.
  - change (S (S (S n))) with (3 + n) in Hx. rewrite (proj1 (run_idle n)) in Hx. exact (False_ind _ (not_elem_of_nil _ Hx)).
Qed.

Lemma no_client_waits_for_ever_witness : exists m i reply,
  schedule_of m = Work i /\ written (run (S m)) = written (run m) ++ [(2, reply)] /\ Id reply = 7%Z.
Proof.
  destruct (no_client_waits_for_ever (BL := refBuilderLaws) (nth_root 0) (nth_root 1) net_ok laws_0 laws_1
    400 102 service_ok ids alone_0 alone_1 ltac:(discriminate) (proj1 bounds) (proj2 bounds) ltac:(reflexivity)
    run schedule_of 0 2 with_DO run_endless run_takes run_works busy_ok ltac:(cbn; lia) ltac:(left))
    as (m & i & reply & _ & Hm & _ & Hw & Hid).
  exists m, i, reply. split; [exact Hm|]. split; [exact Hw|exact Hid].
Defined.

Lemma dnssec_option_refuses_witness : exists s' m,
  query_step 1 with_DO checking = Fine (tt, s') /\ written s' = [(1, m)] /\
  (Rcode m = RcodeServerFailure \/ Rcode m = RcodeNameError).
Proof.
  destruct (fine_result (query_step 1 with_DO checking)) as ([[] s'] & E); [vm_compute; reflexivity|].
  assert (is_miss (on_resolver (cache_get q 7) checking) = true) as Hm by (vm_compute; reflexivity).
  destruct (on_resolver (cache_get q 7) checking) as [[[m|] s1]| |] eqn:Em; [discriminate Hm| |discriminate Hm..].
  destruct (dnssec_option_refuses (BL := refBuilderLaws) (nth_root 0) (nth_root 1) net_ok laws_0
    400 102 service_ok ids alone_0 ltac:(discriminate) (proj1 bounds) (proj2 bounds) ltac:(reflexivity)
    checking 1 with_DO q [] s1 s' checking_ok) as (m & Hw & Hcode); [eexists; reflexivity|reflexivity..|exact Em|exact E|].
  exists s', m. split; [exact E|]. split; [exact Hw|exact Hcode].
Defined.

Lemma cached_reply_witness : exists s', query_step 2 with_DO after = Fine (tt, s') /\
  written s' = written after ++ [(2, set_AuthenticatedData true (set_Id 7 (entry_msg entry)))].
Proof.
  destruct (cached_reply (nth_root 0) (nth_root 1) net_ok 400 102 alone_0 after (resolver after) 2 with_DO q []
    after_cache entry after_ok) as (s' & E & Hw & _); [reflexivity|reflexivity|vm_compute; reflexivity..|].
  exists s'. split; [exact E|exact Hw].
Defined.

Lemma prefetch_of_live_idle_witness : exists s', prefetchRecord 400 102 q after = Fine (tt, s') /\
  Server.written s' = written after.
Proof.
  destruct (prefetch_of_live_idle (nth_root 0) (nth_root 1) net_ok 400 102 alone_1 after
    (set_store (pm_zones (prefetch after)) (resolver after)) q after_cache entry after_ok) as (s' & E & _ & _ & _ & Hw);
    [reflexivity|vm_compute; reflexivity..|].
  exists s'. split; [exact E|exact Hw].
Defined.

(** Two clients; the second is answered first. *)
Definition a_run : list event := [Query 1 plain; Query 2 with_DO; Take; Take; Work 1; CleanTick; Work 0].

Lemma fine_bind {X Y} (m : M server X) (f : X -> M server Y) s : is_fine ((m ≫= f) s) = true ->
  exists a s1, m s = Fine (a, s1) /\ is_fine (f a s1) = true.
Proof. unfold mbind, M_bind. destruct (m s) as [[a s1]|p|]; [by eauto|done..]. Qed.

(** The steps of the run that answer and clean up. *)
Definition answering : M server unit :=
  _ ← worker 400 102 1;
  _ ← cacheCleaner;
  n ← gets (fun s => length (working s));
  if bool_decide (0 < n) then worker 400 102 0 else out_of_fuel.

Lemma server_invariant_witness : exists s, server_steps 400 102 a_run fresh s /\ clients s ≡ₚ [(1, 7%Z); (2, 7%Z)].
Proof.
  assert (is_fine (answering (set_working [(1, plain); (2, with_DO)] fresh)) = true) as Hf by (vm_compute; reflexivity).
  apply fine_bind in Hf as ([] & s1 & E1 & Hf). apply fine_bind in Hf as ([] & s2 & E2 & Hf).
  unfold mbind, M_bind, gets in Hf. destruct (bool_decide (0 < length (working s2))) eqn:Hn; [|discriminate Hf].
  apply bool_decide_eq_true in Hn. destruct (fine_result _ Hf) as ([[] s3] & E3).
  assert (server_steps 400 102 a_run fresh s3) as Hr.
  { eapply steps_cons; [apply step_query; [discriminate|reflexivity]|].
    eapply steps_cons; [apply step_query; [discriminate|reflexivity]|].
    eapply steps_cons; [apply step_take; reflexivity|].
    eapply steps_cons; [apply step_take; reflexivity|].
    eapply steps_cons; [apply step_work; [cbn; lia|exact E1]|].
    eapply steps_cons; [apply step_clean_tick; exact E2|].
    eapply steps_cons; [apply step_work; [exact Hn|exact E3]|apply steps_nil]. }
  exists s3. split; [exact Hr|].
  destruct (server_invariant (BL := refBuilderLaws) (nth_root 0) (nth_root 1) net_ok laws_0 laws_1
    400 102 service_ok ids alone_0 alone_1 ltac:(discriminate) (proj1 bounds) (proj2 bounds) ltac:(reflexivity)
    _ fresh s3 fresh_ok Hr) as (_ & Hc & _).
  exact Hc.
Defined.
End ServerExample.
