(* ===== verification/FastPool.v ===== *)
(** * fast_pool.go: the pool that asks all its servers at once

    [concurrentExchange] starts a goroutine per server and one that closes the
    channels when they are done, and returns on the first case of its [select]
    that is ready.  The goroutines are a step relation on the state of the two
    channels; [selected] are the results the [select] may give in a state. *)

From S2P Require Import Prelude GoErrors Dns DnssecConst Domain Response Nameserver Zone ResolverState.

Definition millisecond : Z := 1000000.

Record PoolStats := mkPoolStats { IPv4Requests : Z; IPv6Requests : Z; Timeouts : Z; Fallbacks : Z }.

Record FastNameserverPool := mkFastPool { fastTimeout : Z; fp_stats : PoolStats }.

Definition NewFastNameserverPool : FastNameserverPool := mkFastPool (30 * millisecond) (mkPoolStats 0 0 0 0).

(** What [quickQuery] returns: the reply, its time, the error. *)
Definition quick : Type := option Msg * Z * option error.

Definition quickQuery (client : dnsClient) (server : string) (m : Msg) : quick :=
  let '(msg, rtt, err) := client m (server +:+ ":53") in
  match err with
  | Some e => (None, 0%Z, Some e)
  | None => (msg, rtt, None)
  end.

Definition no_nameservers : error := ENew "no nameservers available".
(** [context.DeadlineExceeded] *)
Definition DeadlineExceeded : error := ENew "context deadline exceeded".

(** The channels, buffered for all servers; [running] are the goroutines that
    have not sent yet, with what their server answers them. *)
Record race := mkRace {
  running : list quick;
  resultChan : list (Msg * Z);
  errorChan : list error;
  resultClosed : bool;
  errorClosed : bool;
  expired_ : bool
}.

Definition start_race (answers : list quick) : race := mkRace answers [] [] false false false.

(** A goroutine's send; the reply that is nil without an error is not sent. *)
Definition send (answer : quick) (rest : list quick) (s : race) : race :=
  match answer with
  | (_, _, Some e) => mkRace rest (resultChan s) (errorChan s ++ [e]) (resultClosed s) (errorClosed s) (expired_ s)
  | (Some msg, rtt, None) => mkRace rest (resultChan s ++ [(msg, rtt)]) (errorChan s) (resultClosed s) (errorClosed s) (expired_ s)
  | (None, _, None) => mkRace rest (resultChan s) (errorChan s) (resultClosed s) (errorClosed s) (expired_ s)
  end.

Inductive race_step : race -> race -> Prop :=
| race_send before answer after s : running s = before ++ answer :: after ->
    race_step s (send answer (before ++ after) s)
| race_drop before answer after s : running s = before ++ answer :: after -> expired_ s = true ->
    (* the case [<-fastCtx.Done()] of its select *)
    race_step s (mkRace (before ++ after) (resultChan s) (errorChan s) (resultClosed s) (errorClosed s) true)
| race_close_result s : running s = [] -> resultClosed s = false ->
    race_step s (mkRace [] (resultChan s) (errorChan s) true (errorClosed s) (expired_ s))
| race_close_error s : resultClosed s = true -> errorClosed s = false ->
    race_step s (mkRace (running s) (resultChan s) (errorChan s) true true (expired_ s))
| race_expire s : race_step s (mkRace (running s) (resultChan s) (errorChan s) (resultClosed s) (errorClosed s) true).

Inductive race_steps : race -> race -> Prop :=
| race_stop s : race_steps s s
| race_more s1 s2 s3 : race_steps s1 s2 -> race_step s2 s3 -> race_steps s1 s3.

(** The cases of the [select] that are ready; a closed and empty channel gives
    the zero value of its type. *)
Definition selected (s : race) : list quick :=
  match resultChan s with
  | (msg, rtt) :: _ => [(Some msg, rtt, None)]
  | [] => if resultClosed s then [(None, 0%Z, None)] else []
  end ++
  match errorChan s with
  | e :: _ => [(None, 0%Z, Some e)]
  | [] => if errorClosed s then [(None, 0%Z, None)] else []
  end ++
  (if expired_ s then [(None, 0%Z, Some DeadlineExceeded)] else []).

(** [concurrentExchange] may return [r] when the servers answer [answers]. *)
Definition concurrentExchange (answers : list quick) (r : quick) : Prop :=
  exists s, race_steps (start_race answers) s /\ r ∈ selected s.

Definition exchangeFast (answers : list quick) (r : quick) : Prop :=
  if bool_decide (length answers = 0) then r = (None, 0%Z, Some no_nameservers)
  else concurrentExchange answers r.

(** [slow] is the answer of the first server to the second, slower try. *)
Definition exchangeWithFallback (answers : list quick) (slow : quick) (r : quick) : Prop :=
  exists fast, exchangeFast answers fast /\
    r = match fast with
        | (Some msg, rtt, None) => (Some msg, rtt, None)
        | _ => if bool_decide (0 < length answers) then slow else (None, 0%Z, Some no_nameservers)
        end.

(** [measureLatency]: a goroutine per server, which write their times under a
    lock in the order in which they finish; [probe i s] is the time of the
    [i]-th one, if its server answers. *)
Definition record_latency (probe : nat -> string -> option Z) (latency : gmap string Z) (job : nat * string) :
    gmap string Z :=
  match probe (fst job) (snd job) with
  | Some d => <[ snd job := d ]> latency
  | None => latency
  end.

Definition measureLatency `{Scheduler} (probe : nat -> string -> option Z) (servers : list string) : gmap string Z :=
  foldl (record_latency probe) ∅ (schedule (imap pair servers)).

(** [selectBestServers], on the map that [measureLatency] returns. *)
Definition selectBestServers (latency : gmap string Z) (servers : list string) (max : nat) : list string :=
  let sorted := filter (fun s =>
    match latency !! s with Some lat => bool_decide (lat < 50 * millisecond)%Z | None => false end = true) servers in
  if bool_decide (max < length sorted) then take max sorted else sorted.

(** * Theory *)

(** What [s] holds comes from the servers. *)
Record race_ok (answers : list quick) (s : race) : Prop := {
  ok_running a : a ∈ running s -> a ∈ answers;
  ok_results m t : (m, t) ∈ resultChan s -> (Some m, t, None) ∈ answers;
  ok_errors e : e ∈ errorChan s -> exists o t, (o, t, Some e) ∈ answers;
  ok_closed : resultClosed s = true -> running s = []
}.

Lemma send_ok answers s before answer after : race_ok answers s -> running s = before ++ answer :: after ->
  race_ok answers (send answer (before ++ after) s).
Proof.
  intros [H1 H2 H3 H4] E.
  assert (answer ∈ answers) as Ha by (apply H1; rewrite E; set_solver).
  assert (resultClosed s = true -> before ++ after = []) as Hc.
  { intros Hc. apply H4 in Hc. rewrite Hc in E. by destruct before. }
  assert (forall a, a ∈ before ++ after -> a ∈ answers) as Hr by (intros a Hin; apply H1; rewrite E; set_solver).
  destruct answer as [[[msg|] rtt] [e|]]; split; cbn; try done;
    try (intros m t [?|[= -> ->]%list_elem_of_singleton]%elem_of_app; eauto);
    intros e' [?|[= ->]%list_elem_of_singleton]%elem_of_app; eauto.
Qed.

Lemma race_steps_ok answers s s' : race_steps s s' -> race_ok answers s -> race_ok answers s'.
Proof.
  induction 1 as [|s1 s2 s3 _ IH Hst]; [done|]. intros Hs. specialize (IH Hs).
  destruct Hst as [before a after s E|before a after s E Hx|s E Ec|s Ec _|s].
  - by apply send_ok.
  - destruct IH as [H1 H2 H3 H4]. split; cbn; try done.
    + intros b Hb. apply H1. rewrite E. set_solver.
    + intros Hc. apply H4 in Hc. rewrite Hc in E. by destruct before.
  - destruct IH as [H1 H2 H3 H4]. split; cbn; try done. by intros a ?%not_elem_of_nil.
  - destruct IH as [H1 H2 H3 H4]. split; cbn; auto.
  - destruct IH as [H1 H2 H3 H4]. by split.
Qed.

Lemma start_race_ok answers : race_ok answers (start_race answers).
Proof. split; cbn; try done; intros; by apply not_elem_of_nil in H. Qed.

(** Sends of a list of answers, in their order. *)
Lemma race_send_all s : resultClosed s = false -> errorClosed s = false ->
  exists s', race_steps s s' /\ running s' = [] /\ resultClosed s' = false /\ errorClosed s' = false /\
    (forall x, x ∈ resultChan s -> x ∈ resultChan s').
Proof.
  remember (running s) as l eqn:E. revert s E; induction l as [|a l IH]; intros s E Hc He.
  { exists s. split_and!; [constructor|done..]. }
  destruct (IH (send a l s)) as (s' & Hs & Hr & Hc' & He' & Hres).
  { by destruct a as [[[]] []]. }
  { by destruct a as [[[]] []]. }
  { by destruct a as [[[]] []]. }
  exists s'. split_and!; [|done|done|done|].
  - assert (forall s1 s2 s3, race_step s1 s2 -> race_steps s2 s3 -> race_steps s1 s3) as Hfirst.
    { intros s1 s2 s3 H1 H2. induction H2; econstructor; eauto. constructor. }
    eapply Hfirst; [|exact Hs]. by apply (race_send [] a l).
  - intros x Hin. apply Hres. destruct a as [[[]] []]; cbn; [done|set_solver|done..].
Qed.

(** ** Latencies *)

Lemma latencies_from probe jobs (m : gmap string Z) s d : foldl (record_latency probe) m jobs !! s = Some d ->
  m !! s = Some d \/ exists i, (i, s) ∈ jobs /\ probe i s = Some d.
Proof.
  revert m; induction jobs as [|[i t] jobs IH]; intros m; cbn [foldl]; [by left|]. intros H.
  apply IH in H as [H|(j & Hj & Hp)]; [|right; exists j; split; [by right|done]].
  unfold record_latency in H. cbn in H. destruct (probe i t) as [d'|] eqn:E; [|by left].
  apply lookup_insert_Some in H as [[<- <-]|[_ H]]; [right; exists i; split; [by left|done]|by left].
Qed.

Lemma latency_kept probe jobs (m : gmap string Z) s : is_Some (m !! s) -> is_Some (foldl (record_latency probe) m jobs !! s).
Proof.
  revert m; induction jobs as [|[i t] jobs IH]; intros m Hs; [done|]. cbn [foldl]. apply IH. unfold record_latency. cbn.
  destruct (probe i t); [|done]. destruct (decide (s = t)) as [->|?]; [by rewrite lookup_insert_eq|by rewrite lookup_insert_ne].
Qed.

Lemma latency_measured probe jobs (m : gmap string Z) i s d : (i, s) ∈ jobs -> probe i s = Some d ->
  is_Some (foldl (record_latency probe) m jobs !! s).
Proof.
  intros Hin Hp. revert m; induction jobs as [|[j t] jobs IH]; intros m; [by apply not_elem_of_nil in Hin|].
  cbn [foldl]. apply elem_of_cons in Hin as [[= <- <-]|Hin]; [|by apply IH].
  apply latency_kept. unfold record_latency. cbn. rewrite Hp, lookup_insert_eq. by eexists.
Qed.

(** The servers chosen are some of the list, in its order and at most [max];
    each answered its probe within 50 ms; and unless there are [max] of them,
    none that always answers so fast is left out, in whatever order the probes
    finish. *)
Theorem selectBestServers_spec `{Scheduler} probe servers max :
  let best := selectBestServers (measureLatency probe servers) servers max in
  best `sublist_of` servers /\ length best <= max /\
  (forall s, s ∈ best -> exists i d, servers !! i = Some s /\ probe i s = Some d /\ (d < 50 * millisecond)%Z) /\
  (length best < max -> forall s, s ∈ servers ->
     (forall i, servers !! i = Some s -> exists d, probe i s = Some d /\ (d < 50 * millisecond)%Z) -> s ∈ best).
Proof.
  cbv zeta. unfold selectBestServers. set (latency := measureLatency probe servers).
  set (fast := fun s => match latency !! s with Some lat => bool_decide (lat < 50 * millisecond)%Z | None => false end).
  assert (forall s d, latency !! s = Some d -> exists i, servers !! i = Some s /\ probe i s = Some d) as Hfrom.
  { intros s d Hd. unfold latency, measureLatency in Hd. apply latencies_from in Hd as [Hd|(i & Hi & Hp)]; [by rewrite lookup_empty in Hd|].
    rewrite schedule_perm in Hi. apply elem_of_lookup_imap in Hi as (j & x & [= -> ->] & Hx). eauto. }
  assert (forall s, fast s = true -> exists i d, servers !! i = Some s /\ probe i s = Some d /\ (d < 50 * millisecond)%Z) as Hfast.
  { intros s. unfold fast. destruct (latency !! s) as [d|] eqn:Ed; [|done]. intros Hb. bool_facts.
    destruct (Hfrom s d Ed) as (i & ? & ?). eauto. }
  split_and!.
  - case_bool_decide; [etrans; [apply sublist_take|]|]; apply sublist_filter.
  - case_bool_decide; [rewrite length_take|]; lia.
  - intros s Hs. apply Hfast. case_bool_decide; [apply (subseteq_take _) in Hs|]; by apply list_elem_of_filter in Hs as [? _].
  - intros Hl s Hin Hall. case_bool_decide as Hm; [rewrite length_take in Hl; lia|].
    apply list_elem_of_filter. split; [|done]. apply list_elem_of_lookup in Hin as [i Hi].
    destruct (Hall i Hi) as (d & Hp & _).
    destruct (latency_measured probe (schedule (imap pair servers)) ∅ i s d) as [d' Hd']; [|done|].
    { rewrite schedule_perm. apply elem_of_lookup_imap. by exists i, s. }
    fold latency in Hd'. destruct (Hfrom s d' Hd') as (j & Hj & Hp'). destruct (Hall j Hj) as (d2 & Hd2 & Hlt).
    assert (fast s = true) as Hf; [|exact Hf]. unfold fast. unfold latency, measureLatency in *. rewrite Hd'. apply bool_decide_eq_true. congruence.
Qed.

(** C40: the reply is a server's: a message comes from a server that answered
    without an error, an error from one that failed or from the deadline.  The
    call can always return.  But a nil message may come without an error: as
    soon as all servers have answered the channels are closed, and a receive
    from a closed channel is ready, even when all the answers are good and
    wait in the other channel. *)
Theorem concurrentExchange_spec answers :
  (forall msg rtt e, concurrentExchange answers (Some msg, rtt, e) -> e = None /\ (Some msg, rtt, None) ∈ answers) /\
  (forall o rtt e, concurrentExchange answers (o, rtt, Some e) ->
     e = DeadlineExceeded \/ exists o t, (o, t, Some e) ∈ answers) /\
  (forall s, race_steps (start_race answers) s ->
     exists s' r, race_steps s s' /\ r ∈ selected s') /\
  (Forall (fun a => exists msg rtt, a = (Some msg, rtt, None)) answers -> concurrentExchange answers (None, 0%Z, None)).
Proof.
  split_and!.
  - intros msg rtt e (s & Hs & Hin). apply (race_steps_ok answers) in Hs; [|apply start_race_ok].
    unfold selected in Hin. destruct Hs as [_ H2 _ _].
    destruct (resultChan s) as [|[m t] l], (errorChan s), (resultClosed s), (errorClosed s), (expired_ s); cbn in Hin;
      set_unfold; naive_solver.
  - intros o rtt e (s & Hs & Hin). apply (race_steps_ok answers) in Hs; [|apply start_race_ok].
    unfold selected in Hin. destruct Hs as [_ _ H3 _].
    destruct (resultChan s) as [|[m t] l], (errorChan s), (resultClosed s), (errorClosed s), (expired_ s); cbn in Hin;
      set_unfold; naive_solver.
  - intros s _. eexists _, (None, 0%Z, Some DeadlineExceeded). split; [econstructor; [constructor|apply race_expire]|].
    unfold selected. cbn. rewrite !elem_of_app. right. right. by apply list_elem_of_singleton.
  - intros Hall. destruct (race_send_all (start_race answers)) as (s & Hs & Hr & Hc & He & _); [done..|].
    exists (mkRace [] (resultChan s) (errorChan s) true true (expired_ s)). split.
    { set (s1 := mkRace [] (resultChan s) (errorChan s) true (errorClosed s) (expired_ s)).
      eapply (race_more _ s1); [eapply race_more; [exact Hs|by apply race_close_result]|].
      by apply (race_close_error s1). }
    apply (race_steps_ok answers) in Hs; [|apply start_race_ok]. destruct (errorChan s) as [|e l] eqn:Ee.
    + unfold selected. cbn. rewrite !elem_of_app. right. left.
    + destruct (ok_errors _ _ Hs e) as (o & t & Hin); [rewrite Ee; left|].
      rewrite Forall_forall in Hall. by destruct (Hall _ Hin) as (? & ? & [=]).
Qed.
