(* ===== verification/FastResolver.v ===== *)
(** * fast_resolver.go: public resolvers asked at once, with a cache in front

    The servers' replies reach the loop of [concurrentResolve] in some order:
    [arrivals] are the events its [select] sees.  The cache is a
    [CacheInterface] over a state [W]; [prefetchCh] is the buffered channel of
    the worker. *)

From S2P Require Import Prelude GoErrors Dns DnssecConst Nameserver Zone FastPool.

Record FastResolverStats := mkFastStats { fast_Hits : Z; fast_Misses : Z; fast_Prefetch : Z }.

Record ResolveResult := mkResolved {
  rr_Response : option Msg;
  rr_Server : string;
  rr_Duration : Z;
  rr_Error : option error
}.

Definition failed_result (e : error) : ResolveResult := mkResolved None "" 0 (Some e).

(** The question is asked in class IN, whatever its own. *)
Definition exchangeWithFastTimeout `{MsgBuilder} (client : dnsClient) (question : Question_) (server : string) :
    option Msg * option error :=
  let msg := set_RecursionDesired true (msg_SetQuestion (Q_Name question) (Qtype question)) in
  let '(resp, _, err) := client msg server in
  (resp, err).

(** What a case of the [select] receives. *)
Inductive arrival : Type :=
| Arrived (r : ResolveResult)
| Done (e : error) (* ctx.Err() *).

Definition successful (r : ResolveResult) : bool :=
  bool_decide (rr_Error r = None) &&
  match rr_Response r with Some m => bool_decide (Rcode m = RcodeSuccess) | None => false end.

Definition fast_nameservers : list string := ["8.8.8.8:53"; "8.8.4.4:53"; "1.1.1.1:53"; "1.0.0.1:53"].

(** [getNameservers] *)
Definition getNameservers (domain : string) : list string := fast_nameservers.

(** The loop: one event per turn; without one the deadline comes. *)
Fixpoint first_success (turns : nat) (arrivals : list arrival) : ResolveResult :=
  match turns with
  | O => failed_result no_nameservers
  | S turns =>
      match arrivals with
      | Arrived r :: rest => if successful r then r else first_success turns rest
      | Done e :: _ => failed_result e
      | [] => failed_result DeadlineExceeded
      end
  end.

Definition concurrentResolve (question : Question_) (arrivals : list arrival) : ResolveResult :=
  let servers := getNameservers (Q_Name question) in
  if bool_decide (length servers = 0) then failed_result no_nameservers
  else first_success (length servers) arrivals.

(** [domain[len(domain)-len(tld):] == tld] for a longer name. *)
Definition has_tld (domain tld : string) : bool :=
  bool_decide (String.length tld < String.length domain) &&
  bool_decide (str_drop (String.length domain - String.length tld) domain = tld).

Definition popularTLDs : list string := ["com."; "net."; "org."; "io."].
Definition shouldPrefetch (domain : string) : bool := existsb (has_tld domain) popularTLDs.

Section fast.
Context {W : Type} (cache : CacheInterface W).

Record FastResolver := mkFast {
  fast_cache : W;
  prefetchCh : list string;
  fast_stats : FastResolverStats
}.

(** [NewFastResolver]: the channel holds 1000 names. *)
Definition prefetch_capacity : nat := 1000.
Definition NewFastResolver (w : W) : FastResolver := mkFast w [] (mkFastStats 0 0 0).

Definition count_hit (s : FastResolver) : FastResolver :=
  let st := fast_stats s in
  mkFast (fast_cache s) (prefetchCh s) (mkFastStats (uint64 (fast_Hits st + 1)) (fast_Misses st) (fast_Prefetch st)).
Definition count_miss (s : FastResolver) : FastResolver :=
  let st := fast_stats s in
  mkFast (fast_cache s) (prefetchCh s) (mkFastStats (fast_Hits st) (uint64 (fast_Misses st + 1)) (fast_Prefetch st)).

(** A send that does not wait. *)
Definition try_prefetch (domain : string) (s : FastResolver) : FastResolver :=
  if bool_decide (length (prefetchCh s) < prefetch_capacity)
  then mkFast (fast_cache s) (prefetchCh s ++ [domain]) (fast_stats s) else s.

Definition ExchangeWithOptimization (question : Question_) (arrivals : list arrival) (s : FastResolver) :
    option Msg * option error * FastResolver :=
  let '(cached, _, w) := Cache_Get cache "" question (fast_cache s) in
  let s := mkFast w (prefetchCh s) (fast_stats s) in
  match cached with
  | Some cached => (Some cached, None, count_hit s)
  | None =>
      let s := count_miss s in
      let result := concurrentResolve question arrivals in
      let s := match rr_Error result, rr_Response result with
        | None, Some msg =>
            let '(_, w) := Cache_Update cache "" question msg (fast_cache s) in
            let s := mkFast w (prefetchCh s) (fast_stats s) in
            if shouldPrefetch (Q_Name question) then try_prefetch (Q_Name question) s else s
        | _, _ => s
        end in
      (rr_Response result, rr_Error result, s)
  end.

Definition GetStats (s : FastResolver) : FastResolverStats := fast_stats s.

(** One turn of [prefetchWorker]; it waits while the channel is empty. *)
Definition prefetchWorker (arrivals : list arrival) (s : FastResolver) : FastResolver :=
  match prefetchCh s with
  | [] => s
  | domain :: rest =>
      let s := mkFast (fast_cache s) rest (fast_stats s) in
      let '(_, _, s) := ExchangeWithOptimization (mkQ domain TypeA ClassINET) arrivals s in
      let st := fast_stats s in
      mkFast (fast_cache s) (prefetchCh s) (mkFastStats (fast_Hits st) (fast_Misses st) (uint64 (fast_Prefetch st + 1)))
  end.

Definition popularDomains : list string :=
  ["google.com."; "facebook.com."; "youtube.com."; "twitter.com."; "instagram.com."].

(** [warmPopularDomains]: [arrivals] gives the events of each exchange. *)
Definition warmPopularDomains (arrivals : string -> list arrival) (s : FastResolver) : FastResolver :=
  foldl (fun s domain => snd (ExchangeWithOptimization (mkQ domain TypeA ClassINET) (arrivals domain) s))
    s popularDomains.
End fast.
Arguments FastResolver : clear implicits.

(** * Theory *)

(** The result is the first success among the replies that arrive before the
    deadline, and an error when there is none. *)
Lemma first_success_spec turns arrivals :
  let r := first_success turns arrivals in
  (successful r = true /\ exists before after, arrivals = before ++ Arrived r :: after /\ length before < turns /\
     Forall (fun a => exists x, a = Arrived x /\ successful x = false) before) \/
  (is_Some (rr_Error r) /\ rr_Response r = None).
Proof.
  revert arrivals; induction turns as [|turns IH]; intros arrivals; cbn; [right; split; [by eexists|done]|].
  destruct arrivals as [|[x|e] rest]; [right; split; [by eexists|done]| |right; split; [by eexists|done]].
  destruct (successful x) eqn:E.
  - left. split; [done|]. exists [], rest. split_and!; [done|cbn; lia|constructor].
  - destruct (IH rest) as [(Hs & before & after & Ea & Hl & Hb)|?]; [left|by right]. split; [done|].
    exists (Arrived x :: before), after. rewrite Ea at 1. split_and!; [done|cbn; lia|]. constructor; eauto.
Qed.

Lemma successful_inv r : successful r = true -> rr_Error r = None /\ exists m, rr_Response r = Some m /\ Rcode m = RcodeSuccess.
Proof. unfold successful. destruct (rr_Response r); intros H; bool_facts; [eauto|done]. Qed.

(** The suffix test has no dot: [telecom.] ends in [com.] too. *)
Example suffix_without_dot : shouldPrefetch "www.telecom." = true /\ shouldPrefetch "www.example." = false.
Proof. split; reflexivity. Qed.

Section fast_facts.
Context {W : Type} (cache : CacheInterface W).

(** An exchange returns either a message or an error, never both nor neither.
    A hit asks no server.  After a miss the message is the first good reply,
    it is in the cache, and a popular name is in the worker's channel, unless
    that is full; the channel never holds more than it can. *)
Theorem ExchangeWithOptimization_spec q arrivals (s : FastResolver W) m err s' :
  length (prefetchCh s) <= prefetch_capacity ->
  ExchangeWithOptimization cache q arrivals s = (m, err, s') ->
  length (prefetchCh s') <= prefetch_capacity /\
  match Cache_Get cache "" q (fast_cache s) with
  | (Some c, _, w) => m = Some c /\ err = None /\ fast_cache s' = w /\ prefetchCh s' = prefetchCh s
  | (None, _, w) =>
      match m with
      | Some msg => err = None /\ Rcode msg = RcodeSuccess /\
          (exists r before after, arrivals = before ++ Arrived r :: after /\ rr_Response r = Some msg /\
             Forall (fun a => exists x, a = Arrived x /\ successful x = false) before) /\
          fast_cache s' = snd (Cache_Update cache "" q msg w) /\
          prefetchCh s' = if shouldPrefetch (Q_Name q) && bool_decide (length (prefetchCh s) < prefetch_capacity)
                          then prefetchCh s ++ [Q_Name q] else prefetchCh s
      | None => is_Some err /\ fast_cache s' = w /\ prefetchCh s' = prefetchCh s
      end
  end.
Proof.
  intros Hl. unfold ExchangeWithOptimization. destruct (Cache_Get cache "" q (fast_cache s)) as [[[c|] e] w].
  { by intros [= <- <- <-]. }
  assert (concurrentResolve q arrivals = first_success 4 arrivals) as -> by done.
  destruct (first_success_spec 4 arrivals) as [(Hs & before & after & Ea & _ & Hb)|[[e' He] Hm]].
  - destruct (successful_inv _ Hs) as (He & msg & Hm & Hr). rewrite He, Hm.
    destruct (Cache_Update cache "" q msg _) as [ue w'] eqn:Eu. cbn in Eu. intros [= <- <- <-].
    split; [|split_and!; [done..| |by destruct (shouldPrefetch _); unfold try_prefetch; cbn; repeat case_bool_decide; rewrite ?Eu|]].
    + destruct (shouldPrefetch _); [|done]. unfold try_prefetch. cbn. case_bool_decide; cbn; [rewrite length_app; cbn; lia|done].
    + exists (first_success 4 arrivals), before, after. done.
    + destruct (shouldPrefetch _); [|done]. unfold try_prefetch. cbn. by case_bool_decide.
  - rewrite He, Hm. intros [= <- <- <-]. split; [done|]. split; [by eexists|done].
Qed.
End fast_facts.
