(* ===== verification/ConfigOptimized.v ===== *)
(** * config_optimized.go: the profiles of settings

    A profile overwrites some of the package variables of config.go, the class
    [ResolverConfig], and leaves the others. *)

From S2P Require Import Prelude Response ResolverState Budget.

Definition OptimizedMaxAllowedTTL : Z := 60 * 60 * 6.
Definition OptimizedMaxQueriesPerRequest : Z := 50.
Definition OptimizedDesireNumberOfNameserversPerZone : nat := 5.
Definition OptimizedLazyEnrichment : bool := true.
Definition OptimizedSuppressBogusResponseSections : bool := true.
Definition OptimizedRemoveAuthoritySectionForPositiveAnswers : bool := true.
Definition OptimizedRemoveAdditionalSectionForPositiveAnswers : bool := true.

(** They set every variable. *)
Definition ApplyOptimizedConfig (c : ResolverConfig) : ResolverConfig := {|
  MaxAllowedTTL := OptimizedMaxAllowedTTL;
  MaxQueriesPerRequest := OptimizedMaxQueriesPerRequest;
  DesireNumberOfNameserversPerZone := OptimizedDesireNumberOfNameserversPerZone;
  LazyEnrichment := OptimizedLazyEnrichment;
  SuppressBogusResponseSections := OptimizedSuppressBogusResponseSections;
  RemoveAuthoritySectionForPositiveAnswers := OptimizedRemoveAuthoritySectionForPositiveAnswers;
  RemoveAdditionalSectionForPositiveAnswers := OptimizedRemoveAdditionalSectionForPositiveAnswers
|}.

Definition ApplyUltraFastConfig (c : ResolverConfig) : ResolverConfig := {|
  MaxAllowedTTL := 60 * 60 * 2;
  MaxQueriesPerRequest := 25;
  DesireNumberOfNameserversPerZone := 3;
  LazyEnrichment := true;
  SuppressBogusResponseSections := SuppressBogusResponseSections (ResolverConfig := c);
  RemoveAuthoritySectionForPositiveAnswers := RemoveAuthoritySectionForPositiveAnswers (ResolverConfig := c);
  RemoveAdditionalSectionForPositiveAnswers := RemoveAdditionalSectionForPositiveAnswers (ResolverConfig := c)
|}.

Definition ApplyBalancedConfig (c : ResolverConfig) : ResolverConfig := {|
  MaxAllowedTTL := 60 * 60 * 12;
  MaxQueriesPerRequest := 75;
  DesireNumberOfNameserversPerZone := 4;
  LazyEnrichment := LazyEnrichment (ResolverConfig := c);
  SuppressBogusResponseSections := SuppressBogusResponseSections (ResolverConfig := c);
  RemoveAuthoritySectionForPositiveAnswers := RemoveAuthoritySectionForPositiveAnswers (ResolverConfig := c);
  RemoveAdditionalSectionForPositiveAnswers := RemoveAdditionalSectionForPositiveAnswers (ResolverConfig := c)
|}.

(** * Theory *)

(** What the termination of the resolver asks of the settings, and what
    protects the clients of a validating resolver. *)
Record sound_settings (c : ResolverConfig) : Prop := {
  set_bound : (0 <= MaxQueriesPerRequest)%Z;
  set_desire : (2 * Z.of_nat DesireNumberOfNameserversPerZone <= fanout)%Z;
  set_counter : (MaxQueriesPerRequest * (1 + fanout) + 1 < 2 ^ 32)%Z;
  set_ttl : (60 <= MaxAllowedTTL <= 172800)%Z;
  set_suppress : SuppressBogusResponseSections = true
}.

Inductive profile : Type := Optimized | UltraFast | Balanced.
Definition apply (p : profile) : ResolverConfig -> ResolverConfig :=
  match p with
  | Optimized => ApplyOptimizedConfig
  | UltraFast => ApplyUltraFastConfig
  | Balanced => ApplyBalancedConfig
  end.

Transparent answer_limit.
Lemma fanout_value : fanout = 65535%Z.
Proof. unfold fanout, answer_limit. lia. Qed.
Opaque answer_limit.

(** Whatever profiles a program applies to the default settings, in whatever
    order, the settings keep what [resolver_terminates] and the protection
    from bogus answers need: the counter has room even for the largest query
    budget, and the sections of bogus answers stay suppressed. *)
Theorem profiles_sound ps : sound_settings (foldl (fun c p => apply p c) default_resolver_config ps).
Proof.
  assert (sound_settings default_resolver_config) as H0 by (split; rewrite ?fanout_value; cbn; lia || done).
  revert H0. generalize default_resolver_config as c. induction ps as [|p ps IH]; intros c Hc; [done|]. apply IH.
  destruct Hc as [_ _ _ _ Hs]. destruct p; split; rewrite ?fanout_value; cbn; lia || done.
Qed.
