(* ===== verification/Ipv6.v ===== *)
(** * ipv6.go: the check for IPv6 connectivity

    [IPv6Available] never waits: the first call starts the check, which asks
    three servers one after the other in a goroutine.  The two atomic flags
    and the [sync.Once] are the state; each read or write is a step. *)

From S2P Require Import Prelude.

(** [probes] are the addresses the running check has still to try; [None]
    when no check runs. *)
Record ipv6_state := mkIpv6 {
  ipv6Check_done : bool;
  ipv6Answered : bool;
  ipv6Available : bool;
  probes : option (list string)
}.

Definition ipv6_start : ipv6_state := mkIpv6 false false false None.
Definition probe_addresses : list string := ["2001:7fd::1"; "2001:500:a8::e"; "2001:503:ba3e::2:30"].

(** [go ipv6Check.Do(UpdateIPv6Availability)] *)
Definition once_Do (s : ipv6_state) : ipv6_state :=
  if ipv6Check_done s then s
  else mkIpv6 true (ipv6Answered s) (ipv6Available s) (Some probe_addresses).

Definition IPv6Available (s : ipv6_state) : bool * ipv6_state :=
  if ipv6Answered s then (ipv6Available s, s)
  else if ipv6Available s then (true, s)
  else (false, once_Do s).

(** One step of [UpdateIPv6Availability]: the next address is tried, [ok] says
    that it replied; at the end the deferred store. *)
Definition probe_step (ok : bool) (s : ipv6_state) : ipv6_state :=
  match probes s with
  | None => s
  | Some [] => mkIpv6 (ipv6Check_done s) true (ipv6Available s) None
  | Some (_ :: rest) =>
      mkIpv6 (ipv6Check_done s) (ipv6Answered s) ok (if ok then Some [] else Some rest)
  end.

(** * Theory *)

Inductive ipv6_event : Type := Call | Probe (ok : bool).

Definition ipv6_step (acc : list bool * ipv6_state) (e : ipv6_event) : list bool * ipv6_state :=
  let '(answers, s) := acc in
  match e with
  | Call => let '(b, s) := IPv6Available s in (answers ++ [b], s)
  | Probe ok => (answers, probe_step ok s)
  end.

(** The answers of the calls along a run. *)
Definition ipv6_run (es : list ipv6_event) : list bool * ipv6_state := foldl ipv6_step ([], ipv6_start) es.

Record ipv6_ok (answers : list bool) (s : ipv6_state) : Prop := {
  (** once available, the check has only its end left *)
  v6_found : ipv6Available s = true -> probes s = Some [] \/ probes s = None /\ ipv6Answered s = true;
  v6_answered : ipv6Answered s = true -> probes s = None /\ ipv6Check_done s = true;
  v6_running : is_Some (probes s) -> ipv6Check_done s = true;
  v6_true : true ∈ answers -> ipv6Available s = true
}.

Lemma ipv6_step_ok answers s e answers' s' : ipv6_ok answers s -> ipv6_step (answers, s) e = (answers', s') ->
  ipv6_ok answers' s' /\ (ipv6Available s = true -> ipv6Available s' = true) /\
  exists l, answers' = answers ++ l /\ Forall (fun b => b = ipv6Available s) l.
Proof.
  intros [H1 H2 H3 H4]. destruct s as [d a v p]. destruct e as [|ok]; cbn in *.
  - unfold IPv6Available, once_Do. cbn. destruct a; [|destruct v; [|destruct d]]; cbn; intros [= <- <-]; cbn;
      (split; [split; cbn; try done; intros Hin; try (by apply elem_of_app in Hin as [?|?%list_elem_of_singleton]; auto)|]);
      (split; [done|]); eexists; (split; [done|by repeat constructor]).
  - intros [= <- <-]. unfold probe_step. cbn. destruct p as [[|x rest]|]; cbn.
    + split; [|split; [done|exists []; by rewrite app_nil_r]]. split; cbn; auto.
    + assert (v = false) as -> by (destruct v; [|done]; destruct (H1 eq_refl) as [[=]|[[=] _]]).
      split; [|split; [done|exists []; by rewrite app_nil_r]]. split; cbn.
      * intros ->. by left.
      * intros Ha. by destruct (H2 Ha) as [[=] _].
      * intros _. apply H3; by eexists.
      * intros Hin. by specialize (H4 Hin).
    + split; [done|]. split; [done|]. exists []. by rewrite app_nil_r.
Qed.

(** The answers only ever change from false to true: however calls and the
    steps of the check interleave, each call answers with the flag at that
    moment, no answer after a true one is false, at most one check runs, and
    when the check is over all later answers agree with its result. *)
Theorem ipv6_answers_settle es es' :
  let '(answers, s) := ipv6_run es in
  let '(answers', s') := ipv6_run (es ++ es') in
  exists l, answers' = answers ++ l /\
    (true ∈ answers -> Forall (fun b => b = true) l) /\
    (ipv6Answered s = true -> Forall (fun b => b = ipv6Available s) l /\ ipv6Available s' = ipv6Available s).
Proof.
  unfold ipv6_run. rewrite foldl_app.
  assert (forall es acc, ipv6_ok acc.1 acc.2 -> ipv6_ok (foldl ipv6_step acc es).1 (foldl ipv6_step acc es).2) as Hrun.
  { intros l. induction l as [|e l IH]; intros [a s] Ha; [done|]. apply IH.
    destruct (ipv6_step (a, s) e) as [a' s'] eqn:E. by eapply ipv6_step_ok. }
  specialize (Hrun es ([], ipv6_start)). destruct (foldl ipv6_step ([], ipv6_start) es) as [answers s].
  assert (ipv6_ok answers s) as Hs.
  { apply Hrun. split; cbn; try done; by intros ?%not_elem_of_nil. }
  clear Hrun es. revert answers s Hs. induction es' as [|e es IH]; intros answers s Hs; cbn [foldl].
  { exists []. rewrite app_nil_r. split_and!; [done|constructor|by split]. }
  destruct (ipv6_step (answers, s) e) as [a1 s1] eqn:E.
  destruct (ipv6_step_ok _ _ _ _ _ Hs E) as (Hs1 & Hv & l1 & -> & Hl1). specialize (IH _ _ Hs1).
  destruct (foldl ipv6_step (answers ++ l1, s1) es) as [a2 s2]. destruct IH as (l2 & -> & Ht & Ha).
  exists (l1 ++ l2). rewrite <- app_assoc. split; [done|]. split.
  - intros Hin. pose proof (v6_true _ _ Hs Hin) as Hav. rewrite Hav in Hl1. apply Forall_app. split; [done|].
    apply Ht. apply elem_of_app. by left.
  - intros Hans. destruct (v6_answered _ _ Hs Hans) as [Hp Hd].
    assert (ipv6Answered s1 = true /\ ipv6Available s1 = ipv6Available s) as [Ha1 Hv1].
    { destruct s as [d a v p]. cbn in *. subst. destruct e; cbn in E; by injection E as _ <-. }
    destruct (Ha Ha1) as [Hl2 Hv2]. rewrite Hv1 in *. split; [by apply Forall_app|done].
Qed.
