(* ===== verification/Trace.v ===== *)
(** * trace.go: the identifier and counter of a question's log lines *)

From S2P Require Import Prelude.

(** The library of UUIDs; the text of one has 36 characters. *)
Class UuidLib := {
  uuid : Type;
  uuid_String : uuid -> string
}.
Class UuidLaws (U : UuidLib) : Prop := uuid_length (u : uuid) : String.length (uuid_String u) = 36.

Section trace.
Context `{U : UuidLib}.

Record Trace := mkTrace { trace_Id : uuid; Start : Z; Iterations : Z }.

(** [id] is what [uuid.NewV7] returns; its error is not looked at. *)
Definition newTraceWithStart (id : uuid) (start : Z) : Trace := mkTrace id start 0.

Definition trace_ID (t : Trace) : string := uuid_String (trace_Id t).

Definition ShortID (t : Trace) : outcome string := go_slice_from (trace_ID t) 29.

(** [trace.Iterations.Add(1)] *)
Definition Iterations_Add (t : Trace) : Trace := mkTrace (trace_Id t) (Start t) (uint32 (Iterations t + 1)).
Definition Iteration (t : Trace) : Z := Iterations t.
End trace.

(** * Theory *)

(** The short identifier is the last seven characters: the slice never
    panics.  The counter is exact modulo 2^32. *)
Theorem trace_spec `{UuidLaws} id start n :
  let t := Nat.iter n Iterations_Add (newTraceWithStart id start) in
  (exists s, ShortID t = Ret s /\ String.length s = 7 /\ exists p, trace_ID t = p +:+ s) /\
  Iteration t = (Z.of_nat n mod 2 ^ 32)%Z.
Proof.
  intros t. assert (trace_Id t = id /\ Iteration t = (Z.of_nat n mod 2 ^ 32)%Z) as [Et Hi].
  { unfold t. induction n as [|n [IH1 IH2]]; [done|]. rewrite Nat.iter_succ. split; [done|].
    unfold Iteration in *. cbn [Iterations Iterations_Add]. rewrite IH2. unfold uint32. rewrite Zplus_mod_idemp_l. f_equal. lia. }
  split; [|done]. unfold ShortID, go_slice_from, trace_ID. rewrite Et, (uuid_length id).
  rewrite bool_decide_true by lia. eexists. split; [done|]. rewrite str_drop_length, (uuid_length id).
  split; [done|]. exists (String.substring 0 29 (uuid_String id)). generalize (uuid_String id).
  change (Z.to_nat 29) with 29. generalize 29. intros k. induction k as [|k IH]; intros [|c s]; cbn; try done.
  change (String c s = String c (String.substring 0 k s +:+ str_drop k s)). f_equal. apply IH.
Qed.
