(* ===== verification/Commands.v ===== *)
(** * The command-line programs

    cmd/main.go runs the server of server.go; cmd/optimized_server_main.go runs
    the resolver of fast_resolver.go behind a handler of its own.  Flags,
    signals and sockets are left out: an argument says what a flag is. *)

From S2P Require Import Prelude GoErrors Dns DnsRef DnssecConst Signatures Verify Authenticator Cache Response Nameserver Zones Zone Session ResolverState FastPool FastResolver ConfigOptimized Server.

(** ** cmd/main.go *)

Section main.
Context `{L : DnsLib} `{R : MapRange} `{Cfg : DnssecConfig} {zone P W : Type}.

(** DNSSEC on, no size for the cache. *)
Definition main_server (clocks : Verify.Zone -> Msg -> Clocks) (zs pm : zones zone) (w : W) : Server zone P W :=
  NewServerWithConfig clocks 0 true zs pm w.
End main.

(** ** cmd/optimized_server_main.go *)

(** The switch on the flag [-config]. *)
Definition configure (config : string) : ResolverConfig -> ResolverConfig :=
  if bool_decide (config = "ultrafast"%string) then ApplyUltraFastConfig
  else if bool_decide (config = "balanced"%string) then ApplyBalancedConfig
  else ApplyOptimizedConfig.

Section optimized.
Context `{L : DnsLib} `{SL : ServerLib} {W : Type}.

(** The package variable [Cache], which no code of the program sets. *)
Definition package_Cache : option (CacheInterface W) := None.

(** The cache of the resolver, by the flag [-cache]. *)
Definition main_cache (flag : bool) : option (CacheInterface W) := if flag then package_Cache else None.

(** The exchange of a resolver whose cache may be nil. *)
Definition fast_exchange (cache : option (CacheInterface W)) (question : Question_) (arrivals : list arrival)
    (s : FastResolver W) : outcome (option Msg * option error * FastResolver W) :=
  match cache with
  | None => Panic NilDereference (* r.cache.Get *)
  | Some cache => Ret (ExchangeWithOptimization cache question arrivals s)
  end.

(** The messages written, and the resolver afterwards. *)
Definition handleDNSRequest (cache : option (CacheInterface W)) (r : Msg) (arrivals : list arrival)
    (s : FastResolver W) : outcome (list Msg * FastResolver W) :=
  match Question r with
  | [] => Ret ([], s)
  | question :: _ =>
      '(response, err, s) ← fast_exchange cache question arrivals s;
      match (err : option error), (response : option Msg) with
      | Some _, _ => Ret ([dns_SetRcode r RcodeServerFailure], s)
      | None, None => Ret ([msg_SetReply r], s)
      | None, Some response => Ret ([response], s)
      end
  end.
End optimized.

(** * Theory *)

Section optimized_facts.
Context `{L : DnsLib} `{SL : ServerLib} {W : Type}.

(** As it is shipped the program stops at its first question, with the cache
    enabled or not: nothing ever sets the package's [Cache], and the handler's
    panic is not recovered. *)
Theorem optimized_server_crashes flag r arrivals (s : FastResolver W) : Question r <> [] ->
  handleDNSRequest (main_cache flag) r arrivals s = Panic NilDereference.
Proof. unfold handleDNSRequest. destruct (Question r); [done|]. destruct flag; reflexivity. Qed.

(** With a cache, which the program never sets, a question would get one
    reply: SERVFAIL made from the query when the exchange found nothing,
    otherwise the message of the cache or of the first good server as it is,
    whatever the id of the query. *)
Theorem optimized_reply cache r arrivals (s : FastResolver W) q qs : Question r = q :: qs ->
  exists m s', handleDNSRequest (Some cache) r arrivals s = Ret ([m], s') /\
    ((m = dns_SetRcode r RcodeServerFailure /\ fst (fst (Cache_Get cache "" q (fast_cache s))) = None /\
      rr_Response (concurrentResolve q arrivals) = None) \/
     ((fst (fst (Cache_Get cache "" q (fast_cache s))) = Some m \/
       exists x, Arrived x ∈ arrivals /\ rr_Response x = Some m /\ Rcode m = RcodeSuccess) /\
      forall r', Question r' = Question r -> handleDNSRequest (Some cache) r' arrivals s = Ret ([m], s'))).
Proof.
  intros Hq. destruct (ExchangeWithOptimization cache q arrivals s) as [[m err] s'] eqn:E.
  assert (forall m', m = Some m' -> err = None -> forall r', Question r' = Question r ->
    handleDNSRequest (Some cache) r' arrivals s = Ret ([m'], s')) as Hsame.
  { intros m' -> -> r' Hr. unfold handleDNSRequest. rewrite Hr, Hq. cbn. by rewrite E. }
  unfold ExchangeWithOptimization in E.
  destruct (Cache_Get cache "" q (fast_cache s)) as [[[c|] e] w] eqn:Ec; cbn [fst].
  { injection E as <- <- <-. eexists c, _. split; [by apply Hsame|]. right. split; [by left|]. auto. }
  assert (concurrentResolve q arrivals = first_success 4 arrivals) as Ef by done. rewrite Ef in *.
  destruct (first_success_spec 4 arrivals) as [(Hs & before & after & Ea & _)|[[e' He] Hm]].
  - destruct (successful_inv _ Hs) as (He & msg & Hm & Hr). rewrite He, Hm in E. injection E as <- <- Es.
    eexists msg, _. split; [by apply Hsame|]. right. split; [|auto].
    right. exists (first_success 4 arrivals). split; [|done]. rewrite Ea at 2. set_solver.
  - eexists _, s'. split; [|left; split; [reflexivity|done]]. unfold handleDNSRequest, fast_exchange, ExchangeWithOptimization.
    rewrite Hq, Ec. cbn [mbind outcome_bind]. rewrite Ef, He. rewrite He, Hm in E. injection E as <- <- <-. by rewrite ?He, ?Hm.
Qed.
End optimized_facts.

(** ** An execution *)

Module CommandsExample.
#[export] Existing Instance refLib.

#[export] Instance lib : ServerLib := {|
  msg_SetReply r := dns_SetRcode r RcodeSuccess;
  msg_IsEdns0 r := None
|}.

(** A cache that is always empty, and one server that answers under id 9. *)
Definition no_cache : CacheInterface unit := mkCache unit (fun _ _ w => (None, None, w)) (fun _ _ _ w => (None, w)).
Definition q : Question_ := mkQ "www.example." TypeA ClassINET.
Definition asked (id : Z) : Msg := mkMsg id false false false true false false false 0 [q] [] [] [].
Definition answer : Msg := dns_SetRcode (asked 9) RcodeSuccess.
Definition arrivals : list arrival := [Arrived (mkResolved (Some answer) "8.8.8.8:53" 5 None)].

(** The client that asked under id 7 would get an answer under id 9. *)
Example answered_under_another_id : exists s',
  handleDNSRequest (Some no_cache) (asked 7) arrivals (NewFastResolver tt) = Ret ([answer], s') /\ Id answer <> Id (asked 7).
Proof. eexists. split; [reflexivity|discriminate]. Qed.
End CommandsExample.
